(* ===== verification/_CoqProject ===== *)
-Q . S2P
Prelude.v
GoStrings.v
Paths.v
Domain.v
Machine.v
Policy.v
Repos.v
Gates.v
Daemon.v
Links.v
Workspace.v
WorkspaceFacts.v
Recovery.v
RunService.v
RunServiceFacts.v
Effects.v
Demo.v
RecoveryFacts.v
Dispatch.v
Lifecycle.v
Results.v
Integrity.v
System.v
