(* ===== verification/Prelude.v ===== *)
(** * Codencer: the orchestrator daemon, modelled and verified

    Codencer runs coding steps through agent adapters. Its daemon ([cmd/orchestratord] over
    [internal/]) keeps runs, phases, steps, attempts, gates and artifacts in a database, executes
    each step in a git worktree of its own, evaluates a policy on the outcome, pauses runs at
    gates for the operator, and recovers after a restart. This development is a shallow
    embedding of those services: one Rocq definition per Go function, with the errors, the
    early returns and the order of the calls of the code.

    ** The program and the files

    The services share one state, the record [Daemon] of [Daemon.v]: the database, the files
    below the daemon's directories and the registry of active executions. A method is a
    computation of the monad [M W] of this file: it threads the state [W] and a clock tick, and
    ends in [Ok], [Err], [Panic] or [Blocked]. The repositories and the gate service work for
    every [W] that contains a database, through the interface [Lens W DB].

    - this file: errors and outcomes, the environment, the monad with its rules ([respects] for
      what every outcome preserves, [wp] for what holds afterwards, [returns] for computations
      that neither panic nor wait for ever), tables as lists of rows with a key, and stable
      sorting. The hint database [go] holds the rules of each operation.
    - [GoStrings.v]: the functions of [strings], [strconv], [unicode/utf8] and [path/filepath] the
      code uses; [Paths.v]: what [Clean], [Join] and [Rel] preserve.
    - [Domain.v]: [internal/domain]. [Machine.v]: [internal/state/machine.go].
    - [Policy.v]: [policy_service.go], [policy_registry.go], [routing_service.go] and
      [state_reconcile.go] of [internal/service].
    - [Repos.v]: [internal/storage/sqlite], a module per repository.
    - [Gates.v]: [gate_service.go]. [Recovery.v]: [recovery_service.go]. [RunService.v]:
      [run_service.go].
    - [Daemon.v]: the state, the host, the interface of adapters, the calls of [os] on the files
      and their symbolic links, [internal/workspace/locks.go] and the execution registry of
      [run_service.go]. [Links.v]: what following the links of a path gives.
    - [Workspace.v]: [worktree.go], [config.go] and [provisioner.go] of [internal/workspace] and
      [internal/validation/runner.go].
    - [Demo.v]: a concrete host, adapter and database, for the examples.

    The theorems are in the files of the components ([Machine], [Policy], [Gates], [Recovery]) and
    in [WorkspaceFacts], [RunServiceFacts], [Effects], [Dispatch], [Lifecycle], [Results],
    [RecoveryFacts], [Integrity] and [System].

    ** What the theorems show

    - Executing a step. A dispatch is a sequence of the writes of [Effects.dispatch_write], a
      transition relation that says what the execution of a step may do to the shared state
      ([dispatch_refines]); hence it leaves every other run and step, and the executions of other
      runs, alone ([dispatch_confined]). It makes at most three attempts, numbered from one
      ([dispatch_attempts_bounded]). It returns, without panic and without waiting for ever
      ([dispatch_returns]); when it returns
      no error and nobody asked for an abort, its step is in a terminal state, waits for approval
      or needs manual attention ([dispatch_success_settles]); and its run is in the state derived from
      its steps after every success ([dispatch_success_consistent]).
    - The lifecycle of runs and steps: [StartRun_spec], [initializeStep_spec], [RetryStep_spec],
      [AbortRun_success_cancelled], [AbortRun_without_execution].
    - Gates and recovery: [gate_resolve_correct], [gate_resolve_once], [RecoverRun_settles],
      [RecoverRun_dry_run], [SweepStaleRuns_settles].
    - The decisions: [deriveRunState_spec], [Evaluate_spec], [BuildHeuristicChain_spec], and the
      table of step transitions ([step_sinks], [step_executions_bounded]).
    - Containment of files: what the content of an artifact is read from
      ([GetArtifactContent_contained]), what the provisioning of a worktree
      ([Provision_confined]) and the output of a validation ([validation_output_contained]) may
      write, and the workspace lock ([AcquireLock_exclusive]). What is captured from the report of
      git is, for each changed file, the text it prints after the status letters
      ([changed_files_fields]).
    - Storage: in every state the daemon can reach, over any sequence of operations, goroutines
      and restarts, the primary keys are unique and the references between tables hold
      ([reachable_sound]).
    - Limits of the code: a gate that is resolved by halves ([gate_resolve_not_atomic]), an
      execution no abort reaches ([second_execution_not_abortable]), changed files that are not
      recorded ([changed_files_not_recorded]), a dispatch that completes without an attempt
      ([cancelled_dispatch_completes]), worktrees of another root that are taken for the daemon's
      own ([in_workspace_root_spec]). Two more are examples on concrete data:
      [recovered_gate_never_unlocks] and [nested_link_replaces_file].

    ** The world outside

    The classes [Env] (clock, sleeping, random names, failures of the database and of the
    operating system, contexts done), [Host_] (git, shell commands, decoders, what the host says
    of a file), [Abort] (at which ticks another goroutine requests an abort) and [Schedule]
    (which event each [select] of the polling loop receives) stand for the code and the events
    outside the program; theorems quantify over them. Each observation advances the tick, so two
    observations may differ and any single call may fail. [reliable c] says that no call under
    the context [c] fails; it is assumed only where a theorem says so. The adapters are
    parameters, records of the functions of their Go interface. A command, a hook or a call to an
    adapter may change the files, fail, or never return: it gives a [reply], of which [None]
    leaves the caller [Blocked].

    ** Bounds and fuel

    The attempt loop runs at most [maxAttempts] = 3 times, as in the code. The loop that waits
    for a cancelled adapter polls every 200 milliseconds for five seconds; its fuel is
    [wait_fuel] = 27, one more poll than can start in that time when a sleep lasts at least as
    long as it was asked to ([clock_advances]), and running out of it is [Blocked], which
    [dispatch_returns] excludes. The polling loop consumes the events of its schedule, and is [Blocked] when the
    schedule ends first; [dispatch_returns] asks for schedules that end the loop, as the
    timeout of a step does. The other loops are over lists.

    ** What is not modelled

    Goroutines do not interleave freely. One that is started is kept in [d_goroutines] until it
    runs, at any later moment and in any order; from then on the execution of a step is one
    computation, and what others do to it is an abort or the end of its context. The mutex of
    the registry, the logs and the printed metrics are left out. The files are a map from paths
    to contents and symbolic links, and a directory is there when a file is in it: empty
    directories, permissions and hard links are not represented. The links are followed by the
    calls whose paths come from outside (the provisioner and the artifacts); the daemon names its
    own files by the places they are at. A text column of JSON holds the value with its invalid
    UTF-8 replaced ([json_copy]), and not its bytes. Foreign keys are not enforced, as in the
    daemon's connection. Case mapping is that of ASCII. The relay, connector,
    gateway and cloud services, the HTTP and MCP front ends, the instance and Antigravity
    services, the task input decoder and the commands are not modelled: they are other programs,
    or translate requests and files into the calls of the services modelled here. *)
From Stdlib Require Export ZArith String List Permutation Sorted.
From stdpp Require Export base strings pretty sorting numbers list.
Export ListNotations.
#[global] Open Scope list_scope.

Declare Scope go_scope.
Delimit Scope go_scope with go.

(** ** Errors and outcomes

    A Go function that returns [(T, error)] is a computation whose outcome is [Ok] or [Err].
    The two other outcomes are those of a goroutine: [Panic] (nil dereference, index out of
    range) and [Blocked] (still waiting when the given schedule of events is exhausted). *)

(** The sentinels the code compares errors with through [errors.Is]. *)
Inductive sentinel :=
  | ErrConflict
  | ErrInvalidTaskSpec
  | ErrArtifactAccessDenied
  | ErrInvalidRunTransition
  | ErrInvalidStepTransition
  | ErrUniqueConstraint.

#[export] Instance sentinel_eq_dec : EqDecision sentinel.
Proof. solve_decision. Defined.

(** A Go error: the sentinel it wraps, if any, and its text. *)
Record error := Error { err_is : option sentinel; err_text : string }.

#[export] Instance error_eq_dec : EqDecision error.
Proof. solve_decision. Defined.

(** [fmt.Errorf] without [%w], with a sentinel under [%w], and around another error. *)
Definition errorf (text : string) : error := Error None text.
Definition errorw (s : sentinel) (text : string) : error := Error (Some s) text.
Definition wrapf (prefix : string) (e : error) : error :=
  Error (err_is e) (prefix +:+ ": " +:+ err_text e).

(** [errors.Is]. *)
Definition errors_Is (e : error) (s : sentinel) : bool := bool_decide (err_is e = Some s).

Inductive outcome (A : Type) : Type :=
  | Ok (a : A)
  | Err (e : error)
  | Panic (why : string)
  | Blocked.
Arguments Ok {A} a.
Arguments Err {A} e.
Arguments Panic {A} why.
Arguments Blocked {A}.

(** The outcome is that of a finished call: a value or an error, no crash and no wait. *)
Definition returned {A} (o : outcome A) : Prop :=
  match o with Ok _ | Err _ => True | Panic _ | Blocked => False end.

(** ** The environment

    What the code observes of the world outside its own state: readings of the clock, random
    identifiers, failures of database and operating-system calls, and cancellation of the
    context a call is given. Each observation is numbered by the state's counter [tick], so
    an environment is an arbitrary schedule of outcomes. A goroutine that sleeps for [d] from
    moment [n] on goes on at moment [wake n d]. *)

(** The contexts the code passes around: [context.Background()], the context of the HTTP
    request, the context of a dispatched execution; [Host] stands for operating-system calls
    that take no context. *)
Inductive ctx := Background | Request | Dispatch | Host.

Class Env := {
  clock : nat → Z;
  random : nat → string;
  fault : ctx → nat → option string;
  cancelled : ctx → nat → bool;
  wake : nat → Z → nat;
}.

(** Calls made under context [c] never fail. *)
Definition reliable `{Env} (c : ctx) : Prop := ∀ n, fault c n = None.

(** What Go documents of its clock, which orders times by their monotonic part, and of
    [time.Sleep]: it pauses the goroutine for at least the duration it is given. *)
Record clock_advances `{Env} : Prop := {
  clock_monotone n m : n ≤ m → (clock n <= clock m)%Z;
  sleep_later n d : n ≤ wake n d;
  sleep_lasts n d : (clock n + d <= clock (wake n d))%Z;
}.

(** An environment in which every call succeeds, nothing is cancelled and time passes by one
    second at each reading: the one the examples are run in. *)
Definition quiet_env : Env := {|
  clock := λ n, (1000000000 * Z.of_nat (S n))%Z;
  random := λ n, pretty n;
  fault := λ _ _, None;
  cancelled := λ _ _, false;
  wake := λ n d, n + S (Z.to_nat (d / 1000000000));
|}.

Lemma quiet_reliable c : reliable (H:=quiet_env) c.
Proof. intros n. reflexivity. Qed.

(** The zero [time.Time]; times are nanoseconds otherwise. *)
Definition zero_time : Z := 0.
Definition time_IsZero (t : Z) : bool := bool_decide (t = zero_time).
Definition Second : Z := 1000000000.
Definition Millisecond : Z := 1000000.

(** ** The monad: state of type [W], outcomes, and the observation counter *)

Record st (W : Type) := St { store : W; tick : nat }.
Arguments St {W} store tick.
Arguments store {W} s.
Arguments tick {W} s.

Definition M (W A : Type) : Type := st W → outcome A * st W.

Section Monad.
Context {W : Type}.

Definition ret {A} (a : A) : M W A := λ s, (Ok a, s).
Definition fail {A} (e : error) : M W A := λ s, (Err e, s).
Definition panic {A} (why : string) : M W A := λ s, (Panic why, s).
Definition blocked {A} : M W A := λ s, (Blocked, s).

(** A pure function that can fail or panic. *)
Definition lift {A} (o : outcome A) : M W A := λ s, (o, s).

Definition bind {A B} (m : M W A) (f : A → M W B) : M W B := λ s,
  let '(o, s') := m s in
  match o with
  | Ok a => f a s'
  | Err e => (Err e, s')
  | Panic p => (Panic p, s')
  | Blocked => (Blocked, s')
  end.

(** [x, err := m; ...] with [err] inspected by the caller. *)
Definition try {A} (m : M W A) : M W (A + error) := λ s,
  let '(o, s') := m s in
  match o with
  | Ok a => (Ok (inl a), s')
  | Err e => (Ok (inr e), s')
  | Panic p => (Panic p, s')
  | Blocked => (Blocked, s')
  end.

(** [_ = m]. *)
Definition ignore {A} (m : M W A) : M W unit := bind (try m) (λ _, ret tt).

(** [defer fin()] around [m]: [fin] runs whether [m] returns, fails or panics. *)
Definition deferred {A} (fin : M W unit) (m : M W A) : M W A := λ s,
  let '(o, s1) := m s in
  match o with
  | Blocked => (Blocked, s1)
  | _ => (o, (fin s1).2)
  end.

Definition gets {A} (f : W → A) : M W A := λ s, (Ok (f (store s)), s).
Definition modify (f : W → W) : M W unit := λ s, (Ok tt, St (f (store s)) (tick s)).

(** [for _, x := range l { b = body(b, x) }], left to right. *)
Fixpoint loop {A B} (body : B → A → M W B) (b : B) (l : list A) : M W B :=
  match l with
  | [] => ret b
  | x :: l' => bind (body b x) (λ b', loop body b' l')
  end.

Context `{Env}.

(** [time.Now()]. *)
Definition now : M W Z := λ s, (Ok (clock (tick s)), St (store s) (S (tick s))).
Definition fresh (prefix sep : string) : M W string := λ s,
  (Ok (prefix +:+ sep +:+ random (tick s)), St (store s) (S (tick s))).
(** [time.Sleep(d)]. *)
Definition Sleep (d : Z) : M W unit := λ s, (Ok tt, St (store s) (wake (tick s) d)).
(** A question to the world outside, answered anew at each moment. *)
Definition observe {A} (f : nat → A) : M W A := λ s,
  (Ok (f (tick s)), St (store s) (S (tick s))).
(** [ctx.Err() != nil]. *)
Definition ctx_Err (c : ctx) : M W bool := λ s,
  (Ok (cancelled c (tick s)), St (store s) (S (tick s))).

(** A call that reads and writes the store, under context [c]: it may fail, with no effect. *)
Definition exec {A} (c : ctx) (f : W → outcome A * W) : M W A := λ s,
  match fault c (tick s) with
  | Some text => (Err (errorf text), St (store s) (S (tick s)))
  | None => let '(o, w) := f (store s) in (o, St w (S (tick s)))
  end.

(** A call that only reads the store. *)
Definition query {A} (c : ctx) (f : W → outcome A) : M W A :=
  exec c (λ w, (f w, w)).

(** An operating-system call whose only outcome of interest is its error. *)
Definition syscall : M W unit := query Host (λ _, Ok tt).
End Monad.

Notation "x <- m ;; k" := (bind m (λ x, k))
  (at level 100, m at next level, right associativity) : go_scope.
Notation "'let*' p := m ;; k" := (bind m (λ x, match x with p => k end))
  (at level 100, p pattern, m at next level, right associativity) : go_scope.
Notation "m ;; k" := (bind m (λ _, k))
  (at level 100, right associativity) : go_scope.
Open Scope go_scope.

(** ** Running a computation under a reliable context *)

Lemma bind_Ok {W A B} (m : M W A) (f : A → M W B) s a s' :
  m s = (Ok a, s') → bind m f s = f a s'.
Proof. unfold bind. by intros ->. Qed.

Lemma bind_Err {W A B} (m : M W A) (f : A → M W B) s e s' :
  m s = (Err e, s') → bind m f s = (Err e, s').
Proof. unfold bind. by intros ->. Qed.

Section Reliable.
Context {W : Type} `{Env} (c : ctx) (Hc : reliable c).

Lemma exec_reliable {A} (f : W → outcome A * W) s :
  exec c f s = ((f (store s)).1, St (f (store s)).2 (S (tick s))).
Proof. unfold exec. rewrite Hc. by destruct (f (store s)). Qed.

Lemma query_reliable {A} (f : W → outcome A) s :
  query c f s = (f (store s), St (store s) (S (tick s))).
Proof. unfold query. by rewrite exec_reliable. Qed.
End Reliable.

(** ** Relational specifications

    [respects R m]: whatever the environment does, the store before and after [m] are
    related by [R]. With [R w w' := I w → I w'] this is preservation of an invariant, and
    with an equality of projections it is a frame condition. *)

Definition respects {W A} (R : W → W → Prop) (m : M W A) : Prop :=
  ∀ s, R (store s) (store (m s).2).

Section Respects.
Context {W : Type} (R : W → W → Prop) `{HR : !PreOrder R}.

Lemma respects_ret {A} (a : A) : respects R (ret a).
Proof. intros s. simpl. reflexivity. Qed.
Lemma respects_fail {A} e : respects R (fail (A:=A) e).
Proof. intros s. simpl. reflexivity. Qed.
Lemma respects_panic {A} p : respects R (panic (A:=A) p).
Proof. intros s. simpl. reflexivity. Qed.
Lemma respects_blocked {A} : respects R (blocked (A:=A)).
Proof. intros s. simpl. reflexivity. Qed.

Lemma respects_lift {A} (o : outcome A) : respects R (lift o).
Proof. intros s. simpl. reflexivity. Qed.

Lemma respects_bind {A B} (m : M W A) (f : A → M W B) :
  respects R m → (∀ a, respects R (f a)) → respects R (bind m f).
Proof.
  intros Hm Hf s. unfold bind. specialize (Hm s).
  destruct (m s) as [[a|e|p|] s']; simpl in *; try done.
  etrans; [done|]. apply Hf.
Qed.

Lemma respects_try {A} (m : M W A) : respects R m → respects R (try m).
Proof.
  intros Hm s. unfold try. specialize (Hm s).
  by destruct (m s) as [[a|e|p|] s'].
Qed.

Lemma respects_ignore {A} (m : M W A) : respects R m → respects R (ignore m).
Proof.
  intros Hm. apply respects_bind; [by apply respects_try|]. intros a. apply respects_ret.
Qed.

Lemma respects_deferred {A} fin (m : M W A) :
  respects R m → respects R fin → respects R (deferred fin m).
Proof.
  intros Hm Hf s. unfold deferred. specialize (Hm s).
  destruct (m s) as [[a|e|p|] s']; simpl in *; try done; (etrans; [done|apply Hf]).
Qed.

Lemma respects_gets {A} (f : W → A) : respects R (gets f).
Proof. intros s. simpl. reflexivity. Qed.

Lemma respects_modify f : (∀ w, R w (f w)) → respects R (modify f).
Proof. intros Hf s. apply Hf. Qed.

Lemma respects_loop_in {A B} (body : B → A → M W B) l :
  (∀ b x, x ∈ l → respects R (body b x)) → ∀ b, respects R (loop body b l).
Proof.
  induction l as [|x l IH]; intros Hb b; simpl.
  - apply respects_ret.
  - apply respects_bind; [apply Hb; by left|]. intros b'. apply IH. intros ???. apply Hb. by right.
Qed.

Lemma respects_loop {A B} (body : B → A → M W B) l :
  (∀ b x, respects R (body b x)) → ∀ b, respects R (loop body b l).
Proof. intros Hb. apply respects_loop_in. auto. Qed.

Context `{Env}.

Lemma respects_now : respects R now.
Proof. intros s. simpl. reflexivity. Qed.
Lemma respects_fresh p q : respects R (fresh p q).
Proof. intros s. simpl. reflexivity. Qed.
Lemma respects_Sleep d : respects R (Sleep d).
Proof. intros s. simpl. reflexivity. Qed.
Lemma respects_observe {A} (f : nat → A) : respects R (observe f).
Proof. intros s. simpl. reflexivity. Qed.
Lemma respects_ctx_Err c : respects R (ctx_Err c).
Proof. intros s. simpl. reflexivity. Qed.

Lemma respects_exec {A} c (f : W → outcome A * W) :
  (∀ w, R w (f w).2) → respects R (exec c f).
Proof.
  intros Hf s. unfold exec. destruct (fault c (tick s)); simpl; [reflexivity|].
  specialize (Hf (store s)). by destruct (f (store s)).
Qed.

Lemma respects_query {A} c (f : W → outcome A) : respects R (query c f).
Proof. apply respects_exec. intros w. simpl. reflexivity. Qed.

Lemma respects_syscall : respects R syscall.
Proof. apply respects_query. Qed.
End Respects.

Create HintDb go.

(** ** Weakest preconditions

    [wp m Q s]: run from [s], [m] ends with an outcome and a state that satisfy [Q]. The
    rules below run a computation one call at a time; under a context that is not known to be
    reliable, a call also has to be considered failing. *)

Definition wp {W A} (m : M W A) (Q : outcome A → st W → Prop) (s : st W) : Prop :=
  Q (m s).1 (m s).2.

(** The state after an observation that leaves the store alone. *)
Definition tock {W} (s : st W) : st W := St (store s) (S (tick s)).

(** The postcondition of the first part of a sequence. *)
Definition then_ {W A B} (f : A → M W B) (Q : outcome B → st W → Prop)
    (o : outcome A) (s : st W) : Prop :=
  match o with
  | Ok a => wp (f a) Q s
  | Err e => Q (Err e) s
  | Panic p => Q (Panic p) s
  | Blocked => Q Blocked s
  end.

Section WP.
Context {W : Type} `{Env}.
Implicit Types s : st W.

Lemma wp_bind {A B} (m : M W A) (f : A → M W B) Q s :
  wp m (then_ f Q) s → wp (bind m f) Q s.
Proof. unfold wp, bind. by destruct (m s) as [[]]. Qed.

Lemma wp_mono {A} (m : M W A) (P Q : outcome A → st W → Prop) s :
  wp m P s → (∀ o s', P o s' → Q o s') → wp m Q s.
Proof. unfold wp. auto. Qed.

Lemma wp_ret {A} (a : A) Q s : Q (Ok a) s → wp (ret a) Q s.
Proof. done. Qed.
Lemma wp_lift {A} (o : outcome A) (Q : outcome A → _ → Prop) s : Q o s → wp (lift o) Q s.
Proof. done. Qed.
Lemma wp_fail {A} e (Q : outcome A → _ → Prop) s : Q (Err e) s → wp (fail e) Q s.
Proof. done. Qed.
Lemma wp_panic {A} p (Q : outcome A → _ → Prop) s : Q (Panic p) s → wp (panic p) Q s.
Proof. done. Qed.
Lemma wp_blocked {A} (Q : outcome A → _ → Prop) s : Q Blocked s → wp blocked Q s.
Proof. done. Qed.

Lemma wp_try {A} (m : M W A) Q s :
  wp m (λ o s', match o with
                | Ok a => Q (Ok (inl a)) s'
                | Err e => Q (Ok (inr e)) s'
                | Panic p => Q (Panic p) s'
                | Blocked => Q Blocked s'
                end) s → wp (try m) Q s.
Proof. unfold wp, try. by destruct (m s) as [[]]. Qed.

Lemma wp_ignore {A} (m : M W A) Q s :
  wp m (λ o s', match o with
                | Ok _ | Err _ => Q (Ok tt) s'
                | Panic p => Q (Panic p) s'
                | Blocked => Q Blocked s'
                end) s → wp (ignore m) Q s.
Proof. unfold wp, ignore, bind, try. by destruct (m s) as [[]]. Qed.

Lemma wp_deferred {A} fin (m : M W A) Q s :
  wp m (λ o s', match o with
                | Blocked => Q Blocked s'
                | _ => wp fin (λ _ s'', Q o s'') s'
                end) s → wp (deferred fin m) Q s.
Proof. unfold wp, deferred. by destruct (m s) as [[]]. Qed.

Lemma wp_gets {A} (f : W → A) Q s : Q (Ok (f (store s))) s → wp (gets f) Q s.
Proof. done. Qed.
Lemma wp_modify f Q s : Q (Ok tt) (St (f (store s)) (tick s)) → wp (modify f) Q s.
Proof. done. Qed.
Lemma wp_now Q s : Q (Ok (clock (tick s))) (tock s) → wp now Q s.
Proof. done. Qed.
Lemma wp_Sleep d Q s : Q (Ok tt) (St (store s) (wake (tick s) d)) → wp (Sleep d) Q s.
Proof. done. Qed.
Lemma wp_observe {A} (f : nat → A) Q s : Q (Ok (f (tick s))) (tock s) → wp (observe f) Q s.
Proof. done. Qed.
Lemma wp_ctx_Err c Q s :
  Q (Ok (cancelled c (tick s))) (tock s) → wp (ctx_Err c) Q s.
Proof. done. Qed.

Lemma wp_exec {A} c (f : W → outcome A * W) Q s :
  (∀ text, fault c (tick s) = Some text →
     Q (Err (errorf text)) (St (store s) (S (tick s)))) →
  (fault c (tick s) = None → Q (f (store s)).1 (St (f (store s)).2 (S (tick s)))) →
  wp (exec c f) Q s.
Proof.
  unfold wp, exec. intros Hf Hn. destruct (fault c (tick s)); [by apply Hf|].
  specialize (Hn eq_refl). by destruct (f (store s)).
Qed.

Lemma wp_query {A} c (f : W → outcome A) Q s :
  (∀ text, fault c (tick s) = Some text →
     Q (Err (errorf text)) (St (store s) (S (tick s)))) →
  (fault c (tick s) = None → Q (f (store s)) (St (store s) (S (tick s)))) →
  wp (query c f) Q s.
Proof. intros Hf Hn. unfold query. by apply wp_exec. Qed.

Lemma wp_loop {A B} (body : B → A → M W B) (I : B → list A → st W → Prop) Q l :
  (∀ b x l' s, I b (x :: l') s →
     wp (body b x) (λ o s', match o with
                            | Ok b' => I b' l' s'
                            | Err e => Q (Err e) s'
                            | Panic p => Q (Panic p) s'
                            | Blocked => Q Blocked s'
                            end) s) →
  (∀ b s, I b [] s → Q (Ok b) s) →
  ∀ b s, I b l s → wp (loop body b l) Q s.
Proof.
  intros Hstep Hend. induction l as [|x l IH]; intros b s Hi; simpl; [by apply Hend|].
  apply wp_bind. eapply wp_mono; [by apply Hstep|].
  intros [b'|e|p|] s' Ho; simpl in *; auto.
Qed.
End WP.

(** ** Record update

    Go assigns to struct fields; [r <| f := v |>] is [r] with field [f] set to [v]. A record
    declares its eta expansion, from which the update of each field is derived by abstracting
    the projection. *)

Class Eta (R : Type) := eta_expand : R → R.
Class Update {R T : Type} (proj : R → T) := update_field : (T → T) → R → R.
#[global] Arguments update_field {R T} proj {Update} f r /.

Ltac derive_update :=
  match goal with
  | |- @Update ?R _ ?proj =>
    let e := constr:(_ : Eta R) in
    let e := eval hnf in e in
    match eval pattern proj in e with
    | ?abstracted _ => exact (λ f r, abstracted (λ r', f (proj r')) r)
    end
  end.
#[export] Hint Extern 1 (Update _) => derive_update : typeclass_instances.

Notation "r <| p := v |>" := (update_field p (λ _, v) r)
  (at level 1, left associativity, p at level 200, v at level 200,
   format "r  <|  p  :=  v  |>") : go_scope.

(** ** Components inside a larger state

    [Lens W S]: the state [W] of a process contains the state [S] of one of its components.
    A component's operations are written against this interface and run in every process
    that contains it. *)

Class Lens (W S : Type) := {
  view : W → S;
  put : S → W → W;
  view_put : ∀ s w, view (put s w) = s;
  put_view : ∀ w, put (view w) w = w;
  put_put : ∀ s s' w, put s (put s' w) = put s w;
}.

#[export] Instance Lens_id {W} : Lens W W.
Proof. refine {| view := λ w, w; put := λ w _, w |}; reflexivity. Defined.

(** Statements of a component run under the context [c] of the caller. *)
Definition exec_in `{Env} {W S A} `{Lens W S} (c : ctx) (f : S → outcome A * S) : M W A :=
  exec c (λ w, let '(o, s) := f (view w) in (o, put s w)).

Definition query_in `{Env} {W S A} `{Lens W S} (c : ctx) (f : S → outcome A) : M W A :=
  query c (λ w, f (view w)).

(** [if err != nil { return fmt.Errorf(prefix + ": %w", err) }]. *)
Definition wrapping {W A} (prefix : string) (m : M W A) : M W A := λ s,
  let '(o, s') := m s in
  match o with
  | Err e => (Err (wrapf prefix e), s')
  | _ => (o, s')
  end.

Lemma respects_wrapping {W A} (R : W → W → Prop) p (m : M W A) :
  respects R m → respects R (wrapping p m).
Proof. intros Hm s. specialize (Hm s). unfold wrapping. by destruct (m s) as [[]]. Qed.

Section InLens.
Context {W S : Type} `{Env} `{Lens W S} (c : ctx).

Lemma respects_exec_in {A} (R : W → W → Prop) (f : S → outcome A * S) :
  PreOrder R → (∀ w, R w (put (f (view w)).2 w)) → respects R (exec_in c f).
Proof.
  intros HR Hf. apply respects_exec; [done|]. intros w. specialize (Hf w).
  by destruct (f (view w)).
Qed.

Lemma respects_query_in {A} (R : W → W → Prop) (f : S → outcome A) :
  PreOrder R → respects R (query_in c f).
Proof. intros HR. by apply respects_query. Qed.

Lemma wp_exec_in {A} (f : S → outcome A * S) Q s :
  (∀ text, fault c (tick s) = Some text →
     Q (Err (errorf text)) (St (store s) (Datatypes.S (tick s)))) →
  (fault c (tick s) = None →
     Q (f (view (store s))).1
       (St (put (f (view (store s))).2 (store s)) (Datatypes.S (tick s)))) →
  wp (exec_in c f) Q s.
Proof.
  intros Hf Hn. apply wp_exec; [done|]. intros Hfn. specialize (Hn Hfn).
  by destruct (f (view (store s))).
Qed.

Lemma wp_query_in {A} (f : S → outcome A) Q s :
  (∀ text, fault c (tick s) = Some text →
     Q (Err (errorf text)) (St (store s) (Datatypes.S (tick s)))) →
  (fault c (tick s) = None → Q (f (view (store s))) (St (store s) (Datatypes.S (tick s)))) →
  wp (query_in c f) Q s.
Proof. intros Hf Hn. by apply wp_query. Qed.

Lemma wp_wrapping {A} prefix (m : M W A) Q s :
  wp m (λ o s', match o with Err e => Q (Err (wrapf prefix e)) s' | _ => Q o s' end) s →
  wp (wrapping prefix m) Q s.
Proof. unfold wp, wrapping. by destruct (m s) as [[]]. Qed.
End InLens.

(** Walk through a computation, leaving one goal per write to the store. *)
Ltac respects_step :=
  lazymatch goal with
  | |- respects ?R (bind _ _) => refine (respects_bind R _ _ _ _); [| intros ?]
  | |- respects ?R (try _) => refine (respects_try R _ _)
  | |- respects ?R (ignore _) => refine (respects_ignore R _ _)
  | |- respects ?R (wrapping _ _) => refine (respects_wrapping R _ _ _)
  | |- respects ?R (deferred _ _) => refine (respects_deferred R _ _ _ _)
  | |- respects ?R (loop _ _ _) => refine (respects_loop R _ _ _ _); intros ? ?
  | |- respects ?R (query _ _) => refine (respects_query R _ _)
  | |- respects ?R (query_in _ _) => refine (respects_query_in _ R _ _)
  | |- respects ?R (lift _) => refine (respects_lift R _)
  | |- respects ?R (ret _) => refine (respects_ret R _)
  | |- respects ?R (fail _) => refine (respects_fail R _)
  | |- respects ?R (panic _) => refine (respects_panic R _)
  | |- respects ?R blocked => refine (respects_blocked R)
  | |- respects ?R (gets _) => refine (respects_gets R _)
  | |- respects ?R now => refine (respects_now R)
  | |- respects ?R (fresh _ _) => refine (respects_fresh R _ _)
  | |- respects ?R (Sleep _) => refine (respects_Sleep R _)
  | |- respects ?R (observe _) => refine (respects_observe R _)
  | |- respects ?R (ctx_Err _) => refine (respects_ctx_Err R _)
  | |- respects ?R syscall => refine (respects_syscall R)
  | |- respects _ (let '_ := ?x in _) => destruct x
  | |- respects _ (match ?x with _ => _ end) => destruct x
  | |- respects _ _ => solve [auto with go nocore typeclass_instances]
  end.
Ltac respects_solve := intros; repeat respects_step.

(** ** What success guarantees

    [ensures P m]: when [m] succeeds, whatever the environment did, its value and the store
    satisfy [P]. Only the last call that can succeed has to establish it. *)

Definition ensures {W A} (P : A → W → Prop) (m : M W A) : Prop :=
  ∀ s a s', m s = (Ok a, s') → P a (store s').

Section Ensures.
Context {W : Type}.

Lemma ensures_bind {A B} (P : B → W → Prop) (m : M W A) (f : A → M W B) :
  (∀ a, ensures P (f a)) → ensures P (bind m f).
Proof.
  intros Hf s b s'. unfold bind. destruct (m s) as [[a|e|p|] s1]; try done. apply Hf.
Qed.
(** Sequencing with what the first part guarantees of its value. *)
Lemma ensures_seq {A B} (P : A → Prop) (Q : B → W → Prop) (m : M W A) (f : A → M W B) :
  ensures (λ a _, P a) m → (∀ a, P a → ensures Q (f a)) → ensures Q (bind m f).
Proof.
  intros Hm Hf s b s'. unfold bind. destruct (m s) as [[a|e|p|] s1] eqn:Hs; try done.
  apply Hf. by eapply Hm.
Qed.
Lemma ensures_ret {A} (P : A → Prop) (a : A) : P a → ensures (W:=W) (λ a _, P a) (ret a).
Proof. by intros ? ? ? ? [= <- _]. Qed.
Lemma ensures_deferred {A} (P : A → Prop) fin (m : M W A) :
  ensures (λ a _, P a) m → ensures (λ a _, P a) (deferred fin m).
Proof.
  intros Hm s a s'. unfold deferred. destruct (m s) as [[b|e|p|] s1] eqn:Hs; try done.
  intros [= <- _]. by eapply Hm.
Qed.
(** A relation that holds of a sequence because of what its first part guarantees. *)
Lemma respects_seq {A B} (R : W → W → Prop) `{!PreOrder R} (P : A → Prop) (m : M W A)
    (f : A → M W B) :
  respects R m → ensures (λ a _, P a) m → (∀ a, P a → respects R (f a)) →
  respects R (bind m f).
Proof.
  intros Hm Hp Hf s. unfold bind. specialize (Hm s). specialize (Hp s).
  destruct (m s) as [[a|e|p|] s']; simpl in *; try done.
  etrans; [exact Hm|]. apply Hf. by eapply Hp.
Qed.
Lemma respects_after {A B} (R : W → W → Prop) `{!PreOrder R} (P : A → W → Prop) (m : M W A)
    (f : A → M W B) :
  respects R m → ensures P m →
  (∀ a s, P a (store s) → R (store s) (store (f a s).2)) → respects R (bind m f).
Proof.
  intros Hm Hp Hf s. unfold bind. specialize (Hm s). specialize (Hp s).
  destruct (m s) as [[a|e|p|] s']; simpl in *; try done.
  etrans; [exact Hm|]. apply Hf. by eapply Hp.
Qed.
Lemma respects_mono {A} (R R' : W → W → Prop) (m : M W A) :
  (∀ w w', R w w' → R' w w') → respects R m → respects R' m.
Proof. intros Himp Hm s. apply Himp, Hm. Qed.

(** The relation of the computations that preserve an invariant. *)
Definition keeps (I : W → Prop) (w w' : W) : Prop := I w → I w'.
#[export] Instance keeps_preorder (I : W → Prop) : PreOrder (keeps I).
Proof. unfold keeps. split; [by intros ?|]. intros ? ? ? ? ?. auto. Qed.

(** What success guarantees from a store that satisfies [I]. *)
Definition ensures_from {A} (I : W → Prop) (P : A → W → Prop) (m : M W A) : Prop :=
  ∀ s a s', I (store s) → m s = (Ok a, s') → P a (store s').

Lemma ensures_from_bind {A B} I (P : B → W → Prop) (m : M W A) (f : A → M W B) :
  respects (keeps I) m → (∀ a, ensures_from I P (f a)) →
  ensures_from I P (bind m f).
Proof.
  intros Hm Hf s b s' Hi. unfold bind. specialize (Hm s Hi).
  destruct (m s) as [[a|e|p|] s1]; try done. by apply Hf.
Qed.
(** The guarantee of the last but one call, when the last one keeps it. *)
Lemma ensures_from_keep {A B} I (P : W → Prop) (m : M W A) (f : A → M W B) :
  ensures_from I (λ _, P) m → (∀ a, respects (keeps P) (f a)) →
  ensures_from I (λ _, P) (bind m f).
Proof.
  intros Hm Hf s b s' Hi. unfold bind. specialize (Hm s).
  destruct (m s) as [[a|e|p|] s1]; try done. intros Hs. specialize (Hf a s1).
  rewrite Hs in Hf. apply Hf. by eapply Hm.
Qed.
(** Sequencing with what the first part guarantees of its value. *)
Lemma ensures_from_seq {A B} I (P : A → Prop) (Q : B → W → Prop) (m : M W A) (f : A → M W B) :
  respects (keeps I) m → ensures (λ a _, P a) m →
  (∀ a, P a → ensures_from I Q (f a)) → ensures_from I Q (bind m f).
Proof.
  intros Hm Hp Hf s b s' Hi. unfold bind. specialize (Hm s Hi). specialize (Hp s).
  destruct (m s) as [[a|e|p|] s1]; try done. apply Hf; [by eapply Hp|done].
Qed.
Lemma ensures_from_deferred {A} I (P : W → Prop) fin (m : M W A) :
  ensures_from I (λ _, P) m → respects (keeps P) fin → ensures_from I (λ _, P) (deferred fin m).
Proof.
  intros Hm Hf s a s' Hi. unfold deferred. specialize (Hm s).
  destruct (m s) as [[b|e|p|] s1]; try done. intros [= -> <-]. apply Hf. by eapply Hm.
Qed.
Lemma ensures_try {A} (P : A → Prop) (m : M W A) :
  ensures (λ a _, P a) m →
  ensures (λ x _, match x with inl a => P a | inr _ => True end) (try m).
Proof.
  intros Hm s x s'. unfold try. destruct (m s) as [[a|e|p|] s1] eqn:Hs; try done.
  - intros [= <- <-]. by eapply Hm.
  - by intros [= <- <-].
Qed.
Lemma ensures_fail {A} (P : A → W → Prop) e : ensures P (fail e).
Proof. done. Qed.
Lemma ensures_panic {A} (P : A → W → Prop) p : ensures P (panic p).
Proof. done. Qed.
Lemma ensures_wp {A} (P : A → W → Prop) (m : M W A) :
  (∀ s, wp m (λ o s', ∀ a, o = Ok a → P a (store s')) s) → ensures P m.
Proof. intros Hm s a s' Hs. specialize (Hm s). unfold wp in Hm. rewrite Hs in Hm. auto. Qed.
End Ensures.

Ltac ensures_step :=
  lazymatch goal with
  | |- ensures _ (bind _ _) => apply ensures_bind; intros ?
  | |- ensures _ (fail _) => apply ensures_fail
  | |- ensures _ (panic _) => apply ensures_panic
  | |- ensures _ (let '_ := ?x in _) => destruct x
  | |- ensures _ (match ?x with _ => _ end) => destruct x
  | |- ensures _ _ => solve [auto with go nocore]
  end.
Ltac ensures_solve := intros; repeat ensures_step.

(** ** Computations that return

    [returns m]: whatever the state and the environment, [m] ends with a value or an error; it
    neither panics nor waits for ever. *)

Definition returns {W A} (m : M W A) : Prop := ∀ s, returned (m s).1.

Section Returns.
Context {W : Type} `{Env}.

Lemma returns_ret {A} (a : A) : returns (W:=W) (ret a).
Proof. done. Qed.
Lemma returns_lift {A} (o : outcome A) : returned o → returns (W:=W) (lift o).
Proof. intros Ho s. exact Ho. Qed.
Lemma returns_fail {A} e : returns (W:=W) (fail (A:=A) e).
Proof. done. Qed.
Lemma returns_bind {A B} (m : M W A) (f : A → M W B) :
  returns m → (∀ a, returns (f a)) → returns (bind m f).
Proof.
  intros Hm Hf s. specialize (Hm s). unfold bind. destruct (m s) as [[a|e|p|] s']; simpl in *;
    try done. apply Hf.
Qed.
Lemma returns_try {A} (m : M W A) : returns m → returns (try m).
Proof. intros Hm s. specialize (Hm s). unfold try. by destruct (m s) as [[]]. Qed.
Lemma returns_ignore {A} (m : M W A) : returns m → returns (ignore m).
Proof. intros Hm. apply returns_bind; [by apply returns_try|]. intros ?. apply returns_ret. Qed.
Lemma returns_wrapping {A} p (m : M W A) : returns m → returns (wrapping p m).
Proof. intros Hm s. specialize (Hm s). unfold wrapping. by destruct (m s) as [[]]. Qed.
Lemma returns_deferred {A} fin (m : M W A) : returns m → returns (deferred fin m).
Proof. intros Hm s. specialize (Hm s). unfold deferred. by destruct (m s) as [[]]. Qed.
Lemma returns_gets {A} (f : W → A) : returns (gets f).
Proof. done. Qed.
Lemma returns_modify (f : W → W) : returns (modify f).
Proof. done. Qed.
Lemma returns_now : returns (W:=W) now.
Proof. done. Qed.
Lemma returns_fresh p q : returns (W:=W) (fresh p q).
Proof. done. Qed.
Lemma returns_Sleep d : returns (W:=W) (Sleep d).
Proof. done. Qed.
Lemma returns_observe {A} (f : nat → A) : returns (W:=W) (observe f).
Proof. done. Qed.
Lemma returns_ctx_Err c : returns (W:=W) (ctx_Err c).
Proof. done. Qed.
Lemma returns_exec {A} c (f : W → outcome A * W) :
  (∀ w, returned (f w).1) → returns (exec c f).
Proof.
  intros Hf s. unfold exec. destruct (fault c (tick s)); [done|]. specialize (Hf (store s)).
  by destruct (f (store s)).
Qed.
Lemma returns_query {A} c (f : W → outcome A) : (∀ w, returned (f w)) → returns (query c f).
Proof. intros Hf. by apply returns_exec. Qed.
Lemma returns_syscall : returns (W:=W) syscall.
Proof. by apply returns_query. Qed.
Lemma returns_exec_in {S A} `{Lens W S} c (f : S → outcome A * S) :
  (∀ d, returned (f d).1) → returns (exec_in c f).
Proof.
  intros Hf. apply returns_exec. intros w. specialize (Hf (view w)). by destruct (f (view w)).
Qed.
Lemma returns_query_in {S A} `{Lens W S} c (f : S → outcome A) :
  (∀ d, returned (f d)) → returns (query_in c f).
Proof. intros Hf. by apply returns_query. Qed.
Lemma returns_loop {A B} (body : B → A → M W B) l :
  (∀ b x, returns (body b x)) → ∀ b, returns (loop body b l).
Proof.
  intros Hb. induction l as [|x l IH]; intros b; simpl; [apply returns_ret|].
  apply returns_bind; [apply Hb|]. intros b'. apply IH.
Qed.

(** A call of which only its returning and its effect are known. *)
Lemma wp_any {A} (R : W → W → Prop) (m : M W A) Q s :
  returns m → respects R m →
  (∀ a s', R (store s) (store s') → Q (Ok a) s') →
  (∀ e s', R (store s) (store s') → Q (Err e) s') → wp m Q s.
Proof.
  intros Hret Hres Hok Herr. specialize (Hret s). specialize (Hres s). unfold wp.
  destruct (m s) as [[a|e|p|] s']; simpl in *; auto; done.
Qed.
End Returns.

Ltac returns_step :=
  lazymatch goal with
  | |- returns (bind _ _) => apply returns_bind; [| intros ?]
  | |- returns (try _) => apply returns_try
  | |- returns (ignore _) => apply returns_ignore
  | |- returns (wrapping _ _) => apply returns_wrapping
  | |- returns (deferred _ _) => apply returns_deferred
  | |- returns (loop _ _ _) => apply returns_loop; intros ? ?
  | |- returns (ret _) => apply returns_ret
  | |- returns (lift _) => apply returns_lift
  | |- returns (fail _) => apply returns_fail
  | |- returns (gets _) => apply returns_gets
  | |- returns (modify _) => apply returns_modify
  | |- returns now => apply returns_now
  | |- returns (fresh _ _) => apply returns_fresh
  | |- returns (Sleep _) => apply returns_Sleep
  | |- returns (observe _) => apply returns_observe
  | |- returns (ctx_Err _) => apply returns_ctx_Err
  | |- returns syscall => apply returns_syscall
  | |- returns (exec_in _ _) => apply returns_exec_in; intros ?
  | |- returns (query_in _ _) => apply returns_query_in; intros ?
  | |- returns (exec _ _) => apply returns_exec; intros ?
  | |- returns (query _ _) => apply returns_query; intros ?
  | |- returns (let '_ := ?x in _) => destruct x
  | |- returns (match ?x with _ => _ end) => destruct x
  | |- returned (match ?x with _ => _ end) => destruct x
  | |- returned (fst (match ?x with _ => _ end)) => destruct x
  | |- returned _ => first [exact I | solve [auto with go nocore]]
  | |- returns _ => solve [auto with go nocore]
  end.
Ltac returns_solve := intros; repeat returns_step.

(** Run the next call of a computation; the goals left are the failing calls and the
    conclusion. [wp_ok] drops the failing ones under a reliable context. *)
Ltac wp_step :=
  lazymatch goal with
  | |- wp (bind _ _) _ _ => apply wp_bind
  | |- wp (ret _) _ _ => apply wp_ret
  | |- wp (lift _) _ _ => apply wp_lift
  | |- wp (fail _) _ _ => apply wp_fail
  | |- wp (panic _) _ _ => apply wp_panic
  | |- wp (try _) _ _ => apply wp_try
  | |- wp (ignore _) _ _ => apply wp_ignore
  | |- wp (deferred _ _) _ _ => apply wp_deferred
  | |- wp (gets _) _ _ => apply wp_gets
  | |- wp (modify _) _ _ => apply wp_modify
  | |- wp now _ _ => apply wp_now
  | |- wp (Sleep _) _ _ => apply wp_Sleep
  | |- wp (observe _) _ _ => apply wp_observe
  | |- wp (ctx_Err _) _ _ => apply wp_ctx_Err
  | |- wp (wrapping _ _) _ _ => apply wp_wrapping
  | |- wp (exec_in _ _) _ _ => apply wp_exec_in; [intros ? ?| intros ?]
  | |- wp (query_in _ _) _ _ => apply wp_query_in; [intros ? ?| intros ?]
  | |- wp (exec _ _) _ _ => apply wp_exec; [intros ? ?| intros ?]
  | |- wp (query _ _) _ _ => apply wp_query; [intros ? ?| intros ?]
  end; cbn [then_ store tick fst snd].

Ltac wp_ok :=
  repeat (wp_step; try (match goal with
    | Hc : reliable ?c, Hf : fault ?c _ = Some _ |- _ => exfalso; by rewrite Hc in Hf
    end)).

(** ** Rows, tables and SQL statements

    A SQLite table is the list of its rows in rowid order; [row_key] is its primary key. *)

Class Keyed (R K : Type) := row_key : R → K.

Section Table.
Context {R K : Type} `{EqDecision K} `{Keyed R K}.
Implicit Types (t : list R) (r : R) (k : K).

(** [SELECT ... WHERE key = k]. *)
Fixpoint tget (k : K) (t : list R) : option R :=
  match t with
  | [] => None
  | r :: t' => if decide (row_key r = k) then Some r else tget k t'
  end.

(** [SELECT ... WHERE p]. *)
Fixpoint twhere (p : R → bool) (t : list R) : list R :=
  match t with
  | [] => []
  | r :: t' => if p r then r :: twhere p t' else twhere p t'
  end.

(** [INSERT INTO ...], refused when the primary key is taken. *)
Definition tinsert (r : R) (t : list R) : option (list R) :=
  match tget (row_key r) t with
  | Some _ => None
  | None => Some (t ++ [r])
  end.

(** [UPDATE ... SET f WHERE key = k]. *)
Definition tupdate (k : K) (f : R → R) (t : list R) : list R :=
  map (λ r, if decide (row_key r = k) then f r else r) t.

(** The rows an [UPDATE ... WHERE key = k] affects. *)
Definition tcount (k : K) (t : list R) : nat :=
  length (twhere (λ r, bool_decide (row_key r = k)) t).

(** [INSERT ... ON CONFLICT(key) DO UPDATE SET merge]. *)
Definition tupsert (r : R) (merge : R → R) (t : list R) : list R :=
  match tget (row_key r) t with
  | Some _ => tupdate (row_key r) merge t
  | None => t ++ [r]
  end.

(** [DELETE FROM ... WHERE p]. *)
Definition tdelete (p : R → bool) (t : list R) : list R := twhere (λ r, negb (p r)) t.

(** Primary keys are unique. *)
Definition keys_unique (t : list R) : Prop := NoDup (map row_key t).

Lemma tget_key k t r : tget k t = Some r → row_key r = k.
Proof.
  induction t as [|r' t IH]; simpl; [done|]. case_decide; [|done]. by intros [= ->].
Qed.

Lemma tget_In k t r : tget k t = Some r → r ∈ t.
Proof.
  induction t as [|r' t IH]; simpl; [done|]. case_decide.
  - intros [= ->]. constructor.
  - intros Hr. constructor. auto.
Qed.

Lemma tget_None k t : tget k t = None ↔ k ∉ map row_key t.
Proof.
  induction t as [|r t IH]; simpl.
  - split; [intros _; apply not_elem_of_nil|done].
  - rewrite not_elem_of_cons, <- IH. case_decide; split; intuition congruence.
Qed.

Lemma tget_app k t1 t2 :
  tget k (t1 ++ t2) = match tget k t1 with Some r => Some r | None => tget k t2 end.
Proof. induction t1 as [|r t1 IH]; simpl; [done|]. by case_decide. Qed.

Lemma tget_unique k t r : keys_unique t → r ∈ t → row_key r = k → tget k t = Some r.
Proof.
  unfold keys_unique. induction t as [|r' t IH]; simpl; intros Hnd Hin Hk.
  { by apply not_elem_of_nil in Hin. }
  apply NoDup_cons in Hnd as [Hnin Hnd]. apply elem_of_cons in Hin as [->|Hin].
  - by rewrite decide_True.
  - rewrite decide_False; [by apply IH|]. intros Heq. apply Hnin.
    apply list_elem_of_fmap. exists r. split; [congruence|done].
Qed.

Lemma tinsert_spec r t t' :
  tinsert r t = Some t' ↔ tget (row_key r) t = None ∧ t' = t ++ [r].
Proof. unfold tinsert. destruct (tget (row_key r) t); intuition congruence. Qed.

Section Update.
Context (f : R → R) (Hf : ∀ r, row_key (f r) = row_key r).

Lemma tget_update k k' t :
  tget k' (tupdate k f t) = if decide (k = k') then f <$> tget k' t else tget k' t.
Proof using Hf.
  induction t as [|r t IH]; simpl; [by case_decide|].
  destruct (decide (row_key r = k)) as [<-|Hne].
  - rewrite Hf, IH. repeat case_decide; done.
  - rewrite IH. repeat case_decide; congruence.
Qed.

Lemma map_key_update k t : map row_key (tupdate k f t) = map row_key t.
Proof using Hf.
  unfold tupdate. rewrite map_map. apply map_ext. intros r. by case_decide.
Qed.
End Update.

Lemma tcount_zero k t : tcount k t = 0 ↔ tget k t = None.
Proof.
  unfold tcount. induction t as [|r t IH]; simpl; [done|].
  case_bool_decide; rewrite ?decide_True, ?decide_False by done; simpl; done.
Qed.

Lemma elem_of_twhere p t r : r ∈ twhere p t ↔ p r = true ∧ r ∈ t.
Proof.
  induction t as [|r' t IH]; simpl.
  - split; [by intros Hr%elem_of_nil|by intros [_ Hr%elem_of_nil]].
  - rewrite elem_of_cons. destruct (p r') eqn:Hp; [rewrite elem_of_cons|]; rewrite IH;
      intuition congruence.
Qed.

Lemma keys_unique_insert r t :
  tget (row_key r) t = None → keys_unique t → keys_unique (t ++ [r]).
Proof.
  unfold keys_unique. intros Hn%tget_None Hnd. rewrite map_app. apply NoDup_app.
  split_and!; [done| |apply NoDup_singleton].
  intros k Hk Hk'. apply list_elem_of_singleton in Hk'. by subst.
Qed.

Lemma keys_unique_update k f t :
  (∀ r, row_key (f r) = row_key r) → keys_unique t → keys_unique (tupdate k f t).
Proof. intros Hf. unfold keys_unique. by rewrite map_key_update. Qed.

Lemma keys_unique_where p t : keys_unique t → keys_unique (twhere p t).
Proof.
  unfold keys_unique. induction t as [|r t IH]; simpl; [done|].
  rewrite NoDup_cons. intros [Hnin Hnd]. destruct (p r); simpl; [|auto].
  apply NoDup_cons. split; [|auto]. intros (r' & Hr' & Hin)%list_elem_of_fmap.
  apply Hnin, list_elem_of_fmap. exists r'. split; [done|].
  by apply elem_of_twhere in Hin as [_ ?].
Qed.

(** The row of an upsert keeps its key, or takes that of the row it was written for. *)
Lemma keys_unique_upsert r f t :
  (∀ x, row_key (f x) = row_key x) → keys_unique t → keys_unique (tupsert r f t).
Proof.
  intros Hf Ht. unfold tupsert. destruct (tget (row_key r) t) eqn:Hget.
  - by apply keys_unique_update.
  - by apply keys_unique_insert.
Qed.

End Table.

(** ** ORDER BY

    SQLite leaves the order of equal keys open; with a b-tree in rowid order and its stable
    sorter, equal keys come in rowid order. [sort_by] is that stable sort. *)

Section Sort.
Context {R : Type} (le : R → R → bool).

Fixpoint insert_by (x : R) (l : list R) : list R :=
  match l with
  | [] => [x]
  | y :: l' => if le x y then x :: l else y :: insert_by x l'
  end.

Definition sort_by (l : list R) : list R := foldr insert_by [] l.

Lemma insert_by_perm x l : Permutation (insert_by x l) (x :: l).
Proof.
  induction l as [|y l IH]; simpl; [done|]. destruct (le x y); [done|].
  rewrite IH. apply perm_swap.
Qed.

Lemma sort_by_perm l : Permutation (sort_by l) l.
Proof.
  induction l as [|x l IH]; simpl; [done|]. rewrite insert_by_perm. by apply perm_skip.
Qed.

Lemma elem_of_sort_by x l : x ∈ sort_by l ↔ x ∈ l.
Proof. by rewrite sort_by_perm. Qed.

Context (le_total : ∀ x y, le x y = false → le y x = true).
Context (le_trans : ∀ x y z, le x y = true → le y z = true → le x z = true).

Lemma insert_by_sorted x l :
  StronglySorted (λ a b, le a b = true) l → StronglySorted (λ a b, le a b = true) (insert_by x l).
Proof using le_total le_trans.
  induction 1 as [|y l Hl IH Hy]; simpl; [repeat constructor|].
  destruct (le x y) eqn:Hxy.
  - repeat constructor; try done. eapply Forall_impl; [exact Hy|]. eauto.
  - constructor; [done|]. rewrite insert_by_perm. constructor; auto.
Qed.

Lemma sort_by_sorted l : StronglySorted (λ a b, le a b = true) (sort_by l).
Proof using le_total le_trans.
  induction l as [|x l IH]; simpl; [constructor|by apply insert_by_sorted].
Qed.
End Sort.

(** [ORDER BY c ASC], [ORDER BY c DESC], and [ORDER BY c1 ..., c2 ...]. *)
Definition asc {R} (c : R → Z) : R → R → bool := λ a b, (c a <=? c b)%Z.
Definition desc {R} (c : R → Z) : R → R → bool := λ a b, (c b <=? c a)%Z.
Definition lex {R} (le1 le2 : R → R → bool) : R → R → bool := λ a b,
  if le1 a b then (if le1 b a then le2 a b else true) else false.

Lemma asc_total {R} (c : R → Z) x y : asc c x y = false → asc c y x = true.
Proof. unfold asc. lia. Qed.
Lemma asc_trans {R} (c : R → Z) x y z : asc c x y = true → asc c y z = true → asc c x z = true.
Proof. unfold asc. lia. Qed.
Lemma desc_total {R} (c : R → Z) x y : desc c x y = false → desc c y x = true.
Proof. unfold desc. lia. Qed.
Lemma desc_trans {R} (c : R → Z) x y z :
  desc c x y = true → desc c y z = true → desc c x z = true.
Proof. unfold desc. lia. Qed.
#[export] Hint Resolve asc_total asc_trans desc_total desc_trans : go.
