(* ===== verification/GoStrings.v ===== *)
(** * Go's [strings], [strconv] and [path/filepath], as far as the code uses them

    Strings are byte strings, which Go reads as UTF-8 where it looks at runes; case mapping is
    the ASCII one. Paths are Unix paths. *)
From S2P Require Export Prelude.
From Stdlib Require Import Ascii.

(** ** [unicode/utf8] *)

Definition byte_in (lo hi : nat) (c : ascii) : bool :=
  let n := nat_of_ascii c in bool_decide (lo ≤ n) && bool_decide (n ≤ hi).

Definition continuation : ascii → bool := byte_in 128 191.

(** The number of bytes of the rune [utf8.DecodeRune] finds at the start of a non-empty text;
    [None] when they encode none, for which it returns [RuneError] and a width of one. *)
Definition utf8_width (l : list ascii) : option nat :=
  match l with
  | [] => None
  | a :: l1 =>
    if byte_in 0 127 a then Some 1
    else match l1 with
    | [] => None
    | b :: l2 =>
      if byte_in 194 223 a then if continuation b then Some 2 else None
      else match l2 with
      | [] => None
      | c :: l3 =>
        if (byte_in 224 224 a && byte_in 160 191 b || byte_in 225 236 a && continuation b
            || byte_in 237 237 a && byte_in 128 159 b || byte_in 238 239 a && continuation b)
        then if continuation c then Some 3 else None
        else match l3 with
        | [] => None
        | d :: _ =>
          if (byte_in 240 240 a && byte_in 144 191 b || byte_in 241 243 a && continuation b
              || byte_in 244 244 a && byte_in 128 143 b) && continuation c && continuation d
          then Some 4 else None
        end
      end
    end
  end.

(** One byte for each rune, given by its first byte; [skip] bytes of the current rune are left. *)
Fixpoint map_runes (f : ascii → ascii) (skip : nat) (l : list ascii) : list ascii :=
  match l with
  | [] => []
  | c :: l' =>
    match skip with
    | S skip' => map_runes f skip' l'
    | O => f c :: map_runes f (default 1 (utf8_width l) - 1) l'
    end
  end.

(** Each byte that is part of no rune is replaced by the encoding of U+FFFD; the next [keep]
    bytes are part of one. *)
Fixpoint coerce_utf8 (keep : nat) (l : list ascii) : list ascii :=
  match l with
  | [] => []
  | c :: l' =>
    match keep with
    | S keep' => c :: coerce_utf8 keep' l'
    | O =>
      match utf8_width l with
      | Some w => c :: coerce_utf8 (w - 1) l'
      | None => [ascii_of_nat 239; ascii_of_nat 191; ascii_of_nat 189] ++ coerce_utf8 0 l'
      end
    end
  end.

(** What [encoding/json] writes for a string, and reads back. *)
Definition ToValidUTF8 (s : string) : string :=
  string_of_list_ascii (coerce_utf8 0 (list_ascii_of_string s)).

(** ** [strings] *)

(** [unicode.IsSpace], for the runes of one, two and three bytes that are white space. *)
Definition is_space (c : ascii) : bool :=
  let n := nat_of_ascii c in
  bool_decide (n = 32) || (bool_decide (9 ≤ n) && bool_decide (n ≤ 13)).
Definition is_space2 (a b : ascii) : bool :=
  byte_in 194 194 a && (byte_in 133 133 b || byte_in 160 160 b).
Definition is_space3 (a b c : ascii) : bool :=
  byte_in 225 225 a && byte_in 154 154 b && byte_in 128 128 c
  || byte_in 226 226 a && byte_in 128 128 b
     && (byte_in 128 138 c || byte_in 168 169 c || byte_in 175 175 c)
  || byte_in 226 226 a && byte_in 129 129 b && byte_in 159 159 c
  || byte_in 227 227 a && byte_in 128 128 b && byte_in 128 128 c.

Section DropSpace.
Context (space2 : ascii → ascii → bool) (space3 : ascii → ascii → ascii → bool).

(** The white space at the start of a text is dropped. *)
Fixpoint drop_space_by (l : list ascii) : list ascii :=
  match l with
  | [] => []
  | a :: l1 =>
    if is_space a then drop_space_by l1
    else match l1 with
    | [] => l
    | b :: l2 =>
      if space2 a b then drop_space_by l2
      else match l2 with
      | [] => l
      | c :: l3 => if space3 a b c then drop_space_by l3 else l
      end
    end
  end.

(** A text starts with white space. *)
Definition starts_space (l : list ascii) : bool :=
  match l with
  | [] => false
  | [a] => is_space a
  | [a; b] => is_space a || space2 a b
  | a :: b :: c :: _ => is_space a || space2 a b || space3 a b c
  end.

Lemma drop_space_by_starts l : starts_space (drop_space_by l) = false.
Proof using Type.
  induction l as [l IH] using (well_founded_induction (well_founded_ltof _ length)).
  unfold ltof in IH. destruct l as [|a l]; [done|]. cbn [drop_space_by].
  destruct (is_space a) eqn:Ha; [apply IH; simpl; lia|].
  destruct l as [|b l]; [exact Ha|].
  destruct (space2 a b) eqn:Hb; [apply IH; simpl; lia|].
  destruct l as [|c l]; [simpl; by rewrite Ha, Hb|].
  destruct (space3 a b c) eqn:Hc; [apply IH; simpl; lia|]. simpl. by rewrite Ha, Hb, Hc.
Qed.

Lemma drop_space_by_fix l : starts_space l = false → drop_space_by l = l.
Proof using Type.
  destruct l as [|a [|b [|c l]]]; cbn [drop_space_by starts_space]; [done|by intros ->|..];
    rewrite ?orb_false_iff; [by intros [-> ->]|by intros [[-> ->] ->]].
Qed.

Lemma drop_space_by_suffix l : ∃ p, l = p ++ drop_space_by l.
Proof using Type.
  induction l as [l IH] using (well_founded_induction (well_founded_ltof _ length)).
  unfold ltof in IH. destruct l as [|a l]; [by exists []|]. cbn [drop_space_by].
  destruct (is_space a); [destruct (IH l) as [p Hp]; [simpl; lia|]; exists (a :: p); simpl; congruence|].
  destruct l as [|b l]; [by exists []|].
  destruct (space2 a b); [destruct (IH l) as [p Hp]; [simpl; lia|]; exists (a :: b :: p); simpl; congruence|].
  destruct l as [|c l]; [by exists []|].
  destruct (space3 a b c); [|by exists []].
  destruct (IH l) as [p Hp]; [simpl; lia|]. exists (a :: b :: c :: p). simpl. congruence.
Qed.

Lemma starts_space_app l m : starts_space l = true → starts_space (l ++ m) = true.
Proof using Type.
  destruct l as [|a [|b [|c l]]]; cbn [starts_space app]; [done|..].
  - intros Ha. destruct m as [|b [|c m]]; cbn [starts_space]; by rewrite Ha.
  - intros Ha. destruct m as [|c m]; cbn [starts_space]; by rewrite Ha.
  - done.
Qed.

Lemma drop_space_by_prefix l m :
  starts_space (l ++ m) = false → starts_space l = false.
Proof using Type.
  intros Hlm. destruct (starts_space l) eqn:Hl; [|done]. by rewrite starts_space_app in Hlm.
Qed.
End DropSpace.

Definition drop_space : list ascii → list ascii := drop_space_by is_space2 is_space3.
(** The white space at the end of a text given in reverse. *)
Definition drop_space_rev : list ascii → list ascii :=
  drop_space_by (λ b a, is_space2 a b) (λ c b a, is_space3 a b c).

Definition trim (l : list ascii) : list ascii := rev (drop_space_rev (rev (drop_space l))).

(** [strings.TrimSpace]. *)
Definition TrimSpace (s : string) : string :=
  string_of_list_ascii (trim (list_ascii_of_string s)).

(** [strings.HasPrefix(s, prefix)]. *)
Fixpoint HasPrefix (s prefix : string) {struct prefix} : bool :=
  match prefix, s with
  | EmptyString, _ => true
  | String c p, String d s' => if ascii_dec c d then HasPrefix s' p else false
  | String _ _, EmptyString => false
  end.

(** [strings.Contains(s, sub)]. *)
Fixpoint Contains (s sub : string) : bool :=
  if HasPrefix s sub then true
  else match s with EmptyString => false | String _ s' => Contains s' sub end.

Fixpoint string_drop (n : nat) (s : string) : string :=
  match n, s with
  | O, _ => s
  | S n', String _ s' => string_drop n' s'
  | S _, EmptyString => ""
  end.

(** [strings.TrimPrefix(s, prefix)]. *)
Definition TrimPrefix (s prefix : string) : string :=
  if HasPrefix s prefix then string_drop (String.length prefix) s else s.

(** [strings.Join(elems, sep)]. *)
Definition strings_Join (elems : list string) (sep : string) : string := String.concat sep elems.

Definition ascii_map (f : ascii → ascii) (s : string) : string :=
  string_of_list_ascii (map f (list_ascii_of_string s)).

Definition lower (c : ascii) : ascii :=
  let n := nat_of_ascii c in
  if bool_decide (65 ≤ n) && bool_decide (n ≤ 90) then ascii_of_nat (n + 32) else c.
Definition upper (c : ascii) : ascii :=
  let n := nat_of_ascii c in
  if bool_decide (97 ≤ n) && bool_decide (n ≤ 122) then ascii_of_nat (n - 32) else c.

(** [strings.ToLower], [strings.ToUpper]. *)
Definition ToLower (s : string) : string := ascii_map lower s.
Definition ToUpper (s : string) : string := ascii_map upper s.

(** [strings.ReplaceAll] of one byte by another. *)
Definition replace_byte (old new : ascii) (s : string) : string :=
  ascii_map (λ c, if ascii_dec c old then new else c) s.

(** [strings.Split] at a one-byte separator. *)
Fixpoint split_byte (sep : ascii) (s : string) : list string :=
  match s with
  | EmptyString => [""]
  | String c s' =>
    if ascii_dec c sep then "" :: split_byte sep s'
    else match split_byte sep s' with
         | [] => [String c ""]
         | w :: ws => String c w :: ws
         end
  end.

(** ** [strconv] and [fmt] *)

(** [%d] and [strconv.Itoa]. *)
Definition itoa (n : Z) : string := pretty n.

(** [time.Duration.String] of a whole number of seconds. *)
Definition seconds_String (n : Z) : string :=
  let h := (n / 3600)%Z in
  let m := ((n / 60) mod 60)%Z in
  let s := (n mod 60)%Z in
  if (n <? 60)%Z then itoa s +:+ "s"
  else if (n <? 3600)%Z then itoa m +:+ "m" +:+ itoa s +:+ "s"
  else itoa h +:+ "h" +:+ itoa m +:+ "m" +:+ itoa s +:+ "s".

Definition hex_digit (n : nat) : ascii :=
  ascii_of_nat (if bool_decide (n < 10) then 48 + n else 87 + n).

(** [strconv.Quote] of one byte: the escapes of the language, [\x..] for the other control
    bytes. *)
Definition quote_byte (c : ascii) : string :=
  let esc d := String "\"%char (String d "") in
  let n := nat_of_ascii c in
  match n with
  | 34 => esc c
  | 92 => esc c
  | 7 => esc "a"%char
  | 8 => esc "b"%char
  | 12 => esc "f"%char
  | 10 => esc "n"%char
  | 13 => esc "r"%char
  | 9 => esc "t"%char
  | 11 => esc "v"%char
  | _ =>
    if bool_decide (n < 32) || bool_decide (n = 127)
    then "\x" +:+ String (hex_digit (n / 16)) (String (hex_digit (n mod 16)) "")
    else String c ""
  end.

(** [%q]. *)
Definition quoted (s : string) : string :=
  let q := String (ascii_of_nat 34) "" in
  q +:+ String.concat "" (map quote_byte (list_ascii_of_string s)) +:+ q.

(** ** [path/filepath]

    A path is a rooted or relative sequence of elements. [Clean] drops the empty and [.]
    elements and resolves [..] against the element before it. *)

Definition slash : ascii := "/"%char.

Definition IsAbs (p : string) : bool := HasPrefix p "/".

(** The elements of a cleaned path, in reverse. *)
Definition clean_step (rooted : bool) (acc : list string) (e : string) : list string :=
  if bool_decide (e = "" ∨ e = ".") then acc
  else if bool_decide (e = "..") then
    match acc with
    | [] => if rooted then [] else [".."]
    | x :: acc' => if bool_decide (x = "..") then ".." :: acc else acc'
    end
  else e :: acc.

Definition clean_elems (rooted : bool) (elems : list string) : list string :=
  rev (foldl (clean_step rooted) [] elems).

Definition of_elems (rooted : bool) (elems : list string) : string :=
  if rooted then "/" +:+ strings_Join elems "/"
  else match elems with [] => "." | _ => strings_Join elems "/" end.

Definition path_elements (p : string) : list string := clean_elems (IsAbs p) (split_byte slash p).

(** [filepath.Clean]. *)
Definition Clean (p : string) : string := of_elems (IsAbs p) (path_elements p).

(** [filepath.Join]: empty elements are ignored and the result is cleaned. *)
Definition path_Join (elems : list string) : string :=
  match List.filter (λ e, negb (bool_decide (e = ""))) elems with
  | [] => ""
  | es => Clean (strings_Join es "/")
  end.

(** [filepath.Base]: the last element, [/] for a path of slashes and [.] for the empty one. *)
Definition Base (p : string) : string :=
  match rev (List.filter (λ e, negb (bool_decide (e = ""))) (split_byte slash p)) with
  | e :: _ => e
  | [] => if bool_decide (p = "") then "." else "/"
  end.

(** [path.Dir], [filepath.Dir]: what precedes the last slash, cleaned. *)
Definition path_Dir (path : string) : string :=
  match removelast (split_byte slash path) with
  | [] => Clean ""
  | dirs => Clean (strings_Join dirs "/" +:+ "/")
  end.

(** [filepath.Ext]: the suffix of the last element from its last dot. *)
Fixpoint ext_of (s : string) : option string :=
  match s with
  | EmptyString => None
  | String c s' =>
    match ext_of s' with
    | Some e => Some e
    | None => if ascii_dec c "."%char then Some s else None
    end
  end.
Definition Ext (p : string) : string :=
  default "" (ext_of (List.last (split_byte slash p) "")).

(** [strings.TrimSuffix(name, filepath.Ext(name))]. *)
Definition without_ext (name : string) : string :=
  String.substring 0 (String.length name - String.length (Ext name)) name.

Fixpoint strip_common (base targ : list string) : list string * list string :=
  match base, targ with
  | b :: base', t :: targ' => if decide (b = t) then strip_common base' targ' else (base, targ)
  | _, _ => (base, targ)
  end.

(** [filepath.Rel(base, targ)]; [None] is its error. *)
Definition Rel (base targ : string) : option string :=
  if negb (Bool.eqb (IsAbs base) (IsAbs targ)) then None
  else
    let '(b, t) := strip_common (path_elements base) (path_elements targ) in
    if bool_decide (".." ∈ b) then None
    else Some (of_elems false (map (λ _, "..") b ++ t)).

(** ** Lemmas *)

Lemma string_app_nil_r (s : string) : s +:+ "" = s.
Proof. induction s as [|c s IH]; [done|]. apply (f_equal (String c)), IH. Qed.

Lemma string_app_assoc (s t u : string) : (s +:+ t) +:+ u = s +:+ (t +:+ u).
Proof. induction s as [|c s IH]; [done|]. apply (f_equal (String c)), IH. Qed.

Lemma list_ascii_app (s t : string) :
  list_ascii_of_string (s +:+ t) = list_ascii_of_string s ++ list_ascii_of_string t.
Proof. induction s as [|c s IH]; [done|]. apply (f_equal (cons c)), IH. Qed.

Lemma HasPrefix_spec s p : HasPrefix s p = true ↔ ∃ t, s = p +:+ t.
Proof.
  revert s. induction p as [|c p IH]; intros s; simpl.
  - split; [by exists s|done].
  - destruct s as [|d s]; [split; [done|intros [t Ht]; discriminate]|].
    destruct (ascii_dec c d) as [->|Hne].
    + rewrite IH. split; intros [t Ht]; exists t; [by rewrite Ht|by injection Ht].
    + split; [done|]. intros [t [= Hd _]]. by destruct Hne.
Qed.

Lemma Contains_spec s sub : Contains s sub = true ↔ ∃ a b, s = a +:+ sub +:+ b.
Proof.
  induction s as [|c s IH]; simpl; destruct (HasPrefix _ sub) eqn:Hp.
  - split; [|done]. intros _. apply HasPrefix_spec in Hp as [t Ht]. by exists "", t.
  - split; [done|]. intros (a & b & Ht). destruct a as [|x a]; [|discriminate].
    assert (HasPrefix "" sub = true) by (apply HasPrefix_spec; by exists b). congruence.
  - split; [|done]. intros _. apply HasPrefix_spec in Hp as [t Ht]. by exists "", t.
  - rewrite IH. split; intros (a & b & Ht).
    + exists (String c a), b. by rewrite Ht.
    + destruct a as [|x a].
      * assert (HasPrefix (String c s) sub = true) by (apply HasPrefix_spec; by exists b).
        congruence.
      * injection Ht as -> ->. by exists a, b.
Qed.

(** Trimming is idempotent: what the code stores trimmed is found again by a trimmed key. *)
Lemma trim_idemp l : trim (trim l) = trim l.
Proof.
  unfold trim. set (m := drop_space l).
  assert (drop_space (rev (drop_space_rev (rev m))) = rev (drop_space_rev (rev m))) as ->.
  { apply drop_space_by_fix. destruct (drop_space_by_suffix (λ b a, is_space2 a b)
      (λ c b a, is_space3 a b c) (rev m)) as [p Hp].
    apply (drop_space_by_prefix _ _ _ (rev p)). unfold drop_space_rev.
    rewrite <- rev_app_distr, <- Hp, rev_involutive. apply drop_space_by_starts. }
  rewrite rev_involutive. f_equal. apply drop_space_by_fix, drop_space_by_starts.
Qed.

Lemma of_elems_inj_nonempty e es : strings_Join (e :: es) "/" = "" → e = "".
Proof. destruct es; simpl; [done|]. destruct e; [done|discriminate]. Qed.

Lemma split_byte_nonempty sep s : split_byte sep s ≠ [].
Proof. destruct s as [|c s]; simpl; [done|]. destruct (ascii_dec c sep); [done|].
  by destruct (split_byte sep s). Qed.

(** An element holds no separator. *)
Definition no_byte (sep : ascii) (s : string) : Prop := sep ∉ list_ascii_of_string s.

Lemma split_byte_no_sep sep s w : w ∈ split_byte sep s → no_byte sep w.
Proof.
  unfold no_byte. revert w. induction s as [|c s IH]; simpl; intros w Hw.
  - apply list_elem_of_singleton in Hw as ->. apply not_elem_of_nil.
  - destruct (ascii_dec c sep) as [->|Hne].
    + apply elem_of_cons in Hw as [->|Hw]; [apply not_elem_of_nil|by apply IH].
    + destruct (split_byte sep s) as [|v ws] eqn:Hs.
      * by destruct (split_byte_nonempty sep s).
      * apply elem_of_cons in Hw as [->|Hw]; [|apply IH; by constructor].
        simpl. rewrite not_elem_of_cons. split; [done|]. apply IH. by constructor.
Qed.

Lemma split_byte_single sep s : no_byte sep s → split_byte sep s = [s].
Proof.
  unfold no_byte. induction s as [|c s IH]; simpl; [done|].
  rewrite not_elem_of_cons. intros [Hne Hs]. destruct (ascii_dec c sep); [congruence|].
  by rewrite IH.
Qed.

Lemma split_byte_app sep s t :
  no_byte sep s → split_byte sep (s +:+ String sep t) = s :: split_byte sep t.
Proof.
  unfold no_byte. induction s as [|c s IH]; simpl; intros Hs.
  - by destruct (ascii_dec sep sep).
  - apply not_elem_of_cons in Hs as [Hne Hs]. destruct (ascii_dec c sep); [congruence|].
    by rewrite IH.
Qed.

Lemma split_Join sep l :
  l ≠ [] → Forall (no_byte sep) l → split_byte sep (strings_Join l (String sep "")) = l.
Proof.
  intros Hne Hl. induction Hl as [|w l Hw Hl IH]; [done|].
  destruct l as [|v l]; [by apply split_byte_single|].
  change (strings_Join (w :: v :: l) (String sep "")) with (w +:+ String sep (strings_Join (v :: l) (String sep ""))).
  rewrite split_byte_app by done. f_equal. by apply IH.
Qed.
