(* ===== verification/Paths.v ===== *)
(** * Lemmas on cleaned paths

    What [filepath.Clean], [Join] and [Rel] preserve, in terms of the elements of a path: the
    lemmas behind the two checks the daemon makes before it touches a file it was given. *)
From S2P Require Export GoStrings.
From Stdlib Require Import Ascii.

(** ** Splitting *)

Lemma split_byte_app_sep sep s t :
  split_byte sep (s +:+ String sep t) = split_byte sep s ++ split_byte sep t.
Proof.
  induction s as [|c s IH]; simpl.
  - by destruct (ascii_dec sep sep).
  - destruct (ascii_dec c sep); [by rewrite IH|]. rewrite IH.
    by destruct (split_byte sep s) eqn:Hs; [destruct (split_byte_nonempty sep s)|].
Qed.

(** A text that goes on after its last element, which then goes on too. *)
Lemma split_byte_name sep name t : no_byte sep name →
  split_byte sep (name +:+ t) =
  match split_byte sep t with h :: rest => (name +:+ h) :: rest | [] => [] end.
Proof.
  unfold no_byte. induction name as [|c name IH]; simpl; intros Hn.
  { change ("" +:+ t) with t. by destruct (split_byte sep t). }
  revert Hn. intros [Hc Hn]%not_elem_of_cons. destruct (ascii_dec c sep); [congruence|]. rewrite IH by done.
  destruct (split_byte sep t) eqn:Hs; [by destruct (split_byte_nonempty sep t)|done].
Qed.

Lemma strings_Join_cons e l : l ≠ [] → strings_Join (e :: l) "/" = e +:+ String slash (strings_Join l "/").
Proof. by destruct l. Qed.

Lemma split_Join_app parent name t : Forall (no_byte slash) (parent ++ [name]) →
  ∃ h rest, split_byte slash t = h :: rest ∧
    split_byte slash (strings_Join (parent ++ [name]) "/" +:+ t) = parent ++ (name +:+ h) :: rest.
Proof.
  destruct (split_byte slash t) as [|h rest] eqn:Ht; [by destruct (split_byte_nonempty slash t)|].
  intros Hl. exists h, rest. split; [done|]. induction parent as [|e parent IH]; cbn [app] in *.
  - inversion_clear Hl. cbn. by rewrite split_byte_name, Ht.
  - inversion_clear Hl. rewrite strings_Join_cons by apply not_eq_sym, app_cons_not_nil.
    rewrite string_app_assoc. change (String slash ?x +:+ t) with (String slash (x +:+ t)).
    rewrite split_byte_app by done. by rewrite IH.
Qed.

Lemma strings_Join_app l l' : l ≠ [] → l' ≠ [] →
  strings_Join (l ++ l') "/" = strings_Join l "/" +:+ String slash (strings_Join l' "/").
Proof.
  intros Hl Hl'. induction l as [|e l IH]; [done|]. destruct l as [|e' l].
  - by apply strings_Join_cons.
  - rewrite (strings_Join_cons e (e' :: l)) by done. cbn [app] in *.
    rewrite strings_Join_cons, IH by done. by rewrite string_app_assoc.
Qed.

Lemma Join_sibling parent name sfx rest :
  strings_Join (parent ++ (name +:+ sfx) :: rest) "/" =
  strings_Join (parent ++ [name]) "/" +:+ strings_Join (sfx :: rest) "/".
Proof.
  induction parent as [|e parent IH]; cbn [app].
  - destruct rest; [done|]. rewrite !strings_Join_cons by done. cbn. by rewrite string_app_assoc.
  - rewrite !strings_Join_cons by apply not_eq_sym, app_cons_not_nil. rewrite IH. by rewrite string_app_assoc.
Qed.

(** ** Canonical lists of elements *)

Definition plain (e : string) : Prop := e ≠ "" ∧ e ≠ "." ∧ e ≠ "..".

(** The reversed elements cleaning leaves: plain ones, over the parents that could not be
    resolved, of which a rooted path has none. *)
Definition canonical (rooted : bool) (acc : list string) : Prop :=
  ∃ l k, acc = l ++ repeat ".." k ∧ Forall plain l ∧ (rooted = true → k = 0).

Lemma clean_step_canonical rooted acc e :
  canonical rooted acc → canonical rooted (clean_step rooted acc e).
Proof.
  intros (l & k & -> & Hl & Hk). unfold clean_step. case_bool_decide as He.
  { by exists l, k. }
  case_bool_decide as Hd.
  - destruct l as [|x l]; simpl.
    + destruct k as [|k]; simpl.
      * destruct rooted; [by exists [], 0|by exists [], 1].
      * exists [], (S (S k)). split_and!; [done..|]. intros Hr. by specialize (Hk Hr).
    + inversion_clear Hl as [|? ? Hx Hl']. rewrite bool_decide_eq_false_2 by apply Hx.
      by exists l, k.
  - exists (e :: l), k. split_and!; [done| |done]. constructor; [|done].
    unfold plain. tauto.
Qed.

Lemma clean_fold_canonical rooted elems acc :
  canonical rooted acc → canonical rooted (foldl (clean_step rooted) acc elems).
Proof.
  revert acc. induction elems as [|e elems IH]; intros acc Hacc; simpl; [done|].
  by apply IH, clean_step_canonical.
Qed.

Lemma clean_step_plain rooted acc e : plain e → clean_step rooted acc e = e :: acc.
Proof.
  intros (H1 & H2 & H3). unfold clean_step.
  rewrite !bool_decide_eq_false_2; [done|done|]. by intros [|].
Qed.

Lemma clean_fold_plain rooted l acc :
  Forall plain l → foldl (clean_step rooted) acc l = rev l ++ acc.
Proof.
  intros Hl. revert acc. induction Hl as [|e l He Hl IH]; intros acc; simpl; [done|].
  rewrite clean_step_plain by done. rewrite IH. by rewrite <- app_assoc.
Qed.

Lemma clean_fold_parents k j :
  foldl (clean_step false) (repeat ".." j) (repeat ".." k) = repeat ".." (j + k).
Proof.
  revert j. induction k as [|k IH]; intros j; simpl; [by rewrite Nat.add_0_r|].
  replace (clean_step false (repeat ".." j) "..") with (repeat ".." (S j)) by by destruct j.
  rewrite IH. f_equal. lia.
Qed.

Lemma repeat_rev {A} (x : A) k : rev (repeat x k) = repeat x k.
Proof. induction k as [|k IH]; simpl; [done|]. rewrite IH. by rewrite <- repeat_cons. Qed.

(** Cleaning leaves canonical elements as they are. *)
Lemma clean_fold_fix rooted acc :
  canonical rooted acc → foldl (clean_step rooted) [] (rev acc) = acc.
Proof.
  intros (l & k & -> & Hl & Hk). rewrite rev_app_distr, repeat_rev, foldl_app.
  destruct rooted.
  - rewrite (Hk eq_refl). simpl. rewrite clean_fold_plain by by apply Forall_rev.
    by rewrite rev_involutive.
  - change [] with (repeat ".." 0). rewrite clean_fold_parents. simpl.
    rewrite clean_fold_plain by by apply Forall_rev. by rewrite rev_involutive.
Qed.

(** ** The elements of a path *)

Lemma clean_step_from (P : string → Prop) rooted acc e :
  P ".." → Forall P acc → P e → Forall P (clean_step rooted acc e).
Proof.
  intros Hp Hacc He. unfold clean_step. repeat case_bool_decide; try done; [|by constructor].
  destruct acc as [|x acc]; [destruct rooted; repeat constructor; done|].
  case_bool_decide; [by constructor|]. by inversion Hacc.
Qed.

Lemma elements_no_slash p : Forall (no_byte slash) (path_elements p).
Proof.
  unfold path_elements, clean_elems. apply Forall_rev.
  assert (∀ l acc, Forall (no_byte slash) l → Forall (no_byte slash) acc →
    Forall (no_byte slash) (foldl (clean_step (IsAbs p)) acc l)) as Hfold.
  { induction l as [|e l IH]; intros acc Hl Hacc; simpl; [done|].
    inversion_clear Hl as [|? ? He Hl']. apply IH; [done|].
    apply clean_step_from; [|done..]. unfold no_byte, slash. simpl.
    intros Hin. repeat (apply elem_of_cons in Hin as [?|Hin]; [discriminate|]).
    by apply not_elem_of_nil in Hin. }
  apply Hfold; [|constructor]. apply Forall_forall. intros e He. by eapply split_byte_no_sep.
Qed.

Lemma elements_canonical p : canonical (IsAbs p) (rev (path_elements p)).
Proof.
  unfold path_elements, clean_elems. rewrite rev_involutive. apply clean_fold_canonical.
  by exists [], 0.
Qed.

Lemma canonical_plain acc : canonical true acc → Forall plain acc.
Proof. intros (l & k & -> & Hl & Hk). rewrite (Hk eq_refl). simpl. by rewrite app_nil_r. Qed.

(** A rooted path has plain elements. *)
Lemma elements_plain p : IsAbs p = true → Forall plain (path_elements p).
Proof.
  intros Hp. pose proof (elements_canonical p) as Hc. rewrite Hp in Hc.
  apply canonical_plain, Forall_rev in Hc. by rewrite rev_involutive in Hc.
Qed.

Lemma canonical_nonempty rooted acc e : canonical rooted acc → e ∈ acc → e ≠ "".
Proof.
  intros (l & k & -> & Hl & Hk) [He|He]%elem_of_app.
  - rewrite Forall_forall in Hl. by apply (Hl e He).
  - apply list_elem_of_In, repeat_spec in He. by subst.
Qed.

Lemma IsAbs_of_elems rooted l :
  canonical rooted (rev l) → Forall (no_byte slash) l → IsAbs (of_elems rooted l) = rooted.
Proof.
  intros Hc Hl. destruct rooted; [done|]. destruct l as [|e l]; [done|].
  assert (e ≠ "") as He.
  { eapply canonical_nonempty; [exact Hc|]. simpl. apply elem_of_app. right. constructor. }
  inversion_clear Hl as [|? ? Hns _]. unfold no_byte in Hns. destruct e as [|c e]; [done|].
  simpl in Hns. apply not_elem_of_cons in Hns as [Hc' _]. unfold IsAbs, of_elems.
  assert (∃ t, strings_Join (String c e :: l) "/" = String c t) as [t ->].
  { destruct l; simpl; eexists; reflexivity. }
  cbn [HasPrefix]. destruct (ascii_dec "/" c) as [Heq|]; [|done]. by destruct Hc'.
Qed.

Lemma elements_of_elems rooted l :
  canonical rooted (rev l) → Forall (no_byte slash) l → path_elements (of_elems rooted l) = l.
Proof.
  intros Hc Hl. pose proof (IsAbs_of_elems _ _ Hc Hl) as Habs. unfold path_elements. rewrite Habs.
  clear Habs. unfold clean_elems.
  assert (∀ r, foldl (clean_step r) [] ("" :: l) = foldl (clean_step r) [] l) as Hskip by done.
  assert (∀ r, foldl (clean_step r) [] [""] = []) as Hempty by done.
  pose proof (clean_fold_fix rooted (rev l) Hc) as Hfix. rewrite rev_involutive in Hfix.
  destruct rooted; simpl of_elems.
  - change ("/" +:+ strings_Join l "/") with ("" +:+ String slash (strings_Join l "/")).
    rewrite split_byte_app_sep. change (split_byte slash "") with [""].
    destruct l as [|e l]; [done|].
    rewrite (split_Join slash) by done. simpl app. by rewrite Hskip, Hfix, rev_involutive.
  - destruct l as [|e l]; [done|].
    change (of_elems false (e :: l)) with (strings_Join (e :: l) (String slash "")).
    rewrite (split_Join slash) by done. by rewrite Hfix, rev_involutive.
Qed.

Lemma Clean_of_elems rooted l :
  canonical rooted (rev l) → Forall (no_byte slash) l → Clean (of_elems rooted l) = of_elems rooted l.
Proof. intros. unfold Clean. by rewrite IsAbs_of_elems, elements_of_elems. Qed.

(** Cleaning keeps the elements, and is idempotent. *)
Lemma elements_Clean p : path_elements (Clean p) = path_elements p.
Proof.
  unfold Clean. apply elements_of_elems; [apply elements_canonical|apply elements_no_slash].
Qed.
Lemma IsAbs_Clean p : IsAbs (Clean p) = IsAbs p.
Proof.
  unfold Clean. apply IsAbs_of_elems; [apply elements_canonical|apply elements_no_slash].
Qed.
Lemma Clean_idemp p : Clean (Clean p) = Clean p.
Proof. unfold Clean at 1. by rewrite elements_Clean, IsAbs_Clean. Qed.

(** ** Joining *)

Lemma IsAbs_app p q : p ≠ "" → IsAbs (p +:+ q) = IsAbs p.
Proof. destruct p as [|c p]; [done|]. intros _. unfold IsAbs. change (String c p +:+ q) with (String c (p +:+ q)).
  cbn [HasPrefix]. by case_match. Qed.

(** Elements that climb nowhere are added after those of the root. *)
Lemma clean_fold_below rooted base l acc :
  ".." ∉ foldl (clean_step false) acc l → 
  foldl (clean_step rooted) (acc ++ base) l = foldl (clean_step false) acc l ++ base.
Proof.
  revert acc. induction l as [|e l IH]; intros acc Hn; simpl in *; [done|].
  assert (∀ a, ".." ∈ a → ".." ∈ foldl (clean_step false) a l) as Hstuck.
  { clear. induction l as [|e l IH]; intros a Ha; simpl; [done|]. apply IH.
    unfold clean_step. repeat case_bool_decide; try done; [|by constructor].
    destruct a as [|x a]; [by constructor|]. case_bool_decide as Hx; [by constructor|].
    apply elem_of_cons in Ha as [Ha|Ha]; congruence. }
  unfold clean_step at 2 4. unfold clean_step at 2 in Hn.
  repeat case_bool_decide; try by apply IH.
  - destruct acc as [|x acc].
    + exfalso. apply Hn, Hstuck. constructor.
    + simpl. case_bool_decide as Hx.
      * exfalso. apply Hn, Hstuck. constructor.
      * by apply IH.
  - by apply (IH (e :: acc)).
Qed.

Lemma path_Join_two root p :
  root ≠ "" → p ≠ "" → path_Join [root; p] = Clean (root +:+ String slash p).
Proof.
  intros Hr Hp. unfold path_Join. simpl. rewrite !bool_decide_eq_false_2 by done. done.
Qed.

Lemma path_Join_empty root : root ≠ "" → path_Join [root; ""] = Clean root.
Proof. intros Hr. unfold path_Join. simpl. by rewrite bool_decide_eq_false_2. Qed.

Lemma IsAbs_Join root p : IsAbs root = true → IsAbs (path_Join [root; p]) = true.
Proof.
  intros Hr. assert (root ≠ "") as Hne by by intros ->. destruct (decide (p = "")) as [->|Hp].
  - by rewrite path_Join_empty, IsAbs_Clean by done.
  - by rewrite path_Join_two, IsAbs_Clean, IsAbs_app by done.
Qed.

(** A relative path that does not climb out of the current directory stays below the root it
    is joined to. *)
Lemma elements_Join root p :
  root ≠ "" → IsAbs p = false → ".." ∉ path_elements p →
  path_elements (path_Join [root; p]) = path_elements root ++ path_elements p.
Proof.
  intros Hr Hp Hn. destruct (decide (p = "")) as [->|Hne].
  { rewrite path_Join_empty, elements_Clean by done. by rewrite app_nil_r. }
  rewrite path_Join_two, elements_Clean by done. unfold path_elements, clean_elems in *.
  rewrite IsAbs_app, split_byte_app_sep, foldl_app, Hp in * by done.
  set (base := foldl _ [] (split_byte slash root)).
  change base with ([] ++ base). rewrite clean_fold_below.
  - by rewrite rev_app_distr.
  - intros Hin. apply Hn. by apply list_elem_of_In, in_rev; rewrite rev_involutive; apply list_elem_of_In.
Qed.

(** ** Relative paths *)

Lemma strip_common_spec base targ b t :
  strip_common base targ = (b, t) → ∃ c, base = c ++ b ∧ targ = c ++ t.
Proof.
  revert targ. induction base as [|x base IH]; intros targ; simpl.
  { intros [= <- <-]. by exists []. }
  destruct targ as [|y targ]; [intros [= <- <-]; by exists []|].
  case_decide as Hxy; [|intros [= <- <-]; by exists []].
  intros (c & -> & ->)%IH. exists (x :: c). by subst.
Qed.

Lemma strip_common_prefix c t : strip_common c (c ++ t) = ([], t).
Proof. induction c as [|x c IH]; simpl; [by destruct t|]. by rewrite decide_True. Qed.

(** The test of the code on a relative path. *)
Definition escapes (rel : string) : bool := bool_decide (rel = "..") || HasPrefix rel "../".

Lemma escapes_parent l : escapes (of_elems false (".." :: l)) = true.
Proof. by destruct l. Qed.

Lemma escapes_plain l : Forall plain l → Forall (no_byte slash) l → escapes (of_elems false l) = false.
Proof.
  intros Hl Hns. destruct l as [|e l]; [done|].
  assert (split_byte slash (of_elems false (e :: l)) = e :: l) as Hsplit by by apply split_Join.
  inversion_clear Hl as [|? ? (_ & _ & He) _].
  apply not_true_iff_false. unfold escapes. intros [Heq%bool_decide_eq_true|Hp]%orb_true_iff.
  - rewrite Heq in Hsplit. by injection Hsplit as <- _.
  - apply HasPrefix_spec in Hp as [t Ht]. rewrite Ht in Hsplit.
    change ("../" +:+ t) with (".." +:+ String slash t) in Hsplit.
    rewrite split_byte_app_sep in Hsplit. by injection Hsplit as <- _.
Qed.

(** Among rooted paths, the relative path escapes exactly when the target is not below the
    base. *)
Lemma Rel_spec base targ :
  IsAbs base = true → IsAbs targ = true →
  ∃ rel, Rel base targ = Some rel ∧ (escapes rel = false ↔ path_elements base `prefix_of` path_elements targ).
Proof.
  intros Hb Ht. unfold Rel. rewrite Hb, Ht. cbn [Bool.eqb negb].
  destruct (strip_common (path_elements base) (path_elements targ)) as [b t] eqn:Hs.
  pose proof (elements_plain _ Hb) as Hplain. pose proof (elements_plain _ Ht) as Hplain'.
  apply strip_common_spec in Hs as Hc. destruct Hc as (c & Hbase & Htarg).
  rewrite bool_decide_eq_false_2.
  2: { intros Hin. rewrite Hbase, Forall_forall in Hplain.
       destruct (Hplain "..") as (_ & _ & ?); [|done]. apply elem_of_app. by right. }
  eexists. split; [done|]. destruct b as [|x b].
  - rewrite app_nil_r in Hbase. split; [|intros _].
    + intros _. rewrite Hbase, Htarg. by exists t.
    + rewrite Htarg in Hplain'. apply Forall_app in Hplain' as [_ Hpt].
      pose proof (elements_no_slash targ) as Hns. rewrite Htarg in Hns.
      apply Forall_app in Hns as [_ Hns]. by apply escapes_plain.
  - split.
    + intros He. exfalso. cbn [map app] in He. by rewrite escapes_parent in He.
    + intros [t' Ht']. rewrite Ht', strip_common_prefix in Hs. discriminate.
Qed.
