(* ===== verification/Domain.v ===== *)
(** * The data model of the orchestrator daemon: [internal/domain]

    One Rocq type per Go type, with the fields of the struct. A Go string enumeration is open
    (any string converts to it), so each enumeration has a constructor for the strings that
    are not one of its constants, which it carries the proof of: every string has one
    representation. [*_text] is the conversion to [string]. Times are in nanoseconds, 0 being the zero time. A nil
    and an empty slice or map are identified, which the code never distinguishes except in
    the JSON it prints. *)
From S2P Require Export GoStrings.
From stdpp Require Export gmap.

(** The strings that are not one of the constants of an enumeration. *)
Definition other_than (constants : list string) (raw : string) : Prop :=
  Is_true (negb (existsb (String.eqb raw) constants)).
#[export] Instance other_than_irrel constants raw : ProofIrrel (other_than constants raw).
Proof. unfold other_than. apply _. Qed.
#[export] Instance other_than_dec constants raw : Decision (other_than constants raw).
Proof. unfold other_than. apply _. Defined.

(** Two strings of an enumeration are compared as strings. *)
Ltac enum_eq_dec :=
  intros x y; destruct x, y;
  first
    [ left; reflexivity | right; discriminate
    | match goal with
      | |- Decision (_ ?raw _ = _ ?raw' _) =>
        destruct (decide (raw = raw')) as [<-|];
        [left; f_equal; apply proof_irrel | right; intros [=]; done]
      end ].

(** Every string has one representation: the text determines the value. *)
Ltac enum_text_inj :=
  intros x y; destruct x, y; simpl; intros Htext;
  first
    [ reflexivity | discriminate
    | subst; contradiction | rewrite <- Htext in *; contradiction
    | subst; f_equal; apply proof_irrel ].

(** ** Run states, [run.go] *)

Definition RunState_constants : list string :=
  ["created"; "running"; "paused_for_gate"; "completed"; "failed"; "cancelled"].

Inductive RunState :=
  | RunStateCreated
  | RunStateRunning
  | RunStatePausedForGate
  | RunStateCompleted
  | RunStateFailed
  | RunStateCancelled
  | RunStateOther (raw : string) (other : other_than RunState_constants raw).

#[export] Instance RunState_eq_dec : EqDecision RunState.
Proof. enum_eq_dec. Defined.

Definition RunState_text (s : RunState) : string :=
  match s with
  | RunStateCreated => "created"
  | RunStateRunning => "running"
  | RunStatePausedForGate => "paused_for_gate"
  | RunStateCompleted => "completed"
  | RunStateFailed => "failed"
  | RunStateCancelled => "cancelled"
  | RunStateOther raw _ => raw
  end.

#[export] Instance RunState_text_inj : Inj (=) (=) RunState_text.
Proof. enum_text_inj. Qed.

(** [RunState.IsTerminal]. *)
Definition RunState_IsTerminal (s : RunState) : bool :=
  bool_decide (s = RunStateCompleted) || bool_decide (s = RunStateFailed)
  || bool_decide (s = RunStateCancelled).

(** ** Step states, [step.go] *)

Definition StepState_constants : list string :=
  ["pending"; "dispatching"; "running"; "collecting_artifacts"; "validating"; "completed";
   "completed_with_warnings"; "needs_approval"; "needs_manual_attention"; "failed_retryable";
   "failed_terminal"; "failed_validation"; "failed_adapter"; "failed_bridge"; "timeout";
   "cancelled"].

Inductive StepState :=
  | StepStatePending
  | StepStateDispatching
  | StepStateRunning
  | StepStateCollectingArtifacts
  | StepStateValidating
  | StepStateCompleted
  | StepStateCompletedWithWarnings
  | StepStateNeedsApproval
  | StepStateNeedsManualAttention
  | StepStateFailedRetryable
  | StepStateFailedTerminal
  | StepStateFailedValidation
  | StepStateFailedAdapter
  | StepStateFailedBridge
  | StepStateTimeout
  | StepStateCancelled
  | StepStateOther (raw : string) (other : other_than StepState_constants raw).

#[export] Instance StepState_eq_dec : EqDecision StepState.
Proof. enum_eq_dec. Defined.

Definition StepState_text (s : StepState) : string :=
  match s with
  | StepStatePending => "pending"
  | StepStateDispatching => "dispatching"
  | StepStateRunning => "running"
  | StepStateCollectingArtifacts => "collecting_artifacts"
  | StepStateValidating => "validating"
  | StepStateCompleted => "completed"
  | StepStateCompletedWithWarnings => "completed_with_warnings"
  | StepStateNeedsApproval => "needs_approval"
  | StepStateNeedsManualAttention => "needs_manual_attention"
  | StepStateFailedRetryable => "failed_retryable"
  | StepStateFailedTerminal => "failed_terminal"
  | StepStateFailedValidation => "failed_validation"
  | StepStateFailedAdapter => "failed_adapter"
  | StepStateFailedBridge => "failed_bridge"
  | StepStateTimeout => "timeout"
  | StepStateCancelled => "cancelled"
  | StepStateOther raw _ => raw
  end.

#[export] Instance StepState_text_inj : Inj (=) (=) StepState_text.
Proof. enum_text_inj. Qed.

(** The zero value of the type, the empty string. *)
Definition StepState_zero : StepState := StepStateOther "" I.

(** [StepState.IsTerminal]. *)
Definition StepState_IsTerminal (s : StepState) : bool :=
  match s with
  | StepStateCompleted | StepStateCompletedWithWarnings | StepStateFailedTerminal
  | StepStateFailedValidation | StepStateFailedAdapter | StepStateFailedBridge
  | StepStateFailedRetryable | StepStateTimeout | StepStateCancelled => true
  | _ => false
  end.

(** ** The other enumerations *)

(** [gate.go]. *)
Definition GateState_constants : list string := ["pending"; "approved"; "rejected"].
Inductive GateState :=
  | GateStatePending
  | GateStateApproved
  | GateStateRejected
  | GateStateOther (raw : string) (other : other_than GateState_constants raw).

#[export] Instance GateState_eq_dec : EqDecision GateState.
Proof. enum_eq_dec. Defined.

Definition GateState_text (s : GateState) : string :=
  match s with
  | GateStatePending => "pending"
  | GateStateApproved => "approved"
  | GateStateRejected => "rejected"
  | GateStateOther raw _ => raw
  end.

(** [artifact.go]. *)
Definition ArtifactType_constants : list string :=
  ["diff"; "stdout"; "stderr"; "result_json"; "input_json"; "changed_files"; "validations"].
Inductive ArtifactType :=
  | ArtifactTypeDiff
  | ArtifactTypeStdout
  | ArtifactTypeStderr
  | ArtifactTypeResultJSON
  | ArtifactTypeInputJSON
  | ArtifactTypeChangedFiles
  | ArtifactTypeValidations
  | ArtifactTypeOther (raw : string) (other : other_than ArtifactType_constants raw).

#[export] Instance ArtifactType_eq_dec : EqDecision ArtifactType.
Proof. enum_eq_dec. Defined.

(** [validation.go]. *)
Definition ValidationState_constants : list string :=
  ["not_run"; "running"; "passed"; "failed"; "errored"; "skipped"; "timeout"].
Inductive ValidationState :=
  | ValidationStateNotRun
  | ValidationStateRunning
  | ValidationStatePassed
  | ValidationStateFailed
  | ValidationStateErrored
  | ValidationStateSkipped
  | ValidationStateTimeout
  | ValidationStateOther (raw : string) (other : other_than ValidationState_constants raw).

#[export] Instance ValidationState_eq_dec : EqDecision ValidationState.
Proof. enum_eq_dec. Defined.

Record ValidationResult := MkValidationResult {
  vr_Name : string;
  vr_Command : string;
  vr_State : ValidationState;
  vr_Passed : bool;
  vr_ExitCode : Z;
  vr_StdoutRef : string;
  vr_StderrRef : string;
  vr_Error : string;
  vr_DurationMs : Z;
  vr_UpdatedAt : Z;
}.
#[export] Instance ValidationResult_eta : Eta ValidationResult := λ r,
  MkValidationResult (vr_Name r) (vr_Command r) (vr_State r) (vr_Passed r) (vr_ExitCode r)
    (vr_StdoutRef r) (vr_StderrRef r) (vr_Error r) (vr_DurationMs r) (vr_UpdatedAt r).

Record ValidationCommand := MkValidationCommand {
  vc_Name : string;
  vc_Command : string;
  vc_TimeoutSeconds : Z;
}.

(** [submission.go]. *)
Definition SubmissionSource_constants : list string :=
  ["task_file"; "task_json"; "prompt_file"; "goal"; "stdin"].
Inductive SubmissionSourceKind :=
  | SubmissionSourceTaskFile
  | SubmissionSourceTaskJSON
  | SubmissionSourcePromptFile
  | SubmissionSourceGoal
  | SubmissionSourceStdin
  | SubmissionSourceOther (raw : string) (other : other_than SubmissionSource_constants raw).

Definition SubmissionSource_text (k : SubmissionSourceKind) : string :=
  match k with
  | SubmissionSourceTaskFile => "task_file"
  | SubmissionSourceTaskJSON => "task_json"
  | SubmissionSourcePromptFile => "prompt_file"
  | SubmissionSourceGoal => "goal"
  | SubmissionSourceStdin => "stdin"
  | SubmissionSourceOther raw _ => raw
  end.

(** The conversion from [string]. *)
Definition SubmissionSource_of (raw : string) : SubmissionSourceKind :=
  match decide (other_than SubmissionSource_constants raw) with
  | left other => SubmissionSourceOther raw other
  | right _ =>
    if decide (raw = "task_file") then SubmissionSourceTaskFile
    else if decide (raw = "task_json") then SubmissionSourceTaskJSON
    else if decide (raw = "prompt_file") then SubmissionSourcePromptFile
    else if decide (raw = "goal") then SubmissionSourceGoal
    else SubmissionSourceStdin
  end.

Record SubmissionProvenance := MkSubmissionProvenance {
  sp_SourceKind : SubmissionSourceKind;
  sp_SourceName : string;
  sp_OriginalFormat : string;
  sp_OriginalInput : string;
  sp_DefaultsApplied : list string;
}.

(** ** Task specifications, [task.go] *)

Record TaskContext := MkTaskContext { tc_Summary : string }.

Record TaskSpec := MkTaskSpec {
  ts_Version : string;
  ts_ProjectID : string;
  ts_RunID : string;
  ts_PhaseID : string;
  ts_StepID : string;
  ts_Title : string;
  ts_Goal : string;
  ts_Context : TaskContext;
  ts_Constraints : list string;
  ts_AllowedPaths : list string;
  ts_ForbiddenPaths : list string;
  ts_Validations : list ValidationCommand;
  ts_Acceptance : list string;
  ts_StopConditions : list string;
  ts_PolicyBundle : string;
  ts_AdapterProfile : string;
  ts_TimeoutSeconds : Z;
  ts_IsSimulation : bool;
  ts_SubmissionProvenance : option SubmissionProvenance;
}.

(** ** Steps, phases and runs *)

Record Step := MkStep {
  step_ID : string;
  step_PhaseID : string;
  step_Title : string;
  step_Goal : string;
  step_State : StepState;
  step_Policy : string;
  step_Adapter : string;
  step_TimeoutSeconds : Z;
  step_Validations : list ValidationCommand;
  step_StatusReason : string;
  step_CreatedAt : Z;
  step_UpdatedAt : Z;
  step_TaskSpecSnapshot : option TaskSpec;
  step_SubmissionProvenance : option SubmissionProvenance;
}.
#[export] Instance Step_eta : Eta Step := λ s,
  MkStep (step_ID s) (step_PhaseID s) (step_Title s) (step_Goal s) (step_State s)
    (step_Policy s) (step_Adapter s) (step_TimeoutSeconds s) (step_Validations s)
    (step_StatusReason s) (step_CreatedAt s) (step_UpdatedAt s) (step_TaskSpecSnapshot s)
    (step_SubmissionProvenance s).

(** The field [Steps] is never filled in. *)
Record Phase := MkPhase {
  phase_ID : string;
  phase_RunID : string;
  phase_Name : string;
  phase_SeqOrder : Z;
  phase_CreatedAt : Z;
  phase_UpdatedAt : Z;
  phase_Steps : list Step;
}.

Record Run := MkRun {
  run_ID : string;
  run_ProjectID : string;
  run_ConversationID : string;
  run_PlannerID : string;
  run_ExecutorID : string;
  run_State : RunState;
  run_CreatedAt : Z;
  run_UpdatedAt : Z;
  run_RecoveryNotes : string;
  run_Phases : list Phase;
}.
#[export] Instance Run_eta : Eta Run := λ r,
  MkRun (run_ID r) (run_ProjectID r) (run_ConversationID r) (run_PlannerID r)
    (run_ExecutorID r) (run_State r) (run_CreatedAt r) (run_UpdatedAt r)
    (run_RecoveryNotes r) (run_Phases r).

(** ** Results and attempts *)

(** [provisioning.go] and [workspace.go]. *)
Record ProvisioningResult := MkProvisioningResult {
  pr_Success : bool;
  pr_Summary : string;
  pr_Log : list string;
  pr_DurationMs : Z;
  pr_EnvironmentFiles : list string;
  pr_Symlinks : list string;
  pr_PostCreateHook : string;
  pr_HookStatus : string;
}.

Record ProvisioningSpec := MkProvisioningSpec {
  ps_Copy : list string;
  ps_Symlinks : list string;
  ps_PostCreate : string;
}.

(** [result_spec.go]. *)
Record ResultSpec := MkResultSpec {
  rs_Version : string;
  rs_RunID : string;
  rs_PhaseID : string;
  rs_StepID : string;
  rs_AttemptID : string;
  rs_Adapter : string;
  rs_RequestedAdapter : string;
  rs_State : StepState;
  rs_Provisioning : option ProvisioningResult;
  rs_Summary : string;
  rs_FilesChanged : list string;
  rs_Validations : list ValidationResult;
  rs_NeedsHumanDecision : bool;
  rs_Warnings : list string;
  rs_Questions : list string;
  rs_Artifacts : gmap string string;
  rs_RawOutput : string;
  rs_RawOutputRef : string;
  rs_IsSimulation : bool;
  rs_Retryable : bool;
  rs_CreatedAt : Z;
  rs_UpdatedAt : Z;
}.
#[export] Instance ResultSpec_eta : Eta ResultSpec := λ r,
  MkResultSpec (rs_Version r) (rs_RunID r) (rs_PhaseID r) (rs_StepID r) (rs_AttemptID r)
    (rs_Adapter r) (rs_RequestedAdapter r) (rs_State r) (rs_Provisioning r) (rs_Summary r)
    (rs_FilesChanged r) (rs_Validations r) (rs_NeedsHumanDecision r) (rs_Warnings r)
    (rs_Questions r) (rs_Artifacts r) (rs_RawOutput r) (rs_RawOutputRef r)
    (rs_IsSimulation r) (rs_Retryable r) (rs_CreatedAt r) (rs_UpdatedAt r).

(** [&domain.ResultSpec{}]. *)
Definition ResultSpec_zero : ResultSpec :=
  MkResultSpec "" "" "" "" "" "" "" StepState_zero None "" [] [] false [] [] ∅ "" "" false false
    zero_time zero_time.

Record Attempt := MkAttempt {
  att_ID : string;
  att_StepID : string;
  att_Number : Z;
  att_Adapter : string;
  att_State : StepState;
  att_Result : option ResultSpec;
  att_CreatedAt : Z;
  att_UpdatedAt : Z;
}.
#[export] Instance Attempt_eta : Eta Attempt := λ a,
  MkAttempt (att_ID a) (att_StepID a) (att_Number a) (att_Adapter a) (att_State a)
    (att_Result a) (att_CreatedAt a) (att_UpdatedAt a).

(** ** Gates, artifacts and benchmark scores *)

Record Gate := MkGate {
  gate_ID : string;
  gate_RunID : string;
  gate_StepID : string;
  gate_Description : string;
  gate_State : GateState;
  gate_CreatedAt : Z;
  gate_ResolvedAt : option Z;
}.
#[export] Instance Gate_eta : Eta Gate := λ g,
  MkGate (gate_ID g) (gate_RunID g) (gate_StepID g) (gate_Description g) (gate_State g)
    (gate_CreatedAt g) (gate_ResolvedAt g).

Record Artifact := MkArtifact {
  art_ID : string;
  art_AttemptID : string;
  art_Type : ArtifactType;
  art_Name : string;
  art_Path : string;
  art_Size : Z;
  art_Hash : string;
  art_MimeType : string;
  art_CreatedAt : Z;
  art_UpdatedAt : Z;
}.

(** [benchmark.go]; [CostCents] is a float of which the daemon only ever stores zero. *)
Record BenchmarkScore := MkBenchmarkScore {
  bm_ID : string;
  bm_Adapter : string;
  bm_PhaseID : string;
  bm_AttemptID : string;
  bm_DurationMs : Z;
  bm_ValidationsHit : Z;
  bm_ValidationsMax : Z;
  bm_CostCents : Z;
  bm_FailureReason : string;
  bm_IsSimulation : bool;
  bm_CreatedAt : Z;
}.
#[export] Instance BenchmarkScore_eta : Eta BenchmarkScore := λ b,
  MkBenchmarkScore (bm_ID b) (bm_Adapter b) (bm_PhaseID b) (bm_AttemptID b)
    (bm_DurationMs b) (bm_ValidationsHit b) (bm_ValidationsMax b) (bm_CostCents b)
    (bm_FailureReason b) (bm_IsSimulation b) (bm_CreatedAt b).

Definition BenchmarkScore_Successful (b : BenchmarkScore) : bool :=
  bool_decide (bm_FailureReason b = "") && (bm_ValidationsMax b <=? bm_ValidationsHit b)%Z.

(** ** Policies, [policy.go] *)

Record Policy := MkPolicy {
  pol_Version : string;
  pol_Name : string;
  ContinueWhen_AllValidationsPass : bool;
  ContinueWhen_MaxChangedFiles : Z;
  ContinueWhen_NoForbiddenPathsTouched : bool;
  ContinueWhen_NoMigrationsDetected : bool;
  GateWhen_AnyValidationFails : bool;
  GateWhen_DependencyFilesChanged : bool;
  GateWhen_MigrationsDetected : bool;
  GateWhen_ChangedFilesOver : Z;
  GateWhen_UnresolvedQuestionsPresent : bool;
  RetryWhen_AdapterProcessFailed : bool;
  RetryWhen_TimeoutOnce : bool;
  FailWhen_TimeoutCountOver : Z;
  FailWhen_ArtifactPersistenceFailed : bool;
}.

Definition DefaultPolicy : Policy := {|
  pol_Version := "v1";
  pol_Name := "default_safe_refactor";
  ContinueWhen_AllValidationsPass := true;
  ContinueWhen_MaxChangedFiles := 12;
  ContinueWhen_NoForbiddenPathsTouched := true;
  ContinueWhen_NoMigrationsDetected := true;
  GateWhen_AnyValidationFails := true;
  GateWhen_DependencyFilesChanged := true;
  GateWhen_MigrationsDetected := true;
  GateWhen_ChangedFilesOver := 12;
  GateWhen_UnresolvedQuestionsPresent := true;
  RetryWhen_AdapterProcessFailed := true;
  RetryWhen_TimeoutOnce := true;
  FailWhen_TimeoutCountOver := 2;
  FailWhen_ArtifactPersistenceFailed := true;
|}.

(** ** JSON

    What [json.Unmarshal] reads back of a value [json.Marshal] wrote: the same value, with the
    bytes of its strings that are no UTF-8 replaced. The keys of a map are written in their
    order; of keys that become equal the last one wins. Only the types the database and the
    task file hold as JSON are instances. *)
Class JSON (A : Type) := json_copy : A → A.

#[export] Instance string_JSON : JSON string := ToValidUTF8.
#[export] Instance list_JSON {A} `{JSON A} : JSON (list A) := map json_copy.
#[export] Instance option_JSON {A} `{JSON A} : JSON (option A) := fmap json_copy.
#[export] Instance map_JSON : JSON (gmap string string) := λ m,
  foldl (λ m' '(k, v), <[json_copy k := json_copy v]> m') ∅
    (sort_by (λ x y, String.leb x.1 y.1) (map_to_list m)).
#[export] Instance ValidationCommand_JSON : JSON ValidationCommand := λ c,
  MkValidationCommand (json_copy (vc_Name c)) (json_copy (vc_Command c)) (vc_TimeoutSeconds c).
#[export] Instance SubmissionProvenance_JSON : JSON SubmissionProvenance := λ p,
  MkSubmissionProvenance (SubmissionSource_of (json_copy (SubmissionSource_text (sp_SourceKind p))))
    (json_copy (sp_SourceName p)) (json_copy (sp_OriginalFormat p))
    (json_copy (sp_OriginalInput p)) (json_copy (sp_DefaultsApplied p)).
#[export] Instance TaskSpec_JSON : JSON TaskSpec := λ t,
  MkTaskSpec (json_copy (ts_Version t)) (json_copy (ts_ProjectID t)) (json_copy (ts_RunID t))
    (json_copy (ts_PhaseID t)) (json_copy (ts_StepID t)) (json_copy (ts_Title t))
    (json_copy (ts_Goal t)) (MkTaskContext (json_copy (tc_Summary (ts_Context t))))
    (json_copy (ts_Constraints t)) (json_copy (ts_AllowedPaths t))
    (json_copy (ts_ForbiddenPaths t)) (json_copy (ts_Validations t))
    (json_copy (ts_Acceptance t)) (json_copy (ts_StopConditions t))
    (json_copy (ts_PolicyBundle t)) (json_copy (ts_AdapterProfile t)) (ts_TimeoutSeconds t)
    (ts_IsSimulation t) (json_copy (ts_SubmissionProvenance t)).
#[export] Instance ProvisioningResult_JSON : JSON ProvisioningResult := λ r,
  MkProvisioningResult (pr_Success r) (json_copy (pr_Summary r)) (json_copy (pr_Log r))
    (pr_DurationMs r) (json_copy (pr_EnvironmentFiles r)) (json_copy (pr_Symlinks r))
    (json_copy (pr_PostCreateHook r)) (json_copy (pr_HookStatus r)).
