(* ===== verification/Machine.v ===== *)
(** * The state machine tables: [internal/state/machine.go]

    The two transition tables, the two checks that read them, and the step relation the table
    of step transitions defines. *)
From S2P Require Import GoStrings Domain.
From stdpp Require Import relations.

(** A state that is not a key of the map has the nil slice of targets. *)
Definition ValidRunTransitions (current : RunState) : list RunState :=
  match current with
  | RunStateCreated => [RunStateRunning; RunStateCancelled]
  | RunStateRunning =>
    [RunStatePausedForGate; RunStateCompleted; RunStateFailed; RunStateCancelled]
  | RunStatePausedForGate => [RunStateRunning; RunStateCancelled; RunStateFailed]
  | RunStateCompleted | RunStateFailed | RunStateCancelled => []
  | RunStateOther _ _ => []
  end.

Definition ValidStepTransitions (current : StepState) : list StepState :=
  match current with
  | StepStatePending => [StepStateDispatching; StepStateCancelled]
  | StepStateDispatching =>
    [StepStateRunning; StepStateFailedRetryable; StepStateFailedTerminal;
     StepStateFailedAdapter; StepStateFailedBridge; StepStateCancelled; StepStateTimeout]
  | StepStateRunning =>
    [StepStateCollectingArtifacts; StepStateFailedRetryable; StepStateFailedTerminal;
     StepStateFailedAdapter; StepStateFailedBridge; StepStateCancelled; StepStateTimeout;
     StepStateNeedsManualAttention]
  | StepStateCollectingArtifacts =>
    [StepStateValidating; StepStateFailedRetryable; StepStateFailedTerminal;
     StepStateFailedAdapter; StepStateFailedBridge; StepStateCancelled; StepStateTimeout;
     StepStateNeedsManualAttention]
  | StepStateValidating =>
    [StepStateCompleted; StepStateCompletedWithWarnings; StepStateNeedsApproval;
     StepStateFailedValidation; StepStateFailedRetryable; StepStateFailedTerminal;
     StepStateFailedAdapter; StepStateFailedBridge; StepStateCancelled; StepStateTimeout;
     StepStateNeedsManualAttention]
  | StepStateNeedsApproval =>
    [StepStateCompleted; StepStateCompletedWithWarnings; StepStateFailedValidation;
     StepStateFailedRetryable; StepStateFailedTerminal; StepStateFailedAdapter;
     StepStateFailedBridge; StepStateCancelled]
  | StepStateFailedRetryable => [StepStateDispatching; StepStateCancelled]
  | StepStateCompleted | StepStateCompletedWithWarnings | StepStateFailedTerminal
  | StepStateFailedValidation | StepStateFailedAdapter | StepStateFailedBridge
  | StepStateTimeout | StepStateCancelled | StepStateNeedsManualAttention => []
  | StepStateOther _ _ => []
  end.

(** [for _, target := range targets { if next == target { return nil } }]. *)
Fixpoint is_target {S : Type} `{EqDecision S} (next : S) (targets : list S) : bool :=
  match targets with
  | [] => false
  | target :: rest => if decide (next = target) then true else is_target next rest
  end.

Definition CheckRunTransition (current next : RunState) : option error :=
  if is_target next (ValidRunTransitions current) then None
  else Some (errorw ErrInvalidRunTransition
    ("invalid run transition: cannot transition from " +:+ quoted (RunState_text current)
     +:+ " to " +:+ quoted (RunState_text next))).

Definition CheckStepTransition (current next : StepState) : option error :=
  if is_target next (ValidStepTransitions current) then None
  else Some (errorw ErrInvalidStepTransition
    ("invalid step transition: cannot transition from " +:+ quoted (StepState_text current)
     +:+ " to " +:+ quoted (StepState_text next))).

(** ** The transition relation of the steps *)

Inductive StepTransition : relation StepState :=
  | checked_transition current next :
      CheckStepTransition current next = None → StepTransition current next.

(** A path of checked transitions, as the list of the states entered after the first. *)
Inductive StepPath : StepState → list StepState → StepState → Prop :=
  | path_nil s : StepPath s [] s
  | path_cons s s' l s'' :
      StepTransition s s' → StepPath s' l s'' → StepPath s (s' :: l) s''.

(** The number of transitions left before a sink when no retry is taken. *)
Definition step_rank (s : StepState) : nat :=
  match s with
  | StepStatePending => 6
  | StepStateDispatching => 5
  | StepStateRunning => 4
  | StepStateCollectingArtifacts => 3
  | StepStateValidating => 2
  | StepStateNeedsApproval => 1
  | _ => 0
  end.

Lemma is_target_spec {S : Type} `{EqDecision S} (next : S) targets :
  is_target next targets = true ↔ next ∈ targets.
Proof.
  induction targets as [|t l IH]; simpl.
  - split; [done|]. intros Hin. by apply not_elem_of_nil in Hin.
  - rewrite elem_of_cons, <- IH. case_decide; intuition.
Qed.

Lemma CheckStepTransition_spec current next :
  CheckStepTransition current next = None ↔ next ∈ ValidStepTransitions current.
Proof.
  unfold CheckStepTransition. rewrite <- is_target_spec.
  by destruct (is_target next (ValidStepTransitions current)).
Qed.

Lemma CheckRunTransition_spec current next :
  CheckRunTransition current next = None ↔ next ∈ ValidRunTransitions current.
Proof.
  unfold CheckRunTransition. rewrite <- is_target_spec.
  by destruct (is_target next (ValidRunTransitions current)).
Qed.

Lemma StepTransition_spec current next :
  StepTransition current next ↔ next ∈ ValidStepTransitions current.
Proof.
  rewrite <- CheckStepTransition_spec. split; [by inversion 1|by constructor].
Qed.

(** Turn membership in a concrete list of targets into cases. *)
Ltac targets := simpl; rewrite ?elem_of_cons, ?elem_of_nil.

Lemma StepTransition_rank s s' :
  StepTransition s s' → s ≠ StepStateFailedRetryable → step_rank s' < step_rank s.
Proof.
  rewrite StepTransition_spec. intros Hin Hs.
  destruct s; try done; simpl in Hin;
    repeat (apply elem_of_cons in Hin as [->|Hin]; [simpl; lia|]);
    by apply not_elem_of_nil in Hin.
Qed.

Lemma StepPath_length s l s' :
  StepPath s l s' → s ≠ StepStateFailedRetryable →
  (∀ m, m ∈ l → m = StepStateFailedRetryable → m = s') →
  StepStateFailedRetryable ∉ removelast l → length l + step_rank s' ≤ step_rank s.
Proof.
  induction 1 as [s|s s1 l s' Hstep Hpath IH]; intros Hs Hlast Hnin; simpl; [lia|].
  pose proof (StepTransition_rank _ _ Hstep Hs).
  destruct l as [|s2 l].
  - inversion Hpath; subst. simpl. lia.
  - change (removelast (s1 :: s2 :: l)) with (s1 :: removelast (s2 :: l)) in Hnin.
    apply not_elem_of_cons in Hnin as [Hs1 Hnin].
    assert (length (s2 :: l) + step_rank s' ≤ step_rank s1); [|simpl in *; lia].
    apply IH; [congruence| |done].
    intros m Hm. apply Hlast. by constructor.
Qed.

(** ** Properties *)

(** C26: the states a step cannot leave through a checked transition are exactly the states
    [IsTerminal] accepts without [failed_retryable] (from which a retry is possible), together
    with [needs_manual_attention] and the strings that are no step state. So the table and
    [IsTerminal] disagree on exactly two of the declared states. *)
Theorem step_sinks s :
  (∀ next, ¬ StepTransition s next) ↔
  (StepState_IsTerminal s = true ∧ s ≠ StepStateFailedRetryable)
  ∨ s = StepStateNeedsManualAttention ∨ ∃ raw other, s = StepStateOther raw other.
Proof.
  split.
  - intros Hsink.
    assert (ValidStepTransitions s = []) as Hnil.
    { destruct (ValidStepTransitions s) as [|n l] eqn:Hv; [done|].
      destruct (Hsink n). apply StepTransition_spec. rewrite Hv. constructor. }
    destruct s; try discriminate Hnil; naive_solver.
  - intros Hs next. rewrite StepTransition_spec.
    destruct s; simpl; intros Hin; try by apply not_elem_of_nil in Hin.
    all: destruct Hs as [[? ?]|[?|(? & ? & ?)]]; discriminate || done.
Qed.

(** C27: a step whose state only moves through checked transitions makes at most six of them
    between two visits of [failed_retryable]: every longer execution goes through a retry. *)
Theorem step_executions_bounded s l s' :
  StepPath s l s' → s ≠ StepStateFailedRetryable →
  StepStateFailedRetryable ∉ removelast l → length l ≤ 6.
Proof.
  intros Hpath Hs Hnin.
  destruct (decide (l = [])) as [->|Hl]; [simpl; lia|].
  assert (length l + step_rank s' ≤ step_rank s) as Hle.
  { apply StepPath_length; try done. intros m Hm ->.
    assert (∀ s l s', StepPath s l s' → l ≠ [] → List.last l StepStatePending = s') as Hlastp.
    { clear. induction 1 as [|s s1 l s' Ht Hp IH]; [done|]. intros _.
      destruct l; [by inversion Hp|]. by apply IH. }
    rewrite <- (Hlastp _ _ _ Hpath Hl).
    rewrite (app_removelast_last StepStatePending Hl) in Hm.
    apply elem_of_app in Hm as [Hm|Hm]; [done|]. by apply list_elem_of_singleton in Hm. }
  assert (step_rank s ≤ 6) by (destruct s; simpl; lia). lia.
Qed.

Example step_executions_bounded_witness :
  StepPath StepStatePending [StepStateDispatching; StepStateFailedRetryable]
    StepStateFailedRetryable ∧
  length [StepStateDispatching; StepStateFailedRetryable] ≤ 6.
Proof.
  assert (StepPath StepStatePending [StepStateDispatching; StepStateFailedRetryable]
    StepStateFailedRetryable) as Hp.
  { repeat econstructor. }
  split; [exact Hp|].
  apply (step_executions_bounded _ _ _ Hp); [discriminate|].
  simpl. intros Hin. apply list_elem_of_singleton in Hin. discriminate.
Defined.
