(* ===== verification/Policy.v ===== *)
(** * Policies, adapter routing and the derivation of run states

    [internal/service/policy_service.go], [policy_registry.go], [routing_service.go] and
    [state_reconcile.go]. *)
From S2P Require Export GoStrings Domain.

(** ** [policy_service.go] *)

Record PolicyEvaluation := MkPolicyEvaluation {
  ShouldGate : bool;
  GateReasons : list string;
  ShouldFail : bool;
  FailReasons : list string;
  ShouldRetry : bool;
}.
#[export] Instance PolicyEvaluation_eta : Eta PolicyEvaluation := λ e,
  MkPolicyEvaluation (ShouldGate e) (GateReasons e) (ShouldFail e) (FailReasons e)
    (ShouldRetry e).

(** [PolicyEvaluation{}]. *)
Definition no_evaluation : PolicyEvaluation := MkPolicyEvaluation false [] false [] false.

Definition add_gate (reason : string) (e : PolicyEvaluation) : PolicyEvaluation :=
  e <| ShouldGate := true |> <| GateReasons := GateReasons e ++ [reason] |>.
Definition add_fail (reason : string) (e : PolicyEvaluation) : PolicyEvaluation :=
  e <| ShouldFail := true |> <| FailReasons := FailReasons e ++ [reason] |>.

Definition is_dependency_file (f : string) : bool :=
  Contains f "go.mod" || Contains f "go.sum" || Contains f "package.json".
Definition is_migration_file (f : string) : bool := Contains f "migrations/".

(** The last check reads [result.Questions] without testing [result] for nil. *)
Definition Evaluate (p : Policy) (result : option ResultSpec) (changedFiles : list string) :
    outcome PolicyEvaluation :=
  let eval := no_evaluation in
  let eval :=
    match result with
    | Some r =>
      if FailWhen_ArtifactPersistenceFailed p && bool_decide (rs_State r = StepStateFailedTerminal)
      then add_fail "Artifact persistence marked as failed" eval else eval
    | None => eval
    end in
  let eval :=
    if (0 <? GateWhen_ChangedFilesOver p)%Z
       && (GateWhen_ChangedFilesOver p <? Z.of_nat (length changedFiles))%Z
    then add_gate "Changed files exceeded threshold" eval else eval in
  let '(hasDependencyChanges, hasMigrations) :=
    foldl (λ '(d, m) f, (if is_dependency_file f then true else d,
                         if is_migration_file f then true else m))
      (false, false) changedFiles in
  let eval :=
    if GateWhen_DependencyFilesChanged p && hasDependencyChanges
    then add_gate "Dependency files were changed" eval else eval in
  let eval :=
    if GateWhen_MigrationsDetected p && hasMigrations
    then add_gate "Database migrations were changed" eval else eval in
  if GateWhen_UnresolvedQuestionsPresent p then
    match result with
    | None => Panic "invalid memory address or nil pointer dereference"
    | Some r =>
      Ok (if negb (bool_decide (rs_Questions r = []))
          then add_gate "Unresolved questions presented by adapter" eval else eval)
    end
  else Ok eval.

(** ** [policy_registry.go] *)

Module PolicyRegistry.

Definition t := gmap string Policy.

Definition NewPolicyRegistry : t := ∅.

Definition Register (p : Policy) (r : t) : t := <[pol_Name p := p]> r.

Definition Lookup (r : t) (name : string) : Policy :=
  match r !! name with Some p => p | None => DefaultPolicy end.

(** An entry of [os.ReadDir], which lists a directory in the order of the names, with the
    bytes [os.ReadFile] returns. *)
Record entry := MkEntry {
  entry_Name : string;
  entry_IsDir : bool;
  entry_data : option string;
}.

Section Load.
(** [yaml.Unmarshal] into a [domain.Policy], a function of the file's bytes. *)
Context (yaml_policy : string → option Policy).

Definition named (name : string) (p : Policy) : Policy :=
  if decide (pol_Name p = "") then
    MkPolicy (pol_Version p) (without_ext name) (ContinueWhen_AllValidationsPass p)
      (ContinueWhen_MaxChangedFiles p) (ContinueWhen_NoForbiddenPathsTouched p)
      (ContinueWhen_NoMigrationsDetected p) (GateWhen_AnyValidationFails p)
      (GateWhen_DependencyFilesChanged p) (GateWhen_MigrationsDetected p)
      (GateWhen_ChangedFilesOver p) (GateWhen_UnresolvedQuestionsPresent p)
      (RetryWhen_AdapterProcessFailed p) (RetryWhen_TimeoutOnce p)
      (FailWhen_TimeoutCountOver p) (FailWhen_ArtifactPersistenceFailed p)
  else p.

(** The body of the loop over the entries. *)
Definition load_entry (r : t) (e : entry) : t :=
  if entry_IsDir e
     || (negb (bool_decide (Ext (entry_Name e) = ".yaml"))
         && negb (bool_decide (Ext (entry_Name e) = ".yml")))
  then r
  else match entry_data e with
       | None => r
       | Some data =>
         match yaml_policy data with
         | None => r
         | Some p => Register (named (entry_Name e) p) r
         end
       end.

(** [None] stands for a directory that does not exist, which is not an error. *)
Definition LoadFromDir (entries : option (list entry)) (r : t) : t :=
  match entries with
  | None => r
  | Some es => foldl load_entry r es
  end.
End Load.
End PolicyRegistry.

(** ** [routing_service.go] *)

Module RoutingService.
Section Routing.
(** The registered adapters, keyed by profile. *)
Context {A : Type} (adapters : gmap string A).

Definition fallbackPreferences : list string := ["ide-chat"; "qwen"; "claude"; "codex"].

Definition BuildHeuristicChain (requestedProfile : string) : list string + error :=
  let add chain id :=
    if decide (id = requestedProfile) then chain
    else match adapters !! id with Some _ => chain ++ [id] | None => chain end in
  if decide (requestedProfile = "") then inl (foldl add [] fallbackPreferences)
  else match adapters !! requestedProfile with
       | Some _ => inl (foldl add [requestedProfile] fallbackPreferences)
       | None => inr (errorf ("requested adapter profile '" +:+ requestedProfile
                              +:+ "' is not registered"))
       end.

Definition GetAdapter (profile : string) : option A := adapters !! profile.

(** A copy of the map. *)
Definition ListAdapters : gmap string A :=
  map_fold (λ id adapter cloned, <[id := adapter]> cloned) ∅ adapters.
End Routing.
End RoutingService.

(** ** [state_reconcile.go] *)

(** The flags of the loop: approval, pending, failure, cancelled, all completed. *)
Record run_flags := MkFlags {
  hasPending : bool;
  hasApproval : bool;
  hasFailure : bool;
  hasCancelled : bool;
  allCompleted : bool;
}.

Definition flag_step (f : run_flags) (s : StepState) : run_flags :=
  match s with
  | StepStateNeedsApproval =>
    MkFlags (hasPending f) true (hasFailure f) (hasCancelled f) false
  | StepStatePending | StepStateDispatching | StepStateRunning
  | StepStateCollectingArtifacts | StepStateValidating =>
    MkFlags true (hasApproval f) (hasFailure f) (hasCancelled f) false
  | StepStateCompleted | StepStateCompletedWithWarnings => f
  | StepStateCancelled =>
    MkFlags (hasPending f) (hasApproval f) (hasFailure f) true false
  | _ => MkFlags (hasPending f) (hasApproval f) true (hasCancelled f) false
  end.

Definition deriveRunState (steps : list Step) : RunState :=
  match steps with
  | [] => RunStateRunning
  | _ =>
    let f := foldl (λ f step, flag_step f (step_State step))
      (MkFlags false false false false true) steps in
    if hasApproval f then RunStatePausedForGate
    else if hasPending f then RunStateRunning
    else if hasFailure f then RunStateFailed
    else if allCompleted f then RunStateCompleted
    else if hasCancelled f then RunStateCancelled
    else RunStateRunning
  end.

(** The states in which a step is still being worked on. *)
Definition is_active (s : StepState) : bool :=
  match s with
  | StepStatePending | StepStateDispatching | StepStateRunning
  | StepStateCollectingArtifacts | StepStateValidating => true
  | _ => false
  end.
Definition is_completed (s : StepState) : bool :=
  match s with
  | StepStateCompleted | StepStateCompletedWithWarnings => true
  | _ => false
  end.
(** The states the [default] case of the switch counts as a failure. *)
Definition is_failure (s : StepState) : bool :=
  match s with
  | StepStateNeedsApproval | StepStateCancelled => false
  | _ => negb (is_active s) && negb (is_completed s)
  end.

(** ** Lemmas *)

Definition has (p : StepState → bool) (steps : list Step) : bool :=
  existsb (p ∘ step_State) steps.

Lemma flags_spec steps f :
  let g := foldl (λ f step, flag_step f (step_State step)) f steps in
  hasApproval g = hasApproval f || has (λ s, bool_decide (s = StepStateNeedsApproval)) steps ∧
  hasPending g = hasPending f || has is_active steps ∧
  hasFailure g = hasFailure f || has is_failure steps ∧
  hasCancelled g = hasCancelled f || has (λ s, bool_decide (s = StepStateCancelled)) steps ∧
  allCompleted g = allCompleted f && negb (has (negb ∘ is_completed) steps).
Proof.
  revert f. induction steps as [|step steps IH]; intros f; simpl.
  - split_and!; by rewrite ?orb_false_r, ?andb_true_r.
  - destruct (IH (flag_step f (step_State step))) as (-> & -> & -> & -> & ->).
    unfold has, compose. simpl. destruct (step_State step); simpl;
      rewrite ?orb_true_r, ?andb_false_r; split_and!; done.
Qed.

Lemma has_spec p steps : has p steps = true ↔ ∃ step, step ∈ steps ∧ p (step_State step) = true.
Proof.
  unfold has. rewrite existsb_exists. by setoid_rewrite list_elem_of_In.
Qed.

Lemma has_false p steps : has p steps = false ↔ ∀ step, step ∈ steps → p (step_State step) = false.
Proof.
  rewrite <- not_true_iff_false, has_spec. split.
  - intros Hn step Hin. apply not_true_iff_false. intros Hp. apply Hn. by exists step.
  - intros Hall (step & Hin & Hp). by rewrite Hall in Hp.
Qed.

(** [deriveRunState] through its flags, on a run with steps. *)
Lemma deriveRunState_flags steps :
  steps ≠ [] →
  deriveRunState steps =
    if has (λ s, bool_decide (s = StepStateNeedsApproval)) steps then RunStatePausedForGate
    else if has is_active steps then RunStateRunning
    else if has is_failure steps then RunStateFailed
    else if has (negb ∘ is_completed) steps then RunStateCancelled
    else RunStateCompleted.
Proof.
  intros Hne. unfold deriveRunState. destruct steps as [|s0 rest]; [done|].
  destruct (flags_spec (s0 :: rest) (MkFlags false false false false true))
    as (Ha & Hp & Hf & Hc & Hall).
  rewrite Ha, Hp, Hf, Hc, Hall.
  cbn [hasApproval hasPending hasFailure hasCancelled allCompleted orb andb].
  clear Ha Hp Hf Hc Hall.
  destruct (has (λ s, bool_decide (s = StepStateNeedsApproval)) (s0 :: rest)) eqn:Ha; [done|].
  destruct (has is_active (s0 :: rest)) eqn:Hp; [done|].
  destruct (has is_failure (s0 :: rest)) eqn:Hf; [done|].
  destruct (has (negb ∘ is_completed) (s0 :: rest)) eqn:Hd; [|done].
  cbn [negb].
  assert (has (λ s, bool_decide (s = StepStateCancelled)) (s0 :: rest) = true) as ->; [|done].
  apply has_spec in Hd as (step & Hin & Hnc). apply has_spec. exists step. split; [done|].
  rewrite has_false in Ha, Hp, Hf. specialize (Ha _ Hin). specialize (Hp _ Hin).
  specialize (Hf _ Hin). unfold is_failure, compose in *.
  destruct (step_State step); simpl in *; done.
Qed.

Lemma has_perm p l1 l2 : Permutation l1 l2 → has p l1 = has p l2.
Proof.
  intros Hp. destruct (has p l2) eqn:H2.
  - apply has_spec in H2 as (s & Hin & Hs). apply has_spec. exists s. by rewrite Hp.
  - apply has_false. intros s Hin. apply (proj1 (has_false _ _) H2). by rewrite <- Hp.
Qed.

Lemma deriveRunState_perm l1 l2 :
  Permutation l1 l2 → deriveRunState l1 = deriveRunState l2.
Proof.
  intros Hp. destruct l1 as [|s1 l1].
  - apply Permutation_nil in Hp as ->. done.
  - destruct l2 as [|s2 l2]; [by apply Permutation_sym, Permutation_nil in Hp|].
    rewrite !deriveRunState_flags by done. by rewrite !(has_perm _ _ _ Hp).
Qed.

(** [deriveRunState] of the updated run when one of its steps changes to [s]. *)
Lemma deriveRunState_total steps :
  deriveRunState steps ∈ [RunStatePausedForGate; RunStateRunning; RunStateFailed;
                          RunStateCancelled; RunStateCompleted].
Proof.
  destruct steps as [|s0 rest]; [do 2 constructor|].
  rewrite deriveRunState_flags by done.
  repeat (match goal with |- context [if ?b then _ else _] => destruct b end);
    repeat constructor.
Qed.

Lemma has_not_completed steps :
  has (λ s, bool_decide (s = StepStateNeedsApproval)) steps = false →
  has is_active steps = false → has is_failure steps = false →
  has (negb ∘ is_completed) steps = has (λ s, bool_decide (s = StepStateCancelled)) steps.
Proof.
  rewrite !has_false. intros Ha Hp Hf.
  unfold has. induction steps as [|step steps IH]; [done|]. simpl.
  rewrite IH; [|intros s Hs; (apply Ha || apply Hp || apply Hf); by constructor ..].
  f_equal. specialize (Ha step ltac:(constructor)). specialize (Hp step ltac:(constructor)).
  specialize (Hf step ltac:(constructor)). unfold is_failure, compose in *.
  by destruct (step_State step).
Qed.

Lemma has_mono (p q : StepState → bool) steps :
  (∀ s, p s = true → q s = true) → has p steps = true → has q steps = true.
Proof. rewrite !has_spec. intros Hpq (step & Hin & Hp). exists step. auto. Qed.

Section Chain.
Context {A : Type} (adapters : gmap string A).

Lemma chain_fold req chain l :
  foldl (λ chain id, if decide (id = req) then chain
                     else match adapters !! id with Some _ => chain ++ [id] | None => chain end)
    chain l
  = chain ++ filter (λ id, id ≠ req ∧ is_Some (adapters !! id)) l.
Proof.
  revert chain. induction l as [|id l IH]; intros chain; simpl; [by rewrite app_nil_r|].
  rewrite filter_cons. destruct (decide (id = req)) as [->|Hne].
  - rewrite IH. rewrite decide_False; [done|tauto].
  - destruct (adapters !! id) eqn:Hid; rewrite IH.
    + rewrite decide_True; [by rewrite <- app_assoc|]. split; [done|by eexists].
    + rewrite decide_False; [done|]. intros [_ [? ?]]. congruence.
Qed.
End Chain.

(** An evaluation has reasons exactly for what it recommends, and recommends no retry. *)
Definition evaluation_ok (e : PolicyEvaluation) : Prop :=
  ShouldRetry e = false ∧
  (ShouldGate e = true ↔ GateReasons e ≠ []) ∧ (ShouldFail e = true ↔ FailReasons e ≠ []).

Lemma evaluation_ok_gate (b : bool) reason e :
  evaluation_ok e → evaluation_ok (if b then add_gate reason e else e).
Proof.
  destruct b; [|done]. unfold evaluation_ok. simpl. intros (? & ? & ?). split_and!; try done.
  split; [|done]. intros _. by destruct (GateReasons e).
Qed.

Lemma evaluation_ok_fail (b : bool) reason e :
  evaluation_ok e → evaluation_ok (if b then add_fail reason e else e).
Proof.
  destruct b; [|done]. unfold evaluation_ok. simpl. intros (? & ? & ?). split_and!; try done.
  split; [|done]. intros _. by destruct (FailReasons e).
Qed.

Lemma evaluation_ok_none : evaluation_ok no_evaluation.
Proof. unfold evaluation_ok. simpl. intuition congruence. Qed.

(** The loop over the changed files of [Evaluate]. *)
Lemma scan_files files d m :
  foldl (λ '(d, m) f, (if is_dependency_file f then true else d,
                       if is_migration_file f then true else m)) (d, m) files
  = (d || existsb is_dependency_file files, m || existsb is_migration_file files).
Proof.
  revert d m. induction files as [|f files IH]; intros d m; cbn [foldl existsb];
    [by rewrite !orb_false_r|].
  rewrite IH. by destruct (is_dependency_file f), (is_migration_file f), d, m.
Qed.

Lemma existsb_elem {A} (p : A → bool) l : existsb p l = true ↔ ∃ x, x ∈ l ∧ p x = true.
Proof. rewrite existsb_exists. by setoid_rewrite list_elem_of_In. Qed.

(** The evaluation as a function of the five conditions it tests. *)
Definition evaluation_of (fail files deps migrations questions : bool) : PolicyEvaluation :=
  let e := if fail then add_fail "Artifact persistence marked as failed" no_evaluation
           else no_evaluation in
  let e := if files then add_gate "Changed files exceeded threshold" e else e in
  let e := if deps then add_gate "Dependency files were changed" e else e in
  let e := if migrations then add_gate "Database migrations were changed" e else e in
  if questions then add_gate "Unresolved questions presented by adapter" e else e.

Lemma Evaluate_result p r files :
  Evaluate p (Some r) files = Ok (evaluation_of
    (FailWhen_ArtifactPersistenceFailed p && bool_decide (rs_State r = StepStateFailedTerminal))
    ((0 <? GateWhen_ChangedFilesOver p)%Z
     && (GateWhen_ChangedFilesOver p <? Z.of_nat (length files))%Z)
    (GateWhen_DependencyFilesChanged p && existsb is_dependency_file files)
    (GateWhen_MigrationsDetected p && existsb is_migration_file files)
    (GateWhen_UnresolvedQuestionsPresent p && negb (bool_decide (rs_Questions r = [])))).
Proof.
  unfold Evaluate. rewrite scan_files, !orb_false_l.
  by destruct (GateWhen_UnresolvedQuestionsPresent p).
Qed.

(** ** Properties *)

(** C17: the state derived for a run is a function of what its steps are in: paused exactly
    when some step needs approval; otherwise running exactly when some step is active or there
    is no step; otherwise failed exactly when some step failed, timed out or needs manual
    attention; otherwise cancelled exactly when not every step completed; and completed exactly
    when there are steps and all of them completed. *)
Theorem deriveRunState_spec steps :
  let some p := ∃ step, step ∈ steps ∧ p (step_State step) = true in
  let approval := some (λ s, bool_decide (s = StepStateNeedsApproval)) in
  let active := steps = [] ∨ some is_active in
  let failure := some is_failure in
  let cancelled := some (λ s, bool_decide (s = StepStateCancelled)) in
  (deriveRunState steps = RunStatePausedForGate ↔ approval) ∧
  (deriveRunState steps = RunStateRunning ↔ ¬ approval ∧ active) ∧
  (deriveRunState steps = RunStateFailed ↔ ¬ approval ∧ ¬ active ∧ failure) ∧
  (deriveRunState steps = RunStateCancelled ↔ ¬ approval ∧ ¬ active ∧ ¬ failure ∧ cancelled) ∧
  (deriveRunState steps = RunStateCompleted ↔
     steps ≠ [] ∧ ∀ step, step ∈ steps → is_completed (step_State step) = true).
Proof.
  intros some. assert (∀ p, some p ↔ has p steps = true) as Hs.
  { intros p. symmetry. apply has_spec. }
  assert ((∀ step, step ∈ steps → is_completed (step_State step) = true)
          ↔ has (negb ∘ is_completed) steps = false) as Hall.
  { rewrite has_false. unfold compose. setoid_rewrite negb_false_iff. done. }
  intros approval active failure cancelled. unfold approval, active, failure, cancelled.
  rewrite !Hs, Hall. clear Hs Hall some approval active failure cancelled.
  destruct (decide (steps = [])) as [->|Hne]; [simpl; intuition congruence|].
  rewrite deriveRunState_flags by done. pose proof (has_not_completed steps) as Hc.
  assert (∀ p, (∀ s, p s = true → negb (is_completed s) = true) →
    has p steps = true → has (negb ∘ is_completed) steps = true) as Hd' by (intros; by eapply has_mono).
  pose proof (Hd' (λ s, bool_decide (s = StepStateNeedsApproval)) ltac:(by intros [])) as Ha'.
  pose proof (Hd' is_active ltac:(by intros [])) as Hp'.
  pose proof (Hd' is_failure ltac:(by intros [])) as Hf'. clear Hd'.
  destruct (has (λ s, bool_decide (s = StepStateNeedsApproval)) steps) eqn:Ha, (has is_active steps),
    (has is_failure steps), (has (negb ∘ is_completed) steps) eqn:Hd;
    try (rewrite <- Hc by done); intuition congruence.
Qed.

(** C18: evaluating a policy on a normalized result never crashes, recommends to fail exactly
    when the policy says so and the result is [failed_terminal], recommends a gate exactly when
    one of its four gating rules applies to the changed files or the open questions, never
    recommends a retry, and gives reasons exactly for what it recommends. *)
Theorem Evaluate_spec p r files :
  ∃ e, Evaluate p (Some r) files = Ok e ∧
  (ShouldFail e = true ↔
     FailWhen_ArtifactPersistenceFailed p = true ∧ rs_State r = StepStateFailedTerminal) ∧
  (ShouldGate e = true ↔
     (0 < GateWhen_ChangedFilesOver p < Z.of_nat (length files))%Z
     ∨ (GateWhen_DependencyFilesChanged p = true ∧
        ∃ f, f ∈ files ∧ is_dependency_file f = true)
     ∨ (GateWhen_MigrationsDetected p = true ∧
        ∃ f, f ∈ files ∧ is_migration_file f = true)
     ∨ (GateWhen_UnresolvedQuestionsPresent p = true ∧ rs_Questions r ≠ [])) ∧
  ShouldRetry e = false ∧
  (ShouldGate e = true ↔ GateReasons e ≠ []) ∧ (ShouldFail e = true ↔ FailReasons e ≠ []).
Proof.
  rewrite Evaluate_result. eexists. split; [reflexivity|].
  assert (∀ b1 b2 b3 b4 b5,
    let e := evaluation_of b1 b2 b3 b4 b5 in
    ShouldFail e = b1 ∧ ShouldGate e = b5 || (b4 || (b3 || b2)) ∧ evaluation_ok e) as He.
  { intros. split_and!; [by destruct b1, b2, b3, b4, b5 ..|].
    unfold e, evaluation_of. repeat apply evaluation_ok_gate. apply evaluation_ok_fail,
      evaluation_ok_none. }
  edestruct He as (Hf & Hg & Hok). split_and!; [| |apply Hok ..].
  - by rewrite Hf, andb_true_iff, bool_decide_eq_true.
  - rewrite Hg, !orb_true_iff, !andb_true_iff, !Z.ltb_lt, !existsb_elem, negb_true_iff,
      bool_decide_eq_false. tauto.
Qed.

(** C22: the fallback chain starts with the requested profile, names registered adapters only,
    names none twice, and contains every registered preference; it is refused exactly for a
    requested profile that is not registered. *)
Theorem BuildHeuristicChain_spec {A} (adapters : gmap string A) req :
  match RoutingService.BuildHeuristicChain adapters req with
  | inl chain =>
      (req ≠ "" → head chain = Some req) ∧ NoDup chain ∧
      (∀ id, id ∈ chain ↔ is_Some (adapters !! id) ∧
         ((id = req ∧ req ≠ "") ∨ id ∈ RoutingService.fallbackPreferences))
  | inr e => req ≠ "" ∧ adapters !! req = None
  end.
Proof.
  unfold RoutingService.BuildHeuristicChain.
  assert (NoDup RoutingService.fallbackPreferences) as Hnd.
  { apply NoDup_ListNoDup. repeat constructor; simpl; intuition discriminate. }
  assert (∀ id, id ∈ RoutingService.fallbackPreferences → id ≠ "") as Hpref.
  { intros id. unfold RoutingService.fallbackPreferences.
    rewrite !elem_of_cons, elem_of_nil. intuition congruence. }
  case_decide as Hreq.
  - rewrite chain_fold. simpl. split_and!; [done|by apply NoDup_filter|].
    intros id. rewrite list_elem_of_filter. split; [intuition|].
    intros [Hs [[-> ?]|Hin]]; [done|]. split; [|done]. split; [|done].
    subst. by apply Hpref.
  - destruct (adapters !! req) as [a|] eqn:Hr; [|done].
    rewrite chain_fold. split_and!; [done| |].
    + simpl. apply NoDup_cons. split; [|by apply NoDup_filter].
      rewrite list_elem_of_filter. tauto.
    + intros id. simpl. rewrite elem_of_cons, list_elem_of_filter.
      destruct (decide (id = req)) as [->|Hne]; [|intuition].
      split; [|tauto]. intros _. split; [by eexists|tauto].
Qed.
