(* ===== verification/Repos.v ===== *)
(** * The daemon's database: [internal/storage/sqlite]

    [DB] is the schema of [migrations.go], one list of rows per table in rowid order; one
    module per repository, with one definition per method. Rows hold the enumerations as the
    code does (the conversion to [string] is the identity on the text) and the JSON columns
    as [jsontext]. Rows are those this code inserts, without the NULLs of databases created
    by older versions. Foreign keys are declared but not enforced: the daemon opens the database
    without the pragma. *)
From S2P Require Export Domain.

(** A JSON column: the empty text, which readers skip, or what [json.Marshal] wrote, given by
    the value it decodes to. *)
Inductive jsontext (A : Type) := JEmpty | JMarshal (v : A).
Arguments JEmpty {A}.
Arguments JMarshal {A} v.

(** [json.Marshal], which does not fail on these types. *)
Definition json_Marshal {A} `{JSON A} (v : A) : jsontext A := JMarshal (json_copy v).

(** [if s != "" { _ = json.Unmarshal([]byte(s), &field) }] on a field that holds [zero]. *)
Definition unmarshal {A} (zero : A) (j : jsontext A) : A :=
  match j with JEmpty => zero | JMarshal v => v end.

(** ** Rows *)

Record StepRow := MkStepRow {
  srow_id : string;
  srow_phase_id : string;
  srow_title : string;
  srow_goal : string;
  srow_state : StepState;
  srow_policy : string;
  srow_adapter : string;
  srow_timeout_seconds : Z;
  srow_status_reason : string;
  srow_validations : jsontext (list ValidationCommand);
  srow_task_spec_snapshot : jsontext (option TaskSpec);
  srow_submission_provenance : jsontext (option SubmissionProvenance);
  srow_created_at : Z;
  srow_updated_at : Z;
}.
#[export] Instance StepRow_eta : Eta StepRow := λ r,
  MkStepRow (srow_id r) (srow_phase_id r) (srow_title r) (srow_goal r) (srow_state r)
    (srow_policy r) (srow_adapter r) (srow_timeout_seconds r) (srow_status_reason r)
    (srow_validations r) (srow_task_spec_snapshot r) (srow_submission_provenance r)
    (srow_created_at r) (srow_updated_at r).

Record AttemptRow := MkAttemptRow {
  arow_id : string;
  arow_step_id : string;
  arow_number : Z;
  arow_adapter : string;
  arow_state : StepState;
  arow_summary : string;
  arow_needs_human_decision : bool;
  arow_warnings : jsontext (list string);
  arow_questions : jsontext (list string);
  arow_files_changed : jsontext (list string);
  arow_raw_output : string;
  arow_raw_output_ref : string;
  arow_is_simulation : bool;
  arow_retryable : bool;
  arow_version : string;
  arow_artifacts : jsontext (gmap string string);
  arow_provisioning : jsontext (option ProvisioningResult);
  arow_created_at : Z;
  arow_updated_at : Z;
}.

Record ValidationRow := MkValidationRow {
  vrow_attempt_id : string;
  vrow_result : ValidationResult;
  vrow_created_at : Z;
}.

Record SettingRow := MkSettingRow { setting_key : string; setting_value : string }.

#[export] Instance Run_key : Keyed Run string := run_ID.
#[export] Instance Phase_key : Keyed Phase string := phase_ID.
#[export] Instance StepRow_key : Keyed StepRow string := srow_id.
#[export] Instance AttemptRow_key : Keyed AttemptRow string := arow_id.
#[export] Instance Artifact_key : Keyed Artifact string := art_ID.
#[export] Instance Gate_key : Keyed Gate string := gate_ID.
#[export] Instance ValidationRow_key : Keyed ValidationRow (string * string) :=
  λ r, (vrow_attempt_id r, vr_Name (vrow_result r)).
#[export] Instance BenchmarkScore_key : Keyed BenchmarkScore string := bm_ID.
#[export] Instance SettingRow_key : Keyed SettingRow string := setting_key.

(** The tables of the schema. *)
Record DB := MkDB {
  db_runs : list Run;
  db_phases : list Phase;
  db_steps : list StepRow;
  db_attempts : list AttemptRow;
  db_artifacts : list Artifact;
  db_gates : list Gate;
  db_validations : list ValidationRow;
  db_benchmarks : list BenchmarkScore;
  db_settings : list SettingRow;
}.
#[export] Instance DB_eta : Eta DB := λ d,
  MkDB (db_runs d) (db_phases d) (db_steps d) (db_attempts d) (db_artifacts d) (db_gates d)
    (db_validations d) (db_benchmarks d) (db_settings d).

Definition empty_DB : DB := MkDB [] [] [] [] [] [] [] [] [].

(** The primary keys the schema declares are unique. *)
Record DB_wf (d : DB) : Prop := {
  wf_runs : keys_unique (db_runs d);
  wf_phases : keys_unique (db_phases d);
  wf_steps : keys_unique (db_steps d);
  wf_attempts : keys_unique (db_attempts d);
  wf_artifacts : keys_unique (db_artifacts d);
  wf_gates : keys_unique (db_gates d);
  wf_validations : keys_unique (db_validations d);
  wf_benchmarks : keys_unique (db_benchmarks d);
  wf_settings : keys_unique (db_settings d);
}.

(** ** Statements *)

(** An [INSERT] into the table behind [table], with SQLite's constraint error. *)
Definition sql_insert {R K} `{EqDecision K} `{Keyed R K} (name : string)
    (table : DB → list R) (store_table : list R → DB → DB) (row : R) (d : DB) :
    outcome unit * DB :=
  match tinsert row (table d) with
  | Some t => (Ok tt, store_table t d)
  | None => (Err (errorw ErrUniqueConstraint ("UNIQUE constraint failed: " +:+ name)), d)
  end.

(** An [UPDATE ... WHERE key = k], with the number of rows affected. *)
Definition sql_update {R K} `{EqDecision K} `{Keyed R K}
    (table : DB → list R) (store_table : list R → DB → DB) (k : K) (f : R → R) (d : DB) :
    outcome nat * DB :=
  (Ok (tcount k (table d)), store_table (tupdate k f (table d)) d).

Definition store_runs t (d : DB) : DB :=
  MkDB t (db_phases d) (db_steps d) (db_attempts d) (db_artifacts d)
    (db_gates d) (db_validations d) (db_benchmarks d) (db_settings d).
Definition store_phases t (d : DB) : DB :=
  MkDB (db_runs d) t (db_steps d) (db_attempts d) (db_artifacts d)
    (db_gates d) (db_validations d) (db_benchmarks d) (db_settings d).
Definition store_steps t (d : DB) : DB :=
  MkDB (db_runs d) (db_phases d) t (db_attempts d) (db_artifacts d)
    (db_gates d) (db_validations d) (db_benchmarks d) (db_settings d).
Definition store_attempts t (d : DB) : DB :=
  MkDB (db_runs d) (db_phases d) (db_steps d) t (db_artifacts d)
    (db_gates d) (db_validations d) (db_benchmarks d) (db_settings d).
Definition store_artifacts t (d : DB) : DB :=
  MkDB (db_runs d) (db_phases d) (db_steps d) (db_attempts d) t
    (db_gates d) (db_validations d) (db_benchmarks d) (db_settings d).
Definition store_gates t (d : DB) : DB :=
  MkDB (db_runs d) (db_phases d) (db_steps d) (db_attempts d) (db_artifacts d)
    t (db_validations d) (db_benchmarks d) (db_settings d).
Definition store_validations t (d : DB) : DB :=
  MkDB (db_runs d) (db_phases d) (db_steps d) (db_attempts d) (db_artifacts d)
    (db_gates d) t (db_benchmarks d) (db_settings d).
Definition store_benchmarks t (d : DB) : DB :=
  MkDB (db_runs d) (db_phases d) (db_steps d) (db_attempts d) (db_artifacts d)
    (db_gates d) (db_validations d) t (db_settings d).
Definition store_settings t (d : DB) : DB :=
  MkDB (db_runs d) (db_phases d) (db_steps d) (db_attempts d) (db_artifacts d)
    (db_gates d) (db_validations d) (db_benchmarks d) t.

(** ** [runs_repo.go] *)

Module RunsRepo.

(** The columns [UpdateState] sets. *)
Definition set_state (run r : Run) : Run :=
  r <| run_State := run_State run |> <| run_UpdatedAt := run_UpdatedAt run |>
    <| run_RecoveryNotes := run_RecoveryNotes run |>.

Section Methods.
Context {W : Type} `{Env} `{Lens W DB} (c : ctx).

Definition Create (run : Run) : M W unit :=
  wrapping ("failed to create run " +:+ run_ID run)
    (exec_in c (sql_insert "runs.id" db_runs store_runs (run <| run_Phases := [] |>))).

Definition Get (id : string) : M W (option Run) :=
  wrapping ("failed to get run " +:+ id)
    (query_in c (λ d, Ok (tget id (db_runs d)))).

Definition UpdateState (run : Run) : M W unit :=
  rows <- wrapping ("failed to update run state " +:+ run_ID run)
    (exec_in c (sql_update db_runs store_runs (run_ID run) (set_state run))) ;;
  if decide (rows = 0) then fail (errorf ("run not found: " +:+ run_ID run)) else ret tt.

Definition ListByState (state : RunState) : M W (list Run) :=
  wrapping "failed to list runs by state"
    (query_in c (λ d, Ok (sort_by (desc run_CreatedAt)
      (twhere (λ r, bool_decide (run_State r = state)) (db_runs d))))).

(** One of the optional conditions of [List]. *)
Definition filter_on (filters : gmap string string) (key : string) (column : Run → string)
    (r : Run) : bool :=
  match filters !! key with
  | Some v => if decide (v = "") then true else bool_decide (column r = v)
  | None => true
  end.

Definition List (filters : gmap string string) : M W (list Run) :=
  wrapping "failed to list runs"
    (query_in c (λ d, Ok (take 100 (sort_by (desc run_CreatedAt)
      (twhere (λ r, filter_on filters "project_id" run_ProjectID r
                    && filter_on filters "conversation_id" run_ConversationID r
                    && filter_on filters "state" (RunState_text ∘ run_State) r) (db_runs d)))))).
End Methods.
End RunsRepo.

(** ** [phases_repo.go] *)

Module PhasesRepo.
Section Methods.
Context {W : Type} `{Env} `{Lens W DB} (c : ctx).

Definition Create (phase : Phase) : M W unit :=
  wrapping "failed to create phase"
    (exec_in c (sql_insert "phases.id" db_phases store_phases phase)).

Definition ListByRun (runID : string) : M W (list Phase) :=
  wrapping "failed to list phases"
    (query_in c (λ d, Ok (sort_by (asc phase_SeqOrder)
      (twhere (λ p, bool_decide (phase_RunID p = runID)) (db_phases d))))).

Definition Get (id : string) : M W (option Phase) :=
  wrapping "failed to get phase" (query_in c (λ d, Ok (tget id (db_phases d)))).
End Methods.
End PhasesRepo.

(** ** [steps_repo.go] *)

Module StepsRepo.

(** The row [Create] writes, and the step a reader scans from a row. *)
Definition row_of (step : Step) : StepRow := {|
  srow_id := step_ID step;
  srow_phase_id := step_PhaseID step;
  srow_title := step_Title step;
  srow_goal := step_Goal step;
  srow_state := step_State step;
  srow_policy := step_Policy step;
  srow_adapter := step_Adapter step;
  srow_timeout_seconds := step_TimeoutSeconds step;
  srow_status_reason := step_StatusReason step;
  srow_validations := json_Marshal (step_Validations step);
  srow_task_spec_snapshot := json_Marshal (step_TaskSpecSnapshot step);
  srow_submission_provenance := json_Marshal (step_SubmissionProvenance step);
  srow_created_at := step_CreatedAt step;
  srow_updated_at := step_UpdatedAt step;
|}.

Definition scan (r : StepRow) : Step := {|
  step_ID := srow_id r;
  step_PhaseID := srow_phase_id r;
  step_Title := srow_title r;
  step_Goal := srow_goal r;
  step_State := srow_state r;
  step_Policy := srow_policy r;
  step_Adapter := srow_adapter r;
  step_TimeoutSeconds := srow_timeout_seconds r;
  step_Validations := unmarshal [] (srow_validations r);
  step_StatusReason := srow_status_reason r;
  step_CreatedAt := srow_created_at r;
  step_UpdatedAt := srow_updated_at r;
  step_TaskSpecSnapshot := unmarshal None (srow_task_spec_snapshot r);
  step_SubmissionProvenance := unmarshal None (srow_submission_provenance r);
|}.

(** The columns [UpdateState] sets. *)
Definition set_state (step : Step) (r : StepRow) : StepRow :=
  r <| srow_state := step_State step |> <| srow_status_reason := step_StatusReason step |>
    <| srow_updated_at := step_UpdatedAt step |>.

(** [JOIN phases p ON s.phase_id = p.id WHERE p.run_id = ?]. *)
Definition of_run (d : DB) (runID : string) (r : StepRow) : bool :=
  match tget (srow_phase_id r) (db_phases d) with
  | Some p => bool_decide (phase_RunID p = runID)
  | None => false
  end.

(** The steps of a run, in the order of [ListByRun]. *)
Definition rows_of (d : DB) (runID : string) : list StepRow :=
  sort_by (asc srow_created_at) (twhere (of_run d runID) (db_steps d)).

Section Methods.
Context {W : Type} `{Env} `{Lens W DB} (c : ctx).

Definition Create (step : Step) : M W unit :=
  wrapping "failed to create step"
    (exec_in c (sql_insert "steps.id" db_steps store_steps (row_of step))).

Definition Get (id : string) : M W (option Step) :=
  wrapping "failed to get step" (query_in c (λ d, Ok (scan <$> tget id (db_steps d)))).

(** Unlike [RunsRepo.UpdateState], the number of rows affected is not looked at. *)
Definition UpdateState (step : Step) : M W unit :=
  _ <- wrapping "failed to update step state"
    (exec_in c (sql_update db_steps store_steps (step_ID step) (set_state step))) ;;
  ret tt.

Definition ListByPhase (phaseID : string) : M W (list Step) :=
  wrapping "failed to list steps"
    (query_in c (λ d, Ok (map scan (sort_by (asc srow_created_at)
      (twhere (λ r, bool_decide (srow_phase_id r = phaseID)) (db_steps d)))))).

Definition ListByRun (runID : string) : M W (list Step) :=
  wrapping "failed to list steps for run"
    (query_in c (λ d, Ok (map scan (rows_of d runID)))).
End Methods.
End StepsRepo.

(** ** [attempts_repo.go] *)

Module AttemptsRepo.

(** The row [Create] writes: without a result, the state column is [pending] and the JSON
    columns are empty. [attempt.State] has no column. *)
Definition row_of (a : Attempt) : AttemptRow :=
  match att_Result a with
  | Some r =>
    MkAttemptRow (att_ID a) (att_StepID a) (att_Number a) (att_Adapter a)
      (rs_State r) (rs_Summary r) (rs_NeedsHumanDecision r) (json_Marshal (rs_Warnings r))
      (json_Marshal (rs_Questions r)) (json_Marshal (rs_FilesChanged r)) (rs_RawOutput r)
      (rs_RawOutputRef r) (rs_IsSimulation r) (rs_Retryable r) (rs_Version r)
      (json_Marshal (rs_Artifacts r)) (json_Marshal (rs_Provisioning r))
      (att_CreatedAt a) (att_UpdatedAt a)
  | None =>
    MkAttemptRow (att_ID a) (att_StepID a) (att_Number a) (att_Adapter a)
      StepStatePending "" false JEmpty JEmpty JEmpty "" "" false false "" JEmpty JEmpty
      (att_CreatedAt a) (att_UpdatedAt a)
  end.

(** The columns [UpdateResult] sets. *)
Definition set_result (res : ResultSpec) (updatedAt : Z) (r : AttemptRow) : AttemptRow :=
  MkAttemptRow (arow_id r) (arow_step_id r) (arow_number r) (arow_adapter r)
    (rs_State res) (rs_Summary res) (rs_NeedsHumanDecision res) (json_Marshal (rs_Warnings res))
    (json_Marshal (rs_Questions res)) (json_Marshal (rs_FilesChanged res)) (rs_RawOutput res)
    (rs_RawOutputRef res) (rs_IsSimulation res) (rs_Retryable res) (rs_Version res)
    (json_Marshal (rs_Artifacts res)) (json_Marshal (rs_Provisioning res))
    (arow_created_at r) updatedAt.

(** The result a reader rebuilds from the columns of a row. *)
Definition scan_result (r : AttemptRow) : ResultSpec :=
  ResultSpec_zero
    <| rs_State := arow_state r |>
    <| rs_Summary := arow_summary r |>
    <| rs_NeedsHumanDecision := arow_needs_human_decision r |>
    <| rs_RawOutput := arow_raw_output r |>
    <| rs_RawOutputRef := arow_raw_output_ref r |>
    <| rs_IsSimulation := arow_is_simulation r |>
    <| rs_Retryable := arow_retryable r |>
    <| rs_Version := arow_version r |>
    <| rs_Artifacts := unmarshal ∅ (arow_artifacts r) |>
    <| rs_Warnings := unmarshal [] (arow_warnings r) |>
    <| rs_Questions := unmarshal [] (arow_questions r) |>
    <| rs_FilesChanged := unmarshal [] (arow_files_changed r) |>
    <| rs_Provisioning := unmarshal None (arow_provisioning r) |>.

Definition scan (has_result : StepState → bool) (r : AttemptRow) : Attempt := {|
  att_ID := arow_id r;
  att_StepID := arow_step_id r;
  att_Number := arow_number r;
  att_Adapter := arow_adapter r;
  att_State := StepState_zero;
  att_Result := if has_result (arow_state r) then Some (scan_result r) else None;
  att_CreatedAt := arow_created_at r;
  att_UpdatedAt := arow_updated_at r;
|}.

(** [stateStr != ""] in [Get]; the other readers also exclude [pending]. *)
Definition state_nonempty (s : StepState) : bool := negb (bool_decide (StepState_text s = "")).
Definition state_settled (s : StepState) : bool :=
  state_nonempty s && negb (bool_decide (StepState_text s = StepState_text StepStatePending)).

(** The attempt of a step with the highest number. *)
Definition latest_row (d : DB) (stepID : string) : option AttemptRow :=
  head (sort_by (desc arow_number)
    (twhere (λ r, bool_decide (arow_step_id r = stepID)) (db_attempts d))).

Section Methods.
Context {W : Type} `{Env} `{Lens W DB} (c : ctx).

Definition Create (attempt : Attempt) : M W unit :=
  wrapping "failed to create attempt"
    (exec_in c (sql_insert "attempts.id" db_attempts store_attempts (row_of attempt))).

Definition Get (id : string) : M W (option Attempt) :=
  wrapping "failed to get attempt"
    (query_in c (λ d, Ok (scan state_nonempty <$> tget id (db_attempts d)))).

Definition UpdateResult (attempt : Attempt) : M W unit :=
  match att_Result attempt with
  | None => fail (errorf "attempt result is nil")
  | Some res =>
    _ <- wrapping "failed to update attempt result"
      (exec_in c (sql_update db_attempts store_attempts (att_ID attempt)
        (set_result res (att_UpdatedAt attempt)))) ;;
    ret tt
  end.

Definition ListByStep (stepID : string) : M W (list Attempt) :=
  wrapping "failed to list attempts"
    (query_in c (λ d, Ok (map (scan state_settled) (sort_by (asc arow_number)
      (twhere (λ r, bool_decide (arow_step_id r = stepID)) (db_attempts d)))))).

Definition GetLatestByStep (stepID : string) : M W (option Attempt) :=
  wrapping "failed to get latest attempt"
    (query_in c (λ d, Ok (scan state_settled <$> latest_row d stepID))).
End Methods.
End AttemptsRepo.

(** ** [gates_repo.go] *)

Module GatesRepo.

(** The columns [Resolve] sets. *)
Definition set_resolved (state : GateState) (t : Z) (g : Gate) : Gate :=
  g <| gate_State := state |> <| gate_ResolvedAt := Some t |>.

Section Methods.
Context {W : Type} `{Env} `{Lens W DB} (c : ctx).

Definition Create (gate : Gate) : M W unit :=
  wrapping ("failed to create gate " +:+ gate_ID gate)
    (exec_in c (sql_insert "gates.id" db_gates store_gates
      (gate <| gate_ResolvedAt := None |>))).

Definition Resolve (id : string) (state : GateState) : M W unit :=
  t <- now ;;
  rows <- wrapping ("failed to resolve gate " +:+ id)
    (exec_in c (sql_update db_gates store_gates id (set_resolved state t))) ;;
  if decide (rows = 0) then fail (errorf ("gate not found: " +:+ id)) else ret tt.

Definition Get (id : string) : M W (option Gate) :=
  wrapping ("failed to get gate " +:+ id) (query_in c (λ d, Ok (tget id (db_gates d)))).

Definition ListByRun (runID : string) : M W (list Gate) :=
  wrapping "failed to list gates"
    (query_in c (λ d, Ok (sort_by (desc gate_CreatedAt)
      (twhere (λ g, bool_decide (gate_RunID g = runID)) (db_gates d))))).
End Methods.
End GatesRepo.

(** ** [artifacts_repo.go] *)

Module ArtifactsRepo.

(** [ORDER BY created_at DESC, updated_at DESC, id DESC]. *)
Definition newest_first : Artifact → Artifact → bool :=
  lex (desc art_CreatedAt) (lex (desc art_UpdatedAt) (λ a b, String.leb (art_ID b) (art_ID a))).

Section Methods.
Context {W : Type} `{Env} `{Lens W DB} (c : ctx).

Definition Create (artifact : Artifact) : M W unit :=
  wrapping ("failed to create artifact " +:+ art_ID artifact)
    (exec_in c (sql_insert "artifacts.id" db_artifacts store_artifacts artifact)).

Definition Get (id : string) : M W (option Artifact) :=
  wrapping ("failed to get artifact " +:+ id)
    (query_in c (λ d, Ok (tget id (db_artifacts d)))).

(** [INNER JOIN attempts att ON a.attempt_id = att.id WHERE att.step_id = ?]. *)
Definition ListByStep (stepID : string) : M W (list Artifact) :=
  wrapping ("failed to list artifacts for step " +:+ stepID)
    (query_in c (λ d, Ok (sort_by (desc art_CreatedAt)
      (twhere (λ a, match tget (art_AttemptID a) (db_attempts d) with
                    | Some att => bool_decide (arow_step_id att = stepID)
                    | None => false
                    end) (db_artifacts d))))).

Definition ListByAttempt (attemptID : string) : M W (list Artifact) :=
  wrapping ("failed to list artifacts for attempt " +:+ attemptID)
    (query_in c (λ d, Ok (sort_by newest_first
      (twhere (λ a, bool_decide (art_AttemptID a = attemptID)) (db_artifacts d))))).
End Methods.
End ArtifactsRepo.

(** ** [validations_repo.go] *)

Module ValidationsRepo.
Section Methods.
Context {W : Type} `{Env} `{Lens W DB} (c : ctx).

(** The time the caller's result gets when it has none is returned with the error. *)
Definition Create (attemptID : string) (res : ValidationResult) : M W unit :=
  t <- now ;;
  let res := if time_IsZero (vr_UpdatedAt res) then res <| vr_UpdatedAt := t |> else res in
  wrapping ("failed to create validation " +:+ vr_Name res +:+ " for attempt " +:+ attemptID)
    (exec_in c (sql_insert "validations.attempt_id, validations.name" db_validations
      store_validations (MkValidationRow attemptID res t))).

(** [results[attemptID] = append(results[attemptID], &res)]. *)
Definition group_by_attempt (rows : list ValidationRow) : gmap string (list ValidationResult) :=
  foldl (λ m r, <[vrow_attempt_id r := default [] (m !! vrow_attempt_id r) ++ [vrow_result r]]> m)
    ∅ rows.

Definition ListByStep (stepID : string) : M W (gmap string (list ValidationResult)) :=
  wrapping ("failed to list validations for step " +:+ stepID)
    (query_in c (λ d, Ok (group_by_attempt (sort_by (asc (vr_UpdatedAt ∘ vrow_result))
      (twhere (λ v, match tget (vrow_attempt_id v) (db_attempts d) with
                    | Some att => bool_decide (arow_step_id att = stepID)
                    | None => false
                    end) (db_validations d)))))).

(** Without [ORDER BY]; the rows are given in rowid order. *)
Definition ListByAttempt (attemptID : string) : M W (list ValidationResult) :=
  wrapping ("failed to list validations for attempt " +:+ attemptID)
    (query_in c (λ d, Ok (map vrow_result
      (twhere (λ v, bool_decide (vrow_attempt_id v = attemptID)) (db_validations d))))).
End Methods.
End ValidationsRepo.

(** ** [benchmarks_repo.go] *)

Module BenchmarksRepo.

(** [ON CONFLICT(id) DO UPDATE SET ...]: the adapter, the phase, the attempt and the creation
    time stay those of the first insertion. *)
Definition merge (b old : BenchmarkScore) : BenchmarkScore :=
  old <| bm_DurationMs := bm_DurationMs b |>
      <| bm_ValidationsHit := bm_ValidationsHit b |>
      <| bm_ValidationsMax := bm_ValidationsMax b |>
      <| bm_CostCents := bm_CostCents b |>
      <| bm_FailureReason := bm_FailureReason b |>
      <| bm_IsSimulation := bm_IsSimulation b |>.

Section Methods.
Context {W : Type} `{Env} `{Lens W DB} (c : ctx).

Definition Save (b : BenchmarkScore) : M W unit :=
  wrapping "failed to save benchmark"
    (exec_in c (λ d, (Ok tt, store_benchmarks (tupsert b (merge b) (db_benchmarks d)) d))).

Definition GetScoresByAdapter (adapter : string) : M W (list BenchmarkScore) :=
  wrapping "failed to query benchmark scores"
    (query_in c (λ d, Ok (sort_by (desc bm_CreatedAt)
      (twhere (λ b, bool_decide (bm_Adapter b = adapter)) (db_benchmarks d))))).
End Methods.
End BenchmarksRepo.

(** ** [settings_repo.go] *)

Module SettingsRepo.
Section Methods.
Context {W : Type} `{Env} `{Lens W DB} (c : ctx).

Definition Get (key : string) : M W string :=
  wrapping ("failed to get setting " +:+ quoted key)
    (query_in c (λ d, Ok (default "" (setting_value <$> tget key (db_settings d))))).

Definition Set_ (key value : string) : M W unit :=
  wrapping ("failed to set setting " +:+ quoted key)
    (exec_in c (λ d, (Ok tt, store_settings
      (tupsert (MkSettingRow key value) (λ r, MkSettingRow (setting_key r) value)
        (db_settings d)) d))).

Definition Delete (key : string) : M W unit :=
  wrapping ("failed to delete setting " +:+ quoted key)
    (exec_in c (λ d, (Ok tt, store_settings
      (tdelete (λ r, bool_decide (setting_key r = key)) (db_settings d)) d))).
End Methods.
End SettingsRepo.

(** ** Views of the database the services share *)

Definition steps_of (d : DB) (runID : string) : list Step :=
  map StepsRepo.scan (StepsRepo.rows_of d runID).

Definition latest_attempt (d : DB) (stepID : string) : option Attempt :=
  AttemptsRepo.scan AttemptsRepo.state_settled <$> AttemptsRepo.latest_row d stepID.

(** ** Preservation of the primary keys

    [keeps_wf] relates two states of a process that contains a database when the second
    database is well formed if the first one is. *)

Definition keeps_wf {W} `{Lens W DB} (w w' : W) : Prop := DB_wf (view w) → DB_wf (view w').

#[export] Instance keeps_wf_preorder {W} `{Lens W DB} : PreOrder (keeps_wf (W:=W)).
Proof. split; [intros w Hw; exact Hw|]. intros w1 w2 w3 H12 H23 H1. auto. Qed.

Lemma empty_DB_wf : DB_wf empty_DB.
Proof. split; apply NoDup_nil_2. Qed.

Section Wf.
Context {W : Type} `{Env} `{Lens W DB}.

Lemma respects_insert {R K} `{EqDecision K} `{Keyed R K} c name (table : DB → list R)
    store_table (row : R) :
  (∀ d, DB_wf d → keys_unique (table d)) →
  (∀ d t, DB_wf d → keys_unique t → DB_wf (store_table t d)) →
  respects keeps_wf (exec_in (W:=W) c (sql_insert name table store_table row)).
Proof.
  intros Htable Hstore. apply respects_exec_in; [apply _|]. intros w Hwf. rewrite view_put.
  unfold sql_insert. destruct (tinsert row (table (view w))) as [t|] eqn:Ht; [|done].
  apply tinsert_spec in Ht as [Hn ->]. simpl. apply Hstore; [done|].
  apply keys_unique_insert; auto.
Qed.

Lemma respects_update {R K} `{EqDecision K} `{Keyed R K} c (table : DB → list R)
    store_table k f :
  (∀ r, row_key (f r) = row_key r) →
  (∀ d, DB_wf d → keys_unique (table d)) →
  (∀ d t, DB_wf d → keys_unique t → DB_wf (store_table t d)) →
  respects keeps_wf (exec_in (W:=W) c (sql_update table store_table k f)).
Proof.
  intros Hf Htable Hstore. apply respects_exec_in; [apply _|]. intros w Hwf. rewrite view_put.
  simpl. apply Hstore; [done|]. apply keys_unique_update; auto.
Qed.

Ltac table_wf :=
  first [intros ? []; assumption | intros ? ? [] ?; split; simpl; assumption].
Ltac repo_wf :=
  intros; respects_solve;
  first [apply respects_insert; table_wf | apply respects_update; [done|table_wf|table_wf]].

Context (c : ctx).

Lemma RunsRepo_Create_wf run : respects keeps_wf (RunsRepo.Create (W:=W) c run).
Proof. unfold RunsRepo.Create. repo_wf. Qed.
Lemma RunsRepo_UpdateState_wf run : respects keeps_wf (RunsRepo.UpdateState (W:=W) c run).
Proof. unfold RunsRepo.UpdateState. repo_wf. Qed.
Lemma PhasesRepo_Create_wf phase : respects keeps_wf (PhasesRepo.Create (W:=W) c phase).
Proof. unfold PhasesRepo.Create. repo_wf. Qed.
Lemma StepsRepo_Create_wf step : respects keeps_wf (StepsRepo.Create (W:=W) c step).
Proof. unfold StepsRepo.Create. repo_wf. Qed.
Lemma StepsRepo_UpdateState_wf step : respects keeps_wf (StepsRepo.UpdateState (W:=W) c step).
Proof. unfold StepsRepo.UpdateState. repo_wf. Qed.
Lemma AttemptsRepo_Create_wf attempt : respects keeps_wf (AttemptsRepo.Create (W:=W) c attempt).
Proof. unfold AttemptsRepo.Create. repo_wf. Qed.
Lemma AttemptsRepo_UpdateResult_wf attempt :
  respects keeps_wf (AttemptsRepo.UpdateResult (W:=W) c attempt).
Proof. unfold AttemptsRepo.UpdateResult. repo_wf. Qed.
Lemma GatesRepo_Create_wf gate : respects keeps_wf (GatesRepo.Create (W:=W) c gate).
Proof. unfold GatesRepo.Create. repo_wf. Qed.
Lemma GatesRepo_Resolve_wf id state : respects keeps_wf (GatesRepo.Resolve (W:=W) c id state).
Proof. unfold GatesRepo.Resolve. repo_wf. Qed.
Lemma ArtifactsRepo_Create_wf artifact :
  respects keeps_wf (ArtifactsRepo.Create (W:=W) c artifact).
Proof. unfold ArtifactsRepo.Create. repo_wf. Qed.
Lemma ValidationsRepo_Create_wf attemptID res :
  respects keeps_wf (ValidationsRepo.Create (W:=W) c attemptID res).
Proof. unfold ValidationsRepo.Create. repo_wf. Qed.

Lemma BenchmarksRepo_Save_wf b : respects keeps_wf (BenchmarksRepo.Save (W:=W) c b).
Proof.
  unfold BenchmarksRepo.Save. respects_solve. apply respects_exec_in; [apply _|].
  intros w []. rewrite view_put. split; simpl; try assumption. by apply keys_unique_upsert.
Qed.
Lemma SettingsRepo_Set_wf k v : respects keeps_wf (SettingsRepo.Set_ (W:=W) c k v).
Proof.
  unfold SettingsRepo.Set_. respects_solve. apply respects_exec_in; [apply _|].
  intros w []. rewrite view_put. split; simpl; try assumption. by apply keys_unique_upsert.
Qed.
Lemma SettingsRepo_Delete_wf k : respects keeps_wf (SettingsRepo.Delete (W:=W) c k).
Proof.
  unfold SettingsRepo.Delete. respects_solve. apply respects_exec_in; [apply _|].
  intros w []. rewrite view_put. split; simpl; try assumption. by apply keys_unique_where.
Qed.
End Wf.

(** The readers change nothing, and so respect every preorder. *)
Section Readers.
Context {W : Type} `{Env} `{Lens W DB} (c : ctx) (R : relation W) `{!PreOrder R}.

Lemma RunsRepo_Get_reads id : respects R (RunsRepo.Get (W:=W) c id).
Proof. unfold RunsRepo.Get. respects_solve. Qed.
Lemma RunsRepo_ListByState_reads state : respects R (RunsRepo.ListByState (W:=W) c state).
Proof. unfold RunsRepo.ListByState. respects_solve. Qed.
Lemma RunsRepo_List_reads filters : respects R (RunsRepo.List (W:=W) c filters).
Proof. unfold RunsRepo.List. respects_solve. Qed.
Lemma PhasesRepo_ListByRun_reads runID : respects R (PhasesRepo.ListByRun (W:=W) c runID).
Proof. unfold PhasesRepo.ListByRun. respects_solve. Qed.
Lemma PhasesRepo_Get_reads id : respects R (PhasesRepo.Get (W:=W) c id).
Proof. unfold PhasesRepo.Get. respects_solve. Qed.
Lemma StepsRepo_Get_reads id : respects R (StepsRepo.Get (W:=W) c id).
Proof. unfold StepsRepo.Get. respects_solve. Qed.
Lemma StepsRepo_ListByPhase_reads phaseID : respects R (StepsRepo.ListByPhase (W:=W) c phaseID).
Proof. unfold StepsRepo.ListByPhase. respects_solve. Qed.
Lemma StepsRepo_ListByRun_reads runID : respects R (StepsRepo.ListByRun (W:=W) c runID).
Proof. unfold StepsRepo.ListByRun. respects_solve. Qed.
Lemma AttemptsRepo_Get_reads id : respects R (AttemptsRepo.Get (W:=W) c id).
Proof. unfold AttemptsRepo.Get. respects_solve. Qed.
Lemma AttemptsRepo_ListByStep_reads stepID : respects R (AttemptsRepo.ListByStep (W:=W) c stepID).
Proof. unfold AttemptsRepo.ListByStep. respects_solve. Qed.
Lemma AttemptsRepo_GetLatestByStep_reads stepID : respects R (AttemptsRepo.GetLatestByStep (W:=W) c stepID).
Proof. unfold AttemptsRepo.GetLatestByStep. respects_solve. Qed.
Lemma GatesRepo_Get_reads id : respects R (GatesRepo.Get (W:=W) c id).
Proof. unfold GatesRepo.Get. respects_solve. Qed.
Lemma GatesRepo_ListByRun_reads runID : respects R (GatesRepo.ListByRun (W:=W) c runID).
Proof. unfold GatesRepo.ListByRun. respects_solve. Qed.
Lemma ArtifactsRepo_Get_reads id : respects R (ArtifactsRepo.Get (W:=W) c id).
Proof. unfold ArtifactsRepo.Get. respects_solve. Qed.
Lemma ArtifactsRepo_ListByStep_reads stepID : respects R (ArtifactsRepo.ListByStep (W:=W) c stepID).
Proof. unfold ArtifactsRepo.ListByStep. respects_solve. Qed.
Lemma ArtifactsRepo_ListByAttempt_reads attemptID : respects R (ArtifactsRepo.ListByAttempt (W:=W) c attemptID).
Proof. unfold ArtifactsRepo.ListByAttempt. respects_solve. Qed.
Lemma ValidationsRepo_ListByStep_reads stepID : respects R (ValidationsRepo.ListByStep (W:=W) c stepID).
Proof. unfold ValidationsRepo.ListByStep. respects_solve. Qed.
Lemma ValidationsRepo_ListByAttempt_reads attemptID : respects R (ValidationsRepo.ListByAttempt (W:=W) c attemptID).
Proof. unfold ValidationsRepo.ListByAttempt. respects_solve. Qed.
Lemma BenchmarksRepo_GetScoresByAdapter_reads adapter : respects R (BenchmarksRepo.GetScoresByAdapter (W:=W) c adapter).
Proof. unfold BenchmarksRepo.GetScoresByAdapter. respects_solve. Qed.
Lemma SettingsRepo_Get_reads key : respects R (SettingsRepo.Get (W:=W) c key).
Proof. unfold SettingsRepo.Get. respects_solve. Qed.
End Readers.

#[export] Hint Resolve
  RunsRepo_Create_wf RunsRepo_UpdateState_wf PhasesRepo_Create_wf StepsRepo_Create_wf
  StepsRepo_UpdateState_wf AttemptsRepo_Create_wf AttemptsRepo_UpdateResult_wf
  GatesRepo_Create_wf GatesRepo_Resolve_wf ArtifactsRepo_Create_wf ValidationsRepo_Create_wf
  BenchmarksRepo_Save_wf SettingsRepo_Set_wf SettingsRepo_Delete_wf RunsRepo_Get_reads
  RunsRepo_ListByState_reads RunsRepo_List_reads PhasesRepo_ListByRun_reads
  PhasesRepo_Get_reads StepsRepo_Get_reads StepsRepo_ListByPhase_reads
  StepsRepo_ListByRun_reads AttemptsRepo_Get_reads AttemptsRepo_ListByStep_reads
  AttemptsRepo_GetLatestByStep_reads GatesRepo_Get_reads GatesRepo_ListByRun_reads
  ArtifactsRepo_Get_reads ArtifactsRepo_ListByStep_reads ArtifactsRepo_ListByAttempt_reads
  ValidationsRepo_ListByStep_reads ValidationsRepo_ListByAttempt_reads
  BenchmarksRepo_GetScoresByAdapter_reads SettingsRepo_Get_reads : go.

(** ** No call of a repository panics or waits for ever *)

Section Returning.
Context {W : Type} `{Env} `{Lens W DB} (c : ctx).

Lemma insert_returns {R K} `{EqDecision K} `{Keyed R K} name table store_table (row : R) d :
  returned (sql_insert name table store_table row d).1.
Proof. unfold sql_insert. by destruct (tinsert row (table d)). Qed.

Ltac repo_returns := returns_solve; apply insert_returns.

Lemma RunsRepo_Create_returns x : returns (RunsRepo.Create (W:=W) c x).
Proof. unfold RunsRepo.Create. repo_returns. Qed.
Lemma RunsRepo_Get_returns x : returns (RunsRepo.Get (W:=W) c x).
Proof. unfold RunsRepo.Get. repo_returns. Qed.
Lemma RunsRepo_UpdateState_returns x : returns (RunsRepo.UpdateState (W:=W) c x).
Proof. unfold RunsRepo.UpdateState. repo_returns. Qed.
Lemma RunsRepo_ListByState_returns x : returns (RunsRepo.ListByState (W:=W) c x).
Proof. unfold RunsRepo.ListByState. repo_returns. Qed.
Lemma RunsRepo_List_returns x : returns (RunsRepo.List (W:=W) c x).
Proof. unfold RunsRepo.List. repo_returns. Qed.
Lemma PhasesRepo_Create_returns x : returns (PhasesRepo.Create (W:=W) c x).
Proof. unfold PhasesRepo.Create. repo_returns. Qed.
Lemma PhasesRepo_ListByRun_returns x : returns (PhasesRepo.ListByRun (W:=W) c x).
Proof. unfold PhasesRepo.ListByRun. repo_returns. Qed.
Lemma PhasesRepo_Get_returns x : returns (PhasesRepo.Get (W:=W) c x).
Proof. unfold PhasesRepo.Get. repo_returns. Qed.
Lemma StepsRepo_Create_returns x : returns (StepsRepo.Create (W:=W) c x).
Proof. unfold StepsRepo.Create. repo_returns. Qed.
Lemma StepsRepo_Get_returns x : returns (StepsRepo.Get (W:=W) c x).
Proof. unfold StepsRepo.Get. repo_returns. Qed.
Lemma StepsRepo_UpdateState_returns x : returns (StepsRepo.UpdateState (W:=W) c x).
Proof. unfold StepsRepo.UpdateState. repo_returns. Qed.
Lemma StepsRepo_ListByPhase_returns x : returns (StepsRepo.ListByPhase (W:=W) c x).
Proof. unfold StepsRepo.ListByPhase. repo_returns. Qed.
Lemma StepsRepo_ListByRun_returns x : returns (StepsRepo.ListByRun (W:=W) c x).
Proof. unfold StepsRepo.ListByRun. repo_returns. Qed.
Lemma AttemptsRepo_Create_returns x : returns (AttemptsRepo.Create (W:=W) c x).
Proof. unfold AttemptsRepo.Create. repo_returns. Qed.
Lemma AttemptsRepo_Get_returns x : returns (AttemptsRepo.Get (W:=W) c x).
Proof. unfold AttemptsRepo.Get. repo_returns. Qed.
Lemma AttemptsRepo_UpdateResult_returns x : returns (AttemptsRepo.UpdateResult (W:=W) c x).
Proof. unfold AttemptsRepo.UpdateResult. repo_returns. Qed.
Lemma AttemptsRepo_ListByStep_returns x : returns (AttemptsRepo.ListByStep (W:=W) c x).
Proof. unfold AttemptsRepo.ListByStep. repo_returns. Qed.
Lemma AttemptsRepo_GetLatestByStep_returns x : returns (AttemptsRepo.GetLatestByStep (W:=W) c x).
Proof. unfold AttemptsRepo.GetLatestByStep. repo_returns. Qed.
Lemma GatesRepo_Create_returns x : returns (GatesRepo.Create (W:=W) c x).
Proof. unfold GatesRepo.Create. repo_returns. Qed.
Lemma GatesRepo_Resolve_returns x y : returns (GatesRepo.Resolve (W:=W) c x y).
Proof. unfold GatesRepo.Resolve. repo_returns. Qed.
Lemma GatesRepo_Get_returns x : returns (GatesRepo.Get (W:=W) c x).
Proof. unfold GatesRepo.Get. repo_returns. Qed.
Lemma GatesRepo_ListByRun_returns x : returns (GatesRepo.ListByRun (W:=W) c x).
Proof. unfold GatesRepo.ListByRun. repo_returns. Qed.
Lemma ArtifactsRepo_Create_returns x : returns (ArtifactsRepo.Create (W:=W) c x).
Proof. unfold ArtifactsRepo.Create. repo_returns. Qed.
Lemma ArtifactsRepo_Get_returns x : returns (ArtifactsRepo.Get (W:=W) c x).
Proof. unfold ArtifactsRepo.Get. repo_returns. Qed.
Lemma ArtifactsRepo_ListByStep_returns x : returns (ArtifactsRepo.ListByStep (W:=W) c x).
Proof. unfold ArtifactsRepo.ListByStep. repo_returns. Qed.
Lemma ArtifactsRepo_ListByAttempt_returns x : returns (ArtifactsRepo.ListByAttempt (W:=W) c x).
Proof. unfold ArtifactsRepo.ListByAttempt. repo_returns. Qed.
Lemma ValidationsRepo_Create_returns x y : returns (ValidationsRepo.Create (W:=W) c x y).
Proof. unfold ValidationsRepo.Create. repo_returns. Qed.
Lemma ValidationsRepo_ListByStep_returns x : returns (ValidationsRepo.ListByStep (W:=W) c x).
Proof. unfold ValidationsRepo.ListByStep. repo_returns. Qed.
Lemma ValidationsRepo_ListByAttempt_returns x : returns (ValidationsRepo.ListByAttempt (W:=W) c x).
Proof. unfold ValidationsRepo.ListByAttempt. repo_returns. Qed.
Lemma BenchmarksRepo_Save_returns x : returns (BenchmarksRepo.Save (W:=W) c x).
Proof. unfold BenchmarksRepo.Save. repo_returns. Qed.
Lemma BenchmarksRepo_GetScoresByAdapter_returns x : returns (BenchmarksRepo.GetScoresByAdapter (W:=W) c x).
Proof. unfold BenchmarksRepo.GetScoresByAdapter. repo_returns. Qed.
Lemma SettingsRepo_Get_returns x : returns (SettingsRepo.Get (W:=W) c x).
Proof. unfold SettingsRepo.Get. repo_returns. Qed.
Lemma SettingsRepo_Set_returns x y : returns (SettingsRepo.Set_ (W:=W) c x y).
Proof. unfold SettingsRepo.Set_. repo_returns. Qed.
Lemma SettingsRepo_Delete_returns x : returns (SettingsRepo.Delete (W:=W) c x).
Proof. unfold SettingsRepo.Delete. repo_returns. Qed.
End Returning.

#[export] Hint Resolve
  RunsRepo_Create_returns RunsRepo_Get_returns RunsRepo_UpdateState_returns
  RunsRepo_ListByState_returns RunsRepo_List_returns PhasesRepo_Create_returns
  PhasesRepo_ListByRun_returns PhasesRepo_Get_returns StepsRepo_Create_returns
  StepsRepo_Get_returns StepsRepo_UpdateState_returns StepsRepo_ListByPhase_returns
  StepsRepo_ListByRun_returns AttemptsRepo_Create_returns AttemptsRepo_Get_returns
  AttemptsRepo_UpdateResult_returns AttemptsRepo_ListByStep_returns
  AttemptsRepo_GetLatestByStep_returns GatesRepo_Create_returns GatesRepo_Resolve_returns
  GatesRepo_Get_returns GatesRepo_ListByRun_returns ArtifactsRepo_Create_returns
  ArtifactsRepo_Get_returns ArtifactsRepo_ListByStep_returns
  ArtifactsRepo_ListByAttempt_returns ValidationsRepo_Create_returns
  ValidationsRepo_ListByStep_returns ValidationsRepo_ListByAttempt_returns
  BenchmarksRepo_Save_returns BenchmarksRepo_GetScoresByAdapter_returns
  SettingsRepo_Get_returns SettingsRepo_Set_returns SettingsRepo_Delete_returns : go.

(** ** Rules for the calls

    One rule per call the services reason about: the outcome and the database after it. A call
    can also fail, with the database unchanged, unless its context is reliable. *)

Section Rules.
Context {W : Type} `{Env} `{Lens W DB} (c : ctx).
Implicit Types (s : st W).

(** The state after a call that replaces the database. *)
Definition after (d : DB) (s : st W) : st W := St (put d (store s)) (S (tick s)).
Definition db_of (s : st W) : DB := view (store s).

Lemma db_of_after d s : db_of (after d s) = d.
Proof. apply view_put. Qed.
Lemma db_of_tock s : db_of (tock s) = db_of s.
Proof. done. Qed.

(** The failing call is excluded, or accounted for. *)
Definition may_fail {A} (Q : outcome A → st W → Prop) (s : st W) : Prop :=
  reliable c ∨ ∀ e, Q (Err e) (tock s).

Lemma may_fail_use {A} (Q : outcome A → st W → Prop) s text e :
  may_fail Q s → fault c (tick s) = Some text → Q (Err e) (tock s).
Proof. intros [Hc|Hf] Ht; [by rewrite Hc in Ht|apply Hf]. Qed.

Ltac repo_call := intros Hf HQ; wp_ok; [by eapply (may_fail_use _ _ _ _ Hf)|exact HQ].

Lemma wp_RunsRepo_Get id Q s :
  may_fail Q s → Q (Ok (tget id (db_runs (db_of s)))) (tock s) → wp (RunsRepo.Get c id) Q s.
Proof. unfold RunsRepo.Get. repo_call. Qed.

Lemma wp_PhasesRepo_Get id Q s :
  may_fail Q s → Q (Ok (tget id (db_phases (db_of s)))) (tock s) → wp (PhasesRepo.Get c id) Q s.
Proof. unfold PhasesRepo.Get. repo_call. Qed.

Lemma wp_StepsRepo_Get id Q s :
  may_fail Q s → Q (Ok (StepsRepo.scan <$> tget id (db_steps (db_of s)))) (tock s) →
  wp (StepsRepo.Get c id) Q s.
Proof. unfold StepsRepo.Get. repo_call. Qed.

Lemma wp_StepsRepo_ListByRun runID Q s :
  may_fail Q s → Q (Ok (steps_of (db_of s) runID)) (tock s) →
  wp (StepsRepo.ListByRun c runID) Q s.
Proof. unfold StepsRepo.ListByRun. repo_call. Qed.

Lemma wp_AttemptsRepo_GetLatestByStep stepID Q s :
  may_fail Q s → Q (Ok (latest_attempt (db_of s) stepID)) (tock s) →
  wp (AttemptsRepo.GetLatestByStep c stepID) Q s.
Proof. unfold AttemptsRepo.GetLatestByStep. repo_call. Qed.

Lemma wp_AttemptsRepo_Get id Q s :
  may_fail Q s →
  Q (Ok (AttemptsRepo.scan AttemptsRepo.state_nonempty <$> tget id (db_attempts (db_of s))))
    (tock s) → wp (AttemptsRepo.Get c id) Q s.
Proof. unfold AttemptsRepo.Get. repo_call. Qed.

Lemma wp_GatesRepo_Get id Q s :
  may_fail Q s → Q (Ok (tget id (db_gates (db_of s)))) (tock s) → wp (GatesRepo.Get c id) Q s.
Proof. unfold GatesRepo.Get. repo_call. Qed.

Lemma wp_sql_update {R K} `{EqDecision K} `{Keyed R K} prefix (table : DB → list R)
    store_table (k : K) f (final : nat → M W unit) Q s :
  may_fail Q s →
  wp (final (tcount k (table (db_of s)))) Q
    (after (store_table (tupdate k f (table (db_of s))) (db_of s)) s) →
  wp (rows <- wrapping prefix (exec_in c (sql_update table store_table k f)) ;; final rows) Q s.
Proof.
  intros Hf HQ. unfold sql_update. wp_step. wp_step. wp_step.
  - by eapply (may_fail_use Q _ _ _ Hf).
  - exact HQ.
Qed.

Lemma wp_found (n : nat) e Q s :
  (if decide (n = 0) then Q (Err e) s else Q (Ok tt) s) →
  wp (if decide (n = 0) then fail e else ret tt) Q s.
Proof. by case_decide. Qed.

Lemma wp_RunsRepo_UpdateState run Q s :
  let d := db_of s in
  let s' := after (store_runs (tupdate (run_ID run) (RunsRepo.set_state run) (db_runs d)) d) s in
  may_fail Q s →
  match tget (run_ID run) (db_runs d) with
  | Some _ => Q (Ok tt) s'
  | None => Q (Err (errorf ("run not found: " +:+ run_ID run))) s'
  end → wp (RunsRepo.UpdateState c run) Q s.
Proof.
  intros d s' Hf HQ. apply wp_sql_update; [done|]. apply wp_found.
  destruct (tget (run_ID run) (db_runs d)) eqn:Hget.
  - rewrite decide_False; [done|]. intros Hz%tcount_zero. unfold d in Hget. congruence.
  - by rewrite decide_True; [|apply tcount_zero].
Qed.

Lemma wp_StepsRepo_UpdateState step Q s :
  let d := db_of s in
  may_fail Q s →
  Q (Ok tt) (after (store_steps (tupdate (step_ID step) (StepsRepo.set_state step) (db_steps d)) d) s)
  → wp (StepsRepo.UpdateState c step) Q s.
Proof. intros d Hf HQ. by apply wp_sql_update. Qed.

Lemma wp_GatesRepo_Resolve id state Q s :
  let d := db_of s in
  let s' := after (store_gates
      (tupdate id (GatesRepo.set_resolved state (clock (tick s))) (db_gates d)) d) (tock s) in
  may_fail Q (tock s) →
  match tget id (db_gates d) with
  | Some _ => Q (Ok tt) s'
  | None => Q (Err (errorf ("gate not found: " +:+ id))) s'
  end → wp (GatesRepo.Resolve c id state) Q s.
Proof.
  intros d s' Hf HQ. unfold GatesRepo.Resolve. wp_step. wp_step.
  apply wp_sql_update; [done|]. apply wp_found.
  destruct (tget id (db_gates d)) eqn:Hget.
  - rewrite decide_False; [done|]. intros Hz%tcount_zero. unfold d in Hget.
    rewrite db_of_tock in Hz. congruence.
  - by rewrite decide_True; [|apply tcount_zero].
Qed.

(** An insertion is refused exactly when its key is taken. *)
Lemma wp_insert {R K} `{EqDecision K} `{Keyed R K} name prefix (table : DB → list R)
    store_table (row : R) Q s :
  may_fail Q s →
  match tget (row_key row) (table (db_of s)) with
  | Some _ =>
    Q (Err (wrapf prefix (errorw ErrUniqueConstraint ("UNIQUE constraint failed: " +:+ name))))
      (after (db_of s) s)
  | None => Q (Ok tt) (after (store_table (table (db_of s) ++ [row]) (db_of s)) s)
  end → wp (wrapping prefix (exec_in c (sql_insert name table store_table row))) Q s.
Proof.
  intros Hf HQ. wp_step. wp_step.
  - by eapply (may_fail_use Q _ _ _ Hf).
  - unfold sql_insert, tinsert. unfold db_of in HQ.
    by destruct (tget (row_key row) (table (view (store s)))).
Qed.
End Rules.

(** The keys of the rows. *)
Lemma key_run (r : Run) : row_key r = run_ID r.
Proof. done. Qed.
Lemma key_phase (p : Phase) : row_key p = phase_ID p.
Proof. done. Qed.
Lemma key_step (step : Step) : row_key (StepsRepo.row_of step) = step_ID step.
Proof. done. Qed.

(** The error of an insertion whose key is taken. *)
Lemma taken_key p q : errors_Is (wrapf p (errorw ErrUniqueConstraint q)) ErrUniqueConstraint = true.
Proof. done. Qed.

(** The tables of a database one table of which was replaced. *)
Ltac db_simpl :=
  cbn [db_runs db_phases db_steps db_attempts db_artifacts db_gates db_validations
       db_benchmarks db_settings store_runs store_phases store_steps store_attempts
       store_artifacts store_gates store_validations store_benchmarks store_settings].

Ltac db_norm := repeat first [rewrite db_of_after | rewrite db_of_tock]; db_simpl.

(** The failing call is excluded by a hypothesis, or by a postcondition on success. *)
Ltac call_fails :=
  first [left; assumption
        | right; intros ?; cbn [then_]; try (intros; discriminate)].

(** Run the next call. *)
Ltac wp_call :=
  lazymatch goal with
  | |- wp (RunsRepo.Get _ _) _ _ => apply wp_RunsRepo_Get; [call_fails|]
  | |- wp (PhasesRepo.Get _ _) _ _ => apply wp_PhasesRepo_Get; [call_fails|]
  | |- wp (StepsRepo.Get _ _) _ _ => apply wp_StepsRepo_Get; [call_fails|]
  | |- wp (StepsRepo.ListByRun _ _) _ _ => apply wp_StepsRepo_ListByRun; [call_fails|]
  | |- wp (AttemptsRepo.GetLatestByStep _ _) _ _ =>
    apply wp_AttemptsRepo_GetLatestByStep; [call_fails|]
  | |- wp (AttemptsRepo.Get _ _) _ _ => apply wp_AttemptsRepo_Get; [call_fails|]
  | |- wp (GatesRepo.Get _ _) _ _ => apply wp_GatesRepo_Get; [call_fails|]
  | |- wp (RunsRepo.UpdateState _ _) _ _ => apply wp_RunsRepo_UpdateState; [call_fails|]
  | |- wp (StepsRepo.UpdateState _ _) _ _ => apply wp_StepsRepo_UpdateState; [call_fails|]
  | |- wp (GatesRepo.Resolve _ _ _) _ _ => apply wp_GatesRepo_Resolve; [call_fails|]
  | |- wp (RunsRepo.Create _ _) _ _ => apply wp_insert; [call_fails|]
  | |- wp (PhasesRepo.Create _ _) _ _ => apply wp_insert; [call_fails|]
  | |- wp (StepsRepo.Create _ _) _ _ => apply wp_insert; [call_fails|]
  | |- wp (AttemptsRepo.Create _ _) _ _ => apply wp_insert; [call_fails|]
  | |- wp (GatesRepo.Create _ _) _ _ => apply wp_insert; [call_fails|]
  | |- _ => wp_step
  end; cbn [then_]; db_norm.
