(* ===== verification/Gates.v ===== *)
(** * The gates of a run: [internal/service/gate_service.go]

    A gate pauses a run until the operator approves or rejects it. The service is written
    against the repositories and runs in every process that contains a database. *)
From S2P Require Export Repos Policy.
Open Scope go_scope.

Module GateService.
Section Service.
Context {W : Type} `{Env} `{Lens W DB} (c : ctx).

Definition Get (gateID : string) : M W (option Gate) := GatesRepo.Get c gateID.

(** What the resolution of its gate makes of a step; the [switch] of [resolve]. *)
Definition resolved_step (state : GateState) (step : Step) (latestAttempt : option Attempt) :
    Step :=
  match state with
  | GateStateApproved =>
    match latestAttempt ≫= att_Result with
    | None =>
      step <| step_State := StepStateNeedsManualAttention |>
           <| step_StatusReason :=
                "Gate approved, but no terminal attempt result was available to restore step state." |>
    | Some res =>
      step <| step_State := rs_State res |>
           <| step_StatusReason :=
                if decide (rs_State res = StepStateCancelled)
                then "Gate approved after a cancelled attempt; manual retry may be required."
                else rs_Summary res |>
    end
  | GateStateRejected =>
    step <| step_State := StepStateCancelled |>
         <| step_StatusReason := "Gate rejected by operator." |>
  | _ => step
  end.

Definition resolve (gateID : string) (state : GateState) : M W unit :=
  gate <- GatesRepo.Get c gateID ;;
  match gate with
  | None => fail (errorf "gate not found")
  | Some gate =>
    if decide (gate_State gate = GateStatePending) then
      GatesRepo.Resolve c gateID state ;;
      step <- StepsRepo.Get c (gate_StepID gate) ;;
      match step with
      | None => fail (errorf ("step " +:+ gate_StepID gate +:+ " for gate " +:+ gateID
                              +:+ " not found"))
      | Some step =>
        latestAttempt <-
          (if decide (state = GateStateApproved)
           then AttemptsRepo.GetLatestByStep c (gate_StepID gate) else ret None) ;;
        t <- now ;;
        StepsRepo.UpdateState c ((resolved_step state step latestAttempt) <| step_UpdatedAt := t |>) ;;
        run <- RunsRepo.Get c (gate_RunID gate) ;;
        match run with
        | None => fail (errorf ("run " +:+ gate_RunID gate +:+ " for gate " +:+ gateID
                                +:+ " not found"))
        | Some run =>
          steps <- StepsRepo.ListByRun c (gate_RunID gate) ;;
          t' <- now ;;
          RunsRepo.UpdateState c
            (run <| run_State := deriveRunState steps |> <| run_UpdatedAt := t' |>)
        end
      end
    else fail (errorf "gate is already resolved")
  end.

Definition Approve (gateID : string) : M W unit := resolve gateID GateStateApproved.
Definition Reject (gateID : string) : M W unit := resolve gateID GateStateRejected.
End Service.
End GateService.

(** ** Lemmas *)

Lemma resolved_step_ID state step att :
  step_ID (GateService.resolved_step state step att) = step_ID step.
Proof. unfold GateService.resolved_step. by destruct state, (att ≫= att_Result). Qed.

Lemma resolved_step_State decision row latest :
  step_State (GateService.resolved_step decision (StepsRepo.scan row)
    (if decide (decision = GateStateApproved) then latest else None))
  = match decision with
    | GateStateApproved =>
      match latest ≫= att_Result with
      | Some res => rs_State res
      | None => StepStateNeedsManualAttention
      end
    | GateStateRejected => StepStateCancelled
    | _ => srow_state row
    end.
Proof.
  destruct decision; simpl; try done. by destruct (latest ≫= att_Result).
Qed.

(** The state of a run agrees with the states of its steps. *)
Definition run_consistent (d : DB) (runID : string) : Prop :=
  ∃ run, tget runID (db_runs d) = Some run ∧ run_State run = deriveRunState (steps_of d runID).

Lemma run_consistent_update d runID run run' :
  tget runID (db_runs d) = Some run →
  run_State run' = deriveRunState (steps_of d runID) →
  run_consistent (store_runs (tupdate runID (RunsRepo.set_state run') (db_runs d)) d) runID.
Proof.
  intros Hrun Hst. unfold run_consistent. db_simpl. rewrite tget_update by done.
  rewrite decide_True, Hrun by done. eexists. split; [done|]. exact Hst.
Qed.

Lemma wp_latest_if_approved {W} `{Env} `{Lens W DB} c decision stepID d s :
  reliable c → db_attempts (db_of s) = db_attempts d →
  wp (if decide (decision = GateStateApproved)
      then AttemptsRepo.GetLatestByStep c stepID else ret None)
    (λ o s', o = Ok (if decide (decision = GateStateApproved)
                     then latest_attempt d stepID else None) ∧ db_of s' = db_of s) s.
Proof.
  intros Hc Hd. case_decide; repeat wp_call; [|done].
  unfold latest_attempt, AttemptsRepo.latest_row. by rewrite Hd.
Qed.

(** ** Properties *)

(** C6: resolving a pending gate, when the database does not fail, records the decision on the
    gate, moves its step to the state the decision gives it (the state of the latest recorded
    result on approval, needs_manual_attention when there is none, cancelled on rejection),
    and leaves the run in the state derived from its steps; no other gate changes. *)
Theorem gate_resolve_correct {W} `{Env} `{Lens W DB} c gateID decision gate row run s :
  reliable c →
  let d := db_of s in
  tget gateID (db_gates d) = Some gate → gate_State gate = GateStatePending →
  tget (gate_StepID gate) (db_steps d) = Some row →
  tget (gate_RunID gate) (db_runs d) = Some run →
  wp (GateService.resolve c gateID decision) (λ o s', o = Ok tt ∧
    let d' := db_of s' in
    (∃ t, tget gateID (db_gates d') = Some (GatesRepo.set_resolved decision t gate)) ∧
    (∀ id, id ≠ gateID → tget id (db_gates d') = tget id (db_gates d)) ∧
    (srow_state <$> tget (gate_StepID gate) (db_steps d')) =
       Some (match decision with
             | GateStateApproved =>
               match latest_attempt d (gate_StepID gate) ≫= att_Result with
               | Some res => rs_State res
               | None => StepStateNeedsManualAttention
               end
             | GateStateRejected => StepStateCancelled
             | _ => srow_state row
             end) ∧
    run_consistent d' (gate_RunID gate)) s.
Proof.
  intros Hc d Hgate Hpending Hstep Hrun. unfold GateService.resolve.
  repeat wp_call. fold d. rewrite Hgate, decide_True by done.
  repeat wp_call. fold d. rewrite Hgate. repeat wp_call. rewrite Hstep.
  cbn [fmap option_fmap option_map]. wp_call.
  eapply wp_mono.
  { apply (wp_latest_if_approved _ _ _ d); [done|by db_norm]. }
  intros o s' [-> Hdb]. cbn [then_].
  set (latest := if decide (decision = GateStateApproved) then _ else None).
  set (final := GateService.resolved_step decision (StepsRepo.scan row) latest).
  assert (step_ID final = gate_StepID gate) as Hid.
  { unfold final. rewrite resolved_step_ID. by apply tget_key in Hstep. }
  pose proof (tget_key _ _ _ Hrun) as Hrid. change (run_ID run = gate_RunID gate) in Hrid.
  repeat wp_call. rewrite Hdb. db_norm. rewrite Hrun.
  repeat wp_call. cbn [run_ID update_field]. rewrite Hrid, Hrun.
  split; [done|]. db_norm. split_and!.
  - eexists. rewrite tget_update by done. rewrite decide_True by done. by rewrite Hgate.
  - intros id Hne. rewrite tget_update by done. by rewrite decide_False.
  - rewrite tget_update by done. cbn [step_ID]. rewrite Hid, decide_True, Hstep by done.
    simpl. f_equal. apply resolved_step_State.
  - by apply (run_consistent_update (store_steps _ (store_gates _ d)) _ run).
Qed.

Lemma resolve_refused {W} `{Env} `{Lens W DB} c gateID decision s :
  (∀ gate, tget gateID (db_gates (db_of s)) = Some gate → gate_State gate ≠ GateStatePending) →
  wp (GateService.resolve c gateID decision)
    (λ o s', (∃ e, o = Err e) ∧ store s' = store s) s.
Proof.
  intros Hg. unfold GateService.resolve, GatesRepo.Get. wp_step. wp_step. wp_step.
  { split; [by eexists|done]. }
  destruct (tget gateID (db_gates (view (store s)))) as [gate|] eqn:Hget.
  - cbn [then_]. rewrite decide_False by exact (Hg _ Hget). split; [by eexists|done].
  - split; [by eexists|done].
Qed.

(** C24: a gate is resolved once: resolving a gate that is not pending, or that does not exist,
    returns an error and changes nothing, whatever the environment does. *)
Theorem gate_resolve_once {W} `{Env} `{Lens W DB} c gateID decision s :
  (∀ gate, tget gateID (db_gates (db_of s)) = Some gate → gate_State gate ≠ GateStatePending) →
  ∃ e s', GateService.resolve c gateID decision s = (Err e, s') ∧ store s' = store s.
Proof.
  intros Hg. destruct (resolve_refused c gateID decision s Hg) as [[e He] Hs].
  destruct (GateService.resolve c gateID decision s) as [o s']. simpl in *. by exists e, s'; subst.
Qed.

(** ** A run paused at a gate, for the examples *)

Definition demo_run : Run := MkRun "r1" "p" "" "" "" RunStatePausedForGate 1 1 "" [].
Definition demo_step : Step :=
  MkStep "s1" "phase-execution-r1" "t" "g" StepStateNeedsApproval "" "" 0 [] "" 1 1 None None.
Definition demo_attempt : Attempt :=
  MkAttempt "s1-a1" "s1" 1 "codex" StepState_zero
    (Some (ResultSpec_zero <| rs_State := StepStateCompleted |>)) 1 1.
Definition demo_gate : Gate := MkGate "gate-s1-a1" "r1" "s1" "d" GateStatePending 1 None.
Definition demo_db : DB :=
  MkDB [demo_run]
    [MkPhase "phase-execution-r1" "r1" "Execution" 1 1 1 []]
    [StepsRepo.row_of demo_step] [AttemptsRepo.row_of demo_attempt] [] [demo_gate] [] [] [].

(** The environment in which exactly the call numbered [k] fails. *)
Definition faulty_env (k : nat) : Env := {|
  clock := λ n, Z.of_nat n;
  random := λ n, pretty n;
  fault := λ _ n, if decide (n = k) then Some "database is locked" else None;
  cancelled := λ _ _, false;
  wake := λ n _, S n;
|}.

(** What is left of an approval whose fourth call fails. *)
Definition demo_stuck : st DB :=
  (GateService.Approve (H:=faulty_env 3) Request "gate-s1-a1" (St demo_db 0)).2.


#[local] Existing Instance quiet_env.

Example gate_resolve_correct_witness :
  (GateService.resolve Request "gate-s1-a1" GateStateApproved (St demo_db 0)).1 = Ok tt.
Proof.
  edestruct (gate_resolve_correct Request "gate-s1-a1" GateStateApproved demo_gate
    (StepsRepo.row_of demo_step) demo_run (St demo_db 0)) as [Ho _];
    [apply quiet_reliable | reflexivity .. | exact Ho].
Defined.

Example gate_resolve_once_witness :
  ∃ e s', GateService.resolve Request "gone" GateStateApproved (St demo_db 0) = (Err e, s') ∧
    store s' = demo_db.
Proof. apply (gate_resolve_once Request "gone"). intros gate. discriminate. Defined.
