(* ===== verification/Daemon.v ===== *)
(** * The state of the daemon process

    What the services share: the database, the files under the daemon's directories, and the
    executions registered by [run_service.go]; with the interfaces to the code outside the
    process: agent adapters ([internal/domain/adapter.go]), commands, and the host. The lock
    file of [internal/workspace/locks.go] is modelled here. *)
From S2P Require Export Repos Policy.
Open Scope go_scope.

(** ** Files

    The content of a file is text, or the JSON the daemon and its adapters exchange, given by
    the value it decodes to; or the file is a symbolic link. *)
Inductive file :=
  | RawBytes (data : string)
  | TaskJSON (task : TaskSpec)
  | ResultJSON (result : ResultSpec)
  | SymLink (target : string).

(** The files and symbolic links, by cleaned absolute path. A directory is there when a file
    is below it. *)
Definition Files := gmap string file.

(** What a call to code outside the daemon leaves: its value or the text of its error, or
    nothing when it does not return; and the files. *)
Definition reply (A : Type) : Type := option (A + string) * Files.

(** ** Agent adapters: [domain.Adapter]

    The methods of an adapter are arbitrary functions of the moment of the call and of the
    files, which they may change; they may not return. [NormalizeResult] may return nil. *)
Record Adapter := MkAdapter {
  adapter_Name : string;
  adapter_Capabilities : list string;
  adapter_Start : ctx → Step → Attempt → string → string → nat → Files → reply unit;
  adapter_Poll : ctx → string → nat → Files → reply bool;
  adapter_Cancel : ctx → string → nat → Files → reply unit;
  adapter_CollectArtifacts :
    ctx → string → string → nat → Files → reply (list Artifact);
  adapter_NormalizeResult :
    ctx → string → list Artifact → nat → Files → reply (option ResultSpec);
}.

(** ** The host *)

(** The combined output of a command and its error, if it failed. *)
Record cmd_result := MkCmdResult {
  cmd_output : string;
  cmd_error : option string;
  cmd_not_exist : bool;
}.

(** The outcome of a validation command run by the shell. *)
Inductive shell_result :=
  | ShellOk
  | ShellExit (code : Z) (text : string)
  | ShellError (text : string)
  | ShellDeadline (code : Z).

(** Commands may not return. [short_copy] is what a copy that fails has written by then. *)
Class Host_ := {
  run_git : list string → string → nat → Files → option cmd_result * Files;
  run_shell : string → string → nat → Files → option (shell_result * (string * string)) * Files;
  getenv : string → string;
  getwd : string;
  file_size : file → Z;
  sha256_hex : file → string;
  DetectContentType : file → string;
  mod_time : string → nat → Z;
  short_copy : nat → file → string;
  decode_workspace_json : file → option ProvisioningSpec;
  decode_grove_yaml : file → option ProvisioningSpec;
  decode_groverc_json : file → option (list string * string);
}.

(** The commands and the adapters return, with a value or an error. *)
Record host_returns `{Host_} : Prop := {
  git_returns args dir n fs : is_Some (run_git args dir n fs).1;
  shell_returns text dir n fs : is_Some (run_shell text dir n fs).1;
}.
Record adapter_returns (ad : Adapter) : Prop := {
  Start_returns c st a w r n fs : is_Some (adapter_Start ad c st a w r n fs).1;
  Poll_returns c a n fs : is_Some (adapter_Poll ad c a n fs).1;
  Cancel_returns c a n fs : is_Some (adapter_Cancel ad c a n fs).1;
  CollectArtifacts_returns c a r n fs : is_Some (adapter_CollectArtifacts ad c a r n fs).1;
  NormalizeResult_returns c a arts n fs : is_Some (adapter_NormalizeResult ad c a arts n fs).1;
}.

(** ** The process *)

(** [activeExecution]; the channel [done] and [cancel] belong to the goroutine. *)
Record activeExecution := MkExecution {
  exec_stepID : string;
  exec_attemptID : string;
  exec_adapter : option string;
  abortRequested : bool;
}.
#[export] Instance activeExecution_eta : Eta activeExecution := λ e,
  MkExecution (exec_stepID e) (exec_attemptID e) (exec_adapter e) (abortRequested e).

(** [d_goroutines] holds the goroutines started for dispatches that have not begun: the run and
    the step each was given. *)
Record Daemon := MkDaemon {
  d_db : DB;
  d_files : Files;
  d_executions : gmap string activeExecution;
  d_goroutines : list (string * Step);
}.
#[export] Instance Daemon_eta : Eta Daemon := λ d,
  MkDaemon (d_db d) (d_files d) (d_executions d) (d_goroutines d).

#[export] Instance Daemon_DB : Lens Daemon DB.
Proof.
  refine {| view := d_db; put := λ s d, d <| d_db := s |> |}; [done|by intros []|done].
Defined.

#[export] Instance Daemon_FS : Lens Daemon Files.
Proof.
  refine {| view := d_files; put := λ s d, d <| d_files := s |> |}; [done|by intros []|done].
Defined.

(** What the constructors of the services are given. *)
Record Config := MkConfig {
  cfg_artifactRoot : string;
  cfg_workspaceRoot : string;
  cfg_repoRoot : string;
}.

(** ** Calls to the host *)

Section Calls.
Context `{Env} `{Host_}.

(** A call to an adapter or a command. *)
Definition external {A} (f : nat → Files → reply A) : M Daemon A := λ s,
  let '(r, fs) := f (tick s) (d_files (store s)) in
  (match r with
   | Some (inl a) => Ok a
   | Some (inr text) => Err (errorf text)
   | None => Blocked
   end, St ((store s) <| d_files := fs |>) (S (tick s))).

Definition command (args : list string) (dir : string) : M Daemon cmd_result :=
  external (λ n fs, let '(r, fs') := run_git args dir n fs in (inl <$> r, fs')).

(** [cmd.Run] of [sh -c text] in the directory. *)
Definition shell (text dir : string) : M Daemon (shell_result * (string * string)) :=
  external (λ n fs, let '(r, fs') := run_shell text dir n fs in (inl <$> r, fs')).

(** The daemon names its own files by the place they are at: the paths of its directories lead
    there through no symbolic link. *)

(** [os.MkdirAll]; only a failure of it is observed. *)
Definition MkdirAll (path : string) : M Daemon unit := syscall.

Definition ReadFile (path : string) : M Daemon file :=
  query_in Host (λ fs : Files, match fs !! path with
    | Some f => Ok f
    | None => Err (errorf ("open " +:+ path +:+ ": no such file or directory"))
    end).

(** Writing into a file that was created empty; a write that fails may have written a part. *)
Definition fill (path : string) (f : file) : M Daemon unit :=
  written <- try syscall ;;
  part <- observe short_copy ;;
  modify (λ d, d <| d_files :=
    <[path := match written with inl _ => f | inr _ => RawBytes (part f) end]> (d_files d) |>) ;;
  match written with inl _ => ret tt | inr err => fail err end.

(** [os.WriteFile]: the file is created, or emptied, and filled. *)
Definition WriteFile (path : string) (f : file) : M Daemon unit :=
  exec_in Host (λ fs : Files, (Ok tt, <[path := RawBytes ""]> fs)) ;; fill path f.

(** [os.Remove]. *)
Definition Remove (path : string) : M Daemon unit :=
  exec_in Host (λ fs : Files, match fs !! path with
    | Some _ => (Ok tt, delete path fs)
    | None => (Err (errorf ("remove " +:+ path +:+ ": no such file or directory")), fs)
    end).

(** The names [os.ReadDir] lists, in order. *)
Definition ReadDir (dir : string) : M Daemon (list string) :=
  query_in Host (λ fs : Files, Ok (sort_by String.leb (omap
    (λ '(path, _), let name := Base path in
       if decide (path = path_Join [dir; name]) then Some name else None)
    (map_to_list fs)))).
End Calls.

(** ** Symbolic links

    The paths of a configuration and of stored artifacts come from outside; a call that is
    given one follows the links on its way. *)

(** Following the elements [rest] of a path from the directory [dir]: a link is replaced by the
    elements of its target, at most [links] times. *)
Fixpoint follow (links : nat) (fs : Files) : bool → list string → list string →
    option (bool * list string) :=
  fix go rooted dir rest :=
    match rest with
    | [] => Some (rooted, dir)
    | e :: rest' =>
      let dir' := rev (clean_step rooted (rev dir) e) in
      match fs !! of_elems rooted dir' with
      | Some (SymLink target) =>
        match links with
        | O => None
        | S links' =>
          let elems := split_byte slash target ++ rest' in
          if IsAbs target then follow links' fs true [] elems else follow links' fs rooted dir elems
        end
      | _ => go rooted dir' rest'
      end
    end.

(** A path that leads through more than 40 links is an error. *)
Definition max_links : nat := 40.

(** The place a path leads to; the code gives cleaned paths. *)
Definition place (fs : Files) (path : string) : option string :=
  '(rooted, elems) ← follow max_links fs (IsAbs path) [] (path_elements path);
  Some (of_elems rooted elems).

(** The place of the directory entry a path names: its last element is not followed. *)
Definition entry (fs : Files) (path : string) : option string :=
  match rev (path_elements path) with
  | [] => Some (Clean path)
  | name :: dirs =>
    '(rooted, elems) ← follow max_links fs (IsAbs path) [] (rev dirs);
    Some (of_elems rooted (elems ++ [name]))
  end.

(** The directories are the root and those some file is in. *)
Definition is_dir (fs : Files) (p : string) : bool :=
  bool_decide (path_elements p = []) || existsb (λ '(q, _), HasPrefix q (p +:+ "/")) (map_to_list fs).

Section Links.
Context `{Env} `{Host_}.

Definition loop_error (op path : string) : error :=
  errorf (op +:+ " " +:+ path +:+ ": too many levels of symbolic links").
Definition missing_error (op path : string) : error :=
  errorf (op +:+ " " +:+ path +:+ ": no such file or directory").

(** [filepath.EvalSymlinks]. *)
Definition EvalSymlinks (path : string) : M Daemon string :=
  query_in Host (λ fs : Files, match place fs path with
    | None => Err (errorf "EvalSymlinks: too many links")
    | Some p => match fs !! p with
                | Some _ => Ok p
                | None => if is_dir fs p then Ok p else Err (missing_error "lstat" path)
                end
    end).

(** [os.Open]: the place of the file. *)
Definition os_Open (path : string) : M Daemon string :=
  query_in Host (λ fs : Files, match place fs path with
    | None => Err (loop_error "open" path)
    | Some p => match fs !! p with
                | Some _ => Ok p
                | None => if is_dir fs p then Ok p else Err (missing_error "open" path)
                end
    end).

(** [os.ReadFile] of a path that may lead through links. *)
Definition os_ReadFile (path : string) : M Daemon file :=
  p <- os_Open path ;;
  query_in Host (λ fs : Files, match fs !! p with
    | Some f => Ok f
    | None => Err (errorf ("read " +:+ path +:+ ": is a directory"))
    end).

(** [os.Create]: the file is there, and empty, when it returns. *)
Definition os_Create (path : string) : M Daemon string :=
  exec_in Host (λ fs : Files, match place fs path with
    | None => (Err (loop_error "open" path), fs)
    | Some p => if is_dir fs p then (Err (errorf ("open " +:+ path +:+ ": is a directory")), fs)
                else (Ok p, <[p := RawBytes ""]> fs)
    end).

(** [io.Copy] between the files at two places. *)
Definition io_Copy (dst src : string) : M Daemon unit :=
  content <- gets (λ d, d_files d !! src) ;;
  match content with
  | None => fail (errorf ("read " +:+ src +:+ ": is a directory"))
  | Some f => fill dst f
  end.

(** [os.Remove] of a file or a link; a directory that is not empty is left. *)
Definition os_Remove (path : string) : M Daemon unit :=
  exec_in Host (λ fs : Files, match entry fs path with
    | None => (Err (loop_error "remove" path), fs)
    | Some p => match fs !! p with
                | Some _ => (Ok tt, delete p fs)
                | None => (Err (missing_error "remove" path), fs)
                end
    end).

(** [os.Symlink(target, path)]. *)
Definition os_Symlink (target path : string) : M Daemon unit :=
  exec_in Host (λ fs : Files, match entry fs path with
    | None => (Err (loop_error "symlink" path), fs)
    | Some p => match fs !! p with
                | Some _ => (Err (errorf ("symlink " +:+ path +:+ ": file exists")), fs)
                | None => if is_dir fs p
                          then (Err (errorf ("symlink " +:+ path +:+ ": file exists")), fs)
                          else (Ok tt, <[p := SymLink target]> fs)
                end
    end).
End Links.

(** ** The lock of a workspace: [locks.go] *)

Section Locks.
Context `{Env}.

Definition lockPath (repoPath : string) : string := path_Join [repoPath; ".codencer.lock"].

Definition lock_text (f : file) : string := match f with RawBytes s => s | _ => "" end.

(** [os.OpenFile] with [O_CREATE|O_EXCL] creates an empty file; the write of the owner into it
    can fail and is not checked. *)
Definition AcquireLock (repoPath id : string) : M Daemon unit :=
  created <- try (exec_in Host (λ fs : Files, match fs !! lockPath repoPath with
      | Some _ => (Ok false, fs)
      | None => (Ok true, <[lockPath repoPath := RawBytes ""]> fs)
      end)) ;;
  match created with
  | inl true => ignore (exec_in Host (λ fs : Files, (Ok tt, <[lockPath repoPath := RawBytes id]> fs)))
  | inl false =>
    owner <- try (query_in Host (λ fs : Files, Ok (from_option lock_text "" (fs !! lockPath repoPath)))) ;;
    fail (errorf ("repository " +:+ repoPath +:+ " is already locked by run "
                  +:+ match owner with inl o => o | inr _ => "" end))
  | inr err => fail (wrapf "failed to acquire lock" err)
  end.

(** A read error counts as unlocked. *)
Definition CheckLock (repoPath : string) : M Daemon string :=
  data <- try (ReadFile (lockPath repoPath)) ;;
  ret (match data with inl f => TrimSpace (lock_text f) | inr _ => "" end).

(** [Lock.Release]; a lock file that is already gone is no error. *)
Definition Release (repoPath : string) : M Daemon unit :=
  wrapping "failed to release lock"
    (exec_in Host (λ fs : Files, (Ok tt, delete (lockPath repoPath) fs))).
End Locks.

(** ** The registered executions of [run_service.go]

    The mutex [execMu] makes each of these atomic. Another goroutine ([AbortRun]) can have
    requested the abort of the execution in the meantime: [abort_arrives n] says whether it
    did by the [n]th observation. *)

Class Abort := abort_arrives : nat → bool.

Section Executions.
Context `{Env} `{Abort}.

Definition registerExecution (runID stepID : string) : M Daemon unit :=
  modify (λ d, d <| d_executions :=
    <[runID := MkExecution stepID "" None false]> (d_executions d) |>).

Definition setExecutionAttempt (runID attemptID : string) (adapter : string) : M Daemon unit :=
  modify (λ d, d <| d_executions :=
    alter (λ e, e <| exec_attemptID := attemptID |> <| exec_adapter := Some adapter |>) runID
      (d_executions d) |>).

Definition clearExecution (runID : string) : M Daemon unit :=
  modify (λ d, d <| d_executions := delete runID (d_executions d) |>).

Definition getExecution (runID : string) : M Daemon (option activeExecution) :=
  gets (λ d, d_executions d !! runID).

(** [go func() { ... s.dispatchPreparedStep(...) ... }()]. *)
Definition spawn (runID : string) (step : Step) : M Daemon unit :=
  modify (λ d, d <| d_goroutines := d_goroutines d ++ [(runID, step)] |>).

Definition set_abort (runID : string) (d : Daemon) : Daemon :=
  d <| d_executions := alter (λ e, e <| abortRequested := true |>) runID (d_executions d) |>.

Definition requestAbort (runID : string) : M Daemon unit := modify (set_abort runID).

Definition isAbortRequested (runID : string) : M Daemon bool := λ s,
  let d := if abort_arrives (tick s) then set_abort runID (store s) else store s in
  (Ok (match d_executions d !! runID with Some e => abortRequested e | None => false end),
   St d (S (tick s))).
End Executions.

(** ** Rules *)

Section Rules.
Context `{Env}.

Lemma wp_external {A} (f : nat → Files → reply A) Q s :
  (∀ r fs, f (tick s) (d_files (store s)) = (r, fs) →
    Q (match r with
       | Some (inl a) => Ok a
       | Some (inr text) => Err (errorf text)
       | None => Blocked
       end)
      (St ((store s) <| d_files := fs |>) (S (tick s)))) →
  wp (external f) Q s.
Proof.
  intros HQ. unfold wp, external. specialize (HQ _ _ (surjective_pairing _)).
  by destruct (f (tick s) (d_files (store s))).
Qed.

Lemma wp_isAbortRequested `{Abort} runID Q s :
  (let d := if abort_arrives (tick s) then set_abort runID (store s) else store s in
   Q (Ok (match d_executions d !! runID with Some e => abortRequested e | None => false end))
     (St d (S (tick s)))) →
  wp (isAbortRequested runID) Q s.
Proof. done. Qed.

(** Only the files change. *)
Definition only_files (d d' : Daemon) : Prop :=
  d_db d' = d_db d ∧ d_executions d' = d_executions d ∧ d_goroutines d' = d_goroutines d.
#[export] Instance only_files_preorder : PreOrder only_files.
Proof.
  unfold only_files. split; [done|]. intros ? ? ? (? & ? & ?) (? & ? & ?). split_and!; congruence.
Qed.

(** Neither the files nor the executions are in the database. *)
Definition same_db (d d' : Daemon) : Prop := d_db d' = d_db d.
#[export] Instance same_db_preorder : PreOrder same_db.
Proof. unfold same_db. split; [done|]. intros ? ? ? H1 H2. by rewrite H2. Qed.

Lemma only_files_same_db {A} (m : M Daemon A) : respects only_files m → respects same_db m.
Proof. intros Hm s. apply Hm. Qed.

Lemma same_db_keeps_wf {A} (m : M Daemon A) : respects same_db m → respects keeps_wf m.
Proof. intros Hm s Hwf. specialize (Hm s). unfold view. simpl in *. by rewrite Hm. Qed.

Lemma external_only_files {A} (f : nat → Files → reply A) :
  respects only_files (external f).
Proof. intros s. unfold external. by destruct (f (tick s) (d_files (store s))). Qed.

Lemma files_only_files {A} (f : Files → outcome A * Files) : respects only_files (exec_in Host f).
Proof. apply respects_exec_in; [apply _|]. done. Qed.

Lemma ReadFile_only_files p : respects only_files (ReadFile p).
Proof. unfold ReadFile. respects_solve. Qed.
Lemma fill_only_files `{Host_} p f : respects only_files (fill p f).
Proof. unfold fill. respects_solve. by refine (respects_modify _ _ _). Qed.
Lemma WriteFile_only_files `{Host_} p f : respects only_files (WriteFile p f).
Proof.
  unfold WriteFile. apply respects_bind; [apply _|apply files_only_files|]. intros ?.
  apply fill_only_files.
Qed.
Lemma Remove_only_files p : respects only_files (Remove p).
Proof. apply files_only_files. Qed.
Lemma ReadDir_only_files p : respects only_files (ReadDir p).
Proof. unfold ReadDir. respects_solve. Qed.
Lemma MkdirAll_only_files p : respects only_files (MkdirAll p).
Proof. unfold MkdirAll. respects_solve. Qed.
Lemma command_only_files `{Host_} args dir : respects only_files (command args dir).
Proof. apply external_only_files. Qed.
Lemma shell_only_files `{Host_} text dir : respects only_files (shell text dir).
Proof. apply external_only_files. Qed.
Lemma os_Create_only_files p : respects only_files (os_Create p).
Proof. apply files_only_files. Qed.
Lemma os_Remove_only_files p : respects only_files (os_Remove p).
Proof. apply files_only_files. Qed.
Lemma os_Symlink_only_files t p : respects only_files (os_Symlink t p).
Proof. apply files_only_files. Qed.
Lemma io_Copy_only_files `{Host_} d p : respects only_files (io_Copy d p).
Proof. unfold io_Copy. respects_solve. apply fill_only_files. Qed.
Lemma AcquireLock_only_files p id : respects only_files (AcquireLock p id).
Proof. unfold AcquireLock. respects_solve; apply files_only_files. Qed.
Lemma CheckLock_only_files p : respects only_files (CheckLock p).
Proof. unfold CheckLock, ReadFile. respects_solve. Qed.
Lemma Release_only_files p : respects only_files (Release p).
Proof. unfold Release. respects_solve; apply files_only_files. Qed.
Lemma registerExecution_same_db r i : respects same_db (registerExecution r i).
Proof. by apply respects_modify. Qed.
Lemma setExecutionAttempt_same_db r i a : respects same_db (setExecutionAttempt r i a).
Proof. by apply respects_modify. Qed.
Lemma clearExecution_same_db r : respects same_db (clearExecution r).
Proof. by apply respects_modify. Qed.
Lemma spawn_same_db r st : respects same_db (spawn r st).
Proof. by apply respects_modify. Qed.
Lemma getExecution_same_db r : respects same_db (getExecution r).
Proof. unfold getExecution. respects_solve. Qed.
Lemma requestAbort_same_db r : respects same_db (requestAbort r).
Proof. by apply respects_modify. Qed.
Lemma isAbortRequested_same_db `{Abort} r : respects same_db (isAbortRequested r).
Proof. intros s. unfold isAbortRequested, same_db. simpl. by destruct (abort_arrives (tick s)). Qed.

(** Reading the files and the lock changes nothing. *)
Lemma ReadFile_reads R `{!PreOrder R} p : respects R (ReadFile p).
Proof. unfold ReadFile. respects_solve. Qed.
Lemma ReadDir_reads R `{!PreOrder R} p : respects R (ReadDir p).
Proof. unfold ReadDir. respects_solve. Qed.
Lemma EvalSymlinks_reads R `{!PreOrder R} p : respects R (EvalSymlinks p).
Proof. unfold EvalSymlinks. respects_solve. Qed.
Lemma os_Open_reads R `{!PreOrder R} p : respects R (os_Open p).
Proof. unfold os_Open. respects_solve. Qed.
Lemma os_ReadFile_reads R `{!PreOrder R} p : respects R (os_ReadFile p).
Proof. unfold os_ReadFile, os_Open. respects_solve. Qed.
Lemma CheckLock_reads R `{!PreOrder R} p : respects R (CheckLock p).
Proof. unfold CheckLock, ReadFile. respects_solve. Qed.

(** None of these panics or waits for ever, if the code outside the daemon does not. *)
Lemma external_returns {A} (f : nat → Files → reply A) :
  (∀ n fs, is_Some (f n fs).1) → returns (external f).
Proof.
  intros Hf s. unfold external. destruct (Hf (tick s) (d_files (store s))) as [r Hr].
  destruct (f (tick s) (d_files (store s))) as [? fs]. cbn in Hr. subst. by destruct r.
Qed.
Lemma ReadFile_returns p : returns (ReadFile p).
Proof. unfold ReadFile. returns_solve. Qed.
Lemma WriteFile_returns `{Host_} p f : returns (WriteFile p f).
Proof. unfold WriteFile, fill. returns_solve. Qed.
Lemma Remove_returns p : returns (Remove p).
Proof. unfold Remove. returns_solve. Qed.
Lemma ReadDir_returns p : returns (ReadDir p).
Proof. unfold ReadDir. returns_solve. Qed.
Lemma MkdirAll_returns p : returns (MkdirAll p).
Proof. unfold MkdirAll. returns_solve. Qed.
Lemma command_returns `{Host_} args dir : host_returns → returns (command args dir).
Proof.
  intros Hh. apply external_returns. intros n fs. destruct (git_returns Hh args dir n fs) as [r Hr].
  destruct (run_git args dir n fs). cbn in *. by rewrite Hr.
Qed.
Lemma shell_returns_ `{Host_} text dir : host_returns → returns (shell text dir).
Proof.
  intros Hh. apply external_returns. intros n fs. destruct (shell_returns Hh text dir n fs) as [r Hr].
  destruct (run_shell text dir n fs). cbn in *. by rewrite Hr.
Qed.
Lemma EvalSymlinks_returns p : returns (EvalSymlinks p).
Proof. unfold EvalSymlinks. returns_solve. Qed.
Lemma os_Open_returns p : returns (os_Open p).
Proof. unfold os_Open. returns_solve. Qed.
Lemma os_ReadFile_returns p : returns (os_ReadFile p).
Proof. unfold os_ReadFile, os_Open. returns_solve. Qed.
Lemma os_Create_returns p : returns (os_Create p).
Proof. unfold os_Create. returns_solve. Qed.
Lemma os_Remove_returns p : returns (os_Remove p).
Proof. unfold os_Remove. returns_solve. Qed.
Lemma os_Symlink_returns t p : returns (os_Symlink t p).
Proof. unfold os_Symlink. returns_solve. Qed.
Lemma io_Copy_returns `{Host_} d p : returns (io_Copy d p).
Proof. unfold io_Copy, fill. returns_solve. Qed.
Lemma AcquireLock_returns p id : returns (AcquireLock p id).
Proof. unfold AcquireLock. returns_solve. Qed.
Lemma CheckLock_returns p : returns (CheckLock p).
Proof. unfold CheckLock, ReadFile. returns_solve. Qed.
Lemma Release_returns p : returns (Release p).
Proof. unfold Release. returns_solve. Qed.
Lemma registerExecution_returns r i : returns (registerExecution r i).
Proof. done. Qed.
Lemma setExecutionAttempt_returns r i a : returns (setExecutionAttempt r i a).
Proof. done. Qed.
Lemma clearExecution_returns r : returns (clearExecution r).
Proof. done. Qed.
Lemma spawn_returns r st : returns (spawn r st).
Proof. done. Qed.
Lemma getExecution_returns r : returns (getExecution r).
Proof. done. Qed.
Lemma requestAbort_returns r : returns (requestAbort r).
Proof. done. Qed.
Lemma isAbortRequested_returns `{Abort} r : returns (isAbortRequested r).
Proof. done. Qed.
End Rules.

#[export] Hint Resolve only_files_same_db same_db_keeps_wf external_only_files files_only_files ReadFile_only_files
  shell_only_files os_Create_only_files os_Remove_only_files os_Symlink_only_files
  io_Copy_only_files EvalSymlinks_reads os_Open_reads os_ReadFile_reads shell_returns_
  EvalSymlinks_returns os_Open_returns os_ReadFile_returns os_Create_returns os_Remove_returns
  os_Symlink_returns io_Copy_returns
  WriteFile_only_files Remove_only_files ReadDir_only_files MkdirAll_only_files command_only_files
  AcquireLock_only_files CheckLock_only_files Release_only_files registerExecution_same_db
  setExecutionAttempt_same_db clearExecution_same_db spawn_same_db spawn_returns
  getExecution_same_db requestAbort_same_db isAbortRequested_same_db
  ReadFile_reads ReadDir_reads CheckLock_reads external_returns ReadFile_returns
  WriteFile_returns Remove_returns ReadDir_returns MkdirAll_returns command_returns
  AcquireLock_returns CheckLock_returns Release_returns isAbortRequested_returns
  registerExecution_returns setExecutionAttempt_returns clearExecution_returns
  getExecution_returns requestAbort_returns : go.
