(* ===== verification/Links.v ===== *)
(** * Symbolic links: what following a path gives

    Following the links on the way of a path ends at a place that is reached through none, and
    a path with no link on its way leads to where it says. *)
From S2P Require Export Paths Daemon.
From Stdlib Require Import Ascii.

(** No link is on the way down to the elements [l]. *)
Definition no_links (fs : Files) (rooted : bool) (l : list string) : Prop :=
  ∀ p t, p ≠ [] → p `prefix_of` l → fs !! of_elems rooted p ≠ Some (SymLink t).

(** A list of elements as cleaning leaves it. *)
Definition clean_list (rooted : bool) (l : list string) : Prop :=
  canonical rooted (rev l) ∧ Forall (no_byte slash) l.

Lemma clean_list_nil rooted : clean_list rooted [].
Proof. split; [by exists [], 0|constructor]. Qed.

Lemma path_elements_clean p : clean_list (IsAbs p) (path_elements p).
Proof. split; [apply elements_canonical|apply elements_no_slash]. Qed.

Lemma no_links_nil fs rooted : no_links fs rooted [].
Proof. intros p t Hp Hpre. apply prefix_nil_inv in Hpre. congruence. Qed.

Lemma dots_no_slash : no_byte slash "..".
Proof. apply (bool_decide_eq_true_1 _). by vm_compute. Qed.

(** One element more: the directory it leads to is the new one, or above the old one. *)
Lemma clean_step_prefix rooted dir e p :
  p `prefix_of` rev (clean_step rooted (rev dir) e) →
  p = rev (clean_step rooted (rev dir) e) ∨ p `prefix_of` dir.
Proof.
  assert (∀ x, p `prefix_of` dir ++ [x] → p = dir ++ [x] ∨ p `prefix_of` dir) as Hpush.
  { intros x [q Hq]. destruct q as [|y q' _] using rev_ind; [left; by rewrite app_nil_r in Hq|].
    right. rewrite app_assoc in Hq. apply app_inj_tail in Hq as [-> _]. by exists q'. }
  assert (∀ x, p `prefix_of` rev (x :: rev dir) → p = rev (x :: rev dir) ∨ p `prefix_of` dir) as Hrev.
  { intros x. cbn [rev]. rewrite rev_involutive. apply Hpush. }
  unfold clean_step. repeat case_bool_decide; rewrite ?rev_involutive; auto.
  destruct (rev dir) as [|x acc] eqn:Hdir.
  - destruct rooted; [by intros ?%prefix_nil_inv; left|exact (Hrev "..")].
  - case_bool_decide; [exact (Hrev "..")|]. intros Hp. right.
    apply (f_equal (@rev string)) in Hdir. rewrite rev_involutive in Hdir. rewrite Hdir. cbn [rev].
    by apply prefix_app_r.
Qed.

Lemma clean_step_clean rooted dir e :
  clean_list rooted dir → no_byte slash e → clean_list rooted (rev (clean_step rooted (rev dir) e)).
Proof.
  intros [Hc Hn] He. split; [rewrite rev_involutive; by apply clean_step_canonical|].
  apply Forall_rev, clean_step_from; [apply dots_no_slash|by apply Forall_rev|done].
Qed.

(** What following gives is clean and reached through no link. *)
Lemma follow_spec links fs rooted dir rest r d :
  follow links fs rooted dir rest = Some (r, d) →
  clean_list rooted dir → no_links fs rooted dir → Forall (no_byte slash) rest →
  clean_list r d ∧ no_links fs r d ∧ (rooted = true → r = true).
Proof.
  revert rooted dir rest. induction links as [|links IHl]; intros rooted dir rest;
    revert rooted dir; induction rest as [|e rest IH]; intros rooted dir Hf Hc Hn Hns;
    cbn [follow] in Hf; try by injection Hf as <- <-.
  all: inversion_clear Hns as [|? ? He Hrest].
  all: pose proof (clean_step_clean _ _ _ Hc He) as Hc'.
  all: assert ((∀ t, fs !! of_elems rooted (rev (clean_step rooted (rev dir) e)) ≠ Some (SymLink t)) →
    no_links fs rooted (rev (clean_step rooted (rev dir) e))) as Hstep
    by (intros Hno p t Hp [->|Hpre]%clean_step_prefix; [apply Hno|by apply Hn]).
  all: destruct (fs !! _) as [[| | |target]|] eqn:Hget;
    try (apply (IH _ _ Hf); [done|apply Hstep; congruence|done]); try discriminate Hf.
  assert (Forall (no_byte slash) (split_byte slash target ++ rest)).
  { apply Forall_app. split; [|done]. apply Forall_forall. intros x. apply split_byte_no_sep. }
  destruct (IsAbs target).
  - eapply IHl in Hf as (? & ? & Hr); eauto using clean_list_nil, no_links_nil.
  - by eapply IHl.
Qed.

(** A path with no link on its way is followed to its end. *)
Lemma follow_plain links fs rooted dir rest :
  Forall plain rest →
  (∀ p t, p ≠ [] → p `prefix_of` rest → fs !! of_elems rooted (dir ++ p) ≠ Some (SymLink t)) →
  follow links fs rooted dir rest = Some (rooted, dir ++ rest).
Proof.
  intros Hplain. revert dir. induction Hplain as [|e rest He Hplain IH]; intros dir Hno.
  { destruct links; cbn [follow]; by rewrite app_nil_r. }
  assert (rev (clean_step rooted (rev dir) e) = dir ++ [e]) as Hdir.
  { rewrite clean_step_plain by done. cbn [rev]. by rewrite rev_involutive. }
  assert (follow links fs rooted (dir ++ [e]) rest = Some (rooted, (dir ++ [e]) ++ rest)) as Hrest.
  { apply IH. intros p t Hp Hpre. rewrite <- app_assoc. apply Hno; [done|]. by apply prefix_cons. }
  rewrite <- app_assoc in Hrest.
  assert (∀ t, fs !! of_elems rooted (dir ++ [e]) ≠ Some (SymLink t)) as Hlink.
  { intros t. apply Hno; [done|]. by exists rest. }
  destruct links; cbn [follow] in Hrest |- *; rewrite Hdir;
    destruct (fs !! of_elems rooted (dir ++ [e])) as [[]|]; try done; by destruct (Hlink target).
Qed.

(** ** Places *)

(** A place is a cleaned path, reached through no link: it is its own place. *)
Lemma place_elements fs path p :
  place fs path = Some p → ∃ r l, p = of_elems r l ∧ clean_list r l ∧ no_links fs r l ∧
    (IsAbs path = true → r = true).
Proof.
  unfold place. destruct (follow _ _ _ _ _) as [[r l]|] eqn:Hf; [|done]. intros [= <-].
  exists r, l. split; [done|].
  eapply follow_spec; [exact Hf|apply clean_list_nil|apply no_links_nil|apply elements_no_slash].
Qed.

Lemma place_no_link fs path p t :
  place fs path = Some p → path_elements p ≠ [] → fs !! p ≠ Some (SymLink t).
Proof.
  intros (r & l & -> & [Hc Hns] & Hn & _)%place_elements Hne.
  rewrite elements_of_elems in Hne by done. by apply Hn.
Qed.

Lemma place_plain fs path :
  IsAbs path = true → no_links fs true (path_elements path) → place fs path = Some (Clean path).
Proof.
  intros Habs Hn. unfold place, Clean. rewrite Habs.
  rewrite (follow_plain _ _ _ [] (path_elements path)); [done|by apply elements_plain|].
  intros p t. apply Hn.
Qed.

Lemma place_Clean fs path : place fs (Clean path) = place fs path.
Proof. unfold place. by rewrite IsAbs_Clean, elements_Clean. Qed.

Lemma place_IsAbs fs path p : place fs path = Some p → IsAbs path = true → IsAbs p = true.
Proof.
  intros (r & l & -> & [Hc Hns] & _ & Hr)%place_elements Habs.
  rewrite IsAbs_of_elems by done. by apply Hr.
Qed.

Lemma place_clean fs path p : place fs path = Some p → Clean p = p.
Proof. intros (r & l & -> & [Hc Hns] & _)%place_elements. by apply Clean_of_elems. Qed.

(** A directory a place is in, given by a rooted path, is its own place, and it is there. *)
Lemma place_above fs path p dir :
  place fs path = Some p → IsAbs p = true → IsAbs dir = true → is_Some (fs !! p) →
  path_elements dir `prefix_of` path_elements p →
  place fs dir = Some (Clean dir) ∧ (is_Some (fs !! Clean dir) ∨ is_dir fs (Clean dir) = true).
Proof.
  intros (r & l & -> & [Hc Hns] & Hn & _)%place_elements Habs Hdir [f Hf] Hpre.
  rewrite IsAbs_of_elems in Habs by done. subst r. rewrite elements_of_elems in Hpre by done.
  split.
  { apply place_plain; [done|]. intros q t Hq Hqd. apply Hn; [done|]. by etrans. }
  assert (Clean dir = of_elems true (path_elements dir)) as Heq by (unfold Clean; by rewrite Hdir).
  destruct Hpre as [rest ->]. unfold is_dir. rewrite elements_Clean.
  destruct (decide (path_elements dir = [])) as [Hnil|Hne]; [right; by rewrite Hnil|].
  destruct rest as [|e rest]; [left; rewrite app_nil_r in Hf; rewrite Heq; by eexists|right].
  apply orb_true_intro. right. apply existsb_exists. eexists (_, f). split.
  - apply list_elem_of_In, elem_of_map_to_list, Hf.
  - apply HasPrefix_spec. exists (strings_Join (e :: rest) "/"). rewrite Heq. unfold of_elems.
    rewrite strings_Join_app by done. by rewrite !string_app_assoc.
Qed.

(** Following a place that is reached from the root leads nowhere else. *)
Lemma place_idemp fs path p :
  place fs path = Some p → IsAbs p = true → place fs p = Some p.
Proof.
  intros (r & l & -> & [Hc Hns] & Hn & _)%place_elements Habs.
  rewrite IsAbs_of_elems in Habs by done. subst r.
  rewrite place_plain; [|done|by rewrite elements_of_elems].
  unfold Clean. by rewrite IsAbs_of_elems, elements_of_elems.
Qed.

Lemma entry_plain fs path :
  IsAbs path = true → no_links fs true (removelast (path_elements path)) →
  entry fs path = Some (Clean path).
Proof.
  intros Habs Hn. unfold entry. pose proof (elements_plain path Habs) as Hplain.
  destruct (decide (path_elements path = [])) as [Hnil|(dirs & name & Hl)%exists_last];
    [by rewrite Hnil|].
  rewrite Hl in Hn, Hplain |- *. rewrite rev_app_distr. cbn [rev app]. rewrite rev_involutive, Habs.
  rewrite removelast_last in Hn. apply Forall_app in Hplain as [Hplain _].
  rewrite (follow_plain _ _ _ [] dirs); [|done|intros p t; apply Hn].
  cbn. unfold Clean. by rewrite Habs, Hl.
Qed.

(** ** Rules *)

Section Rules.
Context `{Env} `{Host_}.

(** The state [s] with the files [fs]. *)
Definition with_files (s : st Daemon) (fs : Files) : st Daemon :=
  St ((store s) <| d_files := fs |>) (S (tick s)).

Lemma wp_os_Open path Q s :
  (∀ e, Q (Err e) (tock s)) →
  (∀ p, place (d_files (store s)) path = Some p → Q (Ok p) (tock s)) →
  wp (os_Open path) Q s.
Proof using Type.
  intros He Ho. unfold os_Open. apply wp_query_in; [intros text _; apply He|intros _].
  change (view (store s)) with (d_files (store s)).
  destruct (place _ path) as [p|] eqn:Hp; [|apply He].
  repeat case_match; [by apply Ho|by apply Ho|apply He].
Qed.

Lemma wp_os_Create path Q s :
  (∀ e s', store s' = store s → Q (Err e) s') →
  (∀ p, place (d_files (store s)) path = Some p →
     Q (Ok p) (with_files s (<[p := RawBytes ""]> (d_files (store s))))) →
  wp (os_Create path) Q s.
Proof using Type.
  intros He Ho. unfold os_Create. apply wp_exec_in; [intros text _; by apply He|intros _].
  change (view (store s)) with (d_files (store s)).
  destruct (place _ path) as [p|] eqn:Hp; [case_match|];
    [apply He|by apply Ho|apply He]; cbn; by destruct (store s).
Qed.

(** A file that is filled holds what was written, or a part of it. *)
Lemma wp_fill path f Q s :
  (∀ s', store s' = (store s) <| d_files := <[path := f]> (d_files (store s)) |> → Q (Ok tt) s') →
  (∀ e data s', store s' = (store s) <| d_files := <[path := RawBytes data]> (d_files (store s)) |> →
     Q (Err e) s') →
  wp (fill path f) Q s.
Proof using Type.
  intros Ho He. unfold fill, syscall. do 3 wp_step; do 5 wp_step; [by eapply He|by apply Ho].
Qed.

Lemma wp_WriteFile path f Q s :
  (∀ s', store s' = (store s) <| d_files := <[path := f]> (d_files (store s)) |> → Q (Ok tt) s') →
  (∀ e s', (∀ p, p ≠ path → d_files (store s') !! p = d_files (store s) !! p) → Q (Err e) s') →
  wp (WriteFile path f) Q s.
Proof using Type.
  intros Ho He. unfold WriteFile. wp_step. apply wp_exec_in; [intros text _; by apply He|intros _].
  cbn [then_ fst snd]. apply wp_fill; cbn [store tick].
  - intros s' Hs'. apply Ho. rewrite Hs'. cbn. f_equal. apply insert_insert_eq.
  - intros e data s' Hs'. apply He. intros p Hp. rewrite Hs'. cbn.
    etrans; by apply lookup_insert_ne.
Qed.

Lemma wp_io_Copy dst src Q s :
  (∀ e s', store s' = store s → Q (Err e) s') →
  (∀ o s' f f', d_files (store s) !! src = Some f → f' = f ∨ (∃ data, f' = RawBytes data) →
     store s' = (store s) <| d_files := <[dst := f']> (d_files (store s)) |> → Q o s') →
  wp (io_Copy dst src) Q s.
Proof using Type.
  intros He Ho. unfold io_Copy. do 2 wp_step.
  destruct (d_files (store s) !! src) as [f|] eqn:Hsrc; [|wp_step; by apply He].
  apply wp_fill; [intros s' Hs'; apply (Ho _ _ f f); auto|].
  intros e data s' Hs'. apply (Ho _ _ f (RawBytes data)); eauto.
Qed.

Lemma wp_os_Remove path Q s :
  (∀ e s', store s' = store s → Q (Err e) s') →
  (∀ p, entry (d_files (store s)) path = Some p →
     Q (Ok tt) (with_files s (delete p (d_files (store s))))) →
  wp (os_Remove path) Q s.
Proof using Type.
  intros He Ho. unfold os_Remove. apply wp_exec_in; [intros text _; by apply He|intros _].
  change (view (store s)) with (d_files (store s)).
  destruct (entry _ path) as [p|] eqn:Hp; [case_match|];
    [by apply Ho|apply He|apply He]; cbn; by destruct (store s).
Qed.

Lemma wp_os_Symlink target path Q s :
  (∀ e s', store s' = store s → Q (Err e) s') →
  (∀ p, entry (d_files (store s)) path = Some p →
     Q (Ok tt) (with_files s (<[p := SymLink target]> (d_files (store s))))) →
  wp (os_Symlink target path) Q s.
Proof using Type.
  intros He Ho. unfold os_Symlink. apply wp_exec_in; [intros text _; by apply He|intros _].
  change (view (store s)) with (d_files (store s)).
  destruct (entry _ path) as [p|] eqn:Hp; [repeat case_match|];
    [apply He|apply He|by apply Ho|apply He]; cbn; by destruct (store s).
Qed.
End Rules.
