(* ===== verification/Workspace.v ===== *)
(** * Workspaces: [internal/workspace] and [internal/validation/runner.go]

    Linked worktrees over the [git] command, the provisioning of a worktree, the configuration
    files it is read from, and the validation commands run in it. *)
From S2P Require Export Daemon.
Open Scope go_scope.

Definition newline : Ascii.ascii := Ascii.ascii_of_nat 10.

(** ** [worktree.go] *)

Section Worktree.
Context `{Env} `{Host_}.

(** The two outputs that mean the path is no working tree, or a locked one. *)
Definition not_a_working_tree (r : cmd_result) : bool :=
  cmd_not_exist r || Contains (cmd_output r) "not a working tree".
Definition locked_working_tree (r : cmd_result) : bool :=
  Contains (cmd_output r) "cannot remove a locked working tree"
  || Contains (cmd_output r) "use 'remove -f -f'".

Definition cmd_fail {A} (prefix text : string) (r : cmd_result) : M Daemon A :=
  fail (errorf (prefix +:+ ": " +:+ text +:+ ". output: " +:+ cmd_output r)).

Definition RemoveWorktree (baseRepoPath destPath : string) : M Daemon unit :=
  out <- command ["worktree"; "remove"; "--force"; destPath] baseRepoPath ;;
  match cmd_error out with
  | None => ret tt
  | Some text =>
    if not_a_working_tree out then ret tt
    else if locked_working_tree out then
      _ <- command ["worktree"; "unlock"; destPath] baseRepoPath ;;
      retry <- command ["worktree"; "remove"; "-f"; "-f"; destPath] baseRepoPath ;;
      match cmd_error retry with
      | None => ret tt
      | Some text' =>
        if not_a_working_tree retry then ret tt
        else cmd_fail "failed to remove locked worktree" text' retry
      end
    else cmd_fail "failed to remove worktree" text out
  end.

Definition pruneWorktrees (baseRepoPath : string) : M Daemon unit :=
  out <- command ["worktree"; "prune"] baseRepoPath ;;
  match cmd_error out with
  | None => ret tt
  | Some text => cmd_fail "failed to prune worktrees" text out
  end.

(** The scan of [git worktree list --porcelain]: the current path, until the branch is found. *)
Fixpoint find_branch (branchName currentPath : string) (lines : list string) : string :=
  match lines with
  | [] => ""
  | line :: rest =>
    let line := TrimSpace line in
    if HasPrefix line "worktree " then
      find_branch branchName (TrimSpace (TrimPrefix line "worktree ")) rest
    else if HasPrefix line "branch refs/heads/" then
      if decide (TrimSpace (TrimPrefix line "branch refs/heads/") = branchName) then currentPath
      else find_branch branchName currentPath rest
    else find_branch branchName currentPath rest
  end.

Definition findWorktreePathForBranch (baseRepoPath branchName : string) : M Daemon string :=
  out <- command ["worktree"; "list"; "--porcelain"] baseRepoPath ;;
  match cmd_error out with
  | None => ret (find_branch branchName "" (split_byte newline (cmd_output out)))
  | Some text => cmd_fail "failed to inspect worktrees" text out
  end.

Definition CreateWorktree (baseRepoPath destPath branchName : string) : M Daemon unit :=
  wrapping "failed to ensure worktree parent directory" (MkdirAll destPath) ;;
  RemoveWorktree baseRepoPath destPath ;;
  pruneWorktrees baseRepoPath ;;
  existingPath <- findWorktreePathForBranch baseRepoPath branchName ;;
  (if decide (existingPath ≠ "" ∧ existingPath ≠ destPath)
   then RemoveWorktree baseRepoPath existingPath ;; pruneWorktrees baseRepoPath
   else ret tt) ;;
  check <- command ["rev-parse"; "--verify"; branchName] baseRepoPath ;;
  match cmd_error check with
  | None =>
    out <- command ["worktree"; "add"; destPath; branchName] baseRepoPath ;;
    match cmd_error out with
    | None => ret tt
    | Some text => cmd_fail "failed to add worktree for existing branch" text out
    end
  | Some _ =>
    out <- command ["worktree"; "add"; "-b"; branchName; destPath] baseRepoPath ;;
    match cmd_error out with
    | None => ret tt
    | Some text => cmd_fail "failed to create worktree with new branch" text out
    end
  end.

(** The loop over the lines of [git status --porcelain]. *)
Fixpoint changed_files (lines : list string) : list string :=
  match lines with
  | [] => []
  | line :: rest =>
    let line := TrimSpace line in
    if decide (String.length line < 3) then changed_files rest
    else TrimSpace (string_drop 2 line) :: changed_files rest
  end.

Definition CaptureChangedFiles (worktreePath : string) : M Daemon (list string) :=
  out <- command ["status"; "--porcelain"] worktreePath ;;
  match cmd_error out with
  | None => ret (changed_files (split_byte newline (cmd_output out)))
  | Some text => cmd_fail "failed to capture changed files" text out
  end.

Fixpoint worktree_paths (lines : list string) : list string :=
  match lines with
  | [] => []
  | line :: rest =>
    if HasPrefix line "worktree "
    then TrimSpace (TrimPrefix line "worktree ") :: worktree_paths rest
    else worktree_paths rest
  end.

Definition ListWorktrees (baseRepoPath : string) : M Daemon (list string) :=
  out <- command ["worktree"; "list"; "--porcelain"] baseRepoPath ;;
  match cmd_error out with
  | None => ret (worktree_paths (split_byte newline (cmd_output out)))
  | Some text => cmd_fail "failed to list worktrees" text out
  end.
End Worktree.

(** ** [config.go] *)

Section WorkspaceConfig.
Context `{Env} `{Host_}.

Definition or_list (l l' : list string) : list string := if decide (l = []) then l' else l.
Definition or_string (s s' : string) : string := if decide (s = "") then s' else s.

(** A file that cannot be read or parsed is skipped. *)
Definition load_with {A} (decode : file → option A) (path : string) : M Daemon (option A) :=
  data <- try (ReadFile path) ;;
  ret (match data with inl f => decode f | inr _ => None end).

(** The first of the native, the grove and the legacy file that sets an action wins; [None]
    when no action is set. *)
Definition LoadWorkspaceConfig (repoRoot : string) : M Daemon (option ProvisioningSpec) :=
  native <- load_with decode_workspace_json (path_Join [repoRoot; ".codencer"; "workspace.json"]) ;;
  let spec := default (MkProvisioningSpec [] [] "") native in
  grove <- load_with decode_grove_yaml (path_Join [repoRoot; "grove.yaml"]) ;;
  let spec :=
    match grove with
    | None => spec
    | Some g => MkProvisioningSpec (or_list (ps_Copy spec) (ps_Copy g))
                  (or_list (ps_Symlinks spec) (ps_Symlinks g))
                  (or_string (ps_PostCreate spec) (ps_PostCreate g))
    end in
  legacy <- load_with decode_groverc_json (path_Join [repoRoot; ".groverc.json"]) ;;
  let spec :=
    match legacy with
    | None => spec
    | Some (symlink, afterCreate) =>
      MkProvisioningSpec (ps_Copy spec) (or_list (ps_Symlinks spec) symlink)
        (or_string (ps_PostCreate spec) afterCreate)
    end in
  ret (if decide (ps_Copy spec = [] ∧ ps_Symlinks spec = [] ∧ ps_PostCreate spec = "")
       then None else Some spec).
End WorkspaceConfig.

(** ** [provisioner.go] *)

#[export] Instance ProvisioningResult_eta : Eta ProvisioningResult := λ r,
  MkProvisioningResult (pr_Success r) (pr_Summary r) (pr_Log r) (pr_DurationMs r)
    (pr_EnvironmentFiles r) (pr_Symlinks r) (pr_PostCreateHook r) (pr_HookStatus r).

Module LocalProvisioner.

Definition validatePath (relPath : string) : option error :=
  if IsAbs relPath then Some (errorf ("absolute paths are not allowed: " +:+ relPath))
  else if Contains (Clean relPath) ".." then
    Some (errorf ("parent traversal is not allowed: " +:+ relPath))
  else None.

Section Provision.
Context `{Env} `{Host_}.

(** [fail] returns the result with the error. *)
Definition fail_ (res : ProvisioningResult) (start : Z) (summary : string) (err : error) :
    M Daemon (ProvisioningResult * option error) :=
  t <- now ;;
  ret (res <| pr_Success := false |> <| pr_Summary := summary +:+ ": " +:+ err_text err |>
           <| pr_DurationMs := ((t - start) / Millisecond)%Z |>, Some err).

Definition copyFile (src dst : string) : M Daemon unit :=
  s <- os_Open src ;;
  MkdirAll (path_Dir dst) ;;
  d <- os_Create dst ;;
  io_Copy d s.

(** The body of the second loop: [_ = os.Remove(dst)], then [os.Symlink(src, dst)]. *)
Definition relink (src dst : string) : M Daemon unit :=
  ignore (os_Remove dst) ;; os_Symlink src dst.

(** One of the two loops over paths; it stops at the first failure. *)
Fixpoint each_path (invalid failed : string) (add : string → ProvisioningResult → ProvisioningResult)
    (op : string → string → M Daemon unit) (baseRepo workspaceRoot : string) (start : Z)
    (res : ProvisioningResult) (paths : list string) :
    M Daemon (ProvisioningResult * option error) :=
  match paths with
  | [] => ret (res, None)
  | relPath :: rest =>
    match validatePath relPath with
    | Some err => fail_ res start (invalid +:+ relPath) err
    | None =>
      let res := add relPath res in
      done <- try (op (path_Join [baseRepo; relPath]) (path_Join [workspaceRoot; relPath])) ;;
      match done with
      | inr err => fail_ res start (failed +:+ relPath) err
      | inl _ => each_path invalid failed add op baseRepo workspaceRoot start res rest
      end
    end
  end.

Definition log (line : string) (res : ProvisioningResult) : ProvisioningResult :=
  res <| pr_Log := pr_Log res ++ [line] |>.

Definition Provision (spec : option ProvisioningSpec) (baseRepo workspaceRoot : string) :
    M Daemon (ProvisioningResult * option error) :=
  start <- now ;;
  let finish res := t <- now ;; ret (res <| pr_DurationMs := ((t - start) / Millisecond)%Z |>, None) in
  let res := MkProvisioningResult true "" [] 0 [] [] "" "" in
  match spec with
  | None => finish res
  | Some spec =>
    let* (res, err) := each_path "Invalid copy path: " "Copy failed for "
      (λ p r, log ("[COPY] " +:+ p) r <| pr_EnvironmentFiles := pr_EnvironmentFiles r ++ [p] |>)
      copyFile baseRepo workspaceRoot start res (ps_Copy spec) ;;
    match err with
    | Some _ => ret (res, err)
    | None =>
      let* (res, err) := each_path "Invalid symlink path: " "Symlink failed for "
        (λ p r, log ("[SYMLINK] " +:+ p) r <| pr_Symlinks := pr_Symlinks r ++ [p] |>)
        relink baseRepo workspaceRoot start res (ps_Symlinks spec) ;;
      match err with
      | Some _ => ret (res, err)
      | None =>
        if decide (ps_PostCreate spec = "") then finish res
        else
          let res := log ("[HOOK] " +:+ ps_PostCreate spec)
            (res <| pr_PostCreateHook := ps_PostCreate spec |>) in
          let* (r, (out, errout)) := shell (ps_PostCreate spec) workspaceRoot ;;
          let output := out +:+ errout in
          let res := if decide (output = "") then res else log output res in
          match r with
          | ShellOk => finish (res <| pr_HookStatus := "success" |>)
          | ShellExit _ text | ShellError text =>
            fail_ (res <| pr_HookStatus := "failed" |>) start "Post-create hook failed" (errorf text)
          | ShellDeadline _ =>
            fail_ (res <| pr_HookStatus := "failed" |>) start "Post-create hook failed"
              (errorf "signal: killed")
          end
      end
    end
  end.
End Provision.
End LocalProvisioner.

(** ** [internal/validation/runner.go] *)

Module Runner.

Definition is_safe_byte (c : Ascii.ascii) : bool :=
  let n := Ascii.nat_of_ascii c in
  (bool_decide (97 ≤ n) && bool_decide (n ≤ 122)) || (bool_decide (65 ≤ n) && bool_decide (n ≤ 90))
  || (bool_decide (48 ≤ n) && bool_decide (n ≤ 57))
  || bool_decide (n = 45) || bool_decide (n = 95) || bool_decide (n = 46).

(** The loop over the runes: one that is not safe becomes a dash. A safe rune is one byte, and
    the first byte of a longer one is not safe. *)
Definition sanitizeValidationName (name : string) : string :=
  let name := TrimSpace name in
  if decide (name = "") then "validation"
  else
    let b := string_of_list_ascii
      (map_runes (λ c, if is_safe_byte c then c else Ascii.ascii_of_nat 45) 0
         (list_ascii_of_string name)) in
    if decide (b = "") then "validation" else b.

Definition firstNonEmpty (values : list string) : string :=
  match List.find (λ v, negb (bool_decide (TrimSpace v = ""))) values with
  | Some v => TrimSpace v
  | None => ""
  end.

Section Run.
Context `{Env} `{Host_}.

Definition writeValidationOutput (artifactRoot name stdout stderr : string) :
    M Daemon (string * string) :=
  if decide (artifactRoot = "") then ret ("", "")
  else
    made <- try (MkdirAll artifactRoot) ;;
    match made with
    | inr _ => ret ("", "")
    | inl _ =>
      let safeName := sanitizeValidationName name in
      let stdoutPath := path_Join [artifactRoot; "validation-" +:+ safeName +:+ "-stdout.log"] in
      let stderrPath := path_Join [artifactRoot; "validation-" +:+ safeName +:+ "-stderr.log"] in
      w1 <- try (WriteFile stdoutPath (RawBytes stdout)) ;;
      w2 <- try (WriteFile stderrPath (RawBytes stderr)) ;;
      ret (match w1 with inl _ => stdoutPath | inr _ => "" end,
           match w2 with inl _ => stderrPath | inr _ => "" end)
    end.

(** The error returned beside the result is always nil. *)
Definition RunWithArtifacts (cmdSpec : ValidationCommand) (workspaceRoot artifactRoot : string) :
    M Daemon ValidationResult :=
  let timeout := (if 0 <? vc_TimeoutSeconds cmdSpec then vc_TimeoutSeconds cmdSpec else 600)%Z in
  started <- now ;;
  let name := firstNonEmpty [vc_Name cmdSpec; "validation"] in
  let result := MkValidationResult name (vc_Command cmdSpec) ValidationStateRunning false (-1)
    "" "" "" 0 started in
  if decide (TrimSpace (vc_Command cmdSpec) = "") then
    t <- now ;;
    ret (result <| vr_State := ValidationStateErrored |> <| vr_Error := "empty command" |>
                <| vr_DurationMs := ((t - started) / Millisecond)%Z |>)
  else
    let* (r, (stdout, stderr)) := shell (vc_Command cmdSpec) workspaceRoot ;;
    t <- now ;;
    t' <- now ;;
    let* (stdoutRef, stderrRef) := writeValidationOutput artifactRoot name stdout stderr ;;
    let result := result <| vr_DurationMs := ((t - started) / Millisecond)%Z |>
      <| vr_UpdatedAt := t' |> <| vr_StdoutRef := stdoutRef |> <| vr_StderrRef := stderrRef |> in
    match r with
    | ShellOk =>
      ret (result <| vr_State := ValidationStatePassed |> <| vr_Passed := true |>
                  <| vr_ExitCode := 0%Z |>)
    | ShellExit code text =>
      ret (result <| vr_State := ValidationStateFailed |> <| vr_ExitCode := code |>
                  <| vr_Error := "command failed: " +:+ text |>)
    | ShellError text =>
      ret (result <| vr_State := ValidationStateFailed |>
                  <| vr_Error := "command failed: " +:+ text |>)
    | ShellDeadline code =>
      ret (result <| vr_State := ValidationStateTimeout |> <| vr_ExitCode := code |>
                  <| vr_Error := "command timed out after " +:+ seconds_String timeout |>)
    end.
End Run.
End Runner.

(** ** None of these touches the database; they return if the commands they run do *)

Section Frames.
Context `{Env} `{Host_}.

Lemma cmd_fail_only_files {A} p t r : respects only_files (cmd_fail (A:=A) p t r).
Proof. unfold cmd_fail. respects_solve. Qed.
Lemma cmd_fail_returns {A} p t r : returns (cmd_fail (A:=A) p t r).
Proof. unfold cmd_fail. returns_solve. Qed.
#[local] Hint Resolve cmd_fail_only_files cmd_fail_returns : go.

Lemma RemoveWorktree_only_files b p : respects only_files (RemoveWorktree b p).
Proof. unfold RemoveWorktree. respects_solve. Qed.
Lemma RemoveWorktree_returns b p : host_returns → returns (RemoveWorktree b p).
Proof. intros Hhost. unfold RemoveWorktree. returns_solve. Qed.
Lemma pruneWorktrees_only_files b : respects only_files (pruneWorktrees b).
Proof. unfold pruneWorktrees. respects_solve. Qed.
Lemma pruneWorktrees_returns b : host_returns → returns (pruneWorktrees b).
Proof. intros Hhost. unfold pruneWorktrees. returns_solve. Qed.
Lemma findWorktreePathForBranch_only_files b n : respects only_files (findWorktreePathForBranch b n).
Proof. unfold findWorktreePathForBranch. respects_solve. Qed.
Lemma findWorktreePathForBranch_returns b n : host_returns → returns (findWorktreePathForBranch b n).
Proof. intros Hhost. unfold findWorktreePathForBranch. returns_solve. Qed.
#[local] Hint Resolve RemoveWorktree_only_files RemoveWorktree_returns pruneWorktrees_only_files
  pruneWorktrees_returns findWorktreePathForBranch_only_files findWorktreePathForBranch_returns : go.

Lemma CreateWorktree_only_files b p n : respects only_files (CreateWorktree b p n).
Proof. unfold CreateWorktree. respects_solve. Qed.
Lemma CreateWorktree_returns b p n : host_returns → returns (CreateWorktree b p n).
Proof. intros Hhost. unfold CreateWorktree. returns_solve. Qed.
Lemma CaptureChangedFiles_only_files p : respects only_files (CaptureChangedFiles p).
Proof. unfold CaptureChangedFiles. respects_solve. Qed.
Lemma CaptureChangedFiles_returns p : host_returns → returns (CaptureChangedFiles p).
Proof. intros Hhost. unfold CaptureChangedFiles. returns_solve. Qed.
Lemma ListWorktrees_only_files p : respects only_files (ListWorktrees p).
Proof. unfold ListWorktrees. respects_solve. Qed.
Lemma ListWorktrees_returns p : host_returns → returns (ListWorktrees p).
Proof. intros Hhost. unfold ListWorktrees. returns_solve. Qed.
Lemma LoadWorkspaceConfig_only_files p : respects only_files (LoadWorkspaceConfig p).
Proof. unfold LoadWorkspaceConfig, load_with. respects_solve. Qed.
Lemma LoadWorkspaceConfig_returns p : returns (LoadWorkspaceConfig p).
Proof. unfold LoadWorkspaceConfig, load_with. returns_solve. Qed.

Lemma copyFile_only_files a b : respects only_files (LocalProvisioner.copyFile a b).
Proof. unfold LocalProvisioner.copyFile. respects_solve. Qed.
Lemma copyFile_returns a b : returns (LocalProvisioner.copyFile a b).
Proof. unfold LocalProvisioner.copyFile. returns_solve. Qed.
Lemma relink_only_files a b : respects only_files (LocalProvisioner.relink a b).
Proof. unfold LocalProvisioner.relink. respects_solve. Qed.
Lemma relink_returns a b : returns (LocalProvisioner.relink a b).
Proof. unfold LocalProvisioner.relink. returns_solve. Qed.
Lemma provision_fail_only_files r t a e : respects only_files (LocalProvisioner.fail_ r t a e).
Proof. unfold LocalProvisioner.fail_. respects_solve. Qed.
Lemma provision_fail_returns r t a e : returns (LocalProvisioner.fail_ r t a e).
Proof. unfold LocalProvisioner.fail_. returns_solve. Qed.
#[local] Hint Resolve copyFile_only_files copyFile_returns relink_only_files relink_returns
  provision_fail_only_files provision_fail_returns : go.

Lemma each_path_only_files i f add op b w t paths :
  (∀ x y, respects only_files (op x y)) → ∀ res,
  respects only_files (LocalProvisioner.each_path i f add op b w t res paths).
Proof. intros Hop. induction paths; simpl; respects_solve. Qed.
Lemma each_path_returns i f add op b w t paths :
  (∀ x y, returns (op x y)) → ∀ res,
  returns (LocalProvisioner.each_path i f add op b w t res paths).
Proof. intros Hop. induction paths; simpl; returns_solve. Qed.
#[local] Hint Resolve each_path_only_files each_path_returns : go.

Lemma Provision_only_files s b w : respects only_files (LocalProvisioner.Provision s b w).
Proof. unfold LocalProvisioner.Provision. respects_solve. Qed.
Lemma Provision_returns s b w : host_returns → returns (LocalProvisioner.Provision s b w).
Proof. intros Hhost. unfold LocalProvisioner.Provision. returns_solve. Qed.

Lemma RunWithArtifacts_only_files cmd w a : respects only_files (Runner.RunWithArtifacts cmd w a).
Proof. unfold Runner.RunWithArtifacts, Runner.writeValidationOutput. respects_solve. Qed.
Lemma RunWithArtifacts_returns cmd w a : host_returns → returns (Runner.RunWithArtifacts cmd w a).
Proof. intros Hhost. unfold Runner.RunWithArtifacts, Runner.writeValidationOutput. returns_solve. Qed.
End Frames.

#[export] Hint Resolve RemoveWorktree_only_files RemoveWorktree_returns CreateWorktree_only_files
  CreateWorktree_returns CaptureChangedFiles_only_files CaptureChangedFiles_returns
  ListWorktrees_only_files ListWorktrees_returns LoadWorkspaceConfig_only_files
  LoadWorkspaceConfig_returns Provision_only_files Provision_returns RunWithArtifacts_only_files
  RunWithArtifacts_returns : go.
