(* ===== verification/WorkspaceFacts.v ===== *)
(** * Properties of workspaces: locks, containment of paths, the report of changed files *)
From S2P Require Export Links Workspace.
From Stdlib Require Import Ascii.
Open Scope go_scope.

(** ** The lock of a workspace *)

(** What an acquisition that ended in [o] and [s'] says of the lock file before and after. *)
Definition lock_outcome `{Env} (repoPath id : string) (s : st Daemon) (o : outcome unit)
    (s' : st Daemon) : Prop :=
  let before := d_files (store s) !! lockPath repoPath in
  let after := d_files (store s') !! lockPath repoPath in
  (is_Some before → (∃ e, o = Err e) ∧ store s' = store s) ∧
  (o = Ok tt → before = None ∧ is_Some after) ∧
  (reliable Host → before = None → o = Ok tt ∧ after = Some (RawBytes id) ∧
     (CheckLock repoPath s').1 = Ok (TrimSpace id) ∧
     d_files (store (Release repoPath s').2) = d_files (store s)).

Lemma lock_failed `{Env} repoPath id s e s' text n :
  fault Host n = Some text → store s' = store s → lock_outcome repoPath id s (Err e) s'.
Proof.
  intros Hf Hs. unfold lock_outcome. rewrite Hs. split_and!; [by eauto|done|].
  intros Hr. by rewrite Hr in Hf.
Qed.

Lemma CheckLock_held `{Env} repoPath id s :
  reliable Host → d_files (store s) !! lockPath repoPath = Some (RawBytes id) →
  (CheckLock repoPath s).1 = Ok (TrimSpace id).
Proof.
  intros Hr Hlock. unfold CheckLock, ReadFile, try, bind. unfold query_in, query, exec. rewrite Hr.
  cbn. by rewrite Hlock.
Qed.

Lemma lock_created `{Env} repoPath id s s' :
  d_files (store s) !! lockPath repoPath = None →
  d_files (store s') = <[lockPath repoPath := RawBytes id]> (d_files (store s)) →
  lock_outcome repoPath id s (Ok tt) s'.
Proof.
  intros Hlock Hs'. split_and!; [rewrite Hlock; by intros []| |].
  - intros _. split; [done|]. rewrite Hs'. eexists. apply lookup_insert_eq.
  - intros Hr _. split; [done|]. rewrite Hs'. split; [apply lookup_insert_eq|]. split.
    + apply CheckLock_held; [done|]. rewrite Hs'. apply lookup_insert_eq.
    + unfold Release, wrapping, exec_in, exec. rewrite Hr. cbn. rewrite Hs'.
      by apply delete_insert_id.
Qed.

Lemma wp_AcquireLock `{Env} repoPath id s :
  wp (AcquireLock repoPath id) (lock_outcome repoPath id s) s.
Proof.
  unfold AcquireLock. do 3 wp_step; [by eapply lock_failed|].
  change (view (store s)) with (d_files (store s)).
  destruct (d_files (store s) !! lockPath repoPath) as [f|] eqn:Hlock; cbn [fst snd].
  - assert (put (d_files (store s)) (store s) = store s) as -> by by destruct (store s).
    do 3 wp_step; (split; [split; [by eexists|done]|]); split; [done|congruence|done|congruence].
  - do 2 wp_step.
    + split_and!; [rewrite Hlock; by intros []| |].
      * intros _. split; [done|]. eexists. apply lookup_insert_eq.
      * intros Hr. by rewrite Hr in H1.
    + apply lock_created; [done|]. apply insert_insert_eq.
Qed.

(** C19: a workspace has one owner: acquiring its lock fails and changes nothing when the lock
    file is there, whatever else happens, and succeeds only by creating it; unless the host
    fails, it then holds the identifier of the owner, which [CheckLock] reads back, and
    releasing it makes the workspace free again. *)
Theorem AcquireLock_exclusive `{Env} repoPath id s :
  let '(o, s') := AcquireLock repoPath id s in lock_outcome repoPath id s o s'.
Proof.
  pose proof (wp_AcquireLock repoPath id s) as Hwp. unfold wp in Hwp.
  by destruct (AcquireLock repoPath id s) as [o s'].
Qed.

(** ** Paths given by a configuration stay below the workspace *)

Lemma Join_contains l e : e ∈ l → ∃ a b, strings_Join l "/" = a +:+ e +:+ b.
Proof.
  induction l as [|x l IH]; [by intros ?%elem_of_nil|].
  intros [->|Hin]%elem_of_cons.
  - destruct l as [|y l]; [exists "", ""; simpl; by rewrite string_app_nil_r|].
    by exists "", ("/" +:+ strings_Join (y :: l) "/").
  - destruct (IH Hin) as (a & b & Hab). destruct l as [|y l]; [by apply elem_of_nil in Hin|].
    exists (x +:+ "/" +:+ a), b.
    change (strings_Join (x :: y :: l) "/") with (x +:+ "/" +:+ strings_Join (y :: l) "/").
    rewrite Hab. by rewrite !string_app_assoc.
Qed.

Lemma validatePath_plain p :
  LocalProvisioner.validatePath p = None → IsAbs p = false ∧ ".." ∉ path_elements p.
Proof.
  unfold LocalProvisioner.validatePath. destruct (IsAbs p) eqn:Hp; [done|].
  destruct (Contains (Clean p) "..") eqn:Hc; [done|]. intros _. split; [done|]. intros Hin.
  apply not_true_iff_false in Hc. apply Hc, Contains_spec. unfold Clean. rewrite Hp.
  destruct (Join_contains _ _ Hin) as (a & b & Hab). exists a, b. rewrite <- Hab.
  by destruct (path_elements p) eqn:He; [apply elem_of_nil in Hin|].
Qed.

(** ** What provisioning writes *)

(** Only files below [root] have changed. *)
Definition below (root : string) (w w' : Daemon) : Prop :=
  ∀ path, ¬ path_elements root `prefix_of` path_elements path →
    d_files w' !! path = d_files w !! path.
#[export] Instance below_preorder root : PreOrder (below root).
Proof. unfold below. split; [done|]. intros x y z Hxy Hyz path Hp. by rewrite Hyz, Hxy. Qed.

(** The symbolic links above and below [root] are among the [allowed] ones. *)
Definition links_in (root : string) (allowed : list (list string)) (fs : Files) : Prop :=
  ∀ l t, clean_list true l → fs !! of_elems true l = Some (SymLink t) →
    l `prefix_of` path_elements root ∨ path_elements root `prefix_of` l → l ∈ allowed.

(** The second path does not go through the first. *)
Definition separate (p q : string) : Prop :=
  path_elements p `prefix_of` path_elements q → path_elements p = path_elements q.

Section Provision.
Context `{Env} `{Host_} (root : string).
Import LocalProvisioner.

Lemma clean_list_prefix p l : clean_list true l → p `prefix_of` l → clean_list true p.
Proof using Type.
  intros [Hc Hn] [q ->]. apply canonical_plain in Hc. rewrite rev_app_distr in Hc.
  apply Forall_app in Hc as [_ Hc]. apply Forall_app in Hn as [Hn _]. split; [|done].
  exists (rev p), 0. by rewrite app_nil_r.
Qed.

(** The way to a path below the root meets allowed links only. *)
Lemma links_in_no_links allowed fs dst l :
  links_in root allowed fs → IsAbs dst = true →
  path_elements root `prefix_of` path_elements dst → l `prefix_of` path_elements dst →
  (∀ a, a ∈ allowed → ¬ a `prefix_of` l) → no_links fs true l.
Proof using Type.
  intros Hl Habs Hroot Hpre Hno p t Hp Hpl Hget.
  assert (p `prefix_of` path_elements dst) as Hpd by by etrans.
  apply (Hno p); [|done]. eapply Hl; [|exact Hget|].
  - eapply clean_list_prefix; [|exact Hpd]. rewrite <- Habs. apply path_elements_clean.
  - by apply prefix_weak_total with (path_elements dst).
Qed.

(** A place reached from the root of the file system holds no link. *)
Lemma links_in_place fs path p t :
  links_in root [] fs → IsAbs path = true → place fs path = Some p →
  fs !! p ≠ Some (SymLink t).
Proof using Type.
  intros Hl Habs Hp Hget. destruct (decide (path_elements p = [])) as [Hnil|Hne];
    [|by eapply place_no_link].
  apply place_elements in Hp as (r & l & -> & [Hc Hns] & _ & Hr). rewrite Hr in * by done.
  rewrite elements_of_elems in Hnil by done. subst l.
  assert ([] ∈ (@nil (list string))) as []%elem_of_nil.
  eapply Hl; [apply clean_list_nil|exact Hget|]. left. apply prefix_nil.
Qed.

(** A write to a path below the root. *)
Lemma below_insert w dst f :
  path_elements root `prefix_of` path_elements dst →
  below root w (w <| d_files := <[Clean dst := f]> (d_files w) |>).
Proof using Type.
  intros Hdst path Hp. cbn. apply lookup_insert_ne. intros <-. by rewrite elements_Clean in Hp.
Qed.

Lemma links_in_insert allowed fs dst f :
  IsAbs dst = true → links_in root allowed fs →
  (∀ t, f = SymLink t → path_elements dst ∈ allowed) →
  links_in root allowed (<[Clean dst := f]> fs).
Proof using Type.
  intros Habs Hl Hf l t Hclean [[Heq ->]|[_ Hget]]%lookup_insert_Some; [|by eapply Hl].
  intros _. apply (f_equal path_elements) in Heq. destruct Hclean.
  rewrite elements_Clean, elements_of_elems in Heq by done. subst. by eapply Hf.
Qed.

Lemma links_in_delete allowed fs k :
  links_in root allowed fs → links_in root allowed (delete k fs).
Proof using Type. intros Hl l t Hc [_ Hget]%lookup_delete_Some. by eapply Hl. Qed.

Lemma links_in_mono allowed allowed' fs :
  allowed ⊆ allowed' → links_in root allowed fs → links_in root allowed' fs.
Proof using Type. intros Hsub Hl l t Hc Hget Hor. apply Hsub. by eapply Hl. Qed.

(** A file is copied below the root, where no links are. *)
Lemma copyFile_below src dst s :
  links_in root [] (d_files (store s)) → IsAbs src = true → IsAbs dst = true →
  path_elements root `prefix_of` path_elements dst →
  wp (copyFile src dst) (λ _ s', below root (store s) (store s') ∧
    links_in root [] (d_files (store s'))) s.
Proof using Type.
  intros Hl Hsrc Habs Hdst. unfold copyFile, MkdirAll, syscall.
  assert (no_links (d_files (store s)) true (path_elements dst)) as Hno.
  { eapply links_in_no_links; [done..|]. intros a Ha. by apply elem_of_nil in Ha. }
  wp_step. apply wp_os_Open; [by split|]. intros q Hq. cbn [then_].
  assert (∀ t, d_files (store s) !! q ≠ Some (SymLink t)) as Hqlink
    by (intros t; by apply (links_in_place _ src)).
  do 2 wp_step; [by split|]. cbn [then_]. wp_step. apply wp_os_Create; [intros e s' Hs'; cbn [then_]; by rewrite Hs'|].
  cbn [store tock]. rewrite place_plain by done. intros ? [= <-]. cbn [then_].
  assert (∀ w f, links_in root [] (d_files w) → (∀ t, f ≠ SymLink t) →
    below root w (w <| d_files := <[Clean dst := f]> (d_files w) |>) ∧
    links_in root [] (<[Clean dst := f]> (d_files w))) as Hput.
  { intros w f Hw Hf. split; [by apply below_insert|]. apply links_in_insert; [done..|].
    intros t ->. by destruct (Hf t). }
  destruct (Hput (store s) (RawBytes "") Hl) as [Hb Hl']; [done|].
  apply wp_io_Copy; cbn [store with_files d_files update_field]; [intros e s' Hs'; by rewrite Hs'|].
  intros o s' f f' Hf Hf' ->.
  destruct (Hput ((store s) <| d_files := <[Clean dst := RawBytes ""]> (d_files (store s)) |>) f')
    as [Hb' Hl''].
  - exact Hl'.
  - intros t. destruct Hf' as [->|[data ->]]; [|done]. intros ->.
    apply lookup_insert_Some in Hf as [[_ [=]]|[_ Hf]]. by destruct (Hqlink t).
  - split; [by etrans|exact Hl''].
Qed.

(** The entry of a path below the root is at that path, if no allowed link is above it. *)
Lemma links_in_entry allowed fs dst :
  links_in root allowed fs → IsAbs dst = true →
  path_elements root `prefix_of` path_elements dst →
  (∀ a, a ∈ allowed → a `prefix_of` path_elements dst → a = path_elements dst) →
  entry fs dst = Some (Clean dst).
Proof using Type.
  intros Hl Habs Hdst Hsep.
  destruct (decide (path_elements dst = [])) as [Hnil|(l & e & He)%exists_last].
  { unfold entry. by rewrite Hnil. }
  apply entry_plain; [done|]. rewrite He, removelast_last.
  assert (l `prefix_of` path_elements dst) as Hpre by by rewrite He; exists [e].
  eapply links_in_no_links; [done..|]. intros a Ha Hal.
  assert (a = path_elements dst) as -> by (apply Hsep; [done|by etrans]).
  apply prefix_length in Hal. rewrite He, length_app in Hal. simpl in Hal. lia.
Qed.

(** Linking one more path writes a link at that path. *)
Lemma relink_below allowed src dst s :
  links_in root allowed (d_files (store s)) → IsAbs dst = true →
  path_elements root `prefix_of` path_elements dst →
  (∀ a, a ∈ allowed → a `prefix_of` path_elements dst → a = path_elements dst) →
  wp (relink src dst) (λ _ s', below root (store s) (store s') ∧
    links_in root (path_elements dst :: allowed) (d_files (store s'))) s.
Proof using Type.
  intros Hl Habs Hdst Hsep. unfold relink.
  assert (∀ s1, below root (store s) (store s1) → links_in root allowed (d_files (store s1)) →
    wp (os_Symlink src dst) (λ _ s', below root (store s) (store s') ∧
      links_in root (path_elements dst :: allowed) (d_files (store s'))) s1) as Hlink.
  { intros s1 Hb Hl1. assert (links_in root (path_elements dst :: allowed) (d_files (store s1)))
      as Hl2 by by eapply links_in_mono; [|exact Hl1]; intros ? ?; right.
    apply wp_os_Symlink; [intros e s' Hs'; by rewrite Hs'|].
    rewrite (links_in_entry allowed) by done. intros ? [= <-].
    split; [etrans; [exact Hb|by apply below_insert]|].
    apply links_in_insert; [done..|]. intros t _. by left. }
  wp_step. wp_step. apply wp_os_Remove.
  - intros e s' Hs'. cbn [then_]. apply Hlink; by rewrite Hs'.
  - rewrite (links_in_entry allowed) by done. intros ? [= <-]. cbn [then_]. apply Hlink.
    + intros path Hp. cbn. apply lookup_delete_ne. intros <-. by rewrite elements_Clean in Hp.
    + by apply links_in_delete.
Qed.

(** The path of a configuration that passes the check is below the root. *)
Lemma validatePath_below p :
  IsAbs root = true → validatePath p = None →
  IsAbs (path_Join [root; p]) = true ∧
  path_elements (path_Join [root; p]) = path_elements root ++ path_elements p.
Proof using Type.
  intros Hroot [Habs Hdots]%validatePath_plain. assert (root ≠ "") as Hne by by intros ->.
  split; [|by apply elements_Join]. by apply IsAbs_Join.
Qed.

Lemma fail_below res start summary err s :
  wp (fail_ res start summary err) (λ o s', store s' = store s ∧
    ∀ r, o ≠ Ok (r, None)) s.
Proof using Type. unfold fail_. by repeat wp_step. Qed.

Context (Hroot : IsAbs root = true) (base : string) (Hbase : IsAbs base = true).

Lemma copies_below i f add start paths : ∀ res s,
  links_in root [] (d_files (store s)) →
  wp (each_path i f add copyFile base root start res paths) (λ _ s',
    below root (store s) (store s') ∧ links_in root [] (d_files (store s'))) s.
Proof using Hroot Hbase.
  induction paths as [|p paths IH]; intros res s Hl; cbn [each_path]; [by wp_step|].
  destruct (validatePath p) as [err|] eqn:Hp.
  { eapply wp_mono; [apply fail_below|]. by intros o s' [-> _]. }
  destruct (validatePath_below p Hroot Hp) as [Habs Helems]. do 2 wp_step.
  eapply wp_mono; [apply copyFile_below; [exact Hl|by apply IsAbs_Join|exact Habs|]|].
  { rewrite Helems. by apply prefix_app_r. }
  intros o s1 [Hb Hl1]. destruct o as [[]|err|x|]; cbn [then_]; [| |done..].
  - eapply wp_mono; [by apply IH|]. intros o s2 [Hb2 Hl2]. split; [by etrans|done].
  - eapply wp_mono; [apply fail_below|]. by intros o s2 [-> _].
Qed.

Lemma relinks_below i f add start paths : ∀ allowed res s,
  links_in root allowed (d_files (store s)) → ForallOrdPairs separate paths →
  (∀ a p, a ∈ allowed → p ∈ paths → a `prefix_of` path_elements root ++ path_elements p →
     a = path_elements root ++ path_elements p) →
  wp (each_path i f add relink base root start res paths) (λ _ s',
    below root (store s) (store s')) s.
Proof using Hroot Hbase.
  induction paths as [|p paths IH]; intros allowed res s Hl Hsep Hall; cbn [each_path]; [by wp_step|].
  inversion_clear Hsep as [|? ? Hp0 Hsep'].
  destruct (validatePath p) as [err|] eqn:Hp.
  { eapply wp_mono; [apply fail_below|]. by intros o s' [-> _]. }
  destruct (validatePath_below p Hroot Hp) as [Habs Helems]. do 2 wp_step.
  eapply wp_mono; [apply (relink_below allowed); [exact Hl|exact Habs| |]|].
  { rewrite Helems. by apply prefix_app_r. }
  { rewrite Helems. intros a Ha. apply Hall; [done|left]. }
  intros o s1 [Hb Hl1]. rewrite Helems in Hl1.
  destruct o as [[]|err|x|]; cbn [then_]; [| |done..].
  - eapply wp_mono; [eapply IH; [exact Hl1|exact Hsep'|]|]; [|intros o s2 Hb2; by etrans].
    intros a q [->|Ha]%elem_of_cons Hq; [|apply Hall; [done|by right]].
    intros Hpre%prefix_app_inv. f_equal. rewrite Forall_forall in Hp0. by apply Hp0.
  - eapply wp_mono; [apply fail_below|]. by intros o s2 [-> _].
Qed.
End Provision.

(** C14: provisioning a workspace by a configuration without a hook writes, links and removes files
    below the workspace only, however the paths of the configuration are written and whatever
    fails, when the repository and the workspace are given by absolute paths, no symbolic link is
    in or above the workspace to begin with and nobody else makes one, and no path to link goes
    through an earlier one. *)
Theorem Provision_confined `{Env} `{Host_} spec baseRepo workspaceRoot s :
  IsAbs baseRepo = true → IsAbs workspaceRoot = true →
  links_in workspaceRoot [] (d_files (store s)) →
  (∀ sp, spec = Some sp → ForallOrdPairs separate (ps_Symlinks sp) ∧ ps_PostCreate sp = "") →
  below workspaceRoot (store s)
    (store (LocalProvisioner.Provision spec baseRepo workspaceRoot s).2).
Proof.
  intros Hbase Hroot Hl Hspec.
  assert (wp (LocalProvisioner.Provision spec baseRepo workspaceRoot)
    (λ _ s', below workspaceRoot (store s) (store s')) s) as Hwp; [|exact Hwp].
  unfold LocalProvisioner.Provision. do 2 wp_step.
  destruct spec as [sp|]; [|by repeat wp_step].
  destruct (Hspec sp eq_refl) as [Hsep Hhook]. wp_step.
  eapply wp_mono; [by apply copies_below|].
  intros o s1 [Hb1 Hl1]. destruct o as [[res [err|]]| | |]; cbn [then_]; try done.
  wp_step. eapply wp_mono;
    [apply (relinks_below _ Hroot _ Hbase _ _ _ _ _ [] _ _ Hl1 Hsep); by intros a p ?%elem_of_nil|].
  intros o s2 Hb2. assert (below workspaceRoot (store s) (store s2)) by by etrans.
  destruct o as [[res2 [err|]]| | |]; cbn [then_]; try done.
  rewrite Hhook, decide_True by done. by repeat wp_step.
Qed.

(** ** The report of changed files *)

(** An entry of [git status --porcelain], as git documents its output: two status letters, a
    space and the path, after the path it was renamed or copied from, if it was. *)
Record status_entry := MkStatus {
  se_x : ascii;
  se_y : ascii;
  se_orig : option string;
  se_path : string;
}.

(** A byte git escapes in a path: the control characters, the quote, the backslash and the bytes
    that are not ASCII. A path with such a byte or a blank is put between quotes. *)
Definition git_special (c : ascii) : bool :=
  let n := nat_of_ascii c in
  bool_decide (n < 32) || bool_decide (n = 34) || bool_decide (n = 92) || bool_decide (127 ≤ n).
Definition git_plain (c : ascii) : bool :=
  negb (git_special c) && negb (bool_decide (nat_of_ascii c = 32)).

Definition git_escape (c : ascii) : list ascii :=
  let esc d := [ascii_of_nat 92; d] in
  let octal k := ascii_of_nat (48 + k) in
  match nat_of_ascii c with
  | 7 => esc "a"%char | 8 => esc "b"%char | 9 => esc "t"%char | 10 => esc "n"%char
  | 11 => esc "v"%char | 12 => esc "f"%char | 13 => esc "r"%char | 34 => esc c | 92 => esc c
  | n => if git_special c then [ascii_of_nat 92; octal (n / 64); octal (n / 8 mod 8); octal (n mod 8)]
         else [c]
  end.

Definition git_name (path : string) : list ascii :=
  let l := list_ascii_of_string path in
  if forallb git_plain l then l
  else ascii_of_nat 34 :: concat (map git_escape l) ++ [ascii_of_nat 34].

(** What follows the status letters and the space. *)
Definition se_field (e : status_entry) : list ascii :=
  match se_orig e with
  | Some orig => git_name orig ++ list_ascii_of_string " -> " ++ git_name (se_path e)
  | None => git_name (se_path e)
  end.

Definition status_line (e : status_entry) : string :=
  string_of_list_ascii ([se_x e; se_y e; ascii_of_nat 32] ++ se_field e).

(** The output of the command: every line is terminated. *)
Definition status_output (l : list status_entry) : string :=
  String.concat "" (map (λ e, status_line e +:+ String newline "") l).

(** The letters are those of git, and not both blank; the paths are not empty. *)
Definition status_ok (e : status_entry) : Prop :=
  se_x e ∈ list_ascii_of_string " MTADRCU?!" ∧ se_y e ∈ list_ascii_of_string " MTADRCU?!" ∧
  (se_x e ≠ " "%char ∨ se_y e ≠ " "%char) ∧ se_path e ≠ "" ∧ se_orig e ≠ Some "".

(** A statement on bytes that holds of each of them by computation. *)
Ltac all_bytes c := destruct c as [[] [] [] [] [] [] [] []]; vm_compute.

(** Both ends of a text are bytes that are visible. *)
Definition visible : ascii → bool := byte_in 33 126.
Definition solid (l : list ascii) : Prop :=
  (∃ c l', l = c :: l' ∧ visible c = true) ∧ (∃ l' c, l = l' ++ [c] ∧ visible c = true).

Lemma visible_starts s2 s3 c l :
  (∀ b, s2 c b = false) → (∀ b d, s3 c b d = false) → visible c = true →
  starts_space s2 s3 (c :: l) = false.
Proof.
  intros H2 H3 Hc. assert (is_space c = false) as Hs.
  { revert Hc. clear. by all_bytes c. }
  destruct l as [|a [|b l]]; cbn [starts_space];
    rewrite ?Hs, ?H2, ?H3; reflexivity.
Qed.

Lemma visible_ascii n m c : 127 ≤ n → visible c = true → byte_in n m c = false.
Proof.
  unfold visible, byte_in. intros Hn Hc%andb_true_iff. apply andb_false_iff. left.
  apply bool_decide_eq_false. destruct Hc as [_ Hc%bool_decide_eq_true]. lia.
Qed.

Lemma trim_solid p l : Forall (λ c, is_space c = true) p → solid l → trim (p ++ l) = l.
Proof.
  intros Hp [(c & l' & Hl & Hc) (l'' & d & Hl' & Hd)]. unfold trim.
  assert (drop_space (p ++ l) = l) as ->.
  { induction Hp as [|b p Hb _ IH].
    - rewrite Hl. apply drop_space_by_fix. apply visible_starts; [| |done].
      + intros b. unfold is_space2. by rewrite (visible_ascii _ _ c) by (done || lia).
      + intros b e. unfold is_space3. by rewrite !(visible_ascii _ _ c) by (done || lia).
    - cbn [app]. unfold drop_space in *. cbn [drop_space_by]. by rewrite Hb. }
  rewrite Hl', rev_app_distr. cbn [rev app]. unfold drop_space_rev. rewrite drop_space_by_fix.
  - cbn [rev]. by rewrite rev_involutive.
  - apply visible_starts; [| |done].
    + intros b. unfold is_space2. rewrite !(visible_ascii _ _ d) by (done || lia).
      by rewrite andb_false_r.
    + intros b e. unfold is_space3. rewrite !(visible_ascii _ _ d) by (done || lia).
      by rewrite !andb_false_r.
Qed.

Lemma TrimSpace_solid p l :
  Forall (λ c, is_space c = true) p → solid l →
  TrimSpace (string_of_list_ascii (p ++ l)) = string_of_list_ascii l.
Proof.
  intros Hp Hl. unfold TrimSpace. by rewrite list_ascii_of_string_of_list_ascii, trim_solid.
Qed.

(** ** The bytes git prints *)

Lemma git_escape_printable c : forallb (byte_in 32 126) (git_escape c) = true.
Proof. by all_bytes c. Qed.
Lemma git_plain_visible c : git_plain c = true → visible c = true.
Proof. by all_bytes c. Qed.
Lemma visible_printable c : visible c = true → byte_in 32 126 c = true.
Proof. by all_bytes c. Qed.

Lemma git_name_printable p : forallb (byte_in 32 126) (git_name p) = true.
Proof.
  unfold git_name. destruct (forallb git_plain _) eqn:Hp.
  - apply forallb_forall. intros c Hc. rewrite forallb_forall in Hp.
    by apply visible_printable, git_plain_visible, Hp.
  - clear Hp. cbn [forallb]. rewrite forallb_app. cbn. rewrite andb_true_r.
    induction (list_ascii_of_string p) as [|c l IH]; [done|].
    cbn [map concat]. by rewrite forallb_app, git_escape_printable.
Qed.

Lemma solid_app l m k : solid l → solid k → solid (l ++ m ++ k).
Proof.
  intros [(c & l' & -> & Hc) _] [_ (k' & d & -> & Hd)]. split.
  - by exists c, (l' ++ m ++ k' ++ [d]).
  - exists ((c :: l') ++ m ++ k'), d. by rewrite <- !app_assoc.
Qed.

Lemma git_name_solid p : p ≠ "" → solid (git_name p).
Proof.
  intros Hne. unfold git_name. destruct (forallb git_plain _) eqn:Hp.
  - rewrite forallb_forall in Hp. assert (list_ascii_of_string p ≠ []) as Hl by by destruct p.
    split.
    + destruct (list_ascii_of_string p) as [|c l]; [done|]. exists c, l. split; [done|].
      apply git_plain_visible, Hp. by left.
    + apply exists_last in Hl as (l & c & Hl). exists l, c. split; [done|].
      apply git_plain_visible, Hp. rewrite Hl. apply in_app_iff. right. by left.
  - split; [by exists (ascii_of_nat 34), (concat (map git_escape (list_ascii_of_string p))
      ++ [ascii_of_nat 34])|].
    by exists (ascii_of_nat 34 :: concat (map git_escape (list_ascii_of_string p))),
      (ascii_of_nat 34).
Qed.

Lemma git_escape_length l : length l ≤ length (concat (map git_escape l)).
Proof.
  induction l as [|c l IH]; [done|]. cbn. rewrite length_app.
  assert (1 ≤ length (git_escape c)) by (apply (bool_decide_eq_true_1 _); by all_bytes c). lia.
Qed.

Lemma git_name_length p : length (list_ascii_of_string p) ≤ length (git_name p).
Proof.
  unfold git_name. destruct (forallb _ _); [done|]. cbn. rewrite length_app.
  pose proof (git_escape_length (list_ascii_of_string p)). lia.
Qed.

(** The printed name is the path exactly when it needs no quotes. *)
Lemma git_name_plain p :
  git_name p = list_ascii_of_string p ↔ forallb git_plain (list_ascii_of_string p) = true.
Proof.
  split; [|by unfold git_name; intros ->]. unfold git_name.
  destruct (forallb _ _) eqn:Hp; [done|]. intros Heq%(f_equal length). exfalso.
  cbn in Heq. rewrite length_app in Heq. cbn in Heq.
  pose proof (git_escape_length (list_ascii_of_string p)). lia.
Qed.

(** A status letter is printable, and visible if it is no blank. *)
Lemma status_letter c :
  c ∈ list_ascii_of_string " MTADRCU?!" →
  byte_in 32 126 c = true ∧ (c ≠ " "%char → visible c = true).
Proof.
  assert (Forall (λ c, byte_in 32 126 c = true ∧ (c ≠ " "%char → visible c = true))
    (list_ascii_of_string " MTADRCU?!")) as Hall by (by repeat constructor).
  rewrite Forall_forall in Hall. apply Hall.
Qed.

Lemma se_field_solid e : status_ok e → solid (se_field e).
Proof.
  intros (_ & _ & _ & Hp & Ho). unfold se_field.
  destruct (se_orig e) as [o|]; [|by apply git_name_solid].
  apply solid_app; apply git_name_solid; congruence.
Qed.

Lemma status_line_no_newline e : status_ok e → no_byte newline (status_line e).
Proof.
  intros (Hx & Hy & _). unfold no_byte, status_line. rewrite list_ascii_of_string_of_list_ascii.
  assert (∀ l, forallb (byte_in 32 126) l = true → newline ∉ l) as Hprint.
  { intros l Hl Hin%list_elem_of_In. rewrite forallb_forall in Hl. by apply Hl in Hin. }
  apply Hprint. cbn [app forallb].
  destruct (status_letter _ Hx) as [-> _], (status_letter _ Hy) as [-> _]. cbn.
  unfold se_field. destruct (se_orig e); rewrite ?forallb_app, ?git_name_printable; done.
Qed.

(** What is left of a trimmed line after its first two bytes, trimmed, is the field. *)
Lemma status_line_field e : status_ok e →
  ¬ String.length (TrimSpace (status_line e)) < 3 ∧
  TrimSpace (string_drop 2 (TrimSpace (status_line e))) = string_of_list_ascii (se_field e).
Proof.
  intros He. pose proof (se_field_solid e He) as Hf. destruct He as (Hx & Hy & Hxy & _).
  unfold status_line. set (f := se_field e) in *. clearbody f.
  assert (f ≠ []) as Hne by (destruct Hf as [(? & ? & -> & _) _]; done).
  apply status_letter in Hx as [_ Hx], Hy as [_ Hy].
  assert (∀ p c, visible c = true → solid (c :: p ++ f)) as Hsolid.
  { intros p c Hc. split; [by eexists _, _|]. destruct Hf as [_ (l & d & -> & Hd)].
    exists (c :: p ++ l), d. split; [|done]. cbn. by rewrite app_assoc. }
  assert (∀ l, String.length (string_of_list_ascii l) = length l) as Hlen.
  { induction l as [|c l IH]; [done|]. cbn. by rewrite IH. }
  destruct (decide (se_x e = " "%char)) as [Hb|Hb].
  - rewrite Hb. assert (visible (se_y e) = true) as Hv by (apply Hy; naive_solver).
    change ([" "%char; se_y e; ascii_of_nat 32] ++ f)
      with ([" "%char] ++ (se_y e :: [ascii_of_nat 32] ++ f)).
    rewrite TrimSpace_solid by auto. rewrite Hlen. cbn [length app string_of_list_ascii string_drop].
    split; [destruct f; cbn; [done|lia]|]. exact (TrimSpace_solid [] f (Forall_nil_2 _) Hf).
  - change ([se_x e; se_y e; ascii_of_nat 32] ++ f)
      with ([] ++ (se_x e :: [se_y e; ascii_of_nat 32] ++ f)).
    rewrite TrimSpace_solid by auto. rewrite Hlen. cbn [length app string_of_list_ascii string_drop].
    split; [lia|]. apply (TrimSpace_solid [ascii_of_nat 32] f); [by repeat constructor|done].
Qed.

(** C21: for every status of the worktree, what is captured from the output of
    [git status --porcelain] is one text for each entry, in order: what git prints after the
    status letters. It is the path of the file exactly when the file was not renamed or copied
    and git does not quote its path. *)
Theorem changed_files_fields l : Forall status_ok l →
  changed_files (split_byte newline (status_output l))
  = map (λ e, string_of_list_ascii (se_field e)) l ∧
  Forall (λ e, string_of_list_ascii (se_field e) = se_path e ↔
    se_orig e = None ∧ forallb git_plain (list_ascii_of_string (se_path e)) = true) l.
Proof.
  intros Hl. split.
  - induction Hl as [|e l He Hl IH]; [done|].
    assert (status_output (e :: l) = status_line e +:+ String newline (status_output l)) as ->.
    { unfold status_output. cbn [map]. destruct l; cbn -[status_line newline];
        by rewrite ?string_app_assoc. }
    rewrite split_byte_app by by apply status_line_no_newline. cbn [changed_files map].
    destruct (status_line_field e He) as [Hlen Hpath].
    rewrite decide_False by done. by rewrite Hpath, IH.
  - eapply Forall_impl; [exact Hl|]. intros e He. cbn beta. unfold se_field.
    split; [intros Heq%(f_equal list_ascii_of_string)|intros [-> Hp]].
    + rewrite list_ascii_of_string_of_list_ascii in Heq.
      destruct (se_orig e) as [o|]; [|split; [done|by apply git_name_plain]].
      exfalso. apply (f_equal length) in Heq. rewrite !length_app in Heq. cbn in Heq.
      pose proof (git_name_length (se_path e)). lia.
    + apply git_name_plain in Hp. rewrite Hp. apply string_of_list_ascii_of_string.
Qed.

Example changed_files_fields_witness :
  let l := [MkStatus " " "M" None "cmd/main.go"; MkStatus "R" " " (Some "a") "b c"] in
  changed_files (split_byte newline (status_output l))
  = map (λ e, string_of_list_ascii (se_field e)) l.
Proof.
  apply (changed_files_fields [MkStatus " " "M" None "cmd/main.go"; MkStatus "R" " " (Some "a") "b c"]).
  repeat constructor; try discriminate; try (apply (bool_decide_eq_true_1 _); vm_compute; reflexivity);
    by (left + right).
Defined.

(** ** The output files of a validation *)

Lemma map_runes_all f (P : ascii → Prop) skip l : (∀ c, P (f c)) → Forall P (map_runes f skip l).
Proof.
  intros Hf. revert skip. induction l as [|c l IH]; intros [|skip]; cbn [map_runes]; auto.
Qed.

Lemma sanitized_safe name :
  Forall (λ c, Runner.is_safe_byte c = true)
    (list_ascii_of_string (Runner.sanitizeValidationName name)).
Proof.
  unfold Runner.sanitizeValidationName. do 2 (case_decide; [by repeat constructor|]).
  rewrite list_ascii_of_string_of_list_ascii. apply map_runes_all. intros c.
  by destruct (Runner.is_safe_byte c) eqn:Hc.
Qed.

Definition output_name (name suffix : string) : string :=
  "validation-" +:+ Runner.sanitizeValidationName name +:+ suffix.

Lemma no_byte_app c s t : no_byte c s → no_byte c t → no_byte c (s +:+ t).
Proof.
  unfold no_byte. intros Hs Ht. induction s as [|d s IH]; [done|].
  change (c ∉ d :: list_ascii_of_string (s +:+ t)). change (c ∉ d :: list_ascii_of_string s) in Hs.
  apply not_elem_of_cons in Hs as [Hc Hs]. apply not_elem_of_cons. split; [done|]. by apply IH.
Qed.

Lemma output_path_elements root name suffix :
  root ≠ "" → no_byte slash suffix →
  path_elements (path_Join [root; output_name name suffix])
  = path_elements root ++ [output_name name suffix].
Proof.
  intros Hroot Hsuffix.
  assert (no_byte slash (output_name name suffix)) as Hno.
  { apply no_byte_app; [apply (bool_decide_eq_true_1 _); by vm_compute|]. apply no_byte_app; [|done].
    intros Hin. pose proof (sanitized_safe name) as Hall. rewrite Forall_forall in Hall.
    specialize (Hall _ Hin). vm_compute in Hall. discriminate. }
  assert (path_elements (output_name name suffix) = [output_name name suffix]) as Helem.
  { unfold path_elements, clean_elems. by rewrite split_byte_single. }
  rewrite elements_Join; [by rewrite Helem|done|done|]. rewrite Helem.
  intros Hin%list_elem_of_singleton. discriminate.
Qed.

(** The two paths are different children of the directory. *)
Lemma output_paths root name : root ≠ "" →
  let p suffix := path_Join [root; output_name name suffix] in
  p "-stdout.log" ≠ p "-stderr.log" ∧
  path_elements (p "-stdout.log") = path_elements root ++ [output_name name "-stdout.log"] ∧
  path_elements (p "-stderr.log") = path_elements root ++ [output_name name "-stderr.log"].
Proof.
  intros Hroot p.
  assert (∀ suffix, no_byte slash suffix →
    path_elements (p suffix) = path_elements root ++ [output_name name suffix]) as Hp
    by (intros; by apply output_path_elements).
  assert (no_byte slash "-stdout.log" ∧ no_byte slash "-stderr.log") as [Hno1 Hno2]
    by (split; apply (bool_decide_eq_true_1 _); by vm_compute).
  pose proof (Hp _ Hno1) as H1. pose proof (Hp _ Hno2) as H2. split; [|done].
  intros Heq. rewrite Heq, H2 in H1. apply app_inj_tail in H1 as [_ H1].
  apply (f_equal list_ascii_of_string) in H1. unfold output_name in H1.
  rewrite !list_ascii_app in H1. by do 2 apply app_inv_head in H1.
Qed.

Lemma wp_try_WriteFile `{Env} `{Host_} path f Q s :
  (∀ (w : unit + error) s', (∀ p, p ≠ path → d_files (store s') !! p = d_files (store s) !! p) →
     (w = inl tt → d_files (store s') !! path = Some f) → Q (Ok w) s') →
  wp (try (WriteFile path f)) Q s.
Proof.
  intros HQ. apply wp_try, wp_WriteFile; [intros s' Hs'; apply HQ; rewrite Hs'|].
  - intros p Hp. by apply lookup_insert_ne.
  - intros _. apply lookup_insert_eq.
  - intros e s' Hs'. by apply HQ.
Qed.

