(* ===== verification/Recovery.v ===== *)
(** * Recovery after a restart: [internal/service/recovery_service.go]

    The sweep over the runs left running, the recovery of one run, the clean-up of worktrees
    and of the lock, and the resumption of a paused run. *)
From S2P Require Export Workspace Gates.
Open Scope go_scope.

Module RecoveryService.

Record RunRecoveryReport := MkReport {
  rep_OK : bool;
  rep_DryRun : bool;
  rep_RunID : string;
  rep_Status : string;
  rep_Actions : list string;
  rep_Warnings : list string;
}.

(** [salvagedTerminal], [salvagedGate], [manualAttention]. *)
Definition counts : Type := Z * Z * Z.

Section Service.
Context `{Env} `{Host_} (cfg : Config) (c : ctx).

Definition findPendingGate (runID stepID : string) : M Daemon (option Gate) :=
  gates <- GatesRepo.ListByRun c runID ;;
  ret (List.find (λ g, bool_decide (gate_StepID g = stepID)
                       && bool_decide (gate_State g = GateStatePending)) gates).

Definition recovery_gate (runID stepID : string) (t : Z) : Gate :=
  MkGate ("gate-recovery-" +:+ stepID) runID stepID
    "Recovered stale step requires manual review before the run can continue."
    GateStatePending t None.

Definition ensureRecoveryGate (runID stepID : string) : M Daemon unit :=
  gate <- findPendingGate runID stepID ;;
  match gate with
  | Some _ => ret tt
  | None => t <- now ;; GatesRepo.Create c (recovery_gate runID stepID t)
  end.

(** The evidence is decoded from the JSON an adapter left; other text does not decode. *)
Definition readResultEvidence (runID stepID attemptID : string) : M Daemon ResultSpec :=
  data <- ReadFile (path_Join [cfg_artifactRoot cfg; runID; stepID; attemptID; "result.json"]) ;;
  match data with
  | ResultJSON result => ret result
  | _ => fail (errorf "invalid character looking for beginning of value")
  end.

(** [step.State = ...; step.StatusReason = ...; _ = s.stepsRepo.UpdateState(ctx, step)]. *)
Definition settle (step : Step) (state : StepState) (reason : string) : M Daemon unit :=
  t <- now ;;
  ignore (StepsRepo.UpdateState c
    (step <| step_State := state |> <| step_StatusReason := reason |>
          <| step_UpdatedAt := t |>)).

(** The two [switch]es on a result; [k] is what follows when neither case applies. *)
Definition salvage (runID : string) (n : counts) (step : Step) (result : option ResultSpec)
    (k : M Daemon counts) : M Daemon counts :=
  let '(terminal, gate, manual) := n in
  match result with
  | None => k
  | Some res =>
    if StepState_IsTerminal (rs_State res) then
      settle step (rs_State res) (rs_Summary res) ;; ret (terminal + 1, gate, manual)%Z
    else if decide (rs_State res = StepStateNeedsApproval) then
      settle step StepStateNeedsApproval (rs_Summary res) ;;
      ignore (ensureRecoveryGate runID (step_ID step)) ;;
      ret (terminal, gate + 1, manual)%Z
    else k
  end.

(** The body of the loop of [reconcileRunSteps]. *)
Definition reconcile_step (runID : string) (n : counts) (step : Step) : M Daemon counts :=
  let '(terminal, gate, manual) := n in
  if StepState_IsTerminal (step_State step)
     || bool_decide (step_State step = StepStateNeedsApproval) then ret n
  else
    pending <- try (findPendingGate runID (step_ID step)) ;;
    match pending with
    | inl (Some _) =>
      settle step StepStateNeedsApproval "Recovered paused step with a pending gate." ;;
      ret (terminal, gate + 1, manual)%Z
    | _ =>
      let unverified :=
        settle step StepStateNeedsManualAttention
          "Bridge restarted while this step was active and could not verify a safe terminal outcome." ;;
        ret (terminal, gate, manual + 1)%Z in
      latest <- try (AttemptsRepo.GetLatestByStep c (step_ID step)) ;;
      match latest with
      | inl (Some attempt) =>
        salvage runID n step (att_Result attempt)
          (result <- try (readResultEvidence runID (step_ID step) (att_ID attempt)) ;;
           salvage runID n step (match result with inl r => Some r | inr _ => None end) unverified)
      | _ => unverified
      end
    end.

(** An error of [ListByRun] counts as a run without steps. *)
Definition reconcileRunSteps (run : Run) : M Daemon string :=
  steps <- try (StepsRepo.ListByRun c (run_ID run)) ;;
  let* (terminal, gate, manual) := loop (reconcile_step (run_ID run)) (0, 0, 0)%Z
    (match steps with inl l => l | inr _ => [] end) ;;
  ret ("Recovery sweep completed: restored " +:+ itoa terminal +:+ " terminal steps, restored "
       +:+ itoa gate +:+ " gated steps, marked " +:+ itoa manual
       +:+ " steps needs_manual_attention.").

(** [filepath.Abs(filepath.Clean(p))]. *)
Definition abs_clean (p : string) : string :=
  let p := Clean p in if IsAbs p then Clean p else path_Join [getwd; p].

(** The condition under which [cleanupOrphans] considers a worktree its own. *)
Definition in_workspace_root (wt : string) : bool :=
  HasPrefix (abs_clean wt) (abs_clean (cfg_workspaceRoot cfg)).

Definition cleanupOrphans : M Daemon unit :=
  worktrees <- try (ListWorktrees (cfg_repoRoot cfg)) ;;
  match worktrees with
  | inr _ => ret tt
  | inl worktrees =>
    loop (λ _ wt,
      if in_workspace_root wt then
        lockOwner <- CheckLock (cfg_workspaceRoot cfg) ;;
        if decide (lockOwner = Base wt) then ret tt
        else ignore (RemoveWorktree (cfg_repoRoot cfg) wt)
      else ret tt) tt worktrees ;;
    lockOwner <- CheckLock (cfg_workspaceRoot cfg) ;;
    if decide (lockOwner = "") then ret tt
    else
      run <- try (RunsRepo.Get c lockOwner) ;;
      match run with
      | inl (Some run) =>
        if RunState_IsTerminal (run_State run)
        then ignore (Remove (lockPath (cfg_workspaceRoot cfg))) else ret tt
      | _ => ignore (Remove (lockPath (cfg_workspaceRoot cfg)))
      end
  end.

(** The body of the loop of [SweepStaleRuns]; the lock owner is read and not used. *)
Definition sweep_run (r : Run) : M Daemon unit :=
  _ <- CheckLock (cfg_workspaceRoot cfg) ;;
  notes <- reconcileRunSteps r ;;
  steps <- wrapping "failed to reload reconciled run steps" (StepsRepo.ListByRun c (run_ID r)) ;;
  t <- now ;;
  ignore (RunsRepo.UpdateState c
    (r <| run_RecoveryNotes := notes |> <| run_State := deriveRunState steps |>
       <| run_UpdatedAt := t |>)).

Definition SweepStaleRuns : M Daemon unit :=
  runs <- wrapping "failed to list running runs" (RunsRepo.ListByState c RunStateRunning) ;;
  loop (λ _ r, sweep_run r) tt runs ;;
  cleanupOrphans.

Definition is_recoverable (step : Step) : bool :=
  negb (StepState_IsTerminal (step_State step))
  && negb (bool_decide (step_State step = StepStateNeedsApproval))
  && negb (bool_decide (step_State step = StepStateNeedsManualAttention)).

Definition RecoverRun (runID : string) (dryRun : bool) : M Daemon RunRecoveryReport :=
  let runID := TrimSpace runID in
  if decide (runID = "") then fail (errorf "run id is required")
  else
    run <- RunsRepo.Get c runID ;;
    match run with
    | None => fail (errorf ("run not found: " +:+ runID))
    | Some run =>
      let report status actions warnings :=
        MkReport true dryRun runID (RunState_text status) actions warnings in
      if RunState_IsTerminal (run_State run)
      then ret (report (run_State run) ["inspect_terminal_run"] [])
      else
        steps <- StepsRepo.ListByRun c runID ;;
        if decide (List.filter is_recoverable steps = []) then
          if dryRun then ret (report (run_State run) ["reconcile_run_state"] [])
          else
            t <- now ;;
            let state := deriveRunState steps in
            RunsRepo.UpdateState c
              (run <| run_State := state |> <| run_UpdatedAt := t |>
                   <| run_RecoveryNotes := "Recovered run state from existing step states." |>) ;;
            ret (report state ["reconcile_run_state"] [])
        else if dryRun then
          ret (report (run_State run) ["mark_active_steps_needs_manual_attention"] [])
        else
          notes <- reconcileRunSteps run ;;
          steps <- StepsRepo.ListByRun c runID ;;
          t <- now ;;
          let state := deriveRunState steps in
          RunsRepo.UpdateState c
            (run <| run_State := state |> <| run_UpdatedAt := t |>
                 <| run_RecoveryNotes := notes |>) ;;
          ret (report state ["mark_active_steps_needs_manual_attention"] [notes])
    end.

Definition ResumeRun (runID : string) : M Daemon unit :=
  run <- RunsRepo.Get c runID ;;
  match run with
  | None => fail (errorf ("run not found: " +:+ runID))
  | Some run =>
    if decide (run_State run ≠ RunStatePausedForGate ∧ run_State run ≠ RunStateCreated) then
      fail (errorf ("run " +:+ runID
        +:+ " is not in a resumable state (must be paused_for_gate or created)"))
    else
      owner <- CheckLock (cfg_workspaceRoot cfg) ;;
      if decide (owner ≠ "" ∧ owner ≠ runID) then
        fail (errorf ("cannot resume run " +:+ runID
          +:+ ": workspace is currently locked by run " +:+ owner))
      else
        t <- now ;;
        RunsRepo.UpdateState c
          (run <| run_State := RunStateRunning |>
               <| run_RecoveryNotes := "Resume requested by operator." |>
               <| run_UpdatedAt := t |>)
  end.
End Service.
End RecoveryService.

(** ** Lemmas *)

(** The states recovery leaves alone or puts a step in. *)
Definition settled (s : StepState) : bool :=
  StepState_IsTerminal s || bool_decide (s = StepStateNeedsApproval)
  || bool_decide (s = StepStateNeedsManualAttention).

(** Runs, phases and steps are as before. *)
Definition same_work (w w' : Daemon) : Prop :=
  db_runs (d_db w') = db_runs (d_db w) ∧ db_phases (d_db w') = db_phases (d_db w) ∧
  db_steps (d_db w') = db_steps (d_db w).
#[export] Instance same_work_preorder : PreOrder same_work.
Proof.
  unfold same_work. split; [done|]. intros ? ? ? (? & ? & ?) (? & ? & ?).
  split_and!; congruence.
Qed.

(** One step was looked at: it was settled already, or its row now is. *)
Definition settles (step : Step) (d d' : DB) : Prop :=
  db_runs d' = db_runs d ∧ db_phases d' = db_phases d ∧
  ((settled (step_State step) = true ∧ db_steps d' = db_steps d) ∨
   ∃ step', step_ID step' = step_ID step ∧ settled (step_State step') = true ∧
     db_steps d' = tupdate (step_ID step) (StepsRepo.set_state step') (db_steps d)).

(** Every step of the run is settled. *)
Definition run_settled (d : DB) (runID : string) : Prop :=
  ∀ row, row ∈ db_steps d → StepsRepo.of_run d runID row = true → settled (srow_state row) = true.

(** The invariant of the loop over the steps: [l] is what is left to look at. *)
Record unsettled_in (runID : string) (d0 : DB) (l : list Step) (d : DB) : Prop := {
  ui_runs : db_runs d = db_runs d0;
  ui_phases : db_phases d = db_phases d0;
  ui_nodup : NoDup (map step_ID l);
  ui_current : ∀ x row, x ∈ l → row ∈ db_steps d → srow_id row = step_ID x →
    srow_state row = step_State x;
  ui_settled : ∀ row, row ∈ db_steps d → StepsRepo.of_run d runID row = true →
    settled (srow_state row) = true ∨ srow_id row ∈ map step_ID l;
  ui_keys : map row_key (db_steps d) = map row_key (db_steps d0);
  ui_mine : ∀ x row, x ∈ l → row ∈ db_steps d → srow_id row = step_ID x →
    StepsRepo.of_run d runID row = true;
  ui_others : ∀ q, q ≠ runID → StepsRepo.rows_of d q = StepsRepo.rows_of d0 q;
}.

Lemma elem_of_update {R K} `{EqDecision K} `{Keyed R K} (k : K) f (t : list R) r :
  r ∈ tupdate k f t ↔ ∃ r0, r0 ∈ t ∧ r = if decide (row_key r0 = k) then f r0 else r0.
Proof.
  unfold tupdate. rewrite list_elem_of_fmap. split; intros (r0 & ? & ?); by exists r0.
Qed.

Lemma twhere_update_other {R K} `{EqDecision K} `{Keyed R K} (p : R → bool) k f t :
  (∀ r, r ∈ t → row_key r = k → p r = false ∧ p (f r) = false) →
  twhere p (tupdate k f t) = twhere p t.
Proof.
  unfold tupdate. induction t as [|r t IH]; intros Hp; [done|]. cbn. rewrite IH.
  - case_decide as Hk; [|done]. destruct (Hp r) as [-> ->]; [by left|done..].
  - intros r' Hr'. apply Hp. by right.
Qed.

Lemma of_run_one d r r' row :
  StepsRepo.of_run d r row = true → r' ≠ r → StepsRepo.of_run d r' row = false.
Proof.
  unfold StepsRepo.of_run. destruct (tget _ _); [|done]. intros <-%bool_decide_eq_true Hne.
  by apply bool_decide_eq_false.
Qed.

Lemma settles_others runID x d d' q :
  settles x d d' → (∀ row, row ∈ db_steps d → srow_id row = step_ID x →
    StepsRepo.of_run d runID row = true) →
  q ≠ runID → StepsRepo.rows_of d' q = StepsRepo.rows_of d q.
Proof.
  intros (_ & Hp & Hcase) Hmine Hq.
  assert (∀ row, StepsRepo.of_run d' q row = StepsRepo.of_run d q row) as Hof
    by (intros row; unfold StepsRepo.of_run; by rewrite Hp).
  unfold StepsRepo.rows_of. f_equal.
  assert (∀ t, twhere (StepsRepo.of_run d' q) t = twhere (StepsRepo.of_run d q) t) as ->
    by (induction t as [|r t IH]; cbn; [done|]; by rewrite Hof, IH).
  destruct Hcase as [[_ ->]|(x' & _ & _ & ->)]; [done|].
  apply twhere_update_other. intros row Hrow Hid.
  assert (StepsRepo.of_run d q row = false) by (eapply of_run_one; [by apply Hmine|done]).
  by split.
Qed.

Lemma unsettled_step runID d0 x l d d' :
  unsettled_in runID d0 (x :: l) d → settles x d d' → unsettled_in runID d0 l d'.
Proof.
  intros [Hr Hp Hnd Hcur Hset Hkeys Hmine Hothers] Hs.
  assert (∀ q, q ≠ runID → StepsRepo.rows_of d' q = StepsRepo.rows_of d0 q) as Hothers'.
  { intros q Hq. rewrite <- Hothers by done. eapply settles_others; [done| |done].
    intros row. apply Hmine. constructor. }
  destruct Hs as (Hr' & Hp' & Hcase).
  apply NoDup_cons in Hnd as [Hx Hnd].
  assert (∀ row, StepsRepo.of_run d' runID row = StepsRepo.of_run d runID row) as Hof.
  { intros row. unfold StepsRepo.of_run. by rewrite Hp'. }
  assert (∀ y, y ∈ l → step_ID y ≠ step_ID x) as Hne.
  { intros y Hy Heq. apply Hx, list_elem_of_fmap. by exists y. }
  split; [congruence|congruence|done| | | | |done].
  - intros y row Hy Hrow Hid. destruct Hcase as [[_ Hst]|(x' & _ & _ & Hst)]; rewrite Hst in Hrow.
    + apply Hcur; [by constructor|done..].
    + apply elem_of_update in Hrow as (r0 & Hr0 & ->). case_decide as Hk.
      * exfalso. apply (Hne y Hy). simpl in Hid. by rewrite <- Hid.
      * apply Hcur; [by constructor|done..].
  - intros row Hrow Hrun. rewrite Hof in Hrun.
    destruct Hcase as [[Hs Hst]|(x' & _ & Hs & Hst)]; rewrite Hst in Hrow.
    + destruct (Hset row Hrow Hrun) as [?|Hin]; [by left|]. simpl in Hin.
      apply elem_of_cons in Hin as [Hid|Hin]; [left|by right].
      by rewrite (Hcur x row) by (done || constructor).
    + apply elem_of_update in Hrow as (r0 & Hr0 & ->). case_decide as Hk; [by left|].
      destruct (Hset r0 Hr0 Hrun) as [?|Hin]; [by left|]. simpl in Hin.
      apply elem_of_cons in Hin as [Hid|Hin]; [by destruct Hk|by right].
  - rewrite <- Hkeys. destruct Hcase as [[_ ->]|(x' & _ & _ & ->)]; [done|]. by apply map_key_update.
  - intros y row Hy Hrow Hid. rewrite Hof.
    destruct Hcase as [[_ Hst]|(x' & _ & _ & Hst)]; rewrite Hst in Hrow.
    + apply (Hmine y); [by constructor|done..].
    + apply elem_of_update in Hrow as (r0 & Hr0 & ->).
      case_decide as Hk; apply (Hmine y r0); by constructor || done.
Qed.

Lemma steps_of_elem d runID step :
  step ∈ steps_of d runID ↔
  ∃ row, row ∈ db_steps d ∧ StepsRepo.of_run d runID row = true ∧ step = StepsRepo.scan row.
Proof.
  unfold steps_of, StepsRepo.rows_of. rewrite list_elem_of_fmap.
  setoid_rewrite elem_of_sort_by. setoid_rewrite elem_of_twhere.
  split; intros (row & ? & ?); exists row; tauto.
Qed.

Lemma steps_of_nodup d runID : keys_unique (db_steps d) → NoDup (map step_ID (steps_of d runID)).
Proof.
  intros Hu. unfold steps_of, StepsRepo.rows_of. rewrite map_map.
  rewrite (Permutation_map (λ r, step_ID (StepsRepo.scan r)) (sort_by_perm _ _)).
  by apply (keys_unique_where (StepsRepo.of_run d runID)) in Hu.
Qed.

Lemma unique_row d r1 r2 :
  keys_unique (db_steps d) → r1 ∈ db_steps d → r2 ∈ db_steps d → srow_id r1 = srow_id r2 → r1 = r2.
Proof.
  intros Hu H1 H2 Heq. pose proof (tget_unique _ _ _ Hu H1 eq_refl) as E1.
  pose proof (tget_unique _ _ _ Hu H2 eq_refl) as E2. unfold row_key, StepRow_key in *.
  rewrite Heq, E2 in E1. congruence.
Qed.

Lemma unsettled_init d runID :
  keys_unique (db_steps d) → unsettled_in runID d (steps_of d runID) d.
Proof.
  intros Hu. split; [done|done|by apply steps_of_nodup| | |done| |done].
  - intros x row (row' & Hin & _ & ->)%steps_of_elem Hrow Hid.
    by rewrite (unique_row d row row').
  - intros row Hrow Hrun. right. apply list_elem_of_fmap. exists (StepsRepo.scan row).
    split; [done|]. apply steps_of_elem. by exists row.
  - intros x row (row' & Hin & Hof & ->)%steps_of_elem Hrow Hid.
    by rewrite (unique_row d row row').
Qed.

Lemma unsettled_done runID d0 d : unsettled_in runID d0 [] d → run_settled d runID.
Proof.
  intros Hinv row Hrow Hrun. pose proof (ui_settled _ _ _ _ Hinv) as Hs. destruct (Hs row Hrow Hrun) as [?|Hin]; [done|].
  by apply not_elem_of_nil in Hin.
Qed.

Section Lemmas.
Context `{Env} `{Host_} (cfg : Config) (c : ctx) (Hc : reliable c).
Import RecoveryService.

Lemma findPendingGate_reads R `{!PreOrder R} runID stepID :
  respects R (findPendingGate c runID stepID).
Proof. unfold findPendingGate. respects_solve. Qed.
Lemma findPendingGate_returns runID stepID : returns (findPendingGate c runID stepID).
Proof. unfold findPendingGate. returns_solve. Qed.

Lemma readResultEvidence_reads R `{!PreOrder R} r st a :
  respects R (readResultEvidence cfg r st a).
Proof. unfold readResultEvidence. respects_solve. Qed.
Lemma readResultEvidence_returns r st a : returns (readResultEvidence cfg r st a).
Proof. unfold readResultEvidence. returns_solve. Qed.
#[local] Hint Resolve findPendingGate_reads findPendingGate_returns readResultEvidence_reads
  readResultEvidence_returns : go.

Lemma gate_create_same_work g : respects same_work (GatesRepo.Create c g).
Proof.
  unfold GatesRepo.Create. respects_solve. apply respects_exec_in; [apply _|].
  intros w. unfold sql_insert. by destruct (tinsert _ _).
Qed.
#[local] Hint Resolve gate_create_same_work : go.

Lemma ensureRecoveryGate_same_work r st : respects same_work (ensureRecoveryGate c r st).
Proof. unfold ensureRecoveryGate. respects_solve. Qed.
Lemma ensureRecoveryGate_returns r st : returns (ensureRecoveryGate c r st).
Proof. unfold ensureRecoveryGate. returns_solve. Qed.

Lemma wp_settle step state reason Q s :
  (∀ s', settled state = true → settles step (db_of s) (db_of s') → Q (Ok tt) s') →
  settled state = true → wp (settle c step state reason) Q s.
Proof.
  intros HQ Hs. unfold settle. repeat wp_call. apply HQ; [done|]. db_norm.
  unfold settles. db_simpl. split_and!; [done..|]. right.
  exists (step <| step_State := state |> <| step_StatusReason := reason |>
               <| step_UpdatedAt := clock (tick s) |>). by split_and!.
Qed.

Lemma settles_then_same step d w w' :
  settles step d (d_db w) → same_work w w' → settles step d (d_db w').
Proof.
  unfold settles. intros (? & ? & Hs) (E1 & E2 & E3). by rewrite E1, E2, E3.
Qed.

Lemma terminal_settled s : StepState_IsTerminal s = true → settled s = true.
Proof. unfold settled. by intros ->. Qed.

(** The postcondition of every way through [reconcile_step]. *)
Definition one_settled (step : Step) (s : st Daemon) (o : outcome counts) (s' : st Daemon) : Prop :=
  (∃ n, o = Ok n) ∧ settles step (db_of s) (db_of s').

Lemma one_settled_store step s s1 :
  store s1 = store s → one_settled step s1 = one_settled step s.
Proof. unfold one_settled, db_of. by intros ->. Qed.

Lemma wp_salvage runID n step result k s :
  wp k (one_settled step s) s →
  wp (salvage c runID n step result k) (one_settled step s) s.
Proof.
  intros Hk. unfold salvage. destruct n as [[a b] m]. destruct result as [res|]; [|done].
  destruct (StepState_IsTerminal (rs_State res)) eqn:Ht; [|case_decide; [|done]].
  - wp_call. apply wp_settle; [|by apply terminal_settled]. intros s' _ Hs.
    split; [by eexists|done].
  - wp_call. apply wp_settle; [|done]. intros s' _ Hs. cbn [then_]. do 2 wp_step.
    apply (wp_any same_work); [apply ensureRecoveryGate_returns|apply ensureRecoveryGate_same_work| |].
    all: intros ? s'' Hw; split; [by eexists|exact (settles_then_same _ _ _ _ Hs Hw)].
Qed.

Lemma wp_reconcile_step runID n step s :
  wp (reconcile_step cfg c runID n step) (one_settled step s) s.
Proof.
  unfold reconcile_step. destruct n as [[a b] m].
  destruct (_ || _) eqn:Hdone.
  { split; [by eexists|]. unfold settles. split_and!; [done..|]. left. split; [|done].
    unfold settled. by rewrite Hdone. }
  set (unverified := (settle c step StepStateNeedsManualAttention _ ;; ret (a, b, (m + 1)%Z))).
  assert (∀ s', store s' = store s → wp unverified (one_settled step s) s') as Hgive.
  { intros s' Hs'. rewrite <- (one_settled_store _ _ _ Hs'). unfold unverified. wp_call.
    apply wp_settle; [|done]. intros s'' _ Hs. by split; [eexists|]. }
  do 2 wp_call. apply (wp_any eq); [by apply findPendingGate_returns|by apply (findPendingGate_reads eq)| |].
  all: intros x s1 Hs1; cbn [then_]; symmetry in Hs1.
  1: destruct x as [g|].
  { rewrite <- (one_settled_store _ _ _ Hs1). wp_call. apply wp_settle; [|done].
    intros s'' _ Hs. by split; [eexists|]. }
  all: do 2 wp_call; apply wp_AttemptsRepo_GetLatestByStep; [by left|]; cbn [then_].
  all: destruct (latest_attempt _ _) as [attempt|]; [|by apply Hgive].
  all: rewrite <- (one_settled_store _ _ _ Hs1); apply (wp_salvage _ _ _ _ _ (tock s1)).
  all: do 2 wp_call; apply (wp_any eq); [by apply readResultEvidence_returns|by apply (readResultEvidence_reads eq)| |].
  all: intros r s2 Hs2; cbn [then_]; symmetry in Hs2.
  all: rewrite <- (one_settled_store step (tock s1) s2 Hs2); apply wp_salvage.
  all: rewrite (one_settled_store step (tock s1) s2 Hs2), (one_settled_store step s (tock s1) Hs1).
  all: apply Hgive; by rewrite Hs2.
Qed.

Lemma wp_reconcileRunSteps run s :
  keys_unique (db_steps (db_of s)) →
  wp (reconcileRunSteps cfg c run) (λ o s', (∃ notes, o = Ok notes) ∧
    db_runs (db_of s') = db_runs (db_of s) ∧ run_settled (db_of s') (run_ID run) ∧
    unsettled_in (run_ID run) (db_of s) [] (db_of s')) s.
Proof.
  intros Hu. unfold reconcileRunSteps. repeat wp_call.
  eapply (wp_loop _ (λ _ l s', unsettled_in (run_ID run) (db_of s) l (db_of s'))).
  - intros n x l s1 Hinv. eapply wp_mono; [apply wp_reconcile_step|].
    intros o s2 [[n' ->] Hs]. by eapply unsettled_step.
  - intros [[t g] m] s1 Hinv. cbn [then_]. split; [by eexists|].
    split; [apply Hinv|]. split; [by eapply unsettled_done|done].
  - apply unsettled_init. exact Hu.
Qed.
End Lemmas.

Lemma no_recoverable_settled d runID :
  List.filter RecoveryService.is_recoverable (steps_of d runID) = [] → run_settled d runID.
Proof.
  intros Hf row Hrow Hrun. apply not_false_iff_true. intros Hs.
  assert (StepsRepo.scan row ∈ List.filter RecoveryService.is_recoverable (steps_of d runID))
    as Hin; [|rewrite Hf in Hin; by apply not_elem_of_nil in Hin].
  apply list_elem_of_In, filter_In. split.
  - apply list_elem_of_In, steps_of_elem. by exists row.
  - unfold RecoveryService.is_recoverable, settled in *. simpl.
    apply orb_false_iff in Hs as [[-> ->]%orb_false_iff ->]. done.
Qed.

(** ** Properties *)

(** C7: recovering a run that is not terminal, when the database does not fail, leaves none of
    its steps active: each is terminal, waits for an approval or needs manual attention, and
    the run is in the state derived from them, which is the status reported. Whatever the host
    and the evidence files do, the recovery returns. *)
Theorem RecoverRun_settles `{Env} `{Host_} cfg c runID run s :
  reliable c → DB_wf (db_of s) →
  let rid := TrimSpace runID in
  rid ≠ "" → tget rid (db_runs (db_of s)) = Some run → RunState_IsTerminal (run_State run) = false →
  wp (RecoveryService.RecoverRun cfg c runID false) (λ o s',
    run_settled (db_of s') rid ∧ run_consistent (db_of s') rid ∧
    ∃ rep, o = Ok rep ∧
      RecoveryService.rep_Status rep
      = RunState_text (deriveRunState (steps_of (db_of s') rid))) s.
Proof.
  intros Hc Hwf rid Hrid Hrun Hterm. unfold RecoveryService.RecoverRun. fold rid.
  rewrite decide_False by done. repeat wp_call. rewrite Hrun, Hterm. repeat wp_call.
  pose proof (tget_key _ _ _ Hrun) as Hkey. change (run_ID run = rid) in Hkey.
  case_decide as Hf.
  - repeat wp_call. cbn [run_ID update_field]. rewrite Hkey, Hrun. cbn [then_]. wp_call.
    split_and!; [by apply no_recoverable_settled|by eapply run_consistent_update|].
    by eexists.
  - repeat wp_call. eapply wp_mono; [apply wp_reconcileRunSteps; [done|apply Hwf]|].
    intros o s' ([notes ->] & Hruns & Hset & _).
    assert (tget rid (db_runs (db_of s')) = Some run) as Hrun' by by rewrite Hruns.
    cbn [then_]. repeat wp_call. cbn [run_ID update_field]. rewrite Hkey, Hrun'.
    cbn [then_]. wp_call. rewrite Hkey in Hset. db_norm.
    split_and!; [exact Hset|by eapply run_consistent_update|by eexists].
Qed.
