(* ===== verification/RunService.v ===== *)
(** * Runs and step execution: [internal/service/run_service.go]

    The lifecycle of a run and the execution of its steps: dispatch, the attempt loop, one
    attempt in a worktree, polling, finalization, abort, and the retrieval of results.

    A step passed by pointer and assigned to is returned by the functions that assign to it.
    The dispatch of a step runs in a goroutine of its own; what other goroutines do to it
    (requesting its abort, cancelling its context) comes from the environment. *)
From S2P Require Export Machine Recovery.
Open Scope go_scope.

(** What the [select] of [pollAdapter] receives: the context is done, the timer fires, or the
    ticker ticks. *)
Inductive poll_event := CtxDone | TimerFired | Tick.

(** The events an attempt is going to receive. *)
Class Schedule := poll_schedule : string → list poll_event.

Module RunService.

Definition abortGracePeriod : Z := 5 * Second.

(** [errors.As(err, &sqliteErr)] with one of the constraint codes. *)
Definition isUniqueConstraint (err : error) : bool := errors_Is err ErrUniqueConstraint.

Definition default_phase_ID (runID : string) : string := "phase-execution-" +:+ runID.

(** ** Results *)

(** The fields [ensureResultEnvelope] fills in, from the clock readings it takes. *)
Definition envelope (runID : string) (step : Step) (attempt : option Attempt)
    (createdAt updatedAt : Z) (r : ResultSpec) : ResultSpec :=
  let r := r
    <| rs_Version := if decide (rs_Version r = "") then "v1" else rs_Version r |>
    <| rs_RunID := if decide (rs_RunID r = "") then runID else rs_RunID r |>
    <| rs_PhaseID := if decide (rs_PhaseID r = "") then step_PhaseID step else rs_PhaseID r |>
    <| rs_StepID := if decide (rs_StepID r = "") then step_ID step else rs_StepID r |> in
  let r := match attempt with
    | None => r
    | Some a => r
      <| rs_AttemptID := if decide (rs_AttemptID r = "") then att_ID a else rs_AttemptID r |>
      <| rs_Adapter := if decide (rs_Adapter r = "") then att_Adapter a else rs_Adapter r |>
    end in
  r <| rs_RequestedAdapter :=
         if decide (rs_RequestedAdapter r = "") then step_Adapter step else rs_RequestedAdapter r |>
    <| rs_Summary :=
         if decide (rs_Summary r = "") then StepState_text (rs_State r) else rs_Summary r |>
    <| rs_CreatedAt := createdAt |>
    <| rs_UpdatedAt := updatedAt |>.

Definition cloneResultSpec (result : ResultSpec) : ResultSpec := result.

Definition overlayResultForStepState (step : Step) (result : ResultSpec) : ResultSpec :=
  match step_State step with
  | StepStateNeedsApproval | StepStateCancelled | StepStateNeedsManualAttention =>
    let overlaid := cloneResultSpec result in
    overlaid
      <| rs_State := step_State step |>
      <| rs_Summary := if decide (step_StatusReason step = "") then rs_Summary overlaid
                       else step_StatusReason step |>
      <| rs_UpdatedAt := step_UpdatedAt step |>
      <| rs_NeedsHumanDecision := if decide (step_State step = StepStateNeedsApproval) then true
                                  else rs_NeedsHumanDecision overlaid |>
      <| rs_Retryable := if decide (step_State step = StepStateCancelled) then false
                         else rs_Retryable overlaid |>
  | _ => result
  end.

(** ** Submissions *)

Definition snapshotTaskSpec (step : Step) : TaskSpec :=
  match step_TaskSpecSnapshot step with
  | Some snapshot => snapshot
  | None =>
    MkTaskSpec "" "" "" (step_PhaseID step) (step_ID step) (step_Title step) (step_Goal step)
      (MkTaskContext "") [] [] [] (step_Validations step) [] [] (step_Policy step)
      (step_Adapter step) (step_TimeoutSeconds step) false (step_SubmissionProvenance step)
  end.

Definition sanitizeSubmissionExtension (format : string) : string :=
  let f := ToLower (TrimPrefix format ".") in
  if decide (f = "yaml" ∨ f = "yml") then "yaml"
  else if decide (f = "json") then "json"
  else if decide (f = "md") then "md"
  else if decide (f = "txt") then "txt"
  else "txt".

Definition attachSubmissionArtifactRefs (result : option ResultSpec) (artifacts : list Artifact) :
    option ResultSpec :=
  match result with
  | None => None
  | Some result =>
    Some (foldl (λ r a,
      if decide (art_Name a = "normalized-task.json")
      then r <| rs_Artifacts := <["normalized_task_ref" := art_Path a]> (rs_Artifacts r) |>
      else if HasPrefix (art_Name a) "original-input."
      then r <| rs_Artifacts := <["original_input_ref" := art_Path a]> (rs_Artifacts r) |>
      else r) result artifacts)
  end.

(** ** Choice of the adapter and of the next attempt *)

Definition selectAdapterProfile (fallbackChain : list string) (attemptNum : nat) : outcome string :=
  if decide (attemptNum - 1 < length fallbackChain) then
    match fallbackChain !! (attemptNum - 1) with
    | Some p => Ok p
    | None => Panic "index out of range"
    end
  else match fallbackChain !! 0 with
       | Some p => Ok p
       | None => Panic "index out of range"
       end.

Definition shouldRetry (res : option ResultSpec) (policy : Policy) (attemptNum maxAttempts : nat) :
    bool :=
  match res with
  | None => false
  | Some res =>
    (bool_decide (rs_State res = StepStateFailedRetryable)
     || bool_decide (rs_State res = StepStateFailedTerminal))
    && RetryWhen_AdapterProcessFailed policy && (attemptNum <? maxAttempts)%nat
  end.

(** ** Checks on a submitted step *)

Definition validateTaskSpecSnapshot (runID : string) (step : Step) : option error :=
  if decide (step_ID step = "") then
    Some (errorw ErrInvalidTaskSpec "invalid task spec: step id is required")
  else
    match step_TaskSpecSnapshot step with
    | None => None
    | Some snapshot =>
      if decide (ts_RunID snapshot ≠ "" ∧ ts_RunID snapshot ≠ runID) then
        Some (errorw ErrInvalidTaskSpec ("invalid task spec: task run_id "
          +:+ quoted (ts_RunID snapshot) +:+ " does not match target run " +:+ quoted runID))
      else if decide (ts_PhaseID snapshot ≠ "" ∧ ts_PhaseID snapshot ≠ step_PhaseID step) then
        Some (errorw ErrInvalidTaskSpec ("invalid task spec: task phase_id "
          +:+ quoted (ts_PhaseID snapshot) +:+ " does not match target phase "
          +:+ quoted (step_PhaseID step)))
      else if decide (ts_StepID snapshot ≠ "" ∧ ts_StepID snapshot ≠ step_ID step) then
        Some (errorw ErrInvalidTaskSpec ("invalid task spec: task step_id "
          +:+ quoted (ts_StepID snapshot) +:+ " does not match target step "
          +:+ quoted (step_ID step)))
      else None
    end.

Definition logArtifactPriority (artifactType : ArtifactType) : Z :=
  match artifactType with
  | ArtifactTypeStdout => 0
  | ArtifactTypeStderr => 1
  | _ => 2
  end.

(** The comparison of [GetLogsByStep], as a total preorder. *)
Definition log_before : Artifact → Artifact → bool :=
  lex (asc (logArtifactPriority ∘ art_Type)) ArtifactsRepo.newest_first.

(** The step finalization assigns, with the gate it creates first, if any; [gate_created] is
    whether that creation succeeded. *)
Definition finalized (abort : bool) (finalResult : option ResultSpec) (eval : PolicyEvaluation)
    (gate_created : bool) (step : Step) : Step :=
  let set state reason := step <| step_State := state |> <| step_StatusReason := reason |> in
  if abort then
    match finalResult with
    | None => set StepStateCancelled "Execution cancelled before adapter start."
    | Some r => set (rs_State r) (rs_Summary r)
    end
  else if bool_decide (rs_State <$> finalResult = Some StepStateNeedsManualAttention) then
    set StepStateNeedsManualAttention (from_option rs_Summary "" finalResult)
  else if ShouldGate eval then
    if gate_created then step <| step_State := StepStateNeedsApproval |>
    else set StepStateFailedBridge "Infrastructure error: failed to create gate"
  else if ShouldFail eval then
    set StepStateFailedValidation
      ("Policy enforced failure: " +:+ strings_Join (FailReasons eval) ", ")
  else
    match finalResult with
    | None => step <| step_State := StepStateCompleted |>
    | Some r =>
      match rs_State r with
      | StepStateCompleted => set StepStateCompleted (rs_Summary r)
      | StepStateCompletedWithWarnings => set StepStateCompletedWithWarnings (rs_Summary r)
      | StepStateFailedBridge | StepStateFailedValidation | StepStateTimeout
      | StepStateNeedsManualAttention | StepStateFailedTerminal | StepStateFailedAdapter =>
        set (rs_State r) (rs_Summary r)
      | _ => set StepStateFailedAdapter (rs_Summary r)
      end
    end.

Section Service.
Context `{Env} `{Host_} `{Abort} `{Schedule}.
(** The fields of the service: its configuration, the adapters of the routing service and the
    policies of the registry. *)
Context (cfg : Config) (adapters : gmap string Adapter) (policies : PolicyRegistry.t).

(** [if outcomeCtx == nil || outcomeCtx.Err() != nil { outcomeCtx = context.Background() }]. *)
Definition live_ctx (c : ctx) : M Daemon ctx :=
  dead <- ctx_Err c ;; ret (if dead then Background else c).

(** ** Results *)

Definition ensureResultEnvelope (result : ResultSpec) (runID : string) (step : Step)
    (attempt : option Attempt) : M Daemon ResultSpec :=
  createdAt <- (if time_IsZero (rs_CreatedAt result) then now else ret (rs_CreatedAt result)) ;;
  updatedAt <- now ;;
  ret (envelope runID step attempt createdAt updatedAt result).

Definition newResultSpec (runID : string) (step : Step) (attempt : option Attempt)
    (state : StepState) (summary : string) : M Daemon ResultSpec :=
  ensureResultEnvelope (ResultSpec_zero <| rs_State := state |> <| rs_Summary := summary |>)
    runID step attempt.

(** ** The lifecycle of a run *)

Definition StartRun (c : ctx) (id projectID conversationID plannerID executorID : string) :
    M Daemon Run :=
  t <- now ;;
  let run := MkRun id projectID conversationID plannerID executorID RunStateCreated t t "" [] in
  created <- try (RunsRepo.Create c run) ;;
  match created with
  | inr err =>
    if isUniqueConstraint err
    then fail (errorw ErrConflict ("conflict: run " +:+ id +:+ " already exists"))
    else fail err
  | inl _ =>
    let phase := MkPhase (default_phase_ID id) id "Execution" 1 t t [] in
    wrapping ("failed to auto-create default phase for run " +:+ id)
      (PhasesRepo.Create c phase) ;;
    run <-
      match CheckRunTransition (run_State run) RunStateRunning with
      | None =>
        t' <- now ;;
        let run := run <| run_State := RunStateRunning |> <| run_UpdatedAt := t' |> in
        ignore (RunsRepo.UpdateState c run) ;; ret run
      | Some _ => ret run
      end ;;
    ret (run <| run_Phases := [phase] |>)
  end.

Definition GetRun (c : ctx) (id : string) : M Daemon (option Run) := RunsRepo.Get c id.
Definition GetStep (c : ctx) (id : string) : M Daemon (option Step) := StepsRepo.Get c id.
Definition List (c : ctx) (filters : gmap string string) : M Daemon (list Run) :=
  RunsRepo.List c filters.
Definition GetStepsByRun (c : ctx) (id : string) : M Daemon (list Step) :=
  StepsRepo.ListByRun c id.
Definition GetArtifactsByAttempt (c : ctx) (attemptID : string) : M Daemon (list Artifact) :=
  ArtifactsRepo.ListByAttempt c attemptID.
Definition GetGatesByRun (c : ctx) (id : string) : M Daemon (list Gate) :=
  GatesRepo.ListByRun c id.
Definition GetArtifactsByStep (c : ctx) (stepID : string) : M Daemon (list Artifact) :=
  ArtifactsRepo.ListByStep c stepID.
Definition GetArtifact (c : ctx) (artifactID : string) : M Daemon (option Artifact) :=
  ArtifactsRepo.Get c artifactID.
Definition GetValidationsByStep (c : ctx) (stepID : string) :
    M Daemon (gmap string (list ValidationResult)) := ValidationsRepo.ListByStep c stepID.
Definition GetValidationsByAttempt (c : ctx) (attemptID : string) :
    M Daemon (list ValidationResult) := ValidationsRepo.ListByAttempt c attemptID.
Definition GetPhase (c : ctx) (id : string) : M Daemon (option Phase) := PhasesRepo.Get c id.
Definition GetBenchmarks (c : ctx) (adapter : string) : M Daemon (list BenchmarkScore) :=
  BenchmarksRepo.GetScoresByAdapter c adapter.

Definition reconcileRunState (c : ctx) (runID : string) : M Daemon unit :=
  run <- RunsRepo.Get c runID ;;
  match run with
  | None => fail (errorf "run not found")
  | Some run =>
    steps <- StepsRepo.ListByRun c runID ;;
    t <- now ;;
    RunsRepo.UpdateState c
      (run <| run_State := deriveRunState steps |> <| run_UpdatedAt := t |>)
  end.

Definition GetResultByStep (c : ctx) (stepID : string) : M Daemon ResultSpec :=
  step <- StepsRepo.Get c stepID ;;
  match step with
  | None => fail (errorf ("step " +:+ stepID +:+ " not found"))
  | Some step =>
    phase <- try (PhasesRepo.Get c (step_PhaseID step)) ;;
    let runID := match phase with inl (Some p) => phase_RunID p | _ => "" end in
    attempts <- AttemptsRepo.ListByStep c stepID ;;
    match last attempts with
    | None =>
      r <- newResultSpec runID step None (step_State step)
             "No attempts executed for this step yet." ;;
      ret (overlayResultForStepState step r)
    | Some latest =>
      match att_Result latest with
      | None =>
        r <- newResultSpec runID step (Some latest) (step_State step)
               ("Latest attempt " +:+ att_ID latest
                +:+ " is still in progress or failed before result normalization.") ;;
        ret (overlayResultForStepState step r)
      | Some result =>
        vals <- try (ValidationsRepo.ListByAttempt c (att_ID latest)) ;;
        let result := match vals with
          | inl vals => result <| rs_Validations := vals |>
          | inr _ => result
          end in
        r <- ensureResultEnvelope result runID step (Some latest) ;;
        ret (overlayResultForStepState step r)
      end
    end
  end.

(** ** Initialization of a step *)

Definition ensurePhaseExists (c : ctx) (runID phaseID : string) : M Daemon unit :=
  let foreign phase := fail (errorw ErrInvalidTaskSpec ("invalid task spec: phase " +:+ phaseID
    +:+ " belongs to run " +:+ phase_RunID phase +:+ ", not " +:+ runID)) in
  existing <- PhasesRepo.Get c phaseID ;;
  match existing with
  | Some phase => if decide (phase_RunID phase = runID) then ret tt else foreign phase
  | None =>
    t <- now ;;
    created <- try (PhasesRepo.Create c (MkPhase phaseID runID "Tactical Phase" 99 t t [])) ;;
    match created with
    | inl _ => ret tt
    | inr err =>
      if isUniqueConstraint err then
        existing <- PhasesRepo.Get c phaseID ;;
        match existing with
        | None => fail err
        | Some phase => if decide (phase_RunID phase = runID) then ret tt else foreign phase
        end
      else fail err
    end
  end.

Definition ensureExistingStepBelongsToRun (c : ctx) (runID : string) (step : Step) :
    M Daemon unit :=
  phase <- PhasesRepo.Get c (step_PhaseID step) ;;
  match phase with
  | None => fail (errorw ErrConflict ("conflict: existing step " +:+ step_ID step
      +:+ " references missing phase " +:+ step_PhaseID step))
  | Some phase =>
    if decide (phase_RunID phase = runID) then ret tt
    else fail (errorw ErrConflict ("conflict: step " +:+ step_ID step
      +:+ " already belongs to run " +:+ phase_RunID phase))
  end.

(** The step is a pointer the callers pass non-nil; it is returned as assigned. *)
Definition initializeStep (c : ctx) (runID : string) (step : Step) (allowExisting : bool) :
    M Daemon Step :=
  let step := if decide (step_PhaseID step = "")
              then step <| step_PhaseID := default_phase_ID runID |> else step in
  match validateTaskSpecSnapshot runID step with
  | Some err => fail err
  | None =>
    run <- RunsRepo.Get c runID ;;
    match run with
    | None => fail (errorw ErrInvalidTaskSpec ("invalid task spec: run " +:+ runID
                                                +:+ " not found"))
    | Some _ =>
      wrapping "failed to ensure phase consistency" (ensurePhaseExists c runID (step_PhaseID step)) ;;
      existing <- StepsRepo.Get c (step_ID step) ;;
      match existing with
      | Some existing =>
        ensureExistingStepBelongsToRun c runID existing ;;
        if allowExisting then
          t <- now ;;
          let step := step <| step_State := StepStateDispatching |> <| step_UpdatedAt := t |> in
          StepsRepo.UpdateState c step ;; ret step
        else fail (errorw ErrConflict ("conflict: step " +:+ step_ID step +:+ " already exists"))
      | None =>
        t <- now ;;
        let step := step <| step_State := StepStateDispatching |>
                         <| step_CreatedAt := t |> <| step_UpdatedAt := t |> in
        created <- try (StepsRepo.Create c step) ;;
        match created with
        | inl _ => ret step
        | inr err =>
          if isUniqueConstraint err
          then fail (errorw ErrConflict ("conflict: step " +:+ step_ID step +:+ " already exists"))
          else fail (wrapf "failed to create step in store" err)
        end
      end
    end
  end.

(** ** Attempts *)

Definition createAttempt (c : ctx) (step : Step) (attemptNum : nat) (adapterProfile : string) :
    M Daemon Attempt :=
  t <- now ;; t1 <- now ;; t2 <- now ;;
  let attempt := MkAttempt
    (step_ID step +:+ "-a" +:+ itoa (Z.of_nat attemptNum) +:+ "-" +:+ itoa t)
    (step_ID step) (Z.of_nat attemptNum) adapterProfile StepState_zero None t1 t2 in
  wrapping "failed to persist attempt" (AttemptsRepo.Create c attempt) ;;
  ret attempt.

Definition updateAttemptResult (c : ctx) (attempt : Attempt) : M Daemon unit :=
  match att_Result attempt with
  | None => ret tt
  | Some _ =>
    t <- now ;; ignore (AttemptsRepo.UpdateResult c (attempt <| att_UpdatedAt := t |>))
  end.

(** The benchmark is saved under [context.Background()]. *)
Definition logBenchmark (phaseID attemptID adapterID : string) (res : option ResultSpec)
    (durationMs : Z) (isSimulation : bool) : M Daemon unit :=
  t <- now ;;
  let score := MkBenchmarkScore ("bench-" +:+ attemptID) adapterID phaseID attemptID durationMs
    1 1 0 "" isSimulation t in
  let score :=
    match res with
    | Some r =>
      if decide (rs_State r = StepStateNeedsApproval)
      then score <| bm_FailureReason := rs_Summary r |> <| bm_ValidationsHit := 0%Z |> else score
    | None => score
    end in
  ignore (BenchmarksRepo.Save Background score).

Definition failStep {A} (c : ctx) (step : Step) (reason : string) : M Daemon A :=
  t <- now ;;
  ignore (StepsRepo.UpdateState c
    (step <| step_State := StepStateFailedBridge |> <| step_StatusReason := reason |>
          <| step_UpdatedAt := t |>)) ;;
  fail (errorf reason).

(** ** Provenance artifacts *)

Definition writeSubmissionProvenance (attemptArtifactRoot : string) (step : Step) :
    M Daemon unit :=
  wrapping "write normalized-task.json"
    (WriteFile (path_Join [attemptArtifactRoot; "normalized-task.json"])
      (TaskJSON (json_copy (snapshotTaskSpec step)))) ;;
  match step_SubmissionProvenance step with
  | None => ret tt
  | Some prov =>
    if decide (sp_OriginalInput prov = "") then ret tt
    else
      let ext := sanitizeSubmissionExtension (sp_OriginalFormat prov) in
      wrapping "write original input"
        (WriteFile (path_Join [attemptArtifactRoot; "original-input." +:+ ext])
          (RawBytes (sp_OriginalInput prov)))
  end.

Definition findOriginalInputName (attemptArtifactRoot : string) : M Daemon (option string) :=
  entries <- try (ReadDir attemptArtifactRoot) ;;
  ret (match entries with
       | inl names => List.find (λ n, HasPrefix n "original-input.") names
       | inr _ => None
       end).

(** [os.Stat], [os.Open], [Seek] and [io.Copy] can each fail. *)
Definition buildSubmissionArtifact (attemptID path : string) : M Daemon Artifact :=
  info <- ReadFile path ;;
  data <- ReadFile path ;;
  syscall ;;
  syscall ;;
  modTime <- observe (mod_time path) ;;
  t <- now ;;
  let name := Base path in
  ret (MkArtifact
    ("art-" +:+ attemptID +:+ "-" +:+ replace_byte (Ascii.ascii_of_nat 46) (Ascii.ascii_of_nat 45) name) attemptID
    (if decide (name = "normalized-task.json") then ArtifactTypeInputJSON
     else ArtifactTypeOther "file" I)
    name path (file_size info) (sha256_hex data) (DetectContentType data) modTime t).

(** The loop over the two names: a file that cannot be read or recorded is skipped. *)
Definition persist_one (c : ctx) (attemptID root : string) (acc : list Artifact) (name : string) :
    M Daemon (list Artifact) :=
  built <- try (buildSubmissionArtifact attemptID (path_Join [root; name])) ;;
  match built with
  | inr _ => ret acc
  | inl artifact =>
    created <- try (ArtifactsRepo.Create c artifact) ;;
    ret (match created with inl _ => acc ++ [artifact] | inr _ => acc end)
  end.

Definition persistProvenanceArtifacts (c : ctx) (attempt : Attempt) (attemptArtifactRoot : string) :
    M Daemon Attempt :=
  original <- findOriginalInputName attemptArtifactRoot ;;
  artifacts <- loop (persist_one c (att_ID attempt) attemptArtifactRoot) []
    ("normalized-task.json" :: option_list original) ;;
  ret (attempt <| att_Result := attachSubmissionArtifactRefs (att_Result attempt) artifacts |>).

(** ** Polling *)

(** The body of the [for] loop; [fuel] bounds the number of polls. *)
Fixpoint wait_loop (fuel : nat) (adapter : Adapter) (attemptID : string) (deadline : Z) :
    M Daemon bool :=
  match fuel with
  | O => blocked
  | S fuel' =>
    running <- try (external (adapter_Poll adapter Background attemptID)) ;;
    match running with
    | inl false => ret true
    | _ =>
      t <- now ;;
      if (deadline <? t)%Z then ret false
      else Sleep (200 * Millisecond) ;; wait_loop fuel' adapter attemptID deadline
    end
  end.

(** Sleeping 200 milliseconds after each poll, the grace period of five seconds is over after
    27 of them. *)
Definition wait_fuel : nat := 27.

Definition waitForAdapterStop (adapter : Adapter) (attemptID : string) (timeout : Z) :
    M Daemon bool :=
  t <- now ;; wait_loop wait_fuel adapter attemptID (t + timeout)%Z.

Definition poll_result (runID : string) (step : Step) (attempt : Attempt)
    (prov : ProvisioningResult) (state : StepState) (summary : string) : M Daemon Attempt :=
  r <- newResultSpec runID step (Some attempt) state summary ;;
  ret (attempt <| att_Result := Some (r <| rs_Provisioning := Some prov |>) |>).

(** The [for]/[select] loop over the events it receives; the timer exists only when the step
    has a timeout. The attempt is returned with the result the loop gave it. *)
Fixpoint poll_loop (events : list poll_event) (runID : string) (adapter : Adapter)
    (attempt : Attempt) (step : Step) (prov : ProvisioningResult) : M Daemon (bool * Attempt) :=
  match events with
  | [] => blocked
  | CtxDone :: _ =>
    ignore (external (adapter_Cancel adapter Background (att_ID attempt))) ;;
    stopped <- waitForAdapterStop adapter (att_ID attempt) abortGracePeriod ;;
    attempt <-
      (if (stopped : bool) then
         poll_result runID step attempt prov StepStateCancelled
           "Execution cancelled by operator request."
       else
         poll_result runID step attempt prov StepStateNeedsManualAttention
           "Abort requested, but the adapter did not confirm cancellation before the grace period elapsed.") ;;
    ret (false, attempt)
  | TimerFired :: rest =>
    if (0 <? step_TimeoutSeconds step)%Z then
      ignore (external (adapter_Cancel adapter Background (att_ID attempt))) ;;
      attempt <- poll_result runID step attempt prov StepStateTimeout
        ("Execution timed out after " +:+ itoa (step_TimeoutSeconds step) +:+ " seconds") ;;
      ignore (AttemptsRepo.UpdateResult Background attempt) ;;
      ret (false, attempt)
    else poll_loop rest runID adapter attempt step prov
  | Tick :: rest =>
    running <- try (external (adapter_Poll adapter Dispatch (att_ID attempt))) ;;
    match running with
    | inr err =>
      attempt <- poll_result runID step attempt prov StepStateFailedAdapter
        ("Poll error: " +:+ err_text err) ;;
      ignore (AttemptsRepo.UpdateResult Background attempt) ;;
      ret (false, attempt)
    | inl true => poll_loop rest runID adapter attempt step prov
    | inl false => ret (true, attempt)
    end
  end.

Definition pollAdapter (runID : string) (adapter : Adapter) (attempt : Attempt) (step : Step)
    (prov : ProvisioningResult) : M Daemon (bool * Attempt) :=
  poll_loop (poll_schedule (att_ID attempt)) runID adapter attempt step prov.

(** ** One attempt *)

(** The ways an attempt ends early: a result with a reason, which the step may take as its
    status reason, recorded with the provenance artifacts. *)
Definition end_attempt (c : ctx) (runID : string) (step : Step) (attempt : Attempt)
    (prov : option ProvisioningResult) (state : StepState) (reason : string) (blame : bool)
    (root : string) : M Daemon (Step * option ResultSpec * PolicyEvaluation) :=
  r <- newResultSpec runID step (Some attempt) state reason ;;
  let attempt := attempt <| att_Result := Some (r <| rs_Provisioning := prov |>) |> in
  let step := if blame then step <| step_StatusReason := reason |> else step in
  attempt <- persistProvenanceArtifacts c attempt root ;;
  updateAttemptResult c attempt ;;
  ret (step, att_Result attempt, no_evaluation).

(** The loop over the validation commands: how many passed and failed. *)
Definition run_validation (c : ctx) (attemptID workspaceRoot root : string) (n : Z * Z)
    (cmd : ValidationCommand) : M Daemon (Z * Z) :=
  let '(passed, failed) := n in
  vres <- Runner.RunWithArtifacts cmd workspaceRoot root ;;
  ignore (ValidationsRepo.Create c attemptID vres) ;;
  ret (if vr_Passed vres then (passed + 1, failed)%Z else (passed, failed + 1)%Z).

(** The summary and state the validations leave on the result. *)
Definition validated (passed failed : Z) (r : ResultSpec) : ResultSpec :=
  if (0 <? failed)%Z then
    r <| rs_State := StepStateFailedValidation |>
      <| rs_Summary := "Validation failed: " +:+ itoa passed +:+ " passed, "
                       +:+ itoa failed +:+ " failed." |>
  else
    r <| rs_Summary := rs_Summary r +:+ " (Validations: " +:+ itoa passed +:+ " passed)" |>.

Definition validate_attempt (c : ctx) (runID : string) (step : Step) (attempt : Attempt)
    (result : ResultSpec) (workspaceRoot root : string) : M Daemon (Step * ResultSpec) :=
  if decide (step_Validations step = []) then ret (step, result)
  else
    let step := step <| step_State := StepStateValidating |> in
    ignore (StepsRepo.UpdateState c step) ;;
    let* (passed, failed) :=
      loop (run_validation c (att_ID attempt) workspaceRoot root) (0, 0)%Z (step_Validations step) ;;
    result <- ensureResultEnvelope (validated passed failed result) runID step (Some attempt) ;;
    updateAttemptResult c (attempt <| att_Result := Some result |>) ;;
    ret (step, result).

(** [adapter.NormalizeResult] and the status reason the step takes from it; a nil result
    without an error is dereferenced. *)
Definition normalize_attempt (c : ctx) (runID : string) (step : Step) (attempt : Attempt)
    (adapter : Adapter) (artifacts : list Artifact) : M Daemon (Step * ResultSpec) :=
  normalized <- try (external (adapter_NormalizeResult adapter c (att_ID attempt) artifacts)) ;;
  match normalized with
  | inr err =>
    let reason := "Normalization failed: " +:+ err_text err in
    r <- newResultSpec runID step (Some attempt) StepStateFailedBridge reason ;;
    ret (step <| step_StatusReason := reason |>, r)
  | inl None => panic "invalid memory address or nil pointer dereference"
  | inl (Some res) =>
    ret (if decide (rs_State res = StepStateFailedTerminal ∨ rs_State res = StepStateFailedAdapter)
         then step <| step_StatusReason := rs_Summary res |> else step, res)
  end.

(** The files the policy is evaluated on. *)
Definition captured_files (workspaceRoot : string) : M Daemon (list string) :=
  if decide (getenv "FORCE_GATE_FOR_TESTING" = "1") then ret ["migrations/fake.sql"]
  else
    files <- try (CaptureChangedFiles workspaceRoot) ;;
    ret (match files with inl l => l | inr _ => [] end).

(** From the end of the adapter's execution on: artifacts, result, validations, policy. *)
Definition collect_attempt (c : ctx) (runID : string) (step : Step) (attempt : Attempt)
    (adapter : Adapter) (policy : Policy) (provRes : ProvisioningResult)
    (workspaceRoot root : string) : M Daemon (Step * option ResultSpec * PolicyEvaluation) :=
  t <- now ;;
  let step := step <| step_State := StepStateCollectingArtifacts |> <| step_UpdatedAt := t |> in
  ignore (StepsRepo.UpdateState c step) ;;
  collected <- try (external (adapter_CollectArtifacts adapter c (att_ID attempt) root)) ;;
  match collected with
  | inr err =>
    end_attempt c runID step attempt (Some provRes) StepStateFailedBridge
      ("Failed to collect artifacts: " +:+ err_text err) true root
  | inl artifacts =>
    loop (λ _ art, ignore (ArtifactsRepo.Create c art)) tt artifacts ;;
    let* (step, res) := normalize_attempt c runID step attempt adapter artifacts ;;
    attempt <- persistProvenanceArtifacts c
      (attempt <| att_Result := Some (res <| rs_Provisioning := Some provRes |>) |>) root ;;
    res <- ensureResultEnvelope (default res (att_Result attempt)) runID step (Some attempt) ;;
    let attempt := attempt <| att_Result := Some res |> in
    updateAttemptResult c attempt ;;
    let* (step, res) := validate_attempt c runID step attempt res workspaceRoot root ;;
    changed <- captured_files workspaceRoot ;;
    res <- ensureResultEnvelope (res <| rs_FilesChanged := changed |>) runID step (Some attempt) ;;
    eval <- lift (Evaluate policy (Some res) changed) ;;
    ret (step, Some res, eval)
  end.

(** Everything after the worktree exists. *)
Definition execute_in_worktree (c : ctx) (runID : string) (step : Step) (attempt : Attempt)
    (adapter : Adapter) (policy : Policy) (workspaceRoot root : string) :
    M Daemon (Step * option ResultSpec * PolicyEvaluation) :=
  spec <- LoadWorkspaceConfig (cfg_repoRoot cfg) ;;
  let* (provRes, err) := LocalProvisioner.Provision spec (cfg_repoRoot cfg) workspaceRoot ;;
  match err with
  | Some err =>
    end_attempt c runID step attempt (Some provRes) StepStateFailedBridge
      ("Provisioning failed: " +:+ err_text err) true root
  | None =>
    started <- try (external (adapter_Start adapter c step attempt workspaceRoot root)) ;;
    match started with
    | inr err =>
      end_attempt c runID step attempt (Some provRes) StepStateFailedRetryable
        ("Adapter failed to start: " +:+ err_text err) false root
    | inl _ =>
      let* (exited, attempt) := pollAdapter runID adapter attempt step provRes ;;
      if (exited : bool) then
        collect_attempt c runID step attempt adapter policy provRes workspaceRoot root
      else
        persistCtx <- live_ctx c ;;
        attempt <- persistProvenanceArtifacts persistCtx attempt root ;;
        updateAttemptResult persistCtx attempt ;;
        ret (step, att_Result attempt, no_evaluation)
    end
  end.

(** It never returns an error; [defer] releases the lock after removing the worktree. *)
Definition executeAttempt (c : ctx) (runID : string) (step : Step) (attempt : Attempt)
    (adapter : Adapter) (policy : Policy) :
    M Daemon (Step * option ResultSpec * PolicyEvaluation) :=
  let workspaceRoot := path_Join [cfg_workspaceRoot cfg; runID] in
  let root := path_Join [cfg_artifactRoot cfg; runID; step_ID step; att_ID attempt] in
  let baseRepo := cfg_repoRoot cfg in
  setExecutionAttempt runID (att_ID attempt) (adapter_Name adapter) ;;
  ignore (MkdirAll (cfg_workspaceRoot cfg)) ;;
  made <- try (MkdirAll root) ;;
  match made with
  | inr err =>
    let reason := "Failed to create attempt artifact root: " +:+ err_text err in
    r <- newResultSpec runID step (Some attempt) StepStateFailedBridge reason ;;
    updateAttemptResult c (attempt <| att_Result := Some r |>) ;;
    ret (step <| step_StatusReason := reason |>, Some r, no_evaluation)
  | inl _ =>
    written <- try (writeSubmissionProvenance root step) ;;
    match written with
    | inr err =>
      end_attempt c runID step attempt None StepStateFailedBridge
        ("Failed to persist submission provenance: " +:+ err_text err) true root
    | inl _ =>
      lock <- try (AcquireLock (cfg_workspaceRoot cfg) runID) ;;
      match lock with
      | inr err =>
        end_attempt c runID step attempt None StepStateFailedRetryable
          ("Workspace lock conflict: " +:+ err_text err) false root
      | inl _ =>
        deferred (ignore (Release (cfg_workspaceRoot cfg)))
          (created <- try (CreateWorktree baseRepo workspaceRoot ("codencer-" +:+ runID)) ;;
           match created with
           | inr err =>
             end_attempt c runID step attempt None StepStateFailedBridge
               ("Workspace creation failed: " +:+ err_text err) true root
           | inl _ =>
             deferred (ignore (RemoveWorktree baseRepo workspaceRoot))
               (execute_in_worktree c runID step attempt adapter policy workspaceRoot root)
           end)
      end
    end
  end.

(** ** The attempt loop *)

Definition maxAttempts : nat := 3.

(** What the loop carries: [step], [finalResult], [finalEval], [finalAttemptID]. *)
Definition loop_result : Type := Step * option ResultSpec * PolicyEvaluation * string.

Definition is_simulation (adapterProfile : string) : bool :=
  bool_decide (getenv (ToUpper adapterProfile +:+ "_SIMULATION_MODE") = "1")
  || bool_decide (getenv "ALL_ADAPTERS_SIMULATION_MODE" = "1").

(** [for attemptNum := 1; attemptNum <= maxAttempts; attemptNum++]: [left] attempts from
    [attemptNum] on. *)
Fixpoint attempt_loop (left attemptNum : nat) (c : ctx) (runID : string)
    (fallbackChain : list string) (policy : Policy) (acc : loop_result) : M Daemon loop_result :=
  match left with
  | O => ret acc
  | S left' =>
    let '(step, _, _, _) := acc in
    abort <- isAbortRequested runID ;;
    if (abort : bool) then ret acc
    else
      adapterProfile <- lift (selectAdapterProfile fallbackChain attemptNum) ;;
      match RoutingService.GetAdapter adapters adapterProfile with
      | None => failStep c step ("adapter " +:+ adapterProfile +:+ " out of bounds")
      | Some adapter =>
        attempt <- createAttempt c step attemptNum adapterProfile ;;
        startTime <- now ;;
        executed <- try (executeAttempt c runID step attempt adapter policy) ;;
        endTime <- now ;;
        match executed with
        | inr err =>
          fail (wrapf ("system error executing attempt " +:+ itoa (Z.of_nat attemptNum)) err)
        | inl (step, res, eval) =>
          logBenchmark (step_PhaseID step) (att_ID attempt) adapterProfile res
            ((endTime - startTime) / Millisecond)%Z (is_simulation adapterProfile) ;;
          let acc := (step, res, eval, att_ID attempt) in
          abort <- isAbortRequested runID ;;
          if (abort : bool) then ret acc
          else if ShouldFail eval then ret acc
          else if shouldRetry res policy attemptNum maxAttempts
          then attempt_loop left' (S attemptNum) c runID fallbackChain policy acc
          else ret acc
        end
      end
  end.

Definition runAttemptLoop (c : ctx) (runID : string) (step : Step) (fallbackChain : list string) :
    M Daemon loop_result :=
  attempt_loop maxAttempts 1 c runID fallbackChain (PolicyRegistry.Lookup policies (step_Policy step))
    (step, None, no_evaluation, "").

(** ** Finalization and dispatch *)

(** The gate is created exactly when the [else if] chain reaches [eval.ShouldGate]. *)
Definition gates_step (abort : bool) (finalResult : option ResultSpec) (eval : PolicyEvaluation) :
    bool :=
  negb abort && negb (bool_decide (rs_State <$> finalResult = Some StepStateNeedsManualAttention))
  && ShouldGate eval.

Definition finalizeStep (c : ctx) (runID : string) (step : Step) (finalResult : option ResultSpec)
    (eval : PolicyEvaluation) (attemptID : string) : M Daemon Step :=
  abort <- isAbortRequested runID ;;
  gate_created <-
    (if gates_step abort finalResult eval then
       t <- now ;;
       created <- try (GatesRepo.Create c (MkGate ("gate-" +:+ attemptID) runID (step_ID step)
         ("Policy enforced gate: " +:+ strings_Join (GateReasons eval) ", ")
         GateStatePending t None)) ;;
       ret (match created with inl _ => true | inr _ => false end)
     else ret false) ;;
  t <- now ;;
  let step := (finalized abort finalResult eval gate_created step) <| step_UpdatedAt := t |> in
  StepsRepo.UpdateState c step ;;
  ret step.

(** [dispatchCtx.Err() != nil || s.isAbortRequested(runID)]. *)
Definition interrupted (dispatchCtx : ctx) (runID : string) : M Daemon bool :=
  dead <- ctx_Err dispatchCtx ;;
  if (dead : bool) then ret true else isAbortRequested runID.

Definition finalizeEarlyAbort (runID : string) (step : Step) : M Daemon unit :=
  _ <- finalizeStep Background runID step None no_evaluation "" ;;
  reconcileRunState Background runID.

Definition dispatchPreparedStep (persistCtx dispatchCtx : ctx) (runID : string) (step : Step) :
    M Daemon unit :=
  deferred (clearExecution runID)
    (stop <- interrupted dispatchCtx runID ;;
     if (stop : bool) then finalizeEarlyAbort runID step
     else
       let no_adapter :=
         stop <- interrupted dispatchCtx runID ;;
         if (stop : bool) then finalizeEarlyAbort runID step
         else failStep dispatchCtx step
                ("no viable adapters found for profile '" +:+ step_Adapter step +:+ "'") in
       match RoutingService.BuildHeuristicChain adapters (step_Adapter step) with
       | inr _ | inl [] => no_adapter
       | inl fallbackChain =>
         t <- now ;;
         let step := step <| step_State := StepStateRunning |> <| step_UpdatedAt := t |> in
         updated <- try (StepsRepo.UpdateState dispatchCtx step) ;;
         match updated with
         | inr err =>
           stop <- interrupted dispatchCtx runID ;;
           if (stop : bool) then finalizeEarlyAbort runID step else fail err
         | inl _ =>
           let* (step, finalResult, finalEval, finalAttemptID) :=
             runAttemptLoop dispatchCtx runID step fallbackChain ;;
           finalizationCtx <- live_ctx persistCtx ;;
           _ <- finalizeStep finalizationCtx runID step finalResult finalEval finalAttemptID ;;
           reconcileRunState finalizationCtx runID
         end
       end).

(** The synchronous part of an asynchronous dispatch, and the start of the goroutine that runs
    [dispatch_goroutine] on the step. *)
Definition dispatchStepAsync (c : ctx) (runID : string) (step : Step) (allowExisting : bool) :
    M Daemon Step :=
  dead <- ctx_Err c ;;
  if (dead : bool) then fail (errorf "context canceled")
  else
    step <- initializeStep Background runID step allowExisting ;;
    registerExecution runID (step_ID step) ;;
    spawn runID step ;;
    ret step.

Definition DispatchStepAsync (c : ctx) (runID : string) (step : Step) : M Daemon Step :=
  dispatchStepAsync c runID step false.

(** The goroutine of an asynchronous dispatch; its error is only logged. *)
Definition dispatch_goroutine (runID : string) (step : Step) : M Daemon unit :=
  ignore (dispatchPreparedStep Background Dispatch runID step).

(** The scheduler lets the [k]th goroutine that has not begun run. *)
Definition run_goroutine (k : nat) : M Daemon unit :=
  started <- gets (λ d, d_goroutines d !! k) ;;
  match started with
  | None => ret tt
  | Some (runID, step) =>
    modify (λ d, d <| d_goroutines := delete k (d_goroutines d) |>) ;;
    dispatch_goroutine runID step
  end.

Definition DispatchStep (c : ctx) (runID : string) (step : Step) : M Daemon unit :=
  step <- initializeStep c runID step true ;;
  registerExecution runID (step_ID step) ;;
  dispatchPreparedStep c Dispatch runID step.

Definition RetryStep (c : ctx) (stepID : string) : M Daemon unit :=
  step <- StepsRepo.Get c stepID ;;
  match step with
  | None => fail (errorf ("step " +:+ stepID +:+ " not found"))
  | Some step =>
    phase <- PhasesRepo.Get c (step_PhaseID step) ;;
    match phase with
    | None => fail (errorf ("phase " +:+ step_PhaseID step +:+ " for step " +:+ stepID
                            +:+ " not found"))
    | Some phase =>
      _ <- dispatchStepAsync c (phase_RunID phase) step true ;;
      reconcileCtx <- live_ctx c ;;
      reconcileRunState reconcileCtx (phase_RunID phase)
    end
  end.

(** ** Abort *)

Definition abortOutcome (c : ctx) (runID stepID : string) : M Daemon unit :=
  outcomeCtx <- live_ctx c ;;
  step <- wrapping ("abort requested for run " +:+ runID
                    +:+ ", but the final step outcome could not be loaded")
            (StepsRepo.Get outcomeCtx stepID) ;;
  match step with
  | None => fail (errorf ("abort requested for run " +:+ runID +:+ ", but step " +:+ stepID
                          +:+ " was not found after the execution stopped"))
  | Some step =>
    if decide (step_State step = StepStateCancelled) then ret tt
    else fail (errorf ("abort requested for run " +:+ runID
      +:+ ", but cancellation was not confirmed; step " +:+ stepID +:+ " ended in state "
      +:+ StepState_text (step_State step)))
  end.

(** The body of the loop over the steps of a run without registered execution; the flags are
    [hasNonTerminal] and [hasPendingGate]. *)
Definition abort_step (c : ctx) (flags : bool * bool) (step : Step) : M Daemon (bool * bool) :=
  let '(hasNonTerminal, hasPendingGate) := flags in
  if decide (step_State step = StepStateNeedsApproval) then ret (hasNonTerminal, true)
  else if StepState_IsTerminal (step_State step) then ret flags
  else
    t <- now ;;
    StepsRepo.UpdateState c
      (step <| step_State := StepStateNeedsManualAttention |>
            <| step_StatusReason :=
                 "Abort requested, but no active execution was registered for this run." |>
            <| step_UpdatedAt := t |>) ;;
    ret (true, hasPendingGate).

(** [stopped] is what the goroutine of the execution does until it closes [done], when it does
    so before the wait is over. *)
Definition AbortRun (c : ctx) (id : string) (stopped : option (Daemon → Daemon)) : M Daemon unit :=
  run <- RunsRepo.Get c id ;;
  match run with
  | None => fail (errorf "run not found")
  | Some run =>
    if RunState_IsTerminal (run_State run) then
      fail (errorf ("run is already terminal in state " +:+ RunState_text (run_State run)))
    else
      execution <- getExecution id ;;
      match execution with
      | None =>
        steps <- StepsRepo.ListByRun c id ;;
        let* (hasNonTerminal, hasPendingGate) := loop (abort_step c) (false, false) steps ;;
        reconcileRunState c id ;;
        if (hasPendingGate : bool) then
          fail (errorf ("abort requested for run " +:+ id
            +:+ ", but the run is paused_for_gate; resolve the pending gate explicitly before retrying or abandoning the run"))
        else if (hasNonTerminal : bool) then
          fail (errorf ("abort requested for run " +:+ id
            +:+ ", but no active execution was registered; non-terminal steps were moved to needs_manual_attention"))
        else
          fail (errorf ("abort requested for run " +:+ id
            +:+ ", but no active execution was registered"))
      | Some execution =>
        requestAbort id ;;
        match stopped with
        | Some f => modify f ;; abortOutcome c id (exec_stepID execution)
        | None =>
          fail (errorf ("abort requested for run " +:+ id
            +:+ ", but the active execution did not stop within "
            +:+ seconds_String ((abortGracePeriod + 2 * Second) / Second)))
        end
      end
  end.

(** ** Artifact files *)

Definition Abs (p : string) : string :=
  if IsAbs p then Clean p else path_Join [getwd; p].

(** [EvalSymlinks] as the code uses it: its error leaves the cleaned path. *)
Definition resolve_links (p : string) : M Daemon string :=
  resolved <- try (EvalSymlinks p) ;;
  ret (Clean (match resolved with inl r => r | inr _ => p end)).

Definition resolveArtifactPath (storedPath : string) : M Daemon string :=
  rootClean <- resolve_links (Abs (cfg_artifactRoot cfg)) ;;
  let candidate := if IsAbs storedPath then storedPath else path_Join [rootClean; storedPath] in
  resolved <- resolve_links (Abs candidate) ;;
  match Rel rootClean resolved with
  | None => fail (errorf "check artifact path: Rel: can't make path relative")
  | Some rel =>
    if decide (rel = "..") then
      fail (errorw ErrArtifactAccessDenied ("artifact access denied: artifact path "
        +:+ quoted storedPath +:+ " escapes artifact root"))
    else if HasPrefix rel "../" then
      fail (errorw ErrArtifactAccessDenied ("artifact access denied: artifact path "
        +:+ quoted storedPath +:+ " escapes artifact root"))
    else ret resolved
  end.

Definition GetArtifactContent (c : ctx) (artifactID : string) : M Daemon (Artifact * file) :=
  artifact <- ArtifactsRepo.Get c artifactID ;;
  match artifact with
  | None => fail (errorf ("artifact " +:+ artifactID +:+ " not found"))
  | Some artifact =>
    path <- resolveArtifactPath (art_Path artifact) ;;
    content <- wrapping "read artifact content" (os_ReadFile path) ;;
    ret (artifact, content)
  end.

Definition GetLogsByStep (c : ctx) (stepID : string) : M Daemon (Artifact * file) :=
  attempt <- AttemptsRepo.GetLatestByStep c stepID ;;
  match attempt with
  | None => fail (errorf ("no attempts found for step " +:+ stepID))
  | Some attempt =>
    artifacts <- ArtifactsRepo.ListByAttempt c (att_ID attempt) ;;
    let candidates := twhere (λ a, bool_decide (art_Type a = ArtifactTypeStdout)
                                   || bool_decide (art_Type a = ArtifactTypeStderr)) artifacts in
    match sort_by log_before candidates with
    | [] => fail (errorf ("no log artifact found for step " +:+ stepID))
    | selected :: _ => GetArtifactContent c (art_ID selected)
    end
  end.

(** The chain of [GetRoutingConfig]; the rest of its map is constant text. *)
Definition GetRoutingConfig : list string :=
  match RoutingService.BuildHeuristicChain adapters "" with inl chain => chain | inr _ => [] end.
End Service.
End RunService.
