(* ===== verification/RunServiceFacts.v ===== *)
(** * Facts about [RunService]: invariants, termination and the outcome of a dispatch *)
From S2P Require Export RunService.
Open Scope go_scope.
Import RunService.

(** ** Every operation preserves the primary keys, and returns

    One pair of lemmas per operation: it keeps the database well formed, and it neither panics
    nor waits for ever. *)

Section Operations.
Context `{Env} `{Host_} `{Abort} `{Schedule}.
Context (cfg : Config) (adapters : gmap string Adapter) (policies : PolicyRegistry.t).

Lemma failStep_wf {A} c st m : respects keeps_wf (failStep (A:=A) c st m).
Proof. unfold failStep. respects_solve. Qed.
Lemma failStep_returns {A} c st m : returns (failStep (A:=A) c st m).
Proof. unfold failStep. returns_solve. Qed.
#[local] Hint Resolve failStep_wf failStep_returns : go.

Lemma live_ctx_wf c : respects keeps_wf (live_ctx c).
Proof. unfold live_ctx. respects_solve. Qed.
Lemma live_ctx_returns c : returns (live_ctx c).
Proof. unfold live_ctx. returns_solve. Qed.
#[local] Hint Resolve live_ctx_wf live_ctx_returns : go.

Lemma ensureResultEnvelope_wf r i st a : respects keeps_wf (ensureResultEnvelope r i st a).
Proof. unfold ensureResultEnvelope. respects_solve. Qed.
Lemma ensureResultEnvelope_returns r i st a : returns (ensureResultEnvelope r i st a).
Proof. unfold ensureResultEnvelope. returns_solve. Qed.
#[local] Hint Resolve ensureResultEnvelope_wf ensureResultEnvelope_returns : go.

Lemma newResultSpec_wf i st a x m : respects keeps_wf (newResultSpec i st a x m).
Proof. unfold newResultSpec. respects_solve. Qed.
Lemma newResultSpec_returns i st a x m : returns (newResultSpec i st a x m).
Proof. unfold newResultSpec. returns_solve. Qed.
#[local] Hint Resolve newResultSpec_wf newResultSpec_returns : go.

Lemma StartRun_wf c i p v l e : respects keeps_wf (StartRun c i p v l e).
Proof. unfold StartRun. respects_solve. Qed.
Lemma StartRun_returns c i p v l e : returns (StartRun c i p v l e).
Proof. unfold StartRun. returns_solve. Qed.
#[local] Hint Resolve StartRun_wf StartRun_returns : go.

Lemma reconcileRunState_wf c i : respects keeps_wf (reconcileRunState c i).
Proof. unfold reconcileRunState. respects_solve. Qed.
Lemma reconcileRunState_returns c i : returns (reconcileRunState c i).
Proof. unfold reconcileRunState. returns_solve. Qed.
#[local] Hint Resolve reconcileRunState_wf reconcileRunState_returns : go.

Lemma GetResultByStep_wf c i : respects keeps_wf (GetResultByStep c i).
Proof. unfold GetResultByStep. respects_solve. Qed.
Lemma GetResultByStep_returns c i : returns (GetResultByStep c i).
Proof. unfold GetResultByStep. returns_solve. Qed.
#[local] Hint Resolve GetResultByStep_wf GetResultByStep_returns : go.

Lemma ensurePhaseExists_wf c i p : respects keeps_wf (ensurePhaseExists c i p).
Proof. unfold ensurePhaseExists. respects_solve. Qed.
Lemma ensurePhaseExists_returns c i p : returns (ensurePhaseExists c i p).
Proof. unfold ensurePhaseExists. returns_solve. Qed.
#[local] Hint Resolve ensurePhaseExists_wf ensurePhaseExists_returns : go.

Lemma ensureExistingStepBelongsToRun_wf c i st : respects keeps_wf (ensureExistingStepBelongsToRun c i st).
Proof. unfold ensureExistingStepBelongsToRun. respects_solve. Qed.
Lemma ensureExistingStepBelongsToRun_returns c i st : returns (ensureExistingStepBelongsToRun c i st).
Proof. unfold ensureExistingStepBelongsToRun. returns_solve. Qed.
#[local] Hint Resolve ensureExistingStepBelongsToRun_wf ensureExistingStepBelongsToRun_returns : go.

Lemma initializeStep_wf c i st b : respects keeps_wf (initializeStep c i st b).
Proof. unfold initializeStep. respects_solve. Qed.
Lemma initializeStep_returns c i st b : returns (initializeStep c i st b).
Proof. unfold initializeStep. returns_solve. Qed.
#[local] Hint Resolve initializeStep_wf initializeStep_returns : go.

Lemma createAttempt_wf c st n p : respects keeps_wf (createAttempt c st n p).
Proof. unfold createAttempt. respects_solve. Qed.
Lemma createAttempt_returns c st n p : returns (createAttempt c st n p).
Proof. unfold createAttempt. returns_solve. Qed.
#[local] Hint Resolve createAttempt_wf createAttempt_returns : go.

Lemma updateAttemptResult_wf c a : respects keeps_wf (updateAttemptResult c a).
Proof. unfold updateAttemptResult. respects_solve. Qed.
Lemma updateAttemptResult_returns c a : returns (updateAttemptResult c a).
Proof. unfold updateAttemptResult. returns_solve. Qed.
#[local] Hint Resolve updateAttemptResult_wf updateAttemptResult_returns : go.

Lemma logBenchmark_wf p a i r z b : respects keeps_wf (logBenchmark p a i r z b).
Proof. unfold logBenchmark. respects_solve. Qed.
Lemma logBenchmark_returns p a i r z b : returns (logBenchmark p a i r z b).
Proof. unfold logBenchmark. returns_solve. Qed.
#[local] Hint Resolve logBenchmark_wf logBenchmark_returns : go.

Lemma writeSubmissionProvenance_wf p st : respects keeps_wf (writeSubmissionProvenance p st).
Proof. unfold writeSubmissionProvenance. respects_solve. Qed.
Lemma writeSubmissionProvenance_returns p st : returns (writeSubmissionProvenance p st).
Proof. unfold writeSubmissionProvenance. returns_solve. Qed.
#[local] Hint Resolve writeSubmissionProvenance_wf writeSubmissionProvenance_returns : go.

Lemma findOriginalInputName_wf p : respects keeps_wf (findOriginalInputName p).
Proof. unfold findOriginalInputName. respects_solve. Qed.
Lemma findOriginalInputName_returns p : returns (findOriginalInputName p).
Proof. unfold findOriginalInputName. returns_solve. Qed.
#[local] Hint Resolve findOriginalInputName_wf findOriginalInputName_returns : go.

Lemma buildSubmissionArtifact_wf a p : respects keeps_wf (buildSubmissionArtifact a p).
Proof. unfold buildSubmissionArtifact. respects_solve. Qed.
Lemma buildSubmissionArtifact_returns a p : returns (buildSubmissionArtifact a p).
Proof. unfold buildSubmissionArtifact. returns_solve. Qed.
#[local] Hint Resolve buildSubmissionArtifact_wf buildSubmissionArtifact_returns : go.

Lemma persist_one_wf c a p l n : respects keeps_wf (persist_one c a p l n).
Proof. unfold persist_one. respects_solve. Qed.
Lemma persist_one_returns c a p l n : returns (persist_one c a p l n).
Proof. unfold persist_one. returns_solve. Qed.
#[local] Hint Resolve persist_one_wf persist_one_returns : go.

Lemma persistProvenanceArtifacts_wf c a p : respects keeps_wf (persistProvenanceArtifacts c a p).
Proof. unfold persistProvenanceArtifacts. respects_solve. Qed.
Lemma persistProvenanceArtifacts_returns c a p : returns (persistProvenanceArtifacts c a p).
Proof. unfold persistProvenanceArtifacts. returns_solve. Qed.
#[local] Hint Resolve persistProvenanceArtifacts_wf persistProvenanceArtifacts_returns : go.

Lemma poll_result_wf i st a p x m : respects keeps_wf (poll_result i st a p x m).
Proof. unfold poll_result. respects_solve. Qed.
Lemma poll_result_returns i st a p x m : returns (poll_result i st a p x m).
Proof. unfold poll_result. returns_solve. Qed.
#[local] Hint Resolve poll_result_wf poll_result_returns : go.

Lemma end_attempt_wf c i st a p x m b z : respects keeps_wf (end_attempt c i st a p x m b z).
Proof. unfold end_attempt. respects_solve. Qed.
Lemma end_attempt_returns c i st a p x m b z : returns (end_attempt c i st a p x m b z).
Proof. unfold end_attempt. returns_solve. Qed.
#[local] Hint Resolve end_attempt_wf end_attempt_returns : go.

Lemma run_validation_wf c a w z n cmd : respects keeps_wf (run_validation c a w z n cmd).
Proof. unfold run_validation. respects_solve. Qed.
Lemma run_validation_returns c a w z n cmd : host_returns → returns (run_validation c a w z n cmd).
Proof. intros Hhost. unfold run_validation. returns_solve. Qed.
#[local] Hint Resolve run_validation_wf run_validation_returns : go.

Lemma validate_attempt_wf c i st a r w z : respects keeps_wf (validate_attempt c i st a r w z).
Proof. unfold validate_attempt. respects_solve. Qed.
Lemma validate_attempt_returns c i st a r w z : host_returns → returns (validate_attempt c i st a r w z).
Proof. intros Hhost. unfold validate_attempt. returns_solve. Qed.
#[local] Hint Resolve validate_attempt_wf validate_attempt_returns : go.

Lemma finalizeStep_wf c i st r e a : respects keeps_wf (finalizeStep c i st r e a).
Proof. unfold finalizeStep. respects_solve. Qed.
Lemma finalizeStep_returns c i st r e a : returns (finalizeStep c i st r e a).
Proof. unfold finalizeStep. returns_solve. Qed.
#[local] Hint Resolve finalizeStep_wf finalizeStep_returns : go.

Lemma interrupted_wf c i : respects keeps_wf (interrupted c i).
Proof. unfold interrupted. respects_solve. Qed.
Lemma interrupted_returns c i : returns (interrupted c i).
Proof. unfold interrupted. returns_solve. Qed.
#[local] Hint Resolve interrupted_wf interrupted_returns : go.

Lemma finalizeEarlyAbort_wf i st : respects keeps_wf (finalizeEarlyAbort i st).
Proof. unfold finalizeEarlyAbort. respects_solve. Qed.
Lemma finalizeEarlyAbort_returns i st : returns (finalizeEarlyAbort i st).
Proof. unfold finalizeEarlyAbort. returns_solve. Qed.
#[local] Hint Resolve finalizeEarlyAbort_wf finalizeEarlyAbort_returns : go.

Lemma dispatchStepAsync_wf c i st b : respects keeps_wf (dispatchStepAsync c i st b).
Proof. unfold dispatchStepAsync. respects_solve. Qed.
Lemma dispatchStepAsync_returns c i st b : returns (dispatchStepAsync c i st b).
Proof. unfold dispatchStepAsync. returns_solve. Qed.
#[local] Hint Resolve dispatchStepAsync_wf dispatchStepAsync_returns : go.

Lemma DispatchStepAsync_wf c i st : respects keeps_wf (DispatchStepAsync c i st).
Proof. unfold DispatchStepAsync. respects_solve. Qed.
Lemma DispatchStepAsync_returns c i st : returns (DispatchStepAsync c i st).
Proof. unfold DispatchStepAsync. returns_solve. Qed.
#[local] Hint Resolve DispatchStepAsync_wf DispatchStepAsync_returns : go.

Lemma RetryStep_wf c i : respects keeps_wf (RetryStep c i).
Proof. unfold RetryStep. respects_solve. Qed.
Lemma RetryStep_returns c i : returns (RetryStep c i).
Proof. unfold RetryStep. returns_solve. Qed.
#[local] Hint Resolve RetryStep_wf RetryStep_returns : go.

Lemma abortOutcome_wf c i st : respects keeps_wf (abortOutcome c i st).
Proof. unfold abortOutcome. respects_solve. Qed.
Lemma abortOutcome_returns c i st : returns (abortOutcome c i st).
Proof. unfold abortOutcome. returns_solve. Qed.
#[local] Hint Resolve abortOutcome_wf abortOutcome_returns : go.

Lemma abort_step_wf c f st : respects keeps_wf (abort_step c f st).
Proof. unfold abort_step. respects_solve. Qed.
Lemma abort_step_returns c f st : returns (abort_step c f st).
Proof. unfold abort_step. returns_solve. Qed.
#[local] Hint Resolve abort_step_wf abort_step_returns : go.

Lemma resolve_links_wf p : respects keeps_wf (resolve_links p).
Proof. unfold resolve_links. respects_solve. Qed.
Lemma resolve_links_returns p : returns (resolve_links p).
Proof. unfold resolve_links. returns_solve. Qed.
#[local] Hint Resolve resolve_links_wf resolve_links_returns : go.

Lemma resolveArtifactPath_wf p : respects keeps_wf (resolveArtifactPath cfg p).
Proof. unfold resolveArtifactPath. respects_solve. Qed.
Lemma resolveArtifactPath_returns p : returns (resolveArtifactPath cfg p).
Proof. unfold resolveArtifactPath. returns_solve. Qed.
#[local] Hint Resolve resolveArtifactPath_wf resolveArtifactPath_returns : go.

Lemma GetArtifactContent_wf c i : respects keeps_wf (GetArtifactContent cfg c i).
Proof. unfold GetArtifactContent. respects_solve. Qed.
Lemma GetArtifactContent_returns c i : returns (GetArtifactContent cfg c i).
Proof. unfold GetArtifactContent. returns_solve. Qed.
#[local] Hint Resolve GetArtifactContent_wf GetArtifactContent_returns : go.

Lemma GetLogsByStep_wf c i : respects keeps_wf (GetLogsByStep cfg c i).
Proof. unfold GetLogsByStep. respects_solve. Qed.
Lemma GetLogsByStep_returns c i : returns (GetLogsByStep cfg c i).
Proof. unfold GetLogsByStep. returns_solve. Qed.
#[local] Hint Resolve GetLogsByStep_wf GetLogsByStep_returns : go.

Lemma wait_loop_wf fuel ad a t : respects keeps_wf (wait_loop fuel ad a t).
Proof. induction fuel; simpl; respects_solve. Qed.
#[local] Hint Resolve wait_loop_wf : go.
Lemma waitForAdapterStop_wf ad a t : respects keeps_wf (waitForAdapterStop ad a t).
Proof. unfold waitForAdapterStop. respects_solve. Qed.
#[local] Hint Resolve waitForAdapterStop_wf : go.
Lemma poll_loop_wf events i ad a st p : respects keeps_wf (poll_loop events i ad a st p).
Proof. induction events as [|[] events IH]; simpl; respects_solve. Qed.
#[local] Hint Resolve poll_loop_wf : go.

Lemma normalize_attempt_wf c i st a ad l : respects keeps_wf (normalize_attempt c i st a ad l).
Proof. unfold normalize_attempt. respects_solve. Qed.
Lemma captured_files_wf w : respects keeps_wf (captured_files w).
Proof. unfold captured_files. respects_solve. Qed.
Lemma captured_files_returns w : host_returns → returns (captured_files w).
Proof. intros Hhost. unfold captured_files. returns_solve. Qed.
#[local] Hint Resolve normalize_attempt_wf captured_files_wf captured_files_returns : go.
Lemma collect_attempt_wf c i st a ad p r w z :
  respects keeps_wf (collect_attempt c i st a ad p r w z).
Proof. unfold collect_attempt. respects_solve. Qed.
#[local] Hint Resolve collect_attempt_wf : go.
Lemma execute_in_worktree_wf c i st a ad p w z :
  respects keeps_wf (execute_in_worktree cfg c i st a ad p w z).
Proof. unfold execute_in_worktree, pollAdapter. respects_solve. Qed.
#[local] Hint Resolve execute_in_worktree_wf : go.
Lemma executeAttempt_wf c i st a ad p : respects keeps_wf (executeAttempt cfg c i st a ad p).
Proof. unfold executeAttempt. respects_solve. Qed.
#[local] Hint Resolve executeAttempt_wf : go.
Lemma attempt_loop_wf left n c i chain p acc :
  respects keeps_wf (attempt_loop cfg adapters left n c i chain p acc).
Proof.
  revert n acc. induction left as [|left IH]; intros n [[[st r] e] a]; simpl; respects_solve.
Qed.
#[local] Hint Resolve attempt_loop_wf : go.
Lemma runAttemptLoop_wf c i st chain :
  respects keeps_wf (runAttemptLoop cfg adapters policies c i st chain).
Proof. unfold runAttemptLoop. respects_solve. Qed.
#[local] Hint Resolve runAttemptLoop_wf : go.
Lemma dispatchPreparedStep_wf c dc i st :
  respects keeps_wf (dispatchPreparedStep cfg adapters policies c dc i st).
Proof. unfold dispatchPreparedStep. respects_solve. Qed.
#[local] Hint Resolve dispatchPreparedStep_wf : go.
Lemma dispatch_goroutine_wf i st : respects keeps_wf (dispatch_goroutine cfg adapters policies i st).
Proof. unfold dispatch_goroutine. respects_solve. Qed.
Lemma DispatchStep_wf c i st : respects keeps_wf (DispatchStep cfg adapters policies c i st).
Proof. unfold DispatchStep. respects_solve. Qed.
Lemma AbortRun_wf c i f :
  (∀ g, f = Some g → ∀ d, keeps_wf d (g d)) → respects keeps_wf (AbortRun c i f).
Proof.
  intros Hf. unfold AbortRun. respects_solve. refine (respects_modify _ _ _). by apply Hf.
Qed.

(** The other services. *)
Lemma resolve_wf c g x : respects keeps_wf (GateService.resolve (W:=Daemon) c g x).
Proof. unfold GateService.resolve. respects_solve. Qed.
Lemma settle_wf c st x m : respects keeps_wf (RecoveryService.settle c st x m).
Proof. unfold RecoveryService.settle. respects_solve. Qed.
Lemma findPendingGate_wf c i st : respects keeps_wf (RecoveryService.findPendingGate c i st).
Proof. apply findPendingGate_reads, _. Qed.
Lemma ensureRecoveryGate_wf c i st : respects keeps_wf (RecoveryService.ensureRecoveryGate c i st).
Proof.
  unfold RecoveryService.ensureRecoveryGate. respects_solve. apply findPendingGate_wf.
Qed.
#[local] Hint Resolve settle_wf findPendingGate_wf ensureRecoveryGate_wf : go.
Lemma salvage_wf c i n st r k :
  respects keeps_wf k → respects keeps_wf (RecoveryService.salvage c i n st r k).
Proof. intros Hk. unfold RecoveryService.salvage. respects_solve. Qed.
#[local] Hint Resolve salvage_wf : go.
Lemma reconcile_step_wf c i n st : respects keeps_wf (RecoveryService.reconcile_step cfg c i n st).
Proof.
  unfold RecoveryService.reconcile_step, RecoveryService.readResultEvidence.
  respects_solve; repeat (apply salvage_wf; respects_solve).
Qed.
#[local] Hint Resolve reconcile_step_wf : go.
Lemma reconcileRunSteps_wf c r : respects keeps_wf (RecoveryService.reconcileRunSteps cfg c r).
Proof. unfold RecoveryService.reconcileRunSteps. respects_solve. Qed.
#[local] Hint Resolve reconcileRunSteps_wf : go.
Lemma cleanupOrphans_wf c : respects keeps_wf (RecoveryService.cleanupOrphans cfg c).
Proof. unfold RecoveryService.cleanupOrphans. respects_solve. Qed.
#[local] Hint Resolve cleanupOrphans_wf : go.
Lemma SweepStaleRuns_wf c : respects keeps_wf (RecoveryService.SweepStaleRuns cfg c).
Proof. unfold RecoveryService.SweepStaleRuns, RecoveryService.sweep_run. respects_solve. Qed.
Lemma RecoverRun_wf c i b : respects keeps_wf (RecoveryService.RecoverRun cfg c i b).
Proof. unfold RecoveryService.RecoverRun. respects_solve. Qed.
Lemma ResumeRun_wf c i : respects keeps_wf (RecoveryService.ResumeRun cfg c i).
Proof. unfold RecoveryService.ResumeRun. respects_solve. Qed.
End Operations.

#[export] Hint Resolve
  captured_files_returns failStep_wf failStep_returns live_ctx_wf live_ctx_returns ensureResultEnvelope_wf
  ensureResultEnvelope_returns newResultSpec_wf newResultSpec_returns StartRun_wf
  StartRun_returns reconcileRunState_wf reconcileRunState_returns GetResultByStep_wf
  GetResultByStep_returns ensurePhaseExists_wf ensurePhaseExists_returns
  ensureExistingStepBelongsToRun_wf ensureExistingStepBelongsToRun_returns initializeStep_wf
  initializeStep_returns createAttempt_wf createAttempt_returns updateAttemptResult_wf
  updateAttemptResult_returns logBenchmark_wf logBenchmark_returns
  writeSubmissionProvenance_wf writeSubmissionProvenance_returns findOriginalInputName_wf
  findOriginalInputName_returns buildSubmissionArtifact_wf buildSubmissionArtifact_returns
  persist_one_wf persist_one_returns persistProvenanceArtifacts_wf
  persistProvenanceArtifacts_returns poll_result_wf poll_result_returns end_attempt_wf
  end_attempt_returns run_validation_wf run_validation_returns validate_attempt_wf
  validate_attempt_returns finalizeStep_wf finalizeStep_returns interrupted_wf
  interrupted_returns finalizeEarlyAbort_wf finalizeEarlyAbort_returns dispatchStepAsync_wf
  dispatchStepAsync_returns DispatchStepAsync_wf DispatchStepAsync_returns RetryStep_wf
  RetryStep_returns abortOutcome_wf abortOutcome_returns abort_step_wf abort_step_returns
  resolve_links_wf resolve_links_returns resolveArtifactPath_wf resolveArtifactPath_returns
  GetArtifactContent_wf GetArtifactContent_returns GetLogsByStep_wf GetLogsByStep_returns
  waitForAdapterStop_wf poll_loop_wf execute_in_worktree_wf executeAttempt_wf attempt_loop_wf
  runAttemptLoop_wf dispatchPreparedStep_wf dispatch_goroutine_wf DispatchStep_wf AbortRun_wf
  resolve_wf settle_wf findPendingGate_wf ensureRecoveryGate_wf salvage_wf reconcile_step_wf
  reconcileRunSteps_wf cleanupOrphans_wf SweepStaleRuns_wf RecoverRun_wf ResumeRun_wf : go.

(** ** Success leaves the run in the state derived from its steps *)

Definition consistent_run (runID : string) (_ : unit) (w : Daemon) : Prop :=
  run_consistent (d_db w) runID.

Section Consistency.
Context `{Env} `{Host_} `{Abort} `{Schedule}.
Context (cfg : Config) (adapters : gmap string Adapter) (policies : PolicyRegistry.t).

Lemma reconcileRunState_ensures c runID :
  ensures (consistent_run runID) (reconcileRunState c runID).
Proof.
  apply ensures_wp. intros s. unfold reconcileRunState. do 2 wp_call.
  destruct (tget runID (db_runs (db_of s))) as [run|] eqn:Hrun; [|by intros ?].
  pose proof (tget_key _ _ _ Hrun) as Hid. change (run_ID run = runID) in Hid.
  repeat wp_call. cbn [run_ID update_field]. rewrite Hid, Hrun. intros [] _.
  by eapply run_consistent_update.
Qed.
#[local] Hint Resolve reconcileRunState_ensures : go.

Lemma finalizeEarlyAbort_ensures runID step :
  ensures (consistent_run runID) (finalizeEarlyAbort runID step).
Proof. unfold finalizeEarlyAbort. ensures_solve. Qed.
#[local] Hint Resolve finalizeEarlyAbort_ensures : go.

Lemma failStep_ensures {A} (P : A → Daemon → Prop) c step m : ensures P (failStep c step m).
Proof. unfold failStep. ensures_solve. Qed.
#[local] Hint Resolve failStep_ensures : go.

(** A dispatch that ends leaves no execution registered for its run. *)
Lemma dispatch_clears c dispatchCtx runID step s :
  let '(o, s') := dispatchPreparedStep cfg adapters policies c dispatchCtx runID step s in
  o ≠ Blocked → d_executions (store s') !! runID = None.
Proof.
  unfold dispatchPreparedStep, deferred.
  match goal with |- context [let '(o, s1) := ?m s in _] => destruct (m s) as [[[]|e|p|] s1] end;
    simpl; try done; intros _; by rewrite lookup_delete_eq.
Qed.

(** C5: when all that the other goroutines do to the state meanwhile is to request the abort of
    the run, a dispatch that reports success, whatever the environment, the host and the
    adapters do, leaves the run in the state derived from the states of its steps; and unless it
    waits for ever it leaves no execution registered for the run. *)
Theorem dispatch_success_consistent c dispatchCtx runID step s :
  let '(o, s') := dispatchPreparedStep cfg adapters policies c dispatchCtx runID step s in
  (o = Ok tt → run_consistent (d_db (store s')) runID) ∧
  (o ≠ Blocked → d_executions (store s') !! runID = None).
Proof.
  pose proof (dispatch_clears c dispatchCtx runID step s) as Hclear. revert Hclear.
  unfold dispatchPreparedStep, deferred.
  match goal with |- context [let '(o, s1) := ?m s in _] => set (body := m) end.
  assert (ensures (consistent_run runID) body) as Hbody by (unfold body; ensures_solve).
  specialize (Hbody s). destruct (body s) as [[[]|e|p|] s1]; simpl; intros Hclear;
    (split; [|exact Hclear]); try done. intros _. by eapply Hbody.
Qed.
End Consistency.

(** ** The step an execution returns is the step it was given

    Only the state, the reason and the time of a step are assigned while it is executed. *)

Definition same_step (st st' : Step) : Prop :=
  ∃ x m t, st' = st <| step_State := x |> <| step_StatusReason := m |> <| step_UpdatedAt := t |>.

#[export] Instance same_step_preorder : PreOrder same_step.
Proof.
  split.
  - intros []. eexists _, _, _. reflexivity.
  - intros st ? ? (x & m & t & ->) (x' & m' & t' & ->). by exists x', m', t'.
Qed.

Lemma same_step_update st x m t :
  same_step st (st <| step_State := x |> <| step_StatusReason := m |> <| step_UpdatedAt := t |>).
Proof. by exists x, m, t. Qed.
Lemma same_step_reason st m : same_step st (st <| step_StatusReason := m |>).
Proof. by exists (step_State st), m, (step_UpdatedAt st). Qed.
Lemma same_step_state st x : same_step st (st <| step_State := x |>).
Proof. by exists x, (step_StatusReason st), (step_UpdatedAt st). Qed.
Lemma same_step_refl st : same_step st st.
Proof. reflexivity. Qed.
Lemma same_step_moved st x t :
  same_step st (st <| step_State := x |> <| step_UpdatedAt := t |>).
Proof. by exists x, (step_StatusReason st), t. Qed.
#[local] Hint Resolve same_step_update same_step_reason same_step_state same_step_refl same_step_moved : go.

Section SameStep.
Context `{Env} `{Host_} `{Abort} `{Schedule}.
Context (cfg : Config) (adapters : gmap string Adapter) (policies : PolicyRegistry.t).

Definition result_of (st : Step) : Step * option ResultSpec * PolicyEvaluation → Daemon → Prop :=
  λ x _, same_step st x.1.1.

Lemma ensures_result st x r e : same_step st x → ensures (result_of st) (ret (x, r, e)).
Proof. intros Hx s a s' [= <- <-]. exact Hx. Qed.
#[local] Hint Resolve ensures_result : go.

Lemma end_attempt_same c i st a p x m b z st0 :
  same_step st0 st → ensures (result_of st0) (end_attempt c i st a p x m b z).
Proof.
  intros Hs. unfold end_attempt. repeat (apply ensures_bind; intros ?). apply ensures_result.
  destruct b; [|done]. etrans; [exact Hs|auto with go].
Qed.
#[local] Hint Resolve end_attempt_same : go.

Lemma normalize_attempt_same c i st a ad l :
  ensures (λ x _, same_step st x.1) (normalize_attempt c i st a ad l).
Proof.
  unfold normalize_attempt. apply ensures_bind. intros [[res|]|err]; [|done|].
  - apply (ensures_ret (λ x, same_step st x.1)). cbn [fst]. case_decide; auto with go.
  - apply ensures_bind. intros r. apply (ensures_ret (λ x, same_step st x.1)). cbn [fst]. auto with go.
Qed.

Lemma validate_attempt_same c i st a r w z :
  ensures (λ x _, same_step st x.1) (validate_attempt c i st a r w z).
Proof.
  unfold validate_attempt. case_decide; [|repeat (apply ensures_bind; intros [])];
    try (apply ensures_bind; intros ?); try (apply ensures_bind; intros ?);
    apply (ensures_ret (λ x, same_step st x.1)); cbn [fst]; auto with go.
Qed.

Lemma collect_attempt_same c i st a ad p r w z :
  ensures (result_of st) (collect_attempt c i st a ad p r w z).
Proof.
  unfold collect_attempt. do 3 (apply ensures_bind; intros ?). destruct a2 as [arts|err];
    [|auto with go].
  apply ensures_bind. intros ?. eapply ensures_seq; [apply normalize_attempt_same|].
  intros [st1 res] Hst1. do 3 (apply ensures_bind; intros ?).
  eapply ensures_seq; [apply validate_attempt_same|].
  intros [st2 res2] Hst2. do 3 (apply ensures_bind; intros ?). apply ensures_result.
  cbn [fst] in *. etrans; [|exact Hst2]. etrans; [|exact Hst1]. apply same_step_moved.
Qed.
#[local] Hint Resolve collect_attempt_same : go.

Lemma execute_in_worktree_same c i st a ad p w z :
  ensures (result_of st) (execute_in_worktree cfg c i st a ad p w z).
Proof. unfold execute_in_worktree. ensures_solve; auto with go. Qed.
#[local] Hint Resolve execute_in_worktree_same : go.

Lemma ensures_deferred_result st fin m :
  ensures (result_of st) m → ensures (result_of st) (deferred fin m).
Proof. intros Hm. by apply (ensures_deferred (λ x, same_step st x.1.1)). Qed.

Lemma executeAttempt_same c i st a ad p :
  ensures (result_of st) (executeAttempt cfg c i st a ad p).
Proof.
  unfold executeAttempt. repeat (ensures_step || apply ensures_deferred_result); auto with go.
Qed.
End SameStep.

(** ** Termination of a dispatch

    Four things outside the code bound a dispatch: the clock advances while the wait for a
    cancelled adapter sleeps, commands and adapters return, the event loop of an attempt is
    eventually told to stop, and an adapter that normalizes without an error gives a result. *)

(** The events contain one that ends the loop whatever the polls say. *)
Definition poll_ends (timeoutSeconds : Z) (events : list poll_event) : Prop :=
  CtxDone ∈ events ∨ (TimerFired ∈ events ∧ (0 < timeoutSeconds)%Z).

(** The calls to the adapter return, and a normalization without an error gives a result. *)
Record cooperates (ad : Adapter) : Prop := {
  coop_returns : adapter_returns ad;
  coop_result c id arts n fs : (adapter_NormalizeResult ad c id arts n fs).1 ≠ Some (inl None);
}.

Section Termination.
Context `{Env} `{Host_} `{Abort} `{Schedule}.
Context (cfg : Config) (adapters : gmap string Adapter) (policies : PolicyRegistry.t).

(** The calls to an adapter that returns. *)
Lemma adapter_calls_return ad : adapter_returns ad →
  (∀ c st a w r, returns (external (adapter_Start ad c st a w r))) ∧
  (∀ c a, returns (external (adapter_Poll ad c a))) ∧
  (∀ c a, returns (external (adapter_Cancel ad c a))) ∧
  (∀ c a r, returns (external (adapter_CollectArtifacts ad c a r))).
Proof using Type. intros []. split_and!; intros; by apply external_returns. Qed.

(** One poll of an adapter that returns: the wait is over, or goes on after the sleep. *)
Lemma wait_loop_step fuel ad a deadline s :
  adapter_returns ad →
  ((clock (S (tick s)) <= deadline)%Z → ∀ s', tick s' = S (S (tick s)) →
     returned ((Sleep (200 * Millisecond) ;; wait_loop fuel ad a deadline) s').1) →
  returned (wait_loop (S fuel) ad a deadline s).1.
Proof using Type.
  intros Hret Hnext.
  assert (wp (wait_loop (S fuel) ad a deadline) (λ o _, returned o) s) as Hwp; [|exact Hwp].
  cbn [wait_loop]. do 2 wp_step. apply wp_external. intros r fs Hr.
  destruct (Poll_returns _ Hret Background a (tick s) (d_files (store s))) as [r' Hr'].
  rewrite Hr in Hr'. cbn in Hr'. subst r.
  destruct r' as [[]|e]; cbn [then_]; [|by wp_step|].
  all: do 2 wp_step; cbn [tick].
  all: destruct (Z.ltb_spec deadline (clock (S (tick s)))); [by wp_step|].
  all: by apply Hnext.
Qed.

(** After [S fuel] polls the last reading of the clock is beyond the deadline. *)
Lemma wait_loop_returns (Hclock : clock_advances) fuel ad a deadline s :
  adapter_returns ad →
  (deadline < clock (S (tick s)) + 200 * Millisecond * Z.of_nat fuel)%Z →
  returned (wait_loop (S fuel) ad a deadline s).1.
Proof using Type.
  intros Hret. revert s. induction fuel as [|fuel IH]; intros s Hd;
    (apply wait_loop_step; [done|]; intros Hle s' Hs'); [lia|].
  apply IH. cbn [tick]. rewrite Hs'.
  pose proof (sleep_lasts Hclock (S (S (tick s))) (200 * Millisecond)).
  pose proof (clock_monotone Hclock (S (tick s)) (S (S (tick s)))).
  pose proof (clock_monotone Hclock (wake (S (S (tick s))) (200 * Millisecond))
    (S (wake (S (S (tick s))) (200 * Millisecond)))). lia.
Qed.

Lemma waitForAdapterStop_returns (Hclock : clock_advances) ad a :
  adapter_returns ad → returns (waitForAdapterStop ad a abortGracePeriod).
Proof using Type.
  intros Hret s. unfold waitForAdapterStop, bind, now. apply wait_loop_returns; [done..|]. cbn.
  pose proof (clock_monotone Hclock (tick s) (S (S (tick s)))).
  unfold abortGracePeriod, Second, Millisecond in *. lia.
Qed.

Lemma poll_loop_returns (Hclock : clock_advances) events i ad a st p :
  adapter_returns ad →
  poll_ends (step_TimeoutSeconds st) events → returns (poll_loop events i ad a st p).
Proof using Type.
  intros Hret. assert (∀ y, returns (waitForAdapterStop ad y abortGracePeriod)) as Hw
    by (intros; by apply waitForAdapterStop_returns).
  destruct (adapter_calls_return ad Hret) as (_ & Hpoll & Hcancel & _).
  induction events as [|ev events IH]; intros Hends.
  { destruct Hends as [Hin|[Hin _]]; by apply not_elem_of_nil in Hin. }
  assert (ev ≠ CtxDone → (ev = TimerFired → (step_TimeoutSeconds st <= 0)%Z) →
    returns (poll_loop events i ad a st p)) as Hrest.
  { intros Hne Ht. apply IH.
    destruct Hends as [Hin|[Hin Hpos]]; apply elem_of_cons in Hin as [Heq|Hin].
    - by destruct Hne.
    - by left.
    - specialize (Ht (eq_sym Heq)). lia.
    - by right. }
  destruct ev; cbn [poll_loop].
  - returns_solve.
  - destruct (Z.ltb_spec 0 (step_TimeoutSeconds st)).
    + returns_solve.
    + apply Hrest; [done|by intros _].
  - assert (returns (poll_loop events i ad a st p)) by by apply Hrest. returns_solve.
Qed.

(** A call to an adapter whose outcome is known to be one of some. *)
Lemma returns_try_external {A B} (f : nat → Files → reply A) (k : A + error → M Daemon B) :
  (∀ n fs, is_Some (f n fs).1) →
  (∀ a n fs, (f n fs).1 = Some (inl a) → returns (k (inl a))) → (∀ e, returns (k (inr e))) →
  returns (bind (try (external f)) k).
Proof using Type.
  intros Hret Hok Herr s. unfold bind, try, external.
  specialize (Hok) with (n := tick s) (fs := d_files (store s)).
  destruct (Hret (tick s) (d_files (store s))) as [r Hr].
  destruct (f (tick s) (d_files (store s))) as [o fs] eqn:Hf; cbn in *. subst o.
  destruct r as [a|e]; [by apply (Hok a)|apply Herr].
Qed.

(** The hypotheses on the world the dispatch of [step] returns in. *)
Context (Hclock : clock_advances) (Hhost : host_returns).
Context (Hcoop : ∀ id ad, adapters !! id = Some ad → cooperates ad).

Lemma normalize_attempt_returns c i st a ad l :
  cooperates ad → returns (normalize_attempt c i st a ad l).
Proof using Type.
  intros [Hret Hn]. unfold normalize_attempt.
  apply returns_try_external; [intros; by apply Hret| |returns_solve].
  intros [res|] n fs Hres; [returns_solve|by destruct (Hn c (att_ID a) l n fs)].
Qed.

Lemma collect_attempt_returns c i st a ad p r w z :
  cooperates ad → returns (collect_attempt c i st a ad p r w z).
Proof using Hhost.
  intros Hn. assert (∀ st' l, returns (normalize_attempt c i st' a ad l)) as Hnorm'
    by (intros; by apply normalize_attempt_returns).
  destruct (adapter_calls_return ad (coop_returns _ Hn)) as (_ & _ & _ & Hcollect).
  assert (∀ res l, returned (Evaluate p (Some res) l)) as Heval
    by (intros; by rewrite Evaluate_result).
  unfold collect_attempt. returns_solve.
Qed.

Lemma execute_in_worktree_returns c i st a ad p w z :
  cooperates ad → (∀ id, poll_ends (step_TimeoutSeconds st) (poll_schedule id)) →
  returns (execute_in_worktree cfg c i st a ad p w z).
Proof using Hclock Hhost.
  intros Hn Hends.
  destruct (adapter_calls_return ad (coop_returns _ Hn)) as (Hstart & _).
  assert (∀ a' pr, returns (pollAdapter i ad a' st pr)) as Hpoll.
  { intros. apply poll_loop_returns; [done|by apply coop_returns|done]. }
  assert (∀ a' pr, returns (collect_attempt c i st a' ad p pr w z)) as Hcollect.
  { intros. by apply collect_attempt_returns. }
  unfold execute_in_worktree. returns_solve.
Qed.

Lemma executeAttempt_returns c i st a ad p :
  cooperates ad → (∀ id, poll_ends (step_TimeoutSeconds st) (poll_schedule id)) →
  returns (executeAttempt cfg c i st a ad p).
Proof using Hclock Hhost.
  intros Hn Hends.
  assert (∀ w z, returns (execute_in_worktree cfg c i st a ad p w z)) as Hw
    by (intros; by apply execute_in_worktree_returns).
  unfold executeAttempt. returns_solve.
Qed.

Lemma selectAdapterProfile_total chain n : chain ≠ [] →
  ∃ p, selectAdapterProfile chain n = Ok p ∧ p ∈ chain.
Proof using Type.
  intros Hne. unfold selectAdapterProfile. case_decide as Hlt.
  - destruct (lookup_lt_is_Some_2 _ _ Hlt) as [p Hp]. rewrite Hp. exists p.
    split; [done|]. by eapply list_elem_of_lookup_2.
  - destruct chain as [|p chain]; [done|]. exists p. split; [done|constructor].
Qed.
End Termination.
