(* ===== verification/Effects.v ===== *)
(** * What a dispatch may write

    The effect of a dispatch as a transition relation on the state of the daemon: each
    constructor is one write the execution of a step makes. Every computation of [RunService]
    that takes part in a dispatch is a sequence of such writes, whatever the environment, the
    host and the adapters do; what a dispatch leaves alone follows by rule induction. *)
From stdpp Require Import relations.
From S2P Require Export RunServiceFacts.
Open Scope go_scope.
Import RunService.

(** ** The transition relations *)

(** The artifacts an adapter of the routing service lists for an attempt. *)
Definition listed (adapters : gmap string Adapter) (attemptID : string) (art : Artifact) : Prop :=
  ∃ id ad c root n fs arts fs', adapters !! id = Some ad ∧
    adapter_CollectArtifacts ad c attemptID root n fs = (Some (inl arts), fs') ∧ art ∈ arts.

(** The changed files of a result: none, or those an adapter listed itself in a result it
    normalized for the attempt. *)
Definition reported (adapters : gmap string Adapter) (attemptID : string) (files : list string) :
    Prop :=
  files = [] ∨ ∃ id ad c arts n fs r fs', adapters !! id = Some ad ∧
    adapter_NormalizeResult ad c attemptID arts n fs = (Some (inl (Some r)), fs') ∧
    rs_FilesChanged r = files.

(** The writes of one attempt at a step: to the files, to the registered execution of the run,
    to the states of the step and of the attempt, and new rows for the artifacts and the
    validations of the attempt. *)
Inductive attempt_write `{Abort} (adapters : gmap string Adapter)
    (runID stepID attemptID : string) : relation Daemon :=
  | aw_files w w' : only_files w w' → attempt_write adapters runID stepID attemptID w w'
  | aw_execution w adapter :
      attempt_write adapters runID stepID attemptID w
        (w <| d_executions := alter (λ e, e <| exec_attemptID := attemptID |>
                                            <| exec_adapter := Some adapter |>) runID
                                (d_executions w) |>)
  | aw_abort w n : abort_arrives n = true →
      attempt_write adapters runID stepID attemptID w (set_abort runID w)
  | aw_step w step : step_ID step = stepID →
      attempt_write adapters runID stepID attemptID w
        (w <| d_db := store_steps (tupdate stepID (StepsRepo.set_state step)
                                     (db_steps (d_db w))) (d_db w) |>)
  | aw_result w res t : reported adapters attemptID (rs_FilesChanged res) →
      attempt_write adapters runID stepID attemptID w
        (w <| d_db := store_attempts (tupdate attemptID (AttemptsRepo.set_result res t)
                                        (db_attempts (d_db w))) (d_db w) |>)
  | aw_artifact w art : tget (art_ID art) (db_artifacts (d_db w)) = None →
      art_AttemptID art = attemptID ∨ listed adapters attemptID art →
      attempt_write adapters runID stepID attemptID w
        (w <| d_db := store_artifacts (db_artifacts (d_db w) ++ [art]) (d_db w) |>)
  | aw_validation w v : tget (row_key v) (db_validations (d_db w)) = None →
      vrow_attempt_id v = attemptID →
      attempt_write adapters runID stepID attemptID w
        (w <| d_db := store_validations (db_validations (d_db w) ++ [v]) (d_db w) |>).

(** The attempt belongs to the step. *)
Definition owned (stepID attemptID : string) (w : Daemon) : Prop :=
  ∃ row, tget attemptID (db_attempts (d_db w)) = Some row ∧ arow_step_id row = stepID.

(** The writes of a dispatch: new attempts of the step and their writes, a pending gate, the
    benchmark of an attempt, and the state of the run, derived from its steps. *)
Inductive dispatch_write `{Abort} (adapters : gmap string Adapter) (runID stepID : string) :
    relation Daemon :=
  | dw_attempt w w' attemptID : owned stepID attemptID w →
      attempt_write adapters runID stepID attemptID w w' → dispatch_write adapters runID stepID w w'
  | dw_step w step : step_ID step = stepID →
      dispatch_write adapters runID stepID w
        (w <| d_db := store_steps (tupdate stepID (StepsRepo.set_state step)
                                     (db_steps (d_db w))) (d_db w) |>)
  | dw_abort w n : abort_arrives n = true → dispatch_write adapters runID stepID w (set_abort runID w)
  | dw_new w row : arow_step_id row = stepID → arow_files_changed row = JEmpty →
      tget (arow_id row) (db_attempts (d_db w)) = None →
      dispatch_write adapters runID stepID w
        (w <| d_db := store_attempts (db_attempts (d_db w) ++ [row]) (d_db w) |>)
  | dw_gate w gate : gate_RunID gate = runID → gate_StepID gate = stepID →
      gate_State gate = GateStatePending → tget (gate_ID gate) (db_gates (d_db w)) = None →
      dispatch_write adapters runID stepID w
        (w <| d_db := store_gates (db_gates (d_db w) ++ [gate]) (d_db w) |>)
  | dw_benchmark w b : bm_ID b = "bench-" +:+ bm_AttemptID b → owned stepID (bm_AttemptID b) w →
      dispatch_write adapters runID stepID w
        (w <| d_db := store_benchmarks (tupsert b (BenchmarksRepo.merge b)
                                          (db_benchmarks (d_db w))) (d_db w) |>)
  | dw_run w run : run_ID run = runID → run_State run = deriveRunState (steps_of (d_db w) runID) →
      dispatch_write adapters runID stepID w
        (w <| d_db := store_runs (tupdate runID (RunsRepo.set_state run) (db_runs (d_db w)))
                        (d_db w) |>)
  | dw_clear w :
      dispatch_write adapters runID stepID w (w <| d_executions := delete runID (d_executions w) |>).

(** ** One attempt *)

(** The changed files of the result of an attempt. *)
Definition att_files (a : Attempt) : list string :=
  match att_Result a with Some r => rs_FilesChanged r | None => [] end.

(** The attempt a computation returns is the one it was given, with a result that lists the same
    changed files. *)
Definition same_attempt (a : Attempt) (a' : Attempt) : Prop :=
  att_ID a' = att_ID a ∧ att_files a' = att_files a.

Lemma reported_nil adapters id : reported adapters id [].
Proof. by left. Qed.
#[export] Hint Resolve reported_nil : go.

(** The first call of a sequence has the effect; the rest is left. *)
Ltac first_call := refine (respects_bind _ _ _ _ _); [respects_solve|].

#[export] Hint Extern 0 (step_ID _ = _) => cbn; congruence : go.
#[export] Hint Extern 0 (att_ID _ = _) => cbn; congruence : go.

Section Attempt.
Context `{Env} `{Host_} `{Abort} `{Schedule}.
Context (cfg : Config) (adapters : gmap string Adapter) (runID stepID attemptID : string).

Abbreviation writes := (rtc (attempt_write adapters runID stepID attemptID)).

Lemma only_files_writes {A} (m : M Daemon A) : respects only_files m → respects writes m.
Proof using Type. apply respects_mono. intros w w' Hw. by apply rtc_once, aw_files. Qed.
#[local] Hint Resolve only_files_writes : go.

Lemma setExecutionAttempt_writes adapter :
  respects writes (setExecutionAttempt runID attemptID adapter).
Proof using Type. apply respects_modify. intros w. apply rtc_once, aw_execution. Qed.

Lemma isAbortRequested_writes : respects writes (isAbortRequested runID).
Proof using Type.
  intros s. unfold isAbortRequested. simpl. destruct (abort_arrives (tick s)) eqn:Ha; [|done].
  by eapply rtc_once, aw_abort.
Qed.

Lemma StepsRepo_UpdateState_writes c step :
  step_ID step = stepID → respects writes (StepsRepo.UpdateState c step).
Proof using Type.
  intros Hid. unfold StepsRepo.UpdateState. respects_solve. apply respects_exec_in; [apply _|].
  intros w. rewrite Hid. by apply rtc_once, aw_step.
Qed.

(** The attempt, with changed files that may be recorded. *)
Definition own (a : Attempt) : Prop :=
  att_ID a = attemptID ∧ reported adapters attemptID (att_files a).

Lemma own_result a r :
  own a → reported adapters attemptID (rs_FilesChanged r) → own (a <| att_Result := Some r |>).
Proof using Type. by intros [Ha _] Hr. Qed.
Lemma own_updated a t : own a → own (a <| att_UpdatedAt := t |>).
Proof using Type. done. Qed.
Lemma own_same a a' : own a → same_attempt a a' → own a'.
Proof using Type. intros [Ha Hf] [Ha' Hf']. split; [congruence|]. by rewrite Hf'. Qed.
#[local] Hint Resolve own_result own_updated : go.

Lemma AttemptsRepo_UpdateResult_writes c a :
  own a → respects writes (AttemptsRepo.UpdateResult c a).
Proof using Type.
  intros [Hid Hf]. unfold AttemptsRepo.UpdateResult, att_files in *.
  destruct (att_Result a) as [r|]; respects_solve.
  apply respects_exec_in; [apply _|]. intros w. rewrite Hid. by apply rtc_once, aw_result.
Qed.

Lemma ArtifactsRepo_Create_writes c art :
  art_AttemptID art = attemptID ∨ listed adapters attemptID art →
  respects writes (ArtifactsRepo.Create c art).
Proof using Type.
  intros Hart. unfold ArtifactsRepo.Create. respects_solve. apply respects_exec_in; [apply _|].
  intros w. unfold sql_insert. destruct (tinsert _ _) as [t|] eqn:Ht; [|by destruct w].
  apply tinsert_spec in Ht as [Hn ->]. by apply rtc_once, aw_artifact.
Qed.

Lemma ValidationsRepo_Create_writes c v : respects writes (ValidationsRepo.Create c attemptID v).
Proof using Type.
  unfold ValidationsRepo.Create. respects_solve. apply respects_exec_in; [apply _|].
  intros w. unfold sql_insert. destruct (tinsert _ _) as [t|] eqn:Ht; [|by destruct w].
  apply tinsert_spec in Ht as [Hn ->]. by apply rtc_once, aw_validation.
Qed.
#[local] Hint Resolve setExecutionAttempt_writes isAbortRequested_writes
  StepsRepo_UpdateState_writes AttemptsRepo_UpdateResult_writes ArtifactsRepo_Create_writes
  ValidationsRepo_Create_writes : go.

(** The other computations of an attempt. *)
Lemma live_ctx_writes c : respects writes (live_ctx c).
Proof using Type. unfold live_ctx. respects_solve. Qed.
Lemma ensureResultEnvelope_writes r i st a : respects writes (ensureResultEnvelope r i st a).
Proof using Type. unfold ensureResultEnvelope. respects_solve. Qed.
#[local] Hint Resolve live_ctx_writes ensureResultEnvelope_writes : go.
Lemma newResultSpec_writes i st a x m : respects writes (newResultSpec i st a x m).
Proof using Type. unfold newResultSpec. respects_solve. Qed.
Lemma ensureResultEnvelope_files r i st a :
  ensures (λ r' _, rs_FilesChanged r' = rs_FilesChanged r) (ensureResultEnvelope r i st a).
Proof using Type.
  unfold ensureResultEnvelope. do 2 (apply ensures_bind; intros ?).
  apply (ensures_ret (λ r', rs_FilesChanged r' = rs_FilesChanged r)). by destruct a.
Qed.
Lemma newResultSpec_files i st a x m :
  ensures (λ r _, rs_FilesChanged r = []) (newResultSpec i st a x m).
Proof using Type. exact (ensureResultEnvelope_files _ i st a). Qed.
Lemma updateAttemptResult_writes c a : own a → respects writes (updateAttemptResult c a).
Proof using Type. intros Ha. unfold updateAttemptResult. respects_solve. Qed.

(** Continue with a result that was made here, or that has the changed files of another. *)
Lemma new_result_then {A} i st a x m (f : ResultSpec → M Daemon A) :
  (∀ r, rs_FilesChanged r = [] → respects writes (f r)) →
  respects writes (bind (newResultSpec i st a x m) f).
Proof using Type.
  intros Hf. eapply respects_seq; [apply _|apply newResultSpec_writes|apply newResultSpec_files|done].
Qed.
Lemma envelope_then {A} r i st a (f : ResultSpec → M Daemon A) :
  (∀ r', rs_FilesChanged r' = rs_FilesChanged r → respects writes (f r')) →
  respects writes (bind (ensureResultEnvelope r i st a) f).
Proof using Type.
  intros Hf. eapply respects_seq; [apply _|auto with go|apply ensureResultEnvelope_files|done].
Qed.
Lemma writeSubmissionProvenance_writes p st : respects writes (writeSubmissionProvenance p st).
Proof using Type. unfold writeSubmissionProvenance. respects_solve. Qed.
Lemma buildSubmissionArtifact_writes a p : respects writes (buildSubmissionArtifact a p).
Proof using Type. unfold buildSubmissionArtifact. respects_solve. Qed.
#[local] Hint Resolve newResultSpec_writes updateAttemptResult_writes
  writeSubmissionProvenance_writes buildSubmissionArtifact_writes : go.
Lemma buildSubmissionArtifact_attempt a p :
  ensures (λ art _, art_AttemptID art = a) (buildSubmissionArtifact a p).
Proof using Type.
  unfold buildSubmissionArtifact. do 6 (apply ensures_bind; intros ?).
  by apply (ensures_ret (λ art, art_AttemptID art = a)).
Qed.
Lemma persistProvenanceArtifacts_writes c a p :
  att_ID a = attemptID → respects writes (persistProvenanceArtifacts c a p).
Proof using Type.
  intros Ha. unfold persistProvenanceArtifacts, findOriginalInputName, persist_one.
  first_call. intros original. apply respects_bind; [apply _| |respects_solve].
  apply respects_loop; [apply _|]. intros acc name.
  eapply respects_seq; [apply _|respects_solve| |].
  { apply (ensures_try (λ art, art_AttemptID art = att_ID a)), buildSubmissionArtifact_attempt. }
  intros [art|err] Hart; [|respects_solve]. cbn in Hart.
  assert (respects writes (ArtifactsRepo.Create c art))
    by (apply ArtifactsRepo_Create_writes; left; congruence).
  respects_solve.
Qed.
Lemma attached_files r arts :
  from_option rs_FilesChanged [] (attachSubmissionArtifactRefs r arts)
  = from_option rs_FilesChanged [] r.
Proof using Type.
  destruct r as [r|]; [|done]. cbn [attachSubmissionArtifactRefs from_option].
  revert r. induction arts as [|art arts IH]; intros r; [done|]. cbn [foldl]. rewrite IH.
  repeat case_match; done.
Qed.
Lemma persistProvenanceArtifacts_same c a p :
  ensures (λ a' _, same_attempt a a') (persistProvenanceArtifacts c a p).
Proof using Type.
  unfold persistProvenanceArtifacts. do 2 (apply ensures_bind; intros ?).
  apply (ensures_ret (same_attempt a)). split; [done|]. apply attached_files.
Qed.
#[local] Hint Resolve persistProvenanceArtifacts_writes : go.

(** Continue with the attempt the provenance artifacts were added to. *)
Lemma persist_then {A} c a p (f : Attempt → M Daemon A) :
  own a → (∀ a', own a' → respects writes (f a')) →
  respects writes (bind (persistProvenanceArtifacts c a p) f).
Proof using Type.
  intros Ha Hf. eapply respects_seq; [apply _| |apply persistProvenanceArtifacts_same|].
  - apply persistProvenanceArtifacts_writes, Ha.
  - intros a' Ha'. by eapply Hf, own_same.
Qed.

Lemma end_attempt_writes c i st a p x m b z :
  own a → respects writes (end_attempt c i st a p x m b z).
Proof using Type.
  intros Ha. unfold end_attempt. apply new_result_then. intros r Hr.
  apply persist_then; [apply own_result; [done|cbn; rewrite Hr; auto with go]|].
  intros a' Ha'. respects_solve.
Qed.

Lemma run_validation_writes c w z n cmd : respects writes (run_validation c attemptID w z n cmd).
Proof using Type. unfold run_validation. respects_solve. Qed.
#[local] Hint Resolve end_attempt_writes run_validation_writes : go.

Lemma validate_attempt_writes c i st a r w z :
  step_ID st = stepID → own a → reported adapters attemptID (rs_FilesChanged r) →
  respects writes (validate_attempt c i st a r w z).
Proof using Type.
  intros Hs Ha Hr. unfold validate_attempt. case_decide; [respects_solve|]. first_call. intros _.
  first_call; [destruct Ha as [-> _]; respects_solve|]. intros [passed failed].
  apply envelope_then. intros r' Hr'.
  assert (reported adapters attemptID (rs_FilesChanged r')).
  { rewrite Hr'. unfold validated. by destruct (0 <? failed)%Z. }
  respects_solve.
Qed.

Lemma normalize_attempt_writes c i st a ad l : respects writes (normalize_attempt c i st a ad l).
Proof using Type. unfold normalize_attempt. respects_solve. Qed.
(** The step keeps its identity, and the changed files are those the adapter lists. *)
Lemma normalize_attempt_spec c i st a ad l :
  att_ID a = attemptID → (∃ id, adapters !! id = Some ad) →
  ensures (λ x _, same_step st x.1 ∧ reported adapters attemptID (rs_FilesChanged x.2))
    (normalize_attempt c i st a ad l).
Proof using Type.
  intros Ha [id Had] s x s' Hok. split; [by eapply normalize_attempt_same|].
  revert Hok. unfold normalize_attempt, try, external, bind.
  destruct (adapter_NormalizeResult ad c (att_ID a) l (tick s) (d_files (store s)))
    as [o fs] eqn:Ho.
  destruct o as [[[r|]|err]|]; try done.
  - intros [= <- _]. cbn [snd]. right. rewrite Ha in Ho. by do 8 eexists.
  - destruct (newResultSpec _ _ _ _ _ _) as [[r|e|w|] s1] eqn:Hr; try done.
    intros [= <- _]. cbn [snd]. left. by eapply newResultSpec_files.
Qed.
Lemma captured_files_writes w : respects writes (captured_files w).
Proof using Type. unfold captured_files. respects_solve. Qed.
#[local] Hint Resolve validate_attempt_writes normalize_attempt_writes captured_files_writes : go.

Lemma same_step_ID st st' : same_step st st' → step_ID st' = step_ID st.
Proof using Type. by intros (x & m & t & ->). Qed.

(** The artifacts an adapter collects are those it lists. *)
Lemma CollectArtifacts_listed ad c root :
  (∃ id, adapters !! id = Some ad) →
  ensures (λ arts _, Forall (listed adapters attemptID) arts)
    (external (adapter_CollectArtifacts ad c attemptID root)).
Proof using Type.
  intros [id Had] s arts s' Hok. unfold external in Hok.
  destruct (adapter_CollectArtifacts ad c attemptID root (tick s) (d_files (store s)))
    as [r fs'] eqn:Hr.
  destruct r as [[arts'|err]|]; try discriminate. injection Hok as -> _.
  apply Forall_forall. intros art Hart. by do 8 eexists.
Qed.

Lemma collect_attempt_writes c i st a ad p r w z :
  step_ID st = stepID → own a → (∃ id, adapters !! id = Some ad) →
  respects writes (collect_attempt c i st a ad p r w z).
Proof using Type.
  intros Hs Ha Had. unfold collect_attempt. first_call. intros t.
  first_call. intros _.
  eapply respects_seq; [apply _|respects_solve| |].
  { rewrite (proj1 Ha). by eapply (ensures_try (λ arts, Forall (listed adapters attemptID) arts)),
      CollectArtifacts_listed. }
  intros [arts|err] Harts; [|auto with go]. cbn in Harts. rewrite Forall_forall in Harts.
  apply respects_bind; [apply _| |].
  { apply respects_loop_in; [apply _|]. intros ? art Hart. respects_step.
    apply ArtifactsRepo_Create_writes. right. by apply Harts. }
  intros _.
  eapply respects_seq; [apply _|auto with go|apply normalize_attempt_spec; [apply Ha|done]|].
  intros [st1 res] [Hst1%same_step_ID Hres]. cbn in Hst1, Hres.
  apply persist_then; [by apply own_result|]. intros a' Ha'.
  apply envelope_then. intros r' Hr'.
  assert (reported adapters attemptID (rs_FilesChanged r')).
  { rewrite Hr'. destruct Ha' as [_ Hf]. unfold att_files in Hf. by destruct (att_Result a'). }
  respects_solve.
Qed.

Lemma wait_loop_writes fuel ad a t : respects writes (wait_loop fuel ad a t).
Proof using Type. induction fuel; simpl; respects_solve. Qed.
#[local] Hint Resolve collect_attempt_writes wait_loop_writes : go.
Lemma poll_result_writes i st a p x m : respects writes (poll_result i st a p x m).
Proof using Type. unfold poll_result. respects_solve. Qed.
Lemma poll_result_own i st a p x m : own a → ensures (λ a' _, own a') (poll_result i st a p x m).
Proof using Type.
  intros Ha. unfold poll_result. eapply ensures_seq; [apply newResultSpec_files|]. intros r Hr.
  apply (ensures_ret own), own_result; [done|]. cbn. rewrite Hr. auto with go.
Qed.
#[local] Hint Resolve poll_result_writes : go.

Lemma poll_result_then {A} i st a p x m (f : Attempt → M Daemon A) :
  own a → (∀ a', own a' → respects writes (f a')) →
  respects writes (bind (poll_result i st a p x m) f).
Proof using Type.
  intros Ha Hf. eapply respects_seq; [apply _|auto with go|by apply poll_result_own|exact Hf].
Qed.

Lemma poll_loop_writes events i ad a st p :
  own a → respects writes (poll_loop events i ad a st p).
Proof using Type.
  intros Ha. induction events as [|[] events IH]; simpl; [respects_solve| | |].
  - unfold waitForAdapterStop. respects_solve.
  - case_match; [|done]. first_call. intros _.
    apply poll_result_then; [done|]. intros a' Ha'. respects_solve.
  - first_call. intros [[]|err]; [done|respects_solve|].
    apply poll_result_then; [done|]. intros a' Ha'. respects_solve.
Qed.

Lemma poll_loop_own events i ad a st p :
  own a → ensures (λ x _, own x.2) (poll_loop events i ad a st p).
Proof using Type.
  intros Hown.
  assert (∀ (b : bool) a', own a' → ensures (λ x _, own x.2) (ret (W:=Daemon) (b, a'))) as Hret.
  { intros b a' Ha. by apply (ensures_ret (λ x : bool * Attempt, own x.2)). }
  induction events as [|[] events IH]; simpl; [done| | |].
  - do 2 (apply ensures_bind; intros ?).
    eapply (ensures_seq own); [|by auto].
    destruct a1; by apply poll_result_own.
  - case_match; [|done]. apply ensures_bind. intros ?.
    eapply ensures_seq; [by apply poll_result_own|]. intros a' Ha.
    apply ensures_bind. intros ?. by apply Hret.
  - apply ensures_bind. intros [[]|err]; [done|by apply Hret|].
    eapply ensures_seq; [by apply poll_result_own|]. intros a' Ha.
    apply ensures_bind. intros ?. by apply Hret.
Qed.
#[local] Hint Resolve poll_loop_writes : go.

Lemma execute_in_worktree_writes c i st a ad p w z :
  step_ID st = stepID → own a → (∃ id, adapters !! id = Some ad) →
  respects writes (execute_in_worktree cfg c i st a ad p w z).
Proof using Type.
  intros Hs Ha Had. unfold execute_in_worktree. first_call. intros spec.
  first_call. intros [prov [err|]]; [respects_solve|].
  first_call. intros [[]|err]; [|respects_solve].
  eapply respects_seq; [apply _|unfold pollAdapter; auto with go|by apply poll_loop_own|].
  intros [[] a'] Ha'; cbn [snd] in Ha'; [respects_solve|].
  first_call. intros c'. apply persist_then; [done|]. intros a'' Ha''.
  respects_solve.
Qed.
#[local] Hint Resolve execute_in_worktree_writes : go.

Lemma executeAttempt_writes c st a ad p :
  step_ID st = stepID → own a → (∃ id, adapters !! id = Some ad) →
  respects writes (executeAttempt cfg c runID st a ad p).
Proof using Type.
  intros Hs Ha Had. unfold executeAttempt. rewrite (proj1 Ha).
  do 2 (first_call; intros ?). first_call. intros [[]|err].
  2: { apply new_result_then. intros r Hr.
       assert (reported adapters attemptID (rs_FilesChanged r)) by (rewrite Hr; auto with go).
       respects_solve. }
  respects_solve.
Qed.
End Attempt.

(** ** A dispatch *)

Lemma executeAttempt_tried `{Env} `{Host_} `{Abort} `{Schedule} cfg c i st a ad p :
  ensures (λ x _, match x with inl y => same_step st y.1.1 | inr _ => True end)
    (try (executeAttempt cfg c i st a ad p)).
Proof. apply (ensures_try (λ y, same_step st y.1.1)), executeAttempt_same. Qed.

Lemma owned_attempt_write `{Abort} adapters runID stepID a b w w' :
  attempt_write adapters runID stepID b w w' → owned stepID a w → owned stepID a w'.
Proof.
  unfold owned. intros Hw (row & Hrow & Hst).
  destruct Hw as [w w' [Hdb _]|w ad|w n _|w st _|w res t _|w art _ _|w v _ _];
    try (exists row; split; [exact Hrow|done]).
  - rewrite Hdb. by exists row.
  - cbn. rewrite tget_update by done. rewrite Hrow. case_decide; eexists; split; done.
Qed.

Lemma owned_write `{Abort} adapters runID stepID a w w' :
  dispatch_write adapters runID stepID w w' → owned stepID a w → owned stepID a w'.
Proof.
  intros Hw Hown. destruct Hw as [w w' b _ Hw|w st _|w n _|w row' _ _ Hn|w g _ _ _ _|w b _ _|w run _ _|w];
    try exact Hown.
  - by eapply owned_attempt_write.
  - destruct Hown as (row & Hrow & Hst). exists row. split; [|done]. cbn.
    by rewrite tget_app, Hrow.
Qed.

Section Dispatch.
Context `{Env} `{Host_} `{Abort} `{Schedule}.
Context (cfg : Config) (adapters : gmap string Adapter) (policies : PolicyRegistry.t).
Context (runID stepID : string).

Abbreviation writes := (rtc (dispatch_write adapters runID stepID)).

(** The writes while an attempt of the step is executed. *)
Definition while_owned (attemptID : string) (w w' : Daemon) : Prop :=
  owned stepID attemptID w → writes w w' ∧ owned stepID attemptID w'.

#[local] Instance while_owned_preorder a : PreOrder (while_owned a).
Proof using Type.
  unfold while_owned. split; [done|]. intros x y z Hxy Hyz Hx.
  destruct (Hxy Hx) as [Wxy Hy]. destruct (Hyz Hy) as [Wyz Hz]. split; [by etrans|done].
Qed.

Lemma writes_while_owned {A} a (m : M Daemon A) : respects writes m → respects (while_owned a) m.
Proof using Type.
  apply respects_mono. intros w w' Hw Hown. split; [done|].
  induction Hw as [|x y z Hxy Hyz IH]; [done|]. by eapply IH, owned_write.
Qed.

Lemma attempt_while_owned {A} a (m : M Daemon A) :
  respects (rtc (attempt_write adapters runID stepID a)) m → respects (while_owned a) m.
Proof using Type.
  apply respects_mono. intros w w' Hw. induction Hw as [|x y z Hxy Hyz IH]; [done|].
  etrans; [|exact IH]. intros Hown. split; [by eapply rtc_once, dw_attempt|].
  by eapply owned_attempt_write.
Qed.

Lemma dispatch_isAbortRequested_writes : respects writes (isAbortRequested runID).
Proof using Type.
  intros s. unfold isAbortRequested. simpl. destruct (abort_arrives (tick s)) eqn:Ha; [|done].
  by eapply rtc_once, dw_abort.
Qed.

Lemma clearExecution_writes : respects writes (clearExecution runID).
Proof using Type. apply respects_modify. intros w. apply rtc_once, dw_clear. Qed.

Lemma dispatch_UpdateState_writes c step :
  step_ID step = stepID → respects writes (StepsRepo.UpdateState c step).
Proof using Type.
  intros Hid. unfold StepsRepo.UpdateState. respects_solve. apply respects_exec_in; [apply _|].
  intros w. rewrite Hid. by apply rtc_once, dw_step.
Qed.

(** The benchmark of an attempt of the step. *)
Lemma BenchmarksRepo_Save_writes c b :
  bm_ID b = "bench-" +:+ bm_AttemptID b →
  respects (while_owned (bm_AttemptID b)) (BenchmarksRepo.Save c b).
Proof using Type.
  intros Hb. unfold BenchmarksRepo.Save. respects_solve. apply respects_exec_in; [apply _|].
  intros w Hown. split; [by apply rtc_once, dw_benchmark|done].
Qed.

Lemma GatesRepo_Create_writes c id d t :
  respects writes (GatesRepo.Create c (MkGate id runID stepID d GateStatePending t None)).
Proof using Type.
  unfold GatesRepo.Create. respects_solve. apply respects_exec_in; [apply _|].
  intros w. unfold sql_insert. destruct (tinsert _ _) as [l|] eqn:Ht; [|by destruct w].
  apply tinsert_spec in Ht as [Hn ->]. by apply rtc_once, dw_gate.
Qed.

Lemma row_of_attempt_step a : arow_step_id (AttemptsRepo.row_of a) = att_StepID a.
Proof using Type. unfold AttemptsRepo.row_of. by destruct (att_Result a). Qed.

Lemma AttemptsRepo_Create_writes c a :
  att_StepID a = stepID → att_Result a = None → respects writes (AttemptsRepo.Create c a).
Proof using Type.
  intros Ha Hres. unfold AttemptsRepo.Create. respects_solve. apply respects_exec_in; [apply _|].
  intros w. unfold sql_insert. destruct (tinsert _ _) as [l|] eqn:Ht; [|by destruct w].
  apply tinsert_spec in Ht as [Hn ->]. apply rtc_once, dw_new; [| |done].
  - by rewrite row_of_attempt_step.
  - unfold AttemptsRepo.row_of. by rewrite Hres.
Qed.
#[local] Hint Resolve dispatch_isAbortRequested_writes clearExecution_writes
  dispatch_UpdateState_writes GatesRepo_Create_writes
  AttemptsRepo_Create_writes : go.

Lemma failStep_writes {A} c st m : step_ID st = stepID → respects writes (failStep (A:=A) c st m).
Proof using Type. intros Hs. unfold failStep. respects_solve. Qed.
Lemma logBenchmark_while_owned p a i r z b : respects (while_owned a) (logBenchmark p a i r z b).
Proof using Type.
  assert (∀ c x, bm_ID x = "bench-" +:+ a → bm_AttemptID x = a →
    respects (while_owned a) (BenchmarksRepo.Save c x)) as Hsave.
  { intros c x Hid <-. by apply BenchmarksRepo_Save_writes. }
  unfold logBenchmark. destruct r as [r|]; [case_decide|]; respects_solve; by apply Hsave.
Qed.
Lemma interrupted_writes c : respects writes (interrupted c runID).
Proof using Type. unfold interrupted. respects_solve. Qed.
Lemma dispatch_live_ctx_writes c : respects writes (live_ctx c).
Proof using Type. unfold live_ctx. respects_solve. Qed.
#[local] Hint Resolve failStep_writes interrupted_writes
  dispatch_live_ctx_writes : go.

Lemma createAttempt_writes c st n p :
  step_ID st = stepID → respects writes (createAttempt c st n p).
Proof using Type.
  intros Hs. unfold createAttempt. respects_solve. by apply AttemptsRepo_Create_writes.
Qed.

Lemma createAttempt_owned c st n p :
  step_ID st = stepID →
  ensures (λ a w, owned stepID (att_ID a) w ∧ att_Result a = None) (createAttempt c st n p).
Proof using Type.
  intros Hs. apply ensures_wp. intros s. unfold createAttempt. repeat wp_step. wp_call.
  cbn -[tget]. destruct (tget _ _) eqn:Hget; [done|]. intros a [= <-].
  unfold db_of in Hget. cbn in Hget. split; [|done]. eexists. split.
  - cbn -[tget]. rewrite tget_app, Hget. cbn. by rewrite decide_True.
  - exact Hs.
Qed.

Lemma finalized_ID b r e g st : step_ID (finalized b r e g st) = step_ID st.
Proof using Type.
  unfold finalized. repeat case_match; done.
Qed.

Lemma finalizeStep_writes c st r e a :
  step_ID st = stepID → respects writes (finalizeStep c runID st r e a).
Proof using Type.
  intros Hs. unfold finalizeStep. rewrite Hs. respects_solve.
  apply dispatch_UpdateState_writes. cbn. by rewrite finalized_ID.
Qed.
#[local] Hint Resolve createAttempt_writes finalizeStep_writes : go.

Lemma reconcileRunState_writes c : respects writes (reconcileRunState c runID).
Proof using Type.
  assert (∀ s, wp (reconcileRunState c runID) (λ _ s', writes (store s) (store s')) s) as Hwp;
    [|exact Hwp].
  intros s. unfold reconcileRunState. wp_step. apply wp_RunsRepo_Get; [right; intros ?; cbn [then_]; reflexivity|]. cbn [then_].
  destruct (tget runID _) as [run|] eqn:Hrun; [|wp_step; reflexivity].
  pose proof (tget_key _ _ _ Hrun) as Hid. change (run_ID run = runID) in Hid.
  wp_step. apply wp_StepsRepo_ListByRun; [right; intros ?; cbn [then_]; reflexivity|]. cbn [then_].
  do 2 wp_step. apply wp_RunsRepo_UpdateState; [right; intros ?; cbn [then_]; reflexivity|].
  assert (writes (store s) (store (after (store_runs (tupdate runID (RunsRepo.set_state
    (run <| run_State := deriveRunState (steps_of (db_of s) runID) |>
         <| run_UpdatedAt := clock (tick (tock (tock s))) |>)) (db_runs (db_of s))) (db_of s)) s)))
    as Hw by by apply rtc_once, dw_run.
  cbn [run_ID update_field]. rewrite Hid. case_match; exact Hw.
Qed.
#[local] Hint Resolve reconcileRunState_writes : go.

Lemma attempt_loop_writes left n c chain p acc :
  step_ID acc.1.1.1 = stepID →
  respects writes (attempt_loop cfg adapters left n c runID chain p acc).
Proof using Type.
  revert n acc. induction left as [|left IH]; intros n [[[st r] e] aid] Hs; cbn in Hs |- *;
    [respects_solve|].
  first_call. intros [|]; [respects_solve|]. first_call. intros profile.
  destruct (RoutingService.GetAdapter _ _) as [ad|] eqn:Had; [|respects_solve].
  apply (respects_after _ (λ a w, owned stepID (att_ID a) w ∧ att_Result a = None));
    [auto with go|by apply createAttempt_owned|].
  intros a s [Hown Hnew].
  assert (∀ m : M Daemon loop_result, respects (while_owned (att_ID a)) m →
    writes (store s) (store (m s).2)) as Hw by (intros m Hm; by apply Hm).
  apply Hw. clear Hw. respects_step; [apply writes_while_owned; respects_solve|].
  eapply respects_seq; [apply _| |apply executeAttempt_tried|].
  { respects_step. apply attempt_while_owned.
    apply executeAttempt_writes; [done| |by exists profile].
    split; [done|]. unfold att_files. rewrite Hnew. by left. }
  intros executed Hst. respects_step; [apply writes_while_owned; respects_solve|].
  destruct executed as [[[st1 r1] e1]|err]; [|apply writes_while_owned; respects_solve].
  respects_step; [apply logBenchmark_while_owned|]. apply writes_while_owned.
  apply same_step_ID in Hst. cbn in Hst.
  assert (∀ k, respects writes (attempt_loop cfg adapters left k c runID chain p
    (st1, r1, e1, att_ID a))) by (intros k; apply IH; cbn; congruence).
  respects_solve.
Qed.

(** The loop returns the step it was given. *)
Lemma attempt_loop_same left n c chain p acc st0 :
  same_step st0 acc.1.1.1 →
  ensures (λ x _, same_step st0 x.1.1.1) (attempt_loop cfg adapters left n c runID chain p acc).
Proof using Type.
  assert (∀ acc : loop_result, same_step st0 acc.1.1.1 →
    ensures (λ x _, same_step st0 x.1.1.1) (ret (W:=Daemon) acc)) as Hret.
  { intros acc' Ha. by apply (ensures_ret (λ x : loop_result, same_step st0 x.1.1.1)). }
  revert n acc. induction left as [|left IH]; intros n [[[st r] e] aid] Hs; cbn in Hs |- *;
    [by apply Hret|].
  apply ensures_bind. intros [|]; [by apply Hret|]. apply ensures_bind. intros profile.
  destruct (RoutingService.GetAdapter _ _) as [ad|]; [|apply failStep_ensures].
  do 2 (apply ensures_bind; intros ?).
  eapply ensures_seq; [apply executeAttempt_tried|].
  intros [[[st1 r1] e1]|err] Hst; [|ensures_solve]. apply ensures_bind. intros ?.
  do 2 (apply ensures_bind; intros ?). cbn in Hst.
  assert (same_step st0 st1) by (by etrans).
  repeat case_match; first [by apply Hret|by apply IH].
Qed.

Lemma runAttemptLoop_then {A} c st chain (f : loop_result → M Daemon A) :
  step_ID st = stepID → (∀ x, step_ID x.1.1.1 = stepID → respects writes (f x)) →
  respects writes (bind (runAttemptLoop cfg adapters policies c runID st chain) f).
Proof using Type.
  intros Hs Hf. unfold runAttemptLoop.
  eapply respects_seq; [apply _|by apply attempt_loop_writes| |].
  { apply (attempt_loop_same _ _ _ _ _ _ st). reflexivity. }
  intros x Hx%same_step_ID. apply Hf. congruence.
Qed.

Lemma finalizeEarlyAbort_writes st :
  step_ID st = stepID → respects writes (finalizeEarlyAbort runID st).
Proof using Type. intros Hs. unfold finalizeEarlyAbort. respects_solve. Qed.
#[local] Hint Resolve finalizeEarlyAbort_writes : go.

Lemma dispatch_writes c dispatchCtx step :
  step_ID step = stepID →
  respects writes (dispatchPreparedStep cfg adapters policies c dispatchCtx runID step).
Proof using Type.
  intros Hs. unfold dispatchPreparedStep. respects_step; [|auto with go].
  first_call. intros [|]; [auto with go|].
  assert (∀ reason, respects writes (stop <- interrupted dispatchCtx runID ;;
    if stop then finalizeEarlyAbort runID step else failStep dispatchCtx step reason)) as Hno
    by (intros; respects_solve).
  destruct (RoutingService.BuildHeuristicChain _ _) as [[|p chain]|err]; [apply Hno| |apply Hno].
  first_call. intros t. first_call. intros [[]|err]; [|respects_solve].
  apply runAttemptLoop_then; [exact Hs|]. intros [[[st r] e] a] Hst. cbn in Hst. respects_solve.
Qed.
End Dispatch.

#[export] Hint Resolve dispatch_isAbortRequested_writes clearExecution_writes
  dispatch_UpdateState_writes GatesRepo_Create_writes
  AttemptsRepo_Create_writes failStep_writes interrupted_writes
  dispatch_live_ctx_writes createAttempt_writes finalizeStep_writes reconcileRunState_writes
  finalizeEarlyAbort_writes : go.
