(* ===== verification/Demo.v ===== *)
(** * A concrete world, for the examples

    A host whose commands succeed, one adapter that answers at once, a configuration and a
    database with one run, and the step dispatched in it. *)
From S2P Require Export RunService.
Open Scope go_scope.

Definition demo_host : Host_ := {|
  run_git := λ _ _ _ fs, (Some (MkCmdResult "" None false), fs);
  run_shell := λ _ _ _ fs, (Some (ShellOk, ("", "")), fs);
  getenv := λ _, "";
  getwd := "/";
  file_size := λ _, 0%Z;
  sha256_hex := λ _, "";
  DetectContentType := λ _, "text/plain";
  mod_time := λ _ _, 0%Z;
  short_copy := λ _ _, "";
  decode_workspace_json := λ _, None;
  decode_grove_yaml := λ _, None;
  decode_groverc_json := λ _, None;
|}.

Lemma demo_host_returns : host_returns (H:=demo_host).
Proof. split; intros; by eexists. Qed.

(** The adapter reports a result of state [x]. *)
Definition demo_adapter (x : StepState) : Adapter := {|
  adapter_Name := "codex";
  adapter_Capabilities := [];
  adapter_Start := λ _ _ _ _ _ _ fs, (Some (inl tt), fs);
  adapter_Poll := λ _ _ _ fs, (Some (inl false), fs);
  adapter_Cancel := λ _ _ _ fs, (Some (inl tt), fs);
  adapter_CollectArtifacts := λ _ _ _ _ fs, (Some (inl []), fs);
  adapter_NormalizeResult := λ _ _ _ _ fs,
    (Some (inl (Some (ResultSpec_zero <| rs_State := x |> <| rs_Summary := "s" |>))), fs);
|}.

Definition demo_adapters (x : StepState) : gmap string Adapter := {["codex" := demo_adapter x]}.

Definition demo_cfg : Config := MkConfig "/var/artifacts" "/var/workspaces" "/repo".

(** Nobody asks for an abort, resp. somebody does at every moment. *)
Definition no_aborts : Abort := λ _, false.

(** Each attempt sees one tick of its poll, and would then be cancelled. *)
Definition demo_schedule : Schedule := λ _, [Tick; CtxDone].

(** A run without steps, started by [StartRun]. *)
Definition fresh_run : Run := MkRun "r1" "p" "" "" "" RunStateRunning 1 1 "" [].
Definition fresh_step : Step :=
  MkStep "s1" "phase-execution-r1" "t" "g" StepStateDispatching "" "codex" 0 [] "" 1 1 None None.
Definition fresh_db : DB :=
  MkDB [fresh_run] [MkPhase "phase-execution-r1" "r1" "Execution" 1 1 1 []]
    [StepsRepo.row_of fresh_step] [] [] [] [] [] [].
Definition fresh_daemon : Daemon :=
  MkDaemon fresh_db ∅ {["r1" := MkExecution "s1" "" None false]} [].
