(* ===== verification/RecoveryFacts.v ===== *)
(** * Recovery: dry runs, and two limits of what recovery restores *)
From S2P Require Export RunServiceFacts Paths Demo.
Open Scope go_scope.
Import RecoveryService.

(** C25: a dry run of a recovery changes nothing, whatever the run, the database and the host
    do, and it reports the state the run is in. *)
Theorem RecoverRun_dry_run `{Env} `{Host_} cfg c runID s :
  let '(o, s') := RecoverRun cfg c runID true s in
  store s' = store s ∧
  ∀ rep, o = Ok rep → rep_DryRun rep = true ∧
    Some (rep_Status rep) = (RunState_text ∘ run_State <$> tget (TrimSpace runID) (db_runs (db_of s))).
Proof.
  assert (respects eq (RecoverRun cfg c runID true)) as Heq.
  { unfold RecoverRun. cbv beta iota. respects_solve. }
  assert (wp (RecoverRun cfg c runID true) (λ o _, ∀ rep, o = Ok rep → rep_DryRun rep = true ∧
    Some (rep_Status rep) = (RunState_text ∘ run_State <$> tget (TrimSpace runID) (db_runs (db_of s)))) s)
    as Hwp.
  { unfold RecoverRun. case_decide; [by intros ?|]. repeat wp_call.
    destruct (tget _ _) as [run|]; [|by intros ?].
    destruct (RunState_IsTerminal _); [by intros rep [= <-]|]. repeat wp_call.
    case_decide; by intros rep [= <-]. }
  specialize (Heq s). unfold wp in Hwp. by destruct (RecoverRun cfg c runID true s).
Qed.

(** ** The sweep of a start *)

(** One run was swept: it is settled, and nothing of another run has changed. *)
Record swept_one (id : string) (d d' : DB) : Prop := {
  so_settled : run_settled d' id;
  so_consistent : run_consistent d' id;
  so_keys : map row_key (db_steps d') = map row_key (db_steps d);
  so_runs q : q ≠ id → tget q (db_runs d') = tget q (db_runs d);
  so_rows q : q ≠ id → StepsRepo.rows_of d' q = StepsRepo.rows_of d q;
}.

Lemma run_settled_rows d q :
  run_settled d q ↔ ∀ row, row ∈ StepsRepo.rows_of d q → settled (srow_state row) = true.
Proof.
  unfold run_settled, StepsRepo.rows_of. setoid_rewrite elem_of_sort_by.
  setoid_rewrite elem_of_twhere. naive_solver.
Qed.

Lemma swept_other id d d' q : swept_one id d d' → q ≠ id →
  run_settled d q ∧ run_consistent d q → run_settled d' q ∧ run_consistent d' q.
Proof.
  intros Hs Hq. rewrite !run_settled_rows. unfold run_consistent, steps_of.
  by rewrite (so_rows _ _ _ Hs q Hq), (so_runs _ _ _ Hs q Hq).
Qed.

Lemma swept_store id d d' r r' :
  unsettled_in id d [] d' → tget id (db_runs d') = Some r →
  run_State r' = deriveRunState (steps_of d' id) →
  swept_one id d (store_runs (tupdate id (RunsRepo.set_state r') (db_runs d')) d').
Proof.
  intros Hinv Hr Hst. split.
  - exact (unsettled_done _ _ _ Hinv).
  - by eapply run_consistent_update.
  - apply Hinv.
  - intros q Hq. db_simpl. rewrite tget_update, decide_False by done. by rewrite (ui_runs _ _ _ _ Hinv).
  - intros q Hq. by apply (ui_others _ _ _ _ Hinv).
Qed.

Section Sweep.
Context `{Env} `{Host_} (cfg : Config) (c : ctx) (Hc : reliable c) (Hhost : host_returns).

Lemma wp_sweep_run r r0 s :
  keys_unique (db_steps (db_of s)) → tget (run_ID r) (db_runs (db_of s)) = Some r0 →
  wp (sweep_run cfg c r) (λ o s', o = Ok tt ∧ swept_one (run_ID r) (db_of s) (db_of s')) s.
Proof using Hc.
  intros Hu Hr. unfold sweep_run, CheckLock. do 3 wp_step.
  apply (wp_any eq); [apply ReadFile_returns|by apply (ReadFile_reads eq)| |];
    intros x s1 Hs1; cbn [then_]; wp_step; wp_step.
  all: assert (db_of s1 = db_of s) as Hdb by (unfold db_of; by rewrite Hs1).
  all: eapply wp_mono; [apply wp_reconcileRunSteps; [done|by rewrite Hdb]|].
  all: rewrite Hdb; intros o s2 ([notes ->] & Hruns & Hset & Hinv); cbn [then_]; repeat wp_call.
  all: assert (tget (run_ID r) (db_runs (db_of s2)) = Some r0) as Hr2 by by rewrite Hruns.
  all: cbn [run_ID update_field]; rewrite Hr2; cbn [then_]; split; [done|].
  all: db_norm; by eapply swept_store.
Qed.

(** What is known while the runs [l] are still to be swept. *)
Record sweeping (d : DB) (l : list Run) (d' : DB) : Prop := {
  sw_keys : map row_key (db_steps d') = map row_key (db_steps d);
  sw_nodup : NoDup (map run_ID l);
  sw_left r : r ∈ l → r ∈ db_runs d ∧ run_State r = RunStateRunning ∧
    tget (run_ID r) (db_runs d') = Some r;
  sw_swept r : r ∈ db_runs d → run_State r = RunStateRunning → run_ID r ∉ map run_ID l →
    run_settled d' (run_ID r) ∧ run_consistent d' (run_ID r);
  sw_others r : r ∈ db_runs d → run_State r ≠ RunStateRunning →
    tget (run_ID r) (db_runs d') = Some r ∧
    StepsRepo.rows_of d' (run_ID r) = StepsRepo.rows_of d (run_ID r);
}.

Lemma sweeping_next d r l d1 d2 :
  keys_unique (db_runs d) → sweeping d (r :: l) d1 → swept_one (run_ID r) d1 d2 → sweeping d l d2.
Proof using Type.
  intros Hu Hw Ho. pose proof (sw_nodup _ _ _ Hw) as [Hr Hnd]%NoDup_cons.
  destruct (sw_left _ _ _ Hw r) as (Hin & Hrun & _); [constructor|].
  assert (∀ x, x ∈ db_runs d → run_ID x = run_ID r → x = r) as Huniq.
  { intros x Hx Heq. pose proof (tget_unique _ _ _ Hu Hx eq_refl) as E1.
    pose proof (tget_unique _ _ _ Hu Hin eq_refl) as E2. change (row_key x) with (run_ID x) in E1.
    change (row_key r) with (run_ID r) in E2. congruence. }
  split.
  - rewrite (so_keys _ _ _ Ho). apply Hw.
  - exact Hnd.
  - intros x Hx. destruct (sw_left _ _ _ Hw x) as (? & ? & Hget); [by constructor|].
    split; [done|]. split; [done|]. rewrite (so_runs _ _ _ Ho); [done|].
    intros Heq. apply Hr. rewrite <- Heq. apply list_elem_of_fmap. by exists x.
  - intros x Hx Hst Hnot. destruct (decide (run_ID x = run_ID r)) as [->|Hne].
    { split; apply Ho. }
    eapply swept_other; [done..|]. apply (sw_swept _ _ _ Hw); [done..|].
    cbn. by intros [|]%elem_of_cons.
  - intros x Hx Hst. destruct (sw_others _ _ _ Hw x Hx Hst) as [Hget Hrows].
    assert (run_ID x ≠ run_ID r) as Hne by (intros Heq%Huniq; [congruence|done]).
    by rewrite (so_runs _ _ _ Ho), (so_rows _ _ _ Ho).
Qed.

Lemma sweeping_start d :
  keys_unique (db_runs d) →
  sweeping d (sort_by (desc run_CreatedAt)
    (twhere (λ r, bool_decide (run_State r = RunStateRunning)) (db_runs d))) d.
Proof using Type.
  intros Hu. assert (∀ r, r ∈ sort_by (desc run_CreatedAt)
    (twhere (λ r, bool_decide (run_State r = RunStateRunning)) (db_runs d)) ↔
    run_State r = RunStateRunning ∧ r ∈ db_runs d) as Hl.
  { intros r. by rewrite elem_of_sort_by, elem_of_twhere, bool_decide_eq_true. }
  split; [done| | | |].
  - rewrite (Permutation_map run_ID (sort_by_perm _ _)).
    exact (keys_unique_where _ _ Hu).
  - intros r [Hst Hr]%Hl. split; [done|]. split; [done|]. by apply (tget_unique _ _ _ Hu).
  - intros r Hr Hst []. apply list_elem_of_fmap. exists r. split; [done|]. by apply Hl.
  - intros r Hr _. split; [by apply (tget_unique _ _ _ Hu)|done].
Qed.

(** The clean-up that follows touches no table, and its failures are not reported. *)
Lemma wp_tried {A} (m : M Daemon A) Q s :
  returns m → respects same_db m →
  (∀ x s', db_of s' = db_of s → Q (Ok x) s') → wp (try m) Q s.
Proof using Type.
  intros Hret Hdb HQ. apply wp_try, (wp_any same_db); [done..| |]; intros x s' Hs'; by apply HQ.
Qed.
Lemma wp_ignored {A} (m : M Daemon A) Q s :
  returns m → respects same_db m →
  (∀ s', db_of s' = db_of s → Q (Ok tt) s') → wp (ignore m) Q s.
Proof using Type.
  intros Hret Hdb HQ. apply wp_ignore, (wp_any same_db); [done..| |]; intros x s' Hs'; by apply HQ.
Qed.

Lemma wp_CheckLock repo Q s :
  (∀ owner s', db_of s' = db_of s → Q (Ok owner) s') → wp (CheckLock repo) Q s.
Proof using Type.
  intros HQ. unfold CheckLock. wp_step.
  apply wp_tried; [apply ReadFile_returns|auto with go|]. intros x s' Hs'. by apply HQ.
Qed.

Lemma wp_cleanupOrphans s :
  wp (cleanupOrphans cfg c) (λ o s', o = Ok tt ∧ db_of s' = db_of s) s.
Proof using Hhost.
  unfold cleanupOrphans. wp_step. apply wp_tried; [by apply ListWorktrees_returns|auto with go|].
  intros [wts|e] s1 Hs1; cbn [then_]; [|by wp_step]. wp_step.
  apply (wp_loop _ (λ _ _ s', db_of s' = db_of s)); [| |done].
  - intros [] wt l s2 Hs2. destruct (in_workspace_root cfg wt); [|by wp_step]. wp_step.
    apply wp_CheckLock. intros owner s3 Hs3. cbn [then_]. case_decide; [wp_step; congruence|].
    apply wp_ignored; [by apply RemoveWorktree_returns|auto with go|]. intros; congruence.
  - intros [] s2 Hs2. cbn [then_]. wp_step. apply wp_CheckLock. intros owner s3 Hs3. cbn [then_].
    assert (∀ s4, db_of s4 = db_of s3 →
      wp (ignore (Remove (lockPath (cfg_workspaceRoot cfg))))
        (λ o s', o = Ok tt ∧ db_of s' = db_of s) s4) as Hrm.
    { intros s4 Hs4. apply wp_ignored; [apply Remove_returns|auto with go|].
      intros; split; congruence. }
    case_decide; [wp_step; split; congruence|]. wp_step.
    apply wp_tried; [auto with go|by respects_solve|].
    intros [[run|]|e] s4 Hs4; cbn [then_]; [|by apply Hrm..].
    destruct (RunState_IsTerminal _); [by apply Hrm|wp_step; split; congruence].
Qed.

(** C8: the sweep of a start settles every run that was running when the daemon stopped: when the
    database does not fail, its primary keys are unique and the [git] commands return, it ends without an error, no step of
    such a run is left active, and the run is in the state derived from its steps. The other runs
    and their steps are as before. This holds whatever the host and the evidence files do. *)
Theorem SweepStaleRuns_settles s :
  DB_wf (db_of s) →
  wp (SweepStaleRuns cfg c) (λ o s', o = Ok tt ∧ ∀ run, run ∈ db_runs (db_of s) →
    if decide (run_State run = RunStateRunning)
    then run_settled (db_of s') (run_ID run) ∧ run_consistent (db_of s') (run_ID run)
    else tget (run_ID run) (db_runs (db_of s')) = Some run ∧
         StepsRepo.rows_of (db_of s') (run_ID run) = StepsRepo.rows_of (db_of s) (run_ID run)) s.
Proof using Hc Hhost.
  intros Hwf. pose proof (wf_runs _ Hwf) as Hu. pose proof (wf_steps _ Hwf) as Hus.
  unfold SweepStaleRuns, RunsRepo.ListByState. repeat wp_step; [by rewrite Hc in *|].
  change (view (store s)) with (db_of s).
  apply (wp_loop _ (λ _ l s', sweeping (db_of s) l (db_of s')));
    [| |by apply sweeping_start].
  - intros [] r l s1 Hw. eapply wp_mono; [apply (wp_sweep_run r r)|].
    + unfold keys_unique. by rewrite (sw_keys _ _ _ Hw).
    + by apply (sw_left _ _ _ Hw); constructor.
    + intros o s2 [-> Ho]. by eapply sweeping_next.
  - intros [] s1 Hw. cbn [then_]. eapply wp_mono; [apply wp_cleanupOrphans|].
    intros o s2 [-> ->]. split; [done|]. intros run Hrun. case_decide.
    + by apply (sw_swept _ _ _ Hw); [..|apply not_elem_of_nil].
    + by apply (sw_others _ _ _ Hw).
Qed.
End Sweep.

(** ** A recovered step that waits for an approval *)

#[local] Existing Instances quiet_env demo_host.

(** The daemon stopped after an adapter had reported that it needs an approval, and before the
    dispatch ended. *)
Definition stopped_daemon : Daemon :=
  MkDaemon (MkDB [fresh_run] [MkPhase "phase-execution-r1" "r1" "Execution" 1 1 1 []]
    [StepsRepo.row_of (fresh_step <| step_State := StepStateRunning |>)]
    [AttemptsRepo.row_of (MkAttempt "s1-a1" "s1" 1 "codex" StepState_zero
       (Some (ResultSpec_zero <| rs_State := StepStateNeedsApproval |>)) 1 1)]
    [] [] [] [] []) ∅ ∅ [].

Definition recovered : st Daemon := (RecoverRun demo_cfg Request "r1" false (St stopped_daemon 0)).2.
Definition approved : outcome unit * st Daemon :=
  GateService.Approve Request "gate-recovery-s1" recovered.

Example RecoverRun_settles_witness :
  run_settled (db_of recovered) "r1" ∧ run_consistent (db_of recovered) "r1".
Proof.
  edestruct (RecoverRun_settles demo_cfg Request "r1" fresh_run (St stopped_daemon 0))
    as (Hset & Hcons & _); [apply quiet_reliable| |done|reflexivity|reflexivity|by split].
  split; apply (bool_decide_eq_true_1 _); vm_compute; reflexivity.
Defined.

Example SweepStaleRuns_settles_witness :
  run_settled (db_of (SweepStaleRuns demo_cfg Request (St stopped_daemon 0)).2) "r1" ∧
  run_consistent (db_of (SweepStaleRuns demo_cfg Request (St stopped_daemon 0)).2) "r1".
Proof.
  edestruct (SweepStaleRuns_settles demo_cfg Request (quiet_reliable _) demo_host_returns
    (St stopped_daemon 0)) as [_ Hr].
  - split; apply (bool_decide_eq_true_1 _); vm_compute; reflexivity.
  - apply (Hr fresh_run). by constructor.
Defined.

(** Approving the gate of this recovered step does not let its run go on: approving it succeeds
    and restores the state of the result the gate was created for, so the step needs an approval
    again and the run is paused, with no pending gate left to approve or reject. *)
Example recovered_gate_never_unlocks :
  map gate_State (db_gates (db_of recovered)) = [GateStatePending] ∧
  let '(o, s) := approved in
  o = Ok tt ∧
  srow_state <$> tget "s1" (db_steps (db_of s)) = Some StepStateNeedsApproval ∧
  run_State <$> tget "r1" (db_runs (db_of s)) = Some RunStatePausedForGate ∧
  Forall (λ g, gate_State g ≠ GateStatePending) (db_gates (db_of s)).
Proof. vm_compute. split_and!; try done. repeat constructor. discriminate. Qed.

(** ** Worktrees of another root *)

(** C32: the clean-up of orphaned worktrees takes an absolute path for one of the workspace root's
    exactly when the elements of the root begin those of the path, but for the last one, which
    in the path may go on: it compares the two paths byte by byte without a separator. For the
    root [/var/workspaces] it considers [/var/workspaces-2/r9] its own, a worktree of another
    root. *)
Theorem in_workspace_root_spec `{Host_} cfg parent name wt :
  IsAbs (cfg_workspaceRoot cfg) = true → IsAbs wt = true →
  path_elements (cfg_workspaceRoot cfg) = parent ++ [name] →
  in_workspace_root cfg wt = true ↔
  ∃ sfx rest, path_elements wt = parent ++ (name +:+ sfx) :: rest.
Proof.
  intros Hroot Hwt Hel. pose proof (elements_no_slash (cfg_workspaceRoot cfg)) as Hns.
  assert (∀ p, IsAbs p = true → abs_clean p = String slash (strings_Join (path_elements p) "/"))
    as Habs.
  { intros p Hp. unfold abs_clean. rewrite IsAbs_Clean, Hp, Clean_idemp. unfold Clean. by rewrite Hp. }
  unfold in_workspace_root. rewrite HasPrefix_spec, !Habs, Hel in * by done. split.
  - intros [t [= Ht]]. destruct (split_Join_app parent name t Hns) as (h & rest & _ & Hsplit).
    exists h, rest. rewrite <- Hsplit, <- Ht. symmetry. apply (split_Join slash); [|apply elements_no_slash].
    intros Hnil. rewrite Hnil in Ht. symmetry in Ht.
    assert (strings_Join (parent ++ [name]) "/" = "") as Hempty
      by (destruct (strings_Join (parent ++ [name]) "/"); [done|discriminate]).
    pose proof (elements_plain _ Hroot) as Hplain. rewrite Hel in Hplain.
    destruct (parent ++ [name]) as [|e l] eqn:Hl; [by destruct parent|].
    apply of_elems_inj_nonempty in Hempty as ->. inversion_clear Hplain as [|? ? [? _]]. done.
  - intros (sfx & rest & ->). exists (strings_Join (sfx :: rest) "/"). by rewrite Join_sibling.
Qed.

Example in_workspace_root_spec_witness :
  in_workspace_root demo_cfg "/var/workspaces-2/r9" = true.
Proof.
  apply (in_workspace_root_spec demo_cfg ["var"] "workspaces"); [reflexivity..|].
  exists "-2", ["r9"]. reflexivity.
Defined.
