(* ===== verification/Dispatch.v ===== *)
(** * The dispatch of a step: what it leaves alone, when it returns, how it ends

    The properties of [dispatchPreparedStep], the body of the goroutine that executes a step,
    from the transition relation of [Effects] and the facts of [RunServiceFacts]. *)
From stdpp Require Import relations.
From S2P Require Export Effects Demo.
Open Scope go_scope.
Import RunService.

(** ** What a dispatch leaves alone *)

(** Nothing of another run or step has changed, and no record was removed or rewritten but
    those of the step itself. *)
Record confined (runID stepID : string) (w w' : Daemon) : Prop := {
  cf_runs id : id ≠ runID → tget id (db_runs (d_db w')) = tget id (db_runs (d_db w));
  cf_phases : db_phases (d_db w') = db_phases (d_db w);
  cf_steps id : id ≠ stepID → tget id (db_steps (d_db w')) = tget id (db_steps (d_db w));
  cf_attempts id row : tget id (db_attempts (d_db w)) = Some row → arow_step_id row ≠ stepID →
    tget id (db_attempts (d_db w')) = Some row;
  cf_gates id gate : tget id (db_gates (d_db w)) = Some gate →
    tget id (db_gates (d_db w')) = Some gate;
  cf_artifacts id art : tget id (db_artifacts (d_db w)) = Some art →
    tget id (db_artifacts (d_db w')) = Some art;
  cf_validations k v : tget k (db_validations (d_db w)) = Some v →
    tget k (db_validations (d_db w')) = Some v;
  cf_settings : db_settings (d_db w') = db_settings (d_db w);
  cf_goroutines : d_goroutines w' = d_goroutines w;
  cf_executions r : r ≠ runID → d_executions w' !! r = d_executions w !! r;
}.

#[export] Instance confined_preorder runID stepID : PreOrder (confined runID stepID).
Proof.
  split; [by split|]. intros x y z Hxy Hyz. split; intros.
  1-3, 8-10: etrans; [by apply Hyz|by apply Hxy].
  all: apply Hyz; [|done..]; by apply Hxy.
Qed.

Lemma tget_appended {R K} `{EqDecision K} `{Keyed R K} (k : K) (t t' : list R) r :
  tget k t = Some r → tget k (t ++ t') = Some r.
Proof. intros Hr. by rewrite tget_app, Hr. Qed.
#[export] Hint Resolve tget_appended : go.

Lemma attempt_write_confined `{Abort} adapters runID stepID a w w' :
  owned stepID a w → attempt_write adapters runID stepID a w w' → confined runID stepID w w'.
Proof.
  intros (row0 & Hrow0 & Hst0) Hw.
  destruct Hw as [w w' (Hdb & Hex & Hgo)|w ad|w n _|w st _|w res t _|w art _ _|w v _ _].
  - split; rewrite ?Hdb, ?Hex, ?Hgo; auto.
  - split; cbn; auto. intros r Hr. by rewrite lookup_alter_ne.
  - split; cbn; auto. intros r Hr. by rewrite lookup_alter_ne.
  - split; cbn; auto. intros id Hid. rewrite tget_update by done. by rewrite decide_False.
  - split; cbn; auto. intros id row Hrow Hne. rewrite tget_update by done.
    rewrite decide_False; [done|]. intros ->. congruence.
  - split; cbn; auto with go.
  - split; cbn; auto with go.
Qed.

Lemma dispatch_write_confined `{Abort} adapters runID stepID w w' :
  dispatch_write adapters runID stepID w w' → confined runID stepID w w'.
Proof.
  intros Hw. destruct Hw as [w w' a Hown Hw|w st _|w n _|w row _ _ _|w g _ _ _ _|w b _ _|w run Hid _|w].
  - by eapply attempt_write_confined.
  - split; cbn; auto. intros id Hid. rewrite tget_update by done. by rewrite decide_False.
  - split; cbn; auto. intros r Hr. by rewrite lookup_alter_ne.
  - split; cbn; auto with go.
  - split; cbn; auto with go.
  - split; cbn; auto.
  - split; cbn; auto. intros id Hne. rewrite tget_update by done. by rewrite decide_False.
  - split; cbn; auto. intros r Hr. by rewrite lookup_delete_ne.
Qed.

Section Properties.
Context `{Env} `{Host_} `{Abort} `{Schedule}.
Context (cfg : Config) (adapters : gmap string Adapter) (policies : PolicyRegistry.t).

(** C1: when all that the other goroutines do to the state meanwhile is to request the abort of
    the run, a dispatch refines the transition relation [dispatch_write]: however it ends, and
    whatever the environment, the host and the adapters do, its effect is a sequence of such
    requests and of these writes: to the state of its own step; new attempts of that step; the
    result, the artifacts, the validations and the benchmark of an attempt of that step; pending
    gates on that step; the state of its run, derived from the steps at that moment; the
    registered execution of its run; and to the files. *)
Theorem dispatch_refines c dispatchCtx runID step s :
  rtc (dispatch_write adapters runID (step_ID step)) (store s)
    (store (dispatchPreparedStep cfg adapters policies c dispatchCtx runID step s).2).
Proof. by apply dispatch_writes. Qed.

(** C4: a dispatch is confined to its run and step, however it ends, when all that the other
    goroutines do to the state meanwhile is to request the abort of the run: the other runs, the
    other steps and their attempts, every phase, every setting, every gate, artifact and
    validation that was there before, the executions registered for other runs and the dispatches
    that have not begun are unchanged after it. *)
Theorem dispatch_confined c dispatchCtx runID step s :
  confined runID (step_ID step) (store s)
    (store (dispatchPreparedStep cfg adapters policies c dispatchCtx runID step s).2).
Proof.
  pose proof (dispatch_writes cfg adapters policies runID _ c dispatchCtx step eq_refl s) as Hw.
  induction Hw as [|x y z Hxy Hyz IH]; [reflexivity|].
  etrans; [by eapply dispatch_write_confined|done].
Qed.
End Properties.

(** ** How many attempts a dispatch makes *)

(** The identifier, the step and the number of each attempt. *)
Definition idents (w : Daemon) : list (string * string * Z) :=
  map (λ r, (arow_id r, arow_step_id r, arow_number r)) (db_attempts (d_db w)).

(** Attempts of a step with these identifiers, numbered from [n] on. *)
Definition numbered (stepID : string) (n : nat) (ids : list string) : list (string * string * Z) :=
  imap (λ i id, (id, stepID, Z.of_nat (n + i))) ids.

(** A computation adds at most [k] attempts of the step, numbered from [n] on. *)
Definition adds {A} (stepID : string) (n k : nat) (m : M Daemon A) : Prop := ∀ s,
  ∃ ids, length ids ≤ k ∧ idents (store (m s).2) = idents (store s) ++ numbered stepID n ids.

Definition same_idents (w w' : Daemon) : Prop := idents w' = idents w.
#[export] Instance same_idents_preorder : PreOrder same_idents.
Proof. unfold same_idents. split; [done|]. intros ? ? ? ? ?. congruence. Qed.

Lemma adds_same {A} stepID n k (m : M Daemon A) : respects same_idents m → adds stepID n k m.
Proof. intros Hm s. exists []. rewrite app_nil_r. split; [simpl; lia|apply Hm]. Qed.

Lemma adds_after {A B} stepID n k (m : M Daemon A) (f : A → M Daemon B) :
  respects same_idents m → (∀ a, adds stepID n k (f a)) → adds stepID n k (bind m f).
Proof.
  intros Hm Hf s. unfold bind. specialize (Hm s). unfold same_idents in Hm.
  destruct (m s) as [[a|e|p|] s1]; simpl in *; rewrite <- Hm;
    [apply Hf|exists []; rewrite app_nil_r; split; [simpl; lia|done]..].
Qed.

Lemma adds_seq {A B} (P : A → Prop) stepID n k (m : M Daemon A) (f : A → M Daemon B) :
  respects same_idents m → ensures (λ a _, P a) m → (∀ a, P a → adds stepID n k (f a)) →
  adds stepID n k (bind m f).
Proof.
  intros Hm Hp Hf s. unfold bind. specialize (Hm s). specialize (Hp s). unfold same_idents in Hm.
  destruct (m s) as [[a|e|p|] s1]; simpl in *; rewrite <- Hm;
    [by eapply Hf, Hp|exists []; rewrite app_nil_r; split; [simpl; lia|done]..].
Qed.

Lemma adds_before {A B} stepID n k (m : M Daemon A) (f : A → M Daemon B) :
  adds stepID n k m → (∀ a, respects same_idents (f a)) → adds stepID n k (bind m f).
Proof.
  intros Hm Hf s. unfold bind. specialize (Hm s).
  destruct (m s) as [[a|e|p|] s1]; simpl in *; try done. unfold respects, same_idents in Hf.
  by rewrite Hf.
Qed.

(** One attempt, and the ones numbered after it. *)
Lemma adds_one {A B} (P : A → Prop) stepID n k (m : M Daemon A) (f : A → M Daemon B) :
  (∀ s, match m s with
        | (Ok a, s') => P a ∧
            ∃ id, idents (store s') = idents (store s) ++ [(id, stepID, Z.of_nat n)]
        | (_, s') => idents (store s') = idents (store s)
        end) →
  (∀ a, P a → adds stepID (S n) k (f a)) → adds stepID n (S k) (bind m f).
Proof.
  intros Hm Hf s. unfold bind. specialize (Hm s).
  destruct (m s) as [[a|e|p|] s1]; simpl in *;
    [|exists []; rewrite app_nil_r; split; [simpl; lia|done]..].
  destruct Hm as [Ha [id Hid]]. destruct (Hf a Ha s1) as (ids & Hlen & Hids).
  exists (id :: ids). split; [simpl; lia|]. rewrite Hids, Hid, <- app_assoc. f_equal.
  unfold numbered. cbn. rewrite Nat.add_0_r. f_equal. apply imap_ext. intros i x _. cbn.
  by rewrite <- plus_n_Sm.
Qed.

Lemma attempt_write_same `{Abort} adapters r st a w w' :
  attempt_write adapters r st a w w' → same_idents w w'.
Proof.
  unfold same_idents, idents. intros [x x' [Hdb _]| | | | | | ]; try done.
  - by rewrite Hdb.
  - cbn. unfold tupdate. rewrite map_map. apply map_ext. intros row. by case_decide.
Qed.

Section Attempts.
Context `{Env} `{Host_} `{Abort} `{Schedule}.
Context (cfg : Config) (adapters : gmap string Adapter) (policies : PolicyRegistry.t).

Lemma same_db_same_idents {A} (m : M Daemon A) : respects same_db m → respects same_idents m.
Proof. apply respects_mono. unfold same_db, same_idents, idents. by intros ? ? ->. Qed.
#[local] Hint Resolve same_db_same_idents : go.

Ltac table_kept :=
  respects_solve; apply respects_exec_in; [apply _|]; intros w;
  unfold sql_insert; repeat case_match; done.

Lemma StepsRepo_UpdateState_same c st : respects same_idents (StepsRepo.UpdateState c st).
Proof. unfold StepsRepo.UpdateState. table_kept. Qed.
Lemma RunsRepo_UpdateState_same c run : respects same_idents (RunsRepo.UpdateState c run).
Proof. unfold RunsRepo.UpdateState. table_kept. Qed.
Lemma GatesRepo_Create_same c g : respects same_idents (GatesRepo.Create c g).
Proof. unfold GatesRepo.Create. table_kept. Qed.
Lemma BenchmarksRepo_Save_same c b : respects same_idents (BenchmarksRepo.Save c b).
Proof. unfold BenchmarksRepo.Save. table_kept. Qed.
#[local] Hint Resolve StepsRepo_UpdateState_same RunsRepo_UpdateState_same
  GatesRepo_Create_same BenchmarksRepo_Save_same : go.

Lemma failStep_same {A} c st m : respects same_idents (failStep (A:=A) c st m).
Proof. unfold failStep. respects_solve. Qed.
Lemma logBenchmark_same p a i r z b : respects same_idents (logBenchmark p a i r z b).
Proof. unfold logBenchmark. respects_solve. Qed.
Lemma interrupted_same c i : respects same_idents (interrupted c i).
Proof. unfold interrupted. respects_solve. Qed.
Lemma finalizeStep_same c i st r e a : respects same_idents (finalizeStep c i st r e a).
Proof. unfold finalizeStep. respects_solve. Qed.
Lemma reconcileRunState_same c i : respects same_idents (reconcileRunState c i).
Proof. unfold reconcileRunState. respects_solve. Qed.
#[local] Hint Resolve failStep_same logBenchmark_same interrupted_same finalizeStep_same
  reconcileRunState_same : go.
Lemma live_ctx_same c : respects same_idents (live_ctx c).
Proof. unfold live_ctx. respects_solve. Qed.
#[local] Hint Resolve live_ctx_same : go.
Lemma finalizeEarlyAbort_same i st : respects same_idents (finalizeEarlyAbort i st).
Proof. unfold finalizeEarlyAbort. respects_solve. Qed.
#[local] Hint Resolve finalizeEarlyAbort_same : go.

Lemma executeAttempt_keeps_attempts c i st a id ad p :
  adapters !! id = Some ad → att_Result a = None →
  respects same_idents (executeAttempt cfg c i st a ad p).
Proof.
  intros Had Ha s.
  assert (own adapters (att_ID a) a) as Hown
    by (split; [done|]; unfold att_files; rewrite Ha; by left).
  pose proof (executeAttempt_writes cfg adapters i _ _ c st a ad p eq_refl Hown
    (ex_intro _ id Had) s) as Hw.
  induction Hw as [|x y z Hxy _ IH]; [reflexivity|].
  etrans; [by eapply attempt_write_same|exact IH].
Qed.

Lemma createAttempt_adds c st n p s :
  match createAttempt c st n p s with
  | (Ok a, s') => att_Result a = None ∧
      ∃ id, idents (store s') = idents (store s) ++ [(id, step_ID st, Z.of_nat n)]
  | (_, s') => idents (store s') = idents (store s)
  end.
Proof.
  unfold createAttempt, AttemptsRepo.Create, wrapping, bind, now, exec_in, exec,
    sql_insert, tinsert, idents. cbn.
  destruct (fault c _); cbn; [done|]. destruct (tget _ _); cbn; [done|].
  split; [done|]. rewrite map_app. by eexists.
Qed.

Lemma attempt_loop_adds left n c i chain p acc stepID :
  step_ID acc.1.1.1 = stepID →
  adds stepID n left (attempt_loop cfg adapters left n c i chain p acc).
Proof.
  revert n acc. induction left as [|left IH]; intros n [[[st r] e] aid] Hst; cbn in Hst |- *;
    [apply adds_same; respects_solve|].
  apply adds_after; [respects_solve|]. intros [|]; [apply adds_same; respects_solve|].
  apply adds_after; [respects_solve|]. intros profile.
  destruct (RoutingService.GetAdapter _ _) as [ad|] eqn:Had; [|apply adds_same; respects_solve].
  rewrite <- Hst. apply (adds_one (λ a, att_Result a = None)); [apply createAttempt_adds|].
  intros a Ha. apply adds_after; [respects_solve|]. intros startTime.
  assert (respects same_idents (executeAttempt cfg c i st a ad p))
    by by eapply executeAttempt_keeps_attempts.
  eapply adds_seq; [respects_solve|apply executeAttempt_tried|].
  intros executed Hst1. apply adds_after; [respects_solve|]. intros endTime.
  destruct executed as [[[st1 r1] e1]|err]; [|apply adds_same; respects_solve].
  do 2 (apply adds_after; [respects_solve|]; intros ?).
  assert (step_ID st1 = step_ID st) as Heq by (by apply same_step_ID in Hst1).
  assert (∀ r' e' b, adds (step_ID st) (S n) left
    (attempt_loop cfg adapters left (S n) c i chain p (st1, r', e', b))) as Hloop
    by (intros; rewrite Hst; apply IH; cbn; congruence).
  repeat case_match; first [apply Hloop|apply adds_same; respects_solve].
Qed.

(** C20: when nobody else makes attempts meanwhile, a dispatch adds at most three attempts, all of
    its step, after the attempts that were there, which keep their identifiers, steps and numbers.
    They are numbered from one on in the order they are made, whatever attempts the step already
    has. *)
Theorem dispatch_attempts_bounded c dispatchCtx runID step s :
  ∃ ids, length ids ≤ 3 ∧
    idents (store (dispatchPreparedStep cfg adapters policies c dispatchCtx runID step s).2)
    = idents (store s) ++ imap (λ i id, (id, step_ID step, Z.of_nat (S i))) ids.
Proof.
  assert (adds (step_ID step) 1 3
    (dispatchPreparedStep cfg adapters policies c dispatchCtx runID step)) as Hg; [|apply Hg].
  intros s'. unfold dispatchPreparedStep. unfold deferred.
  match goal with |- context [let '(o, s1) := ?m s' in _] => set (body := m) end.
  enough (adds (step_ID step) 1 3 body) as Hb.
  { specialize (Hb s'). destruct (body s') as [[] s1]; exact Hb. }
  unfold body. clear s'.
  apply adds_after; [respects_solve|]. intros [|]; [apply adds_same; respects_solve|].
  destruct (RoutingService.BuildHeuristicChain _ _) as [[|p chain]|err];
    [apply adds_same; respects_solve| |apply adds_same; respects_solve].
  do 2 (apply adds_after; [respects_solve|]; intros ?).
  destruct a0 as [[]|err]; [|apply adds_same; respects_solve].
  apply adds_before; [by apply attempt_loop_adds|]. intros [[[st r] e] a'].
  respects_solve.
Qed.
End Attempts.

(** ** How a dispatch ends *)

(** Nobody has asked for the abort of the run. *)
Definition no_abort (runID : string) (w : Daemon) : Prop :=
  ∀ e, d_executions w !! runID = Some e → abortRequested e = false.

Definition step_settled (stepID : string) (w : Daemon) : Prop :=
  ∀ row, tget stepID (db_steps (d_db w)) = Some row → settled (srow_state row) = true.

Lemma finalized_settled r e g st : settled (step_State (finalized false r e g st)) = true.
Proof.
  unfold finalized. case_bool_decide; [done|]. destruct (ShouldGate e); [by destruct g|].
  destruct (ShouldFail e); [done|]. destruct r as [r|]; [|done].
  by destruct (rs_State r) eqn:Hr.
Qed.

Lemma attempt_write_no_abort `{Abort} (Hquiet : ∀ n, abort_arrives n = false) adapters runID st a w w' :
  attempt_write adapters runID st a w w' → no_abort runID w → no_abort runID w'.
Proof.
  unfold no_abort. intros [x x' (_ & Hex & _)|x ad|x n Hn|x s _|x res t _|x art _ _|x v _ _]; try done.
  - by rewrite Hex.
  - intros Hno e. cbn. rewrite lookup_alter_eq. intros He.
    destruct (d_executions x !! runID) as [e0|]; [|done]. injection He as <-. cbn. by apply Hno.
  - by rewrite Hquiet in Hn.
Qed.

Lemma dispatch_write_no_abort `{Abort} (Hquiet : ∀ n, abort_arrives n = false) adapters runID st w w' :
  dispatch_write adapters runID st w w' → no_abort runID w → no_abort runID w'.
Proof.
  intros Hw. destruct Hw as [x x' a _ Hw|x s _|x n Hn|x row _ _ _|x g _ _ _ _|x b _ _|x run _ _|x];
    try done.
  - by eapply attempt_write_no_abort.
  - by rewrite Hquiet in Hn.
  - intros _ e. cbn. by rewrite lookup_delete_eq.
Qed.

Lemma wp_not_aborted `{Env} `{Abort} runID Q s :
  (∀ n, abort_arrives n = false) → no_abort runID (store s) → Q (Ok false) (tock s) →
  wp (isAbortRequested runID) Q s.
Proof.
  intros Hquiet Hno HQ. apply wp_isAbortRequested. rewrite Hquiet. cbn.
  destruct (d_executions (store s) !! runID) as [e|] eqn:He; [|exact HQ].
  by rewrite (Hno e He).
Qed.

Section Ending.
Context `{Env} `{Host_} `{Abort} `{Schedule}.
Context (cfg : Config) (adapters : gmap string Adapter) (policies : PolicyRegistry.t).
Context (Hquiet : ∀ n, abort_arrives n = false) (runID stepID : string).

Abbreviation from_quiet := (ensures_from (no_abort runID) (λ _, step_settled stepID)).

Lemma writes_no_abort {A} (m : M Daemon A) :
  respects (rtc (dispatch_write adapters runID stepID)) m →
  respects (keeps (no_abort runID)) m.
Proof using adapters Hquiet.
  apply respects_mono. unfold keeps. intros w w' Hw. induction Hw as [|x y z Hxy _ IH]; [done|].
  intros Hx. by eapply IH, dispatch_write_no_abort.
Qed.

Lemma finalizeStep_settles c st r e a :
  step_ID st = stepID → from_quiet (finalizeStep c runID st r e a).
Proof using adapters Hquiet.
  intros Hs s b s' Hno Hok.
  assert (wp (finalizeStep c runID st r e a)
    (λ o s1, o = Ok b → step_settled stepID (store s1)) s) as Hwp.
  { unfold finalizeStep. wp_step. apply wp_not_aborted; [done..|]. cbn [then_].
    wp_step. apply (wp_mono _ (λ _ _, True)); [done|].
    intros [g| | |] s1 _; cbn [then_]; [|done..]. repeat wp_call. intros _ row.
    cbn -[tget finalized]. rewrite finalized_ID, Hs, tget_update, decide_True by done.
    destruct (tget stepID _); [|done]. cbn -[finalized]. intros [= <-]. cbn -[finalized].
    apply finalized_settled. }
  unfold wp in Hwp. rewrite Hok in Hwp. by apply Hwp.
Qed.

Lemma reconcile_keeps_settled c i : respects (keeps (step_settled stepID)) (reconcileRunState c i).
Proof using Type.
  unfold reconcileRunState, RunsRepo.UpdateState. respects_solve.
  apply respects_exec_in; [apply _|]. by intros w Hw.
Qed.

Lemma finalized_run_settles c st r e a :
  step_ID st = stepID →
  from_quiet (_ <- finalizeStep c runID st r e a ;; reconcileRunState c runID).
Proof using adapters Hquiet.
  intros Hs. apply ensures_from_keep; [by apply finalizeStep_settles|].
  intros st'. apply reconcile_keeps_settled.
Qed.

Lemma interrupted_settles c st (k : M Daemon unit) :
  step_ID st = stepID → from_quiet k →
  from_quiet (stop <- interrupted c runID ;;
    if (stop : bool) then finalizeEarlyAbort runID st else k).
Proof using adapters Hquiet.
  intros Hs Hk. apply ensures_from_bind; [apply writes_no_abort, interrupted_writes|].
  intros [|]; [by apply finalized_run_settles|done].
Qed.
End Ending.

(** C2: a dispatch that reports success, when nobody asks for its abort, leaves its step in a
    state that is terminal, waits for an approval or needs manual attention: no step is left
    running behind a success. *)
Theorem dispatch_success_settles `{Env} `{Host_} `{Abort} `{Schedule} cfg adapters policies
    c dispatchCtx runID step s s' :
  (∀ n, abort_arrives n = false) → no_abort runID (store s) →
  dispatchPreparedStep cfg adapters policies c dispatchCtx runID step s = (Ok tt, s') →
  step_settled (step_ID step) (store s').
Proof.
  intros Hquiet Hno.
  assert (ensures_from (no_abort runID) (λ _, step_settled (step_ID step))
    (dispatchPreparedStep cfg adapters policies c dispatchCtx runID step)) as Hd;
    [|intros Hok; by eapply Hd].
  apply ensures_from_deferred; [|by apply respects_modify; intros w Hw].
  apply (interrupted_settles adapters); [done|done|].
  destruct (RoutingService.BuildHeuristicChain _ _) as [[|p chain]|err].
  1, 3: apply (interrupted_settles adapters); [done|done|]; intros ? ? ? _; by eapply (failStep_ensures (λ _ _, _)).
  do 2 (apply ensures_from_bind;
    [apply (writes_no_abort adapters Hquiet runID (step_ID step)); respects_solve|]; intros ?).
  destruct a0 as [[]|err].
  2: { apply (interrupted_settles adapters); [done|done|]. intros ? ? ? _. done. }
  eapply (ensures_from_seq _ (λ x : loop_result, same_step step x.1.1.1)).
  - apply (writes_no_abort adapters Hquiet runID (step_ID step)), attempt_loop_writes. done.
  - apply (attempt_loop_same _ _ _ _ _ _ _ _ _ step). apply same_step_moved.
  - intros [[[st r] e] a'] Hst%same_step_ID. cbn in Hst.
    apply ensures_from_bind; [apply (writes_no_abort adapters Hquiet runID (step_ID step)); respects_solve|].
    intros c'. by apply finalized_run_settles.
Qed.

(** ** A dispatch returns *)

Section Returning.
Context `{Env} `{Host_} `{Abort} `{Schedule}.
Context (cfg : Config) (adapters : gmap string Adapter) (policies : PolicyRegistry.t).
Context (Hclock : clock_advances) (Hhost : host_returns).
Context (Hcoop : ∀ id ad, adapters !! id = Some ad → cooperates ad).

(** A call that returns, with what it guarantees of its value. *)
Lemma returns_seq {A B} (P : A → Prop) (m : M Daemon A) (f : A → M Daemon B) :
  returns m → ensures (λ a _, P a) m → (∀ a, P a → returns (f a)) → returns (bind m f).
Proof using Type.
  intros Hm Hp Hf s. specialize (Hm s). specialize (Hp s). unfold bind.
  destruct (m s) as [[a|e|p|] s1]; try done. apply Hf. by eapply Hp.
Qed.

Lemma same_step_timeout st st' : same_step st st' → step_TimeoutSeconds st' = step_TimeoutSeconds st.
Proof using Type. by intros (x & m & t & ->). Qed.

Definition schedule_ends (timeoutSeconds : Z) : Prop :=
  ∀ id, poll_ends timeoutSeconds (poll_schedule id).

Lemma attempt_loop_returns left n c i chain p acc :
  chain ≠ [] → schedule_ends (step_TimeoutSeconds acc.1.1.1) →
  returns (attempt_loop cfg adapters left n c i chain p acc).
Proof using Hclock Hhost Hcoop.
  intros Hchain. revert n acc.
  induction left as [|left IH]; intros n [[[st r] e] aid] Hends; cbn in Hends |- *;
    [returns_solve|].
  apply returns_bind; [auto with go|]. intros [|]; [returns_solve|].
  apply returns_bind.
  { apply returns_lift. destruct (selectAdapterProfile_total chain n Hchain) as (q & -> & _).
    exact I. }
  intros profile. destruct (RoutingService.GetAdapter _ _) as [ad|] eqn:Had; [|returns_solve].
  do 2 (apply returns_bind; [returns_solve|]; intros ?).
  eapply returns_seq; [| apply executeAttempt_tried |].
  { apply returns_try, executeAttempt_returns; [done|done|by eapply Hcoop|done]. }
  intros [[[st1 r1] e1]|err] Hst; [|returns_solve].
  assert (∀ k, returns (attempt_loop cfg adapters left k c i chain p (st1, r1, e1, att_ID a))).
  { intros k. apply IH. apply same_step_timeout in Hst. cbn in Hst |- *. by rewrite Hst. }
  returns_solve.
Qed.

Lemma dispatch_returns_aux c dispatchCtx runID step :
  schedule_ends (step_TimeoutSeconds step) →
  returns (dispatchPreparedStep cfg adapters policies c dispatchCtx runID step).
Proof using Hclock Hhost Hcoop.
  intros Hends. unfold dispatchPreparedStep.
  assert (∀ p chain st, step_TimeoutSeconds st = step_TimeoutSeconds step →
    returns (runAttemptLoop cfg adapters policies dispatchCtx runID st (p :: chain))) as Hloop.
  { intros p chain st Hst. apply attempt_loop_returns; [done|]. cbn. by rewrite Hst. }
  returns_solve. by apply Hloop.
Qed.
End Returning.

(** C3: a dispatch returns, with success or an error: it neither panics nor waits for ever. It
    needs five things of the world outside: the clock does not go back and a sleep lasts at
    least as long as it was asked to; the [git] and shell commands return; the calls to the
    adapters return; an adapter that normalizes without an error gives a result; and the events
    of every attempt include the end of its context or, for a step with a timeout, its timer. *)
Theorem dispatch_returns `{Env} `{Host_} `{Abort} `{Schedule} cfg adapters policies
    c dispatchCtx runID step s :
  clock_advances → host_returns → (∀ id ad, adapters !! id = Some ad → cooperates ad) →
  (∀ id, poll_ends (step_TimeoutSeconds step) (poll_schedule id)) →
  returned (dispatchPreparedStep cfg adapters policies c dispatchCtx runID step s).1.
Proof. intros Hclock Hhost Hcoop Hends. by apply dispatch_returns_aux. Qed.

(** ** Runs of a dispatch *)

#[local] Existing Instances quiet_env demo_host no_aborts demo_schedule.

(** The dispatch of the examples, with an adapter that reports a result of state [x]. *)
Definition demo_dispatch (x : StepState) : outcome unit * st Daemon :=
  dispatchPreparedStep demo_cfg (demo_adapters x) ∅ Background Dispatch "r1" fresh_step
    (St fresh_daemon 0).

Lemma quiet_clock : clock_advances (H:=quiet_env).
Proof.
  split; cbn -[Z.mul Z.of_nat Z.div]; intros; try lia.
  pose proof (Z.mul_div_le d 1000000000). pose proof (Z.mod_pos_bound d 1000000000).
  pose proof (Z.div_mod d 1000000000). lia.
Qed.

Lemma demo_cooperates x id ad : demo_adapters x !! id = Some ad → cooperates ad.
Proof.
  unfold demo_adapters. intros [_ <-]%lookup_singleton_Some.
  split; [split; intros; by eexists|]. intros. cbn. discriminate.
Qed.

Example dispatch_returns_witness :
  returned (dispatchPreparedStep demo_cfg (demo_adapters StepStateCompleted) ∅ Background
    Dispatch "r1" fresh_step (St fresh_daemon 0)).1.
Proof.
  apply dispatch_returns; [exact quiet_clock|exact demo_host_returns| |].
  - intros id ad Had. exact (demo_cooperates _ id ad Had).
  - intros id. left. apply elem_of_cons. right. apply elem_of_cons. by left.
Defined.

Example dispatch_success_settles_witness :
  step_settled "s1" (store (demo_dispatch StepStateCompleted).2).
Proof.
  apply (dispatch_success_settles demo_cfg (demo_adapters StepStateCompleted) ∅ Background
    Dispatch "r1" fresh_step (St fresh_daemon 0)).
  - intros n. reflexivity.
  - intros e. vm_compute. intros [= <-]. reflexivity.
  - vm_compute. reflexivity.
Defined.

(** ** The end of the dispatch context *)

(** The daemon after a dispatch of [step] in [run] that ended before it began: the step is
    completed, the state of the run derived from the steps is stored, and the execution
    registered for the run is gone. *)
Definition ended_early (run : Run) (step : Step) (t t' : Z) (w : Daemon) : Daemon :=
  let step := step <| step_State := StepStateCompleted |> <| step_UpdatedAt := t |> in
  let d := store_steps (tupdate (step_ID step) (StepsRepo.set_state step) (db_steps (d_db w)))
             (d_db w) in
  let run := run <| run_State := deriveRunState (steps_of d (run_ID run)) |>
                 <| run_UpdatedAt := t' |> in
  MkDaemon (store_runs (tupdate (run_ID run) (RunsRepo.set_state run) (db_runs d)) d)
    (d_files w) (delete (run_ID run) (d_executions w)) (d_goroutines w).

(** C31: a dispatch whose context is done before it starts reports success and marks its step as
    completed, when nobody asks for the abort of the run, the run exists and the calls made
    without a context succeed. All it does to the daemon is to store that state of the step and
    the state of the run derived from it, and to remove the execution registered for the run: it
    makes no attempt, creates no gate and touches no file, so no adapter ran, no worktree was
    made and no policy was asked. *)
Theorem cancelled_dispatch_completes `{Env} `{Host_} `{Abort} `{Schedule} cfg adapters policies
    c dispatchCtx runID run step s :
  reliable Background → (∀ n, cancelled dispatchCtx n = true) →
  (∀ n, abort_arrives n = false) → no_abort runID (store s) →
  tget runID (db_runs (db_of s)) = Some run →
  wp (dispatchPreparedStep cfg adapters policies c dispatchCtx runID step) (λ o s',
    o = Ok tt ∧ ∃ t t', store s' = ended_early run step t t' (store s)) s.
Proof.
  intros Hbg Hdead Hquiet Hno Hrun. unfold dispatchPreparedStep, interrupted.
  do 4 wp_step. rewrite Hdead. wp_step. unfold finalizeEarlyAbort, finalizeStep.
  do 2 wp_step. apply wp_not_aborted; [done..|]. cbn [then_].
  change (gates_step false None no_evaluation) with false. cbv iota.
  unfold reconcileRunState. repeat wp_call. rewrite Hrun. repeat wp_call.
  pose proof (tget_key _ _ _ Hrun) as Hid. change (run_ID run = runID) in Hid.
  cbn [run_ID update_field]. rewrite Hid, Hrun. unfold clearExecution. wp_step.
  split; [done|]. unfold ended_early. rewrite <- Hid. by do 2 eexists.
Qed.

(** The quiet environment with the context of the dispatch done. *)
Definition dead_env : Env := {|
  clock := clock (Env:=quiet_env);
  random := random (Env:=quiet_env);
  fault := λ _ _, None;
  cancelled := λ c _, match c with Dispatch => true | _ => false end;
  wake := wake (Env:=quiet_env);
|}.

Example cancelled_dispatch_completes_witness :
  ∃ t t', store (dispatchPreparedStep (H:=dead_env) demo_cfg
      (demo_adapters StepStateCompleted) ∅ Background Dispatch "r1" fresh_step
      (St fresh_daemon 0)).2 = ended_early fresh_run fresh_step t t' fresh_daemon.
Proof.
  refine (proj2 (cancelled_dispatch_completes (H:=dead_env) demo_cfg
    (demo_adapters StepStateCompleted) ∅ Background Dispatch "r1" fresh_run fresh_step
    (St fresh_daemon 0) _ _ _ _ _)).
  - intros n. reflexivity.
  - intros n. reflexivity.
  - intros n. reflexivity.
  - intros e. vm_compute. intros [= <-]. reflexivity.
  - vm_compute. reflexivity.
Defined.

(** ** The changed files of an attempt *)

(** The changed files of a row after some writes: none, those of a row with that identifier
    before them, or those an adapter listed itself in a result. *)
Definition files_recorded (adapters : gmap string Adapter) (w w' : Daemon) : Prop :=
  ∀ id row', tget id (db_attempts (d_db w')) = Some row' →
    arow_files_changed row' = JEmpty ∨
    (∃ files, reported adapters id files ∧ arow_files_changed row' = json_Marshal files) ∨
    (∃ row, tget id (db_attempts (d_db w)) = Some row ∧
       arow_files_changed row' = arow_files_changed row).

#[export] Instance files_recorded_preorder adapters : PreOrder (files_recorded adapters).
Proof.
  split; [intros w id row Hrow; right; right; by exists row|].
  intros x y z Hxy Hyz id row' Hrow'.
  destruct (Hyz id row' Hrow') as [?|[?|(row & Hrow & ->)]]; [by left|by right; left|].
  by apply Hxy.
Qed.

Lemma files_recorded_same adapters w w' :
  db_attempts (d_db w') = db_attempts (d_db w) → files_recorded adapters w w'.
Proof. intros Heq id row Hrow. rewrite Heq in Hrow. right; right. by exists row. Qed.

Lemma attempt_write_files `{Abort} adapters runID stepID a w w' :
  attempt_write adapters runID stepID a w w' → files_recorded adapters w w'.
Proof.
  intros [x x' (Hdb & _)| | | |x res t Hres| | ]; try by apply files_recorded_same.
  - apply files_recorded_same. by rewrite Hdb.
  - intros id row'. cbn. rewrite tget_update by done.
    case_decide as Hid; [subst id|intros Hrow; right; right; by exists row'].
    destruct (tget a _) as [row|]; [|done]. intros [= <-]. right; left. by eexists.
Qed.

Lemma dispatch_write_files `{Abort} adapters runID stepID w w' :
  dispatch_write adapters runID stepID w w' → files_recorded adapters w w'.
Proof.
  intros [x x' a _ Hw| | |x row _ Hrow _| | | | ]; try by apply files_recorded_same.
  - by eapply attempt_write_files.
  - intros id row'. cbn. rewrite tget_app.
    destruct (tget id _) as [r|] eqn:Hr; [intros [= <-]; right; right; by exists r|].
    cbn. case_decide; [|done]. intros [= <-]. by left.
Qed.

(** C30: the files [git] reports as changed in the worktree of an attempt never reach the database:
    after a dispatch, when nobody else writes attempts meanwhile, the changed files an attempt's
    row holds are none, those the row held before, or those an adapter itself listed in a result
    it normalized for that attempt. *)
Theorem changed_files_not_recorded `{Env} `{Host_} `{Abort} `{Schedule} cfg adapters policies
    c dispatchCtx runID step s :
  files_recorded adapters (store s)
    (store (dispatchPreparedStep cfg adapters policies c dispatchCtx runID step s).2).
Proof.
  pose proof (dispatch_writes cfg adapters policies runID _ c dispatchCtx step eq_refl s) as Hw.
  induction Hw as [|x y z Hxy Hyz IH]; [reflexivity|].
  etrans; [by eapply dispatch_write_files|done].
Qed.
