(* ===== verification/Lifecycle.v ===== *)
(** * The lifecycle of a run: starting it, submitting a step, aborting it

    The operations of [RunService] the operator calls, around the dispatch of [Dispatch]. *)
From S2P Require Export Dispatch.
Open Scope go_scope.
Import RunService.

(** ** Starting a run *)


(** ** Aborting a run *)

Section Abort_.
Context `{Env} `{Host_} `{Abort}.

(** C11: an abort reports success only when an execution of the run was registered and its step
    has ended as cancelled, whatever the environment and the goroutine of the execution do. *)
Theorem AbortRun_success_cancelled c id stopped s s' :
  AbortRun c id stopped s = (Ok tt, s') →
  ∃ execution row, d_executions (store s) !! id = Some execution ∧
    tget (exec_stepID execution) (db_steps (db_of s')) = Some row ∧
    srow_state row = StepStateCancelled.
Proof.
  intros Hok.
  assert (wp (AbortRun c id stopped) (λ o s1, o = Ok tt →
    ∃ execution row, d_executions (store s) !! id = Some execution ∧
      tget (exec_stepID execution) (db_steps (db_of s1)) = Some row ∧
      srow_state row = StepStateCancelled) s) as Hwp;
    [|unfold wp in Hwp; rewrite Hok in Hwp; by apply Hwp].
  unfold AbortRun. do 2 wp_call. destruct (tget id _) as [run|]; [|by intros ?].
  destruct (RunState_IsTerminal _); [by intros ?|]. unfold getExecution. do 2 wp_step.
  destruct (d_executions (store (tock s)) !! id) as [execution|] eqn:Hex; cbn [then_].
  - unfold requestAbort. do 2 wp_step. destruct stopped as [f|]; [|by intros ?].
    do 2 wp_step. unfold abortOutcome, live_ctx. repeat wp_step.
    apply wp_StepsRepo_Get; [call_fails|]. cbn [then_].
    destruct (tget (exec_stepID execution) _) as [row|] eqn:Hrow; cbn [fmap option_fmap option_map];
      [|by intros ?].
    case_decide as Hst; [|by intros ?]. intros _. exists execution, row.
    split_and!; [exact Hex|exact Hrow|exact Hst].
  - wp_step. apply (wp_mono _ (λ _ _, True)); [done|]. intros [steps| | |] s1 _; cbn [then_];
      [|done..]. wp_step. apply (wp_mono _ (λ _ _, True)); [done|].
    intros [[a b]| | |] s2 _; cbn [then_]; [|done..]. wp_step.
    apply (wp_mono _ (λ _ _, True)); [done|]. intros [[]| | |] s3 _; cbn [then_]; [|done..].
    by destruct b, a.
Qed.

(** Without a registered execution there is no success. *)
Lemma AbortRun_unregistered c id stopped s :
  d_executions (store s) !! id = None → (AbortRun c id stopped s).1 ≠ Ok tt.
Proof.
  intros Hex. enough (wp (AbortRun c id stopped) (λ o _, o ≠ Ok tt) s) as Hwp by exact Hwp.
  unfold AbortRun. do 2 wp_call. destruct (tget id _) as [run|]; [|done].
  destruct (RunState_IsTerminal _); [done|]. unfold getExecution. do 2 wp_step.
  cbn [store tock]. rewrite Hex. cbn [then_].
  wp_step. apply (wp_mono _ (λ _ _, True)); [done|]. intros [steps| | |] s1 _; cbn [then_];
    [|done..]. wp_step. apply (wp_mono _ (λ _ _, True)); [done|].
  intros [[a b]| | |] s2 _; cbn [then_]; [|done..]. wp_step.
  apply (wp_mono _ (λ _ _, True)); [done|]. intros [[]| | |] s3 _; cbn [then_]; [|done..].
  by destruct b, a.
Qed.

(** What an abort writes to the row of a step nobody executes: nothing when the step is
    terminal or waits for an approval. *)
Definition kept_by_abort (state : StepState) : bool :=
  bool_decide (state = StepStateNeedsApproval) || StepState_IsTerminal state.

Definition abandoned (t : Z) (row : StepRow) : StepRow :=
  row <| srow_state := StepStateNeedsManualAttention |>
      <| srow_status_reason :=
           "Abort requested, but no active execution was registered for this run." |>
      <| srow_updated_at := t |>.

Definition abandon (d : DB) (runID : string) (ts : string → Z) (row : StepRow) : StepRow :=
  if StepsRepo.of_run d runID row && negb (kept_by_abort (srow_state row))
  then abandoned (ts (srow_id row)) row else row.

(** The row of a step when those of the steps [l] are still to be looked at. *)
Definition looked_at (d : DB) (runID : string) (l : list Step) (ts : string → Z)
    (row : StepRow) : StepRow :=
  if decide (srow_id row ∈ map step_ID l) then row else abandon d runID ts row.

Definition at_time (id : string) (t : Z) (ts : string → Z) (id' : string) : Z :=
  if decide (id' = id) then t else ts id'.

Lemma looked_at_next d runID x l ts t row :
  keys_unique (db_steps d) → NoDup (map step_ID (x :: l)) → x ∈ steps_of d runID →
  row ∈ db_steps d →
  looked_at d runID l (at_time (step_ID x) t ts) row =
  let row' := looked_at d runID (x :: l) ts row in
  if decide (srow_id row = step_ID x ∧ kept_by_abort (step_State x) = false)
  then abandoned t row' else row'.
Proof using Type.
  intros Hu [Hx _]%NoDup_cons (rx & Hrx & Hof & ->)%steps_of_elem Hrow.
  change (step_State (StepsRepo.scan rx)) with (srow_state rx).
  unfold looked_at, at_time, abandon. cbn [map step_ID] in *.
  destruct (decide (srow_id row = _)) as [Heq|Hne].
  - change (srow_id row = srow_id rx) in Heq. pose proof (unique_row d row rx Hu Hrow Hrx Heq) as ->.
    rewrite (decide_False (P := srow_id rx ∈ map step_ID l)) by exact Hx.
    rewrite (decide_True (P := srow_id rx ∈ _ :: _)) by constructor. rewrite Hof.
    cbn. destruct (kept_by_abort _); cbn.
    + rewrite decide_False; [done|]. by intros [_ ?].
    + by rewrite (decide_True (P := _ ∧ _)).
  - rewrite (decide_False (P := _ ∧ _)) by naive_solver.
    destruct (decide (srow_id row ∈ map step_ID l)).
    + rewrite decide_True; [done|by constructor].
    + rewrite decide_False; [done|by intros [|]%elem_of_cons].
Qed.

Definition with_steps (t : list StepRow) (d : Daemon) : Daemon :=
  d <| d_db := store_steps t (d_db d) |>.

(** The invariant of the loop: only the steps table has changed. *)
Definition abandoning (runID : string) (d : Daemon) (l : list Step) (s : st Daemon) : Prop :=
  NoDup (map step_ID l) ∧ (∀ x, x ∈ l → x ∈ steps_of (d_db d) runID) ∧
  ∃ ts, store s = with_steps (map (looked_at (d_db d) runID l ts) (db_steps (d_db d))) d.

Lemma wp_abort_step c runID d flags x l s :
  reliable c → keys_unique (db_steps (d_db d)) → abandoning runID d (x :: l) s →
  wp (abort_step c flags x) (λ o s', (∃ n, o = Ok n) ∧ abandoning runID d l s') s.
Proof using Type.
  intros Hc Hu (Hnd & Hin & ts & Hs). pose proof (Hin x ltac:(constructor)) as Hx.
  pose proof Hnd as [_ Hnd']%NoDup_cons.
  assert (∀ y, y ∈ l → y ∈ steps_of (d_db d) runID) as Hin' by (intros; apply Hin; by constructor).
  assert (∀ f : bool * bool, kept_by_abort (step_State x) = true →
    (∃ n, @Ok (bool * bool) f = Ok n) ∧ abandoning runID d l s) as Hkeep.
  { intros f Hk. split; [by eexists|]. split; [done|]. split; [done|].
    exists (at_time (step_ID x) 0 ts). rewrite Hs. f_equal. apply map_ext_in.
    intros row Hrow%list_elem_of_In. rewrite (looked_at_next _ _ x) by done. cbn zeta.
    rewrite decide_False; [done|]. rewrite Hk. naive_solver. }
  unfold abort_step. destruct flags as [n p].
  case_decide as Ha; [apply Hkeep; unfold kept_by_abort; by rewrite Ha|].
  destruct (StepState_IsTerminal _) eqn:Ht.
  { apply Hkeep. unfold kept_by_abort. by rewrite Ht, orb_true_r. }
  repeat wp_call. split; [by eexists|]. split; [done|]. split; [done|].
  exists (at_time (step_ID x) (clock (tick s)) ts). cbn [store after tock].
  unfold db_of. rewrite Hs. etrans; [|eapply (f_equal (λ t, with_steps t d))]; [reflexivity|]. cbn -[looked_at].
  unfold tupdate. rewrite map_map. apply map_ext_in.
  intros row Hrow%list_elem_of_In. rewrite (looked_at_next _ _ x) by done. cbn zeta.
  assert (kept_by_abort (step_State x) = false) as Hk
    by (unfold kept_by_abort; rewrite Ht; by case_bool_decide).
  assert (∀ r, row_key (looked_at (d_db d) runID (x :: l) ts r) = srow_id r) as Hkey
    by (intros r; unfold looked_at, abandon; by repeat case_match).
  rewrite Hkey. case_decide as Hid; [|by rewrite decide_False by naive_solver].
  by rewrite decide_True.
Qed.

Lemma looked_at_all d runID ts row :
  row ∈ db_steps d → looked_at d runID (steps_of d runID) ts row = row.
Proof using Type.
  intros Hrow. unfold looked_at. case_decide as Hin; [done|]. unfold abandon.
  destruct (StepsRepo.of_run d runID row) eqn:Hof; [|done]. destruct Hin.
  apply list_elem_of_fmap. exists (StepsRepo.scan row). split; [done|].
  apply steps_of_elem. by exists row.
Qed.

(** The daemon after the state of the run was reconciled. *)
Definition reconciled (run : Run) (t : Z) (w : Daemon) : Daemon :=
  let run := run <| run_State := deriveRunState (steps_of (d_db w) (run_ID run)) |>
                 <| run_UpdatedAt := t |> in
  w <| d_db := store_runs (tupdate (run_ID run) (RunsRepo.set_state run) (db_runs (d_db w)))
                 (d_db w) |>.

Lemma wp_reconcile c run w s :
  reliable c → store s = w → tget (run_ID run) (db_runs (d_db w)) = Some run →
  wp (reconcileRunState c (run_ID run)) (λ o s', o = Ok tt ∧ ∃ t, store s' = reconciled run t w) s.
Proof using Type.
  intros Hc <- Hrun. unfold reconcileRunState. repeat wp_call. unfold db_of. cbn [view Daemon_DB].
  rewrite Hrun. repeat wp_call. unfold db_of. cbn [view Daemon_DB run_ID update_field].
  rewrite Hrun. split; [done|]. by eexists.
Qed.

Lemma reconciled_spec run t w : tget (run_ID run) (db_runs (d_db w)) = Some run →
  db_steps (d_db (reconciled run t w)) = db_steps (d_db w) ∧
  d_executions (reconciled run t w) = d_executions w ∧
  d_goroutines (reconciled run t w) = d_goroutines w ∧
  run_consistent (d_db (reconciled run t w)) (run_ID run).
Proof using Type. intros Hrun. split_and!; [done..|]. by eapply run_consistent_update. Qed.

(** The daemon after the abort of a run nobody executes. *)
Definition abort_unregistered (run : Run) (ts : string → Z) (t : Z) (w : Daemon) : Daemon :=
  reconciled run t
    (with_steps (map (abandon (d_db w) (run_ID run) ts) (db_steps (d_db w))) w).

(** C12: aborting a run that is not terminal and has no registered execution never reports
    success, and when the database does not fail and its primary keys are unique it does exactly
    this: every step of the run that is neither terminal nor waiting for an approval is moved to
    needs_manual_attention, with the reason that no active execution was registered, the state of
    the run is set to the one derived from its steps after that, and nothing else changes. *)
Theorem AbortRun_without_execution c id stopped run s :
  reliable c → DB_wf (db_of s) → tget id (db_runs (db_of s)) = Some run →
  RunState_IsTerminal (run_State run) = false → d_executions (store s) !! id = None →
  wp (AbortRun c id stopped) (λ o s',
    (∃ e, o = Err e) ∧ ∃ ts t, store s' = abort_unregistered run ts t (store s)) s.
Proof using Type.
  intros Hc Hwf Hrun Hterm Hex. pose proof (wf_steps _ Hwf) as Hu. unfold AbortRun.
  pose proof (tget_key _ _ _ Hrun) as Hid. change (run_ID run = id) in Hid.
  repeat wp_call. rewrite Hrun, Hterm.
  unfold getExecution. do 2 wp_step. cbn [store tock]. rewrite Hex. repeat wp_call.
  eapply (wp_loop _ (λ _ l s', abandoning id (store s) l s')).
  - intros f x l s1 Hinv. eapply wp_mono; [by apply (wp_abort_step c id (store s))|].
    by intros o s2 [[n ->] Hs].
  - intros [a b] s1 (_ & _ & ts & Hs1). cbn [then_]. wp_step. rewrite <- Hid in Hrun |- *.
    eapply wp_mono; [by apply (wp_reconcile _ _ _ _ Hc Hs1)|].
    intros o s2 (-> & t & Hs2). cbn [then_].
    assert (∃ ts t, store s2 = abort_unregistered run ts t (store s)) as Hend.
    { exists ts, t. rewrite Hs2, <- Hid. unfold abort_unregistered. by do 2 f_equal. }
    destruct b, a; (split; [by eexists|exact Hend]).
  - split; [by apply steps_of_nodup|]. split; [done|]. exists (λ _, 0%Z). cbn.
    transitivity (with_steps (db_steps (d_db (store s))) (store s)).
    { unfold with_steps. cbn. by destruct (store s) as [[] ? ? ?]. }
    f_equal. symmetry. etrans; [apply map_ext_in|apply map_id].
    intros row Hrow%list_elem_of_In. by apply looked_at_all.
Qed.
End Abort_.

(** ** Submitting a step *)

(** Runs and attempts are as before, phases are only added, and no other step has changed. *)
Record submits (stepID : string) (w w' : Daemon) : Prop := {
  sub_runs : db_runs (d_db w') = db_runs (d_db w);
  sub_attempts : db_attempts (d_db w') = db_attempts (d_db w);
  sub_gates : db_gates (d_db w') = db_gates (d_db w);
  sub_phases id phase : tget id (db_phases (d_db w)) = Some phase →
    tget id (db_phases (d_db w')) = Some phase;
  sub_steps id : id ≠ stepID → tget id (db_steps (d_db w')) = tget id (db_steps (d_db w));
}.
#[export] Instance submits_preorder stepID : PreOrder (submits stepID).
Proof.
  split; [by split|]. intros x y z Hxy Hyz. split; intros.
  1-3, 5: etrans; [by apply Hyz|by apply Hxy].
  apply Hyz. by apply Hxy.
Qed.

Section Submit.
Context `{Env}.

Lemma PhasesRepo_Create_submits c phase stepID :
  respects (submits stepID) (PhasesRepo.Create c phase).
Proof.
  unfold PhasesRepo.Create. respects_solve. apply respects_exec_in; [apply _|]. intros w.
  unfold sql_insert. destruct (tinsert _ _) as [t|] eqn:Ht; [|by destruct w].
  apply tinsert_spec in Ht as [Hn ->]. split; cbn; auto. intros. by rewrite tget_app, H0.
Qed.
Lemma StepsRepo_Create_submits c step stepID :
  step_ID step = stepID → respects (submits stepID) (StepsRepo.Create c step).
Proof.
  intros <-. unfold StepsRepo.Create. respects_solve. apply respects_exec_in; [apply _|]. intros w.
  unfold sql_insert. destruct (tinsert _ _) as [t|] eqn:Ht; [|by destruct w].
  apply tinsert_spec in Ht as [Hn ->]. split; cbn; auto. intros id Hid.
  rewrite tget_app. cbn. rewrite decide_False by done. by destruct (tget id _).
Qed.
Lemma StepsRepo_UpdateState_submits c step stepID :
  step_ID step = stepID → respects (submits stepID) (StepsRepo.UpdateState c step).
Proof.
  intros <-. unfold StepsRepo.UpdateState. respects_solve. apply respects_exec_in; [apply _|].
  intros w. split; cbn; auto. intros id Hid. rewrite tget_update by done. by rewrite decide_False.
Qed.
#[local] Hint Resolve PhasesRepo_Create_submits StepsRepo_Create_submits
  StepsRepo_UpdateState_submits : go.
#[local] Hint Extern 0 (step_ID _ = _) => reflexivity : go.

Lemma initializeStep_submits c runID step allowExisting :
  respects (submits (step_ID step)) (initializeStep c runID step allowExisting).
Proof.
  unfold initializeStep, ensurePhaseExists, ensureExistingStepBelongsToRun.
  case_decide; respects_solve.
Qed.

(** The phase a submission runs in. *)
Definition phase_of (runID phaseID : string) (d : DB) : Prop :=
  ∃ phase, tget phaseID (db_phases d) = Some phase ∧ phase_RunID phase = runID.

Lemma wp_ensurePhaseExists c runID phaseID s :
  wp (ensurePhaseExists c runID phaseID) (λ o s', o = Ok tt →
    phase_of runID phaseID (db_of s') ∧ db_steps (db_of s') = db_steps (db_of s)) s.
Proof.
  unfold ensurePhaseExists. repeat wp_call.
  destruct (tget phaseID _) as [phase|] eqn:Hphase.
  { case_decide; wp_step; [|by intros ?]. intros _. split; [by exists phase|done]. }
  assert (∀ e (s1 : st Daemon), db_of s1 = db_of s →
    wp (if isUniqueConstraint e then
          existing <- PhasesRepo.Get (W:=Daemon) c phaseID ;;
          match existing with
          | None => fail e
          | Some phase => if decide (phase_RunID phase = runID) then ret tt else
              fail (errorw ErrInvalidTaskSpec ("invalid task spec: phase " +:+ phaseID
                +:+ " belongs to run " +:+ phase_RunID phase +:+ ", not " +:+ runID))
          end
        else fail e)
      (λ o s', o = Ok tt → phase_of runID phaseID (db_of s') ∧
        db_steps (db_of s') = db_steps (db_of s)) s1) as Hagain.
  { intros e s1 Hs1. destruct (isUniqueConstraint e); [|by intros ?]. repeat wp_call.
    rewrite Hs1, Hphase. by intros ?. }
  repeat wp_call; [by apply Hagain|]. rewrite key_phase. cbn [phase_ID]. rewrite Hphase.
  wp_step. intros _. db_norm. split; [|done]. eexists. unfold phase_of. db_simpl.
  rewrite tget_app, Hphase. cbn [tget]. by rewrite decide_True.
Qed.

Lemma of_run_phase d runID phaseID row :
  phase_of runID phaseID d → srow_phase_id row = phaseID → StepsRepo.of_run d runID row = true.
Proof.
  intros (phase & Hphase & Hrun) <-. unfold StepsRepo.of_run. rewrite Hphase.
  by case_bool_decide.
Qed.

(** The step is there, dispatching, and in the run. *)
Definition submitted (runID stepID : string) (d : DB) : Prop :=
  ∃ row, tget stepID (db_steps d) = Some row ∧ srow_state row = StepStateDispatching ∧
    StepsRepo.of_run d runID row = true.

Lemma wp_initializeStep c runID step allowExisting s :
  wp (initializeStep c runID step allowExisting) (λ o s', ∀ st, o = Ok st →
    step_ID st = step_ID step ∧ step_State st = StepStateDispatching ∧
    submitted runID (step_ID step) (db_of s')) s.
Proof.
  unfold initializeStep.
  set (st := if decide (step_PhaseID step = "") then _ else step).
  assert (step_ID st = step_ID step) as Hid by (unfold st; by case_decide).
  rewrite <- Hid. clearbody st. clear Hid step. rename st into step.
  destruct (validateTaskSpecSnapshot runID step); [by intros ?|]. repeat wp_call.
  destruct (tget runID _) as [run|]; [|by intros ?]. repeat wp_call.
  eapply wp_mono; [apply wp_ensurePhaseExists|]. intros o s1 Hphase.
  destruct o as [[]|e|p|]; cbn [then_]; [|by intros ?..].
  destruct (Hphase eq_refl) as [Hph Hsteps]. repeat wp_call.
  destruct (tget (step_ID step) _) as [row|] eqn:Hrow; cbn [fmap option_fmap option_map].
  - unfold ensureExistingStepBelongsToRun. repeat wp_call.
    destruct (tget (step_PhaseID (StepsRepo.scan row)) _) as [phase|] eqn:Hphase'; [|by intros ?].
    case_decide as Hr; [|by intros ?]. wp_step. destruct allowExisting; [|by intros ?].
    repeat wp_call. intros st [= <-]. split_and!; [done..|].
    eexists. db_norm. rewrite tget_update, decide_True by done. rewrite Hrow.
    split; [done|]. split; [done|]. eapply of_run_phase; [|done]. exists phase. db_norm.
    split; [exact Hphase'|done].
  - repeat wp_call; [destruct (isUniqueConstraint _); by intros ?|]. rewrite key_step.
    cbn [step_ID update_field]. rewrite Hrow. wp_step. intros st [= <-]. split_and!; [done..|].
    eexists. db_norm. rewrite tget_app, Hrow. cbn [tget]. rewrite decide_True by done.
    split; [done|]. split; [done|]. eapply of_run_phase; [exact Hph|done].
Qed.

(** C9: a submission that reports success has its step in the database, dispatching and in the
    run it was submitted to, whatever the database does and whether the step was new or is
    dispatched again; and however it ends, no other step, no run, no attempt, no gate and no
    existing phase has changed, so a step cannot be taken from another run. *)
Theorem initializeStep_spec c runID step allowExisting s :
  let '(o, s') := initializeStep c runID step allowExisting s in
  submits (step_ID step) (store s) (store s') ∧
  ∀ st, o = Ok st → step_ID st = step_ID step ∧ step_State st = StepStateDispatching ∧
    submitted runID (step_ID step) (db_of s').
Proof.
  pose proof (initializeStep_submits c runID step allowExisting s) as Hsub.
  pose proof (wp_initializeStep c runID step allowExisting s) as Hwp. unfold wp in Hwp.
  by destruct (initializeStep c runID step allowExisting s).
Qed.
Lemma wp_initializeStep_again c row phase run s :
  reliable c → tget (srow_id row) (db_steps (db_of s)) = Some row → srow_phase_id row ≠ "" →
  tget (srow_phase_id row) (db_phases (db_of s)) = Some phase →
  tget (phase_RunID phase) (db_runs (db_of s)) = Some run →
  validateTaskSpecSnapshot (phase_RunID phase) (StepsRepo.scan row) = None →
  wp (initializeStep c (phase_RunID phase) (StepsRepo.scan row) true) (λ o s', ∃ t,
    let step := (StepsRepo.scan row) <| step_State := StepStateDispatching |>
                                     <| step_UpdatedAt := t |> in
    o = Ok step ∧ store s' = with_steps
      (tupdate (srow_id row) (StepsRepo.set_state step) (db_steps (db_of s))) (store s)) s.
Proof.
  intros Hc Hrow Hne Hphase Hrun Hvalid. unfold initializeStep.
  rewrite decide_False by exact Hne. rewrite Hvalid. repeat wp_call. rewrite Hrun.
  unfold ensurePhaseExists, ensureExistingStepBelongsToRun.
  change (step_PhaseID (StepsRepo.scan row)) with (srow_phase_id row).
  change (step_ID (StepsRepo.scan row)) with (srow_id row).
  repeat wp_call. db_norm. rewrite Hphase, decide_True by done. repeat wp_call. db_norm.
  rewrite Hrow. cbn [fmap option_fmap option_map].
  change (step_PhaseID (StepsRepo.scan row)) with (srow_phase_id row).
  repeat wp_call. db_norm. rewrite Hphase, decide_True by done. repeat wp_call.
  eexists. split; reflexivity.
Qed.

(** C16: a retry starts its step again whatever state the step is in. When the database does not
    fail, the request is not cancelled, the phase of the step and its run are there and the task
    of the step is for that run, that phase and that step, the step is marked as dispatching, an
    execution of it that nobody has asked to abort is registered for the run in place of the one
    that was, one more goroutine is started for it, the run is put in the state derived from its
    steps, and the retry reports success; no other step has changed. *)
Theorem RetryStep_spec c stepID row phase run s :
  reliable c → reliable Background → (∀ n, cancelled c n = false) →
  tget stepID (db_steps (db_of s)) = Some row → srow_phase_id row ≠ "" →
  tget (srow_phase_id row) (db_phases (db_of s)) = Some phase →
  tget (phase_RunID phase) (db_runs (db_of s)) = Some run →
  validateTaskSpecSnapshot (phase_RunID phase) (StepsRepo.scan row) = None →
  wp (RetryStep c stepID) (λ o s', o = Ok tt ∧ ∃ t,
    let runID := phase_RunID phase in
    let step := (StepsRepo.scan row) <| step_State := StepStateDispatching |>
                                     <| step_UpdatedAt := t |> in
    db_steps (db_of s') = tupdate stepID (StepsRepo.set_state step) (db_steps (db_of s)) ∧
    d_executions (store s') =
      <[runID := MkExecution stepID "" None false]> (d_executions (store s)) ∧
    d_goroutines (store s') = d_goroutines (store s) ++ [(runID, step)] ∧
    run_consistent (db_of s') runID) s.
Proof.
  intros Hc Hbg Hlive Hrow Hne Hphase Hrun Hvalid. unfold RetryStep. repeat wp_call.
  rewrite Hrow. cbn [fmap option_fmap option_map].
  change (step_PhaseID (StepsRepo.scan row)) with (srow_phase_id row). repeat wp_call.
  db_norm. rewrite Hphase. wp_step. unfold dispatchStepAsync. do 2 wp_step. cbn [then_].
  rewrite Hlive. wp_step. pose proof (tget_key _ _ _ Hrow) as Hkey. change (srow_id row = stepID) in Hkey.
  subst stepID. eapply wp_mono; [by eapply wp_initializeStep_again|].
  intros o s1 (t & -> & Hs1). cbn [then_]. unfold registerExecution, spawn. repeat wp_step.
  unfold live_ctx. repeat wp_step. rewrite Hlive. cbn [then_].
  pose proof (tget_key _ _ _ Hrun) as Hid. change (run_ID run = phase_RunID phase) in Hid.
  rewrite <- Hid in Hrun |- *.
  match goal with |- wp _ _ ?s2 =>
    assert (tget (run_ID run) (db_runs (d_db (store s2))) = Some run) as Hrun'
      by (cbn [store]; rewrite Hs1; exact Hrun) end.
  eapply wp_mono; [exact (wp_reconcile c run _ _ Hc eq_refl Hrun')|].
  intros o s2 (-> & t' & Hs2). split; [done|]. exists t. unfold db_of. cbn [view Daemon_DB].
  rewrite Hs2. destruct (reconciled_spec run t' _ Hrun') as (-> & -> & -> & Hcons).
  cbn [store tock] in Hcons |- *. rewrite Hs1 in Hcons |- *.
  split_and!; [reflexivity..|exact Hcons].
Qed.
End Submit.

(** ** Two executions of one run *)

Lemma dispatch_writes_unregistered `{Abort} adapters runID stepID w w' :
  rtc (dispatch_write adapters runID stepID) w w' →
  d_executions w !! runID = None → d_executions w' !! runID = None.
Proof.
  induction 1 as [|x y z Hxy _ IH]; [done|]. intros Hx. apply IH.
  destruct Hxy as [x y a _ Hw| | | | | | |]; try done; cbn; rewrite ?lookup_delete_eq; try done.
  - destruct Hw as [x y (_ & Hex & _)| | | | | | ]; try done; cbn;
      rewrite ?Hex, ?lookup_alter_eq, ?Hx; done.
  - by rewrite lookup_alter_eq, Hx.
Qed.

Lemma dispatch_writes_goroutines `{Abort} adapters runID stepID w w' :
  rtc (dispatch_write adapters runID stepID) w w' → d_goroutines w' = d_goroutines w.
Proof.
  induction 1 as [|x y z Hxy _ IH]; [done|]. rewrite IH.
  by eapply cf_goroutines, dispatch_write_confined.
Qed.


(** ** The operations on concrete data *)

#[local] Existing Instances quiet_env demo_host no_aborts demo_schedule.


Example RetryStep_spec_witness :
  (RetryStep Request "s1" (St fresh_daemon 0)).1 = Ok tt ∧
  length (d_goroutines (store (RetryStep Request "s1" (St fresh_daemon 0)).2)) = 1.
Proof.
  destruct (RetryStep_spec Request "s1" (StepsRepo.row_of fresh_step)
    (MkPhase "phase-execution-r1" "r1" "Execution" 1 1 1 []) fresh_run (St fresh_daemon 0)
    (quiet_reliable _) (quiet_reliable _)) as (Ho & t & _ & _ & Hg & _);
    [intros; reflexivity|reflexivity|discriminate|reflexivity..|].
  split; [exact Ho|]. etrans; [exact (f_equal length Hg)|reflexivity].
Defined.

(** The goroutine of the execution marks its step as cancelled and stops. *)
Definition stop_cancelled (w : Daemon) : Daemon :=
  w <| d_db := store_steps (tupdate "s1"
    (StepsRepo.set_state (fresh_step <| step_State := StepStateCancelled |>))
    (db_steps (d_db w))) (d_db w) |>.

Example AbortRun_success_cancelled_witness :
  ∃ execution row, d_executions fresh_daemon !! "r1" = Some execution ∧
    tget (exec_stepID execution)
      (db_steps (db_of (AbortRun Request "r1" (Some stop_cancelled) (St fresh_daemon 0)).2))
    = Some row ∧ srow_state row = StepStateCancelled.
Proof.
  apply (AbortRun_success_cancelled Request "r1" (Some stop_cancelled) (St fresh_daemon 0)).
  vm_compute. reflexivity.
Defined.

Example AbortRun_without_execution_witness :
  ∃ ts t, store (AbortRun Request "r1" None (St (fresh_daemon <| d_executions := ∅ |>) 0)).2
    = abort_unregistered fresh_run ts t (fresh_daemon <| d_executions := ∅ |>).
Proof.
  refine (proj2 (AbortRun_without_execution Request "r1" None fresh_run
    (St (fresh_daemon <| d_executions := ∅ |>) 0) (quiet_reliable _) _ _ _ _));
    try reflexivity.
  split; apply (bool_decide_eq_true_1 _); vm_compute; reflexivity.
Defined.


(** The dispatch of a second step has been started when that of the first begins. *)
Definition second_step : Step := fresh_step <| step_ID := "s2" |>.
Definition two_executions : Daemon := fresh_daemon <| d_goroutines := [("r1", second_step)] |>.

