(* ===== verification/Results.v ===== *)
(** * Artifacts, logs and results: what the daemon gives back about a step *)
From S2P Require Export WorkspaceFacts RunService Demo.
Open Scope go_scope.
Import RunService.

(** ** Artifact files stay below the artifact root *)

(** Something is at a place. *)
Definition present (fs : Files) (p : string) : Prop := is_Some (fs !! p) ∨ is_dir fs p = true.

(** What the code works on for a path: the place it leads to, or the path itself when nothing
    is there. *)
Definition resolved (fs : Files) (path r : string) : Prop :=
  (place fs path = Some r ∧ present fs r) ∨
  (r = Clean path ∧ ∀ p, place fs path = Some p → ¬ present fs p).

(** The path of a stored artifact, relative to the artifact root. *)
Definition candidate (root storedPath : string) : string :=
  if IsAbs storedPath then storedPath else path_Join [root; storedPath].

(** Being at a directory or below it, in whole elements. *)
Definition path_within (root p : string) : Prop := path_elements root `prefix_of` path_elements p.

Lemma IsAbs_Abs `{Host_} p : IsAbs getwd = true → IsAbs (Abs p) = true.
Proof.
  intros Hwd. unfold Abs. destruct (IsAbs p) eqn:Hp; [by rewrite IsAbs_Clean|].
  assert (getwd ≠ "") as Hne by by intros Heq; rewrite Heq in Hwd.
  destruct (decide (p = "")) as [->|Hnp].
  - rewrite path_Join_empty by done. by rewrite IsAbs_Clean.
  - rewrite path_Join_two by done. by rewrite IsAbs_Clean, IsAbs_app.
Qed.

Lemma resolved_IsAbs fs path r : resolved fs path r → IsAbs path = true → IsAbs r = true.
Proof. intros [[Hp _]|[-> _]] Habs; [by eapply place_IsAbs|by rewrite IsAbs_Clean]. Qed.

(** Below what the code takes for the root there is something only when the root's path leads
    there. *)
Lemma resolved_above fs path r p q :
  resolved fs path r → IsAbs path = true → place fs q = Some p → IsAbs p = true →
  is_Some (fs !! p) → path_within r p → place fs path = Some r.
Proof.
  intros [[? _]|[-> Hno]] Habs Hp Habs' Hf Hin; [done|]. unfold path_within in Hin.
  rewrite elements_Clean in Hin.
  destruct (place_above fs q p path Hp Habs' Habs Hf Hin) as [Hplace _]. exact Hplace.
Qed.

Section Artifacts.
Context `{Env} `{Host_} (Hwd : IsAbs getwd = true) (Hhost : reliable Host).

Lemma wp_reliable_query {A} (f : Files → outcome A) Q s :
  Q (f (d_files (store s))) (tock s) → wp (query_in (W:=Daemon) Host f) Q s.
Proof using Hhost.
  intros HQ. apply wp_query_in; [|done]. intros text Ht. by rewrite Hhost in Ht.
Qed.

Lemma wp_resolve_links path s :
  wp (resolve_links path) (λ o s', store s' = store s ∧
    ∃ r, o = Ok r ∧ resolved (d_files (store s)) path r) s.
Proof using Hhost.
  unfold resolve_links, EvalSymlinks. do 2 wp_step. apply wp_reliable_query.
  destruct (place _ path) as [p|] eqn:Hp.
  - assert (Clean p = p) as Hc by by eapply place_clean.
    destruct (d_files (store s) !! p) eqn:Hf; [|destruct (is_dir _ p) eqn:Hd]; cbn [then_]; wp_step;
      (split; [done|]); eexists; (split; [reflexivity|]); rewrite ?Hc; [left|left|right].
    + split; [done|]. left. by eexists.
    + split; [done|]. by right.
    + split; [done|]. intros q Hq. rewrite Hp in Hq. injection Hq as <-.
      intros [Hs|Hs]; [by rewrite Hf in Hs; destruct Hs|congruence].
  - cbn [then_]. wp_step. split; [done|]. eexists. split; [reflexivity|]. right.
    split; [done|]. by rewrite Hp.
Qed.

Lemma wp_resolveArtifactPath cfg storedPath s :
  let fs := d_files (store s) in
  wp (resolveArtifactPath cfg storedPath) (λ o s', store s' = store s ∧
    ∃ root target, resolved fs (Abs (cfg_artifactRoot cfg)) root ∧
      resolved fs (Abs (candidate root storedPath)) target ∧
      match o with
      | Ok path => path = target ∧ path_within root target
      | Err e => errors_Is e ErrArtifactAccessDenied = true ∧ ¬ path_within root target
      | _ => False
      end) s.
Proof using Hwd Hhost.
  cbn zeta. unfold resolveArtifactPath. wp_step. eapply wp_mono; [apply wp_resolve_links|].
  intros o s1 (Hs1 & root & -> & Hroot). cbn [then_]. wp_step.
  eapply wp_mono; [apply wp_resolve_links|].
  intros o s2 (Hs2 & target & -> & Htarget). cbn [then_]. rewrite Hs1 in Hs2, Htarget.
  assert (IsAbs root = true) by (eapply resolved_IsAbs; [done|by apply IsAbs_Abs]).
  assert (IsAbs target = true) by (eapply resolved_IsAbs; [done|by apply IsAbs_Abs]).
  destruct (Rel_spec root target) as (rel & -> & Hrel); [done..|]. unfold escapes in Hrel.
  destruct (decide (rel = "..")) as [Hdd|Hdd];
    [|rewrite bool_decide_eq_false_2 in Hrel by done; cbn [orb] in Hrel;
    destruct (HasPrefix rel "../")]; wp_step; (split; [done|]); exists root, target;
    (split; [done|]); (split; [done|]); (split; [done|]); unfold path_within; rewrite <- Hrel.
  - by rewrite bool_decide_eq_true_2.
  - done.
  - done.
Qed.

Lemma wp_os_ReadFile path s :
  let fs := d_files (store s) in
  wp (os_ReadFile path) (λ o s', store s' = store s ∧
    match o with
    | Ok f => ∃ p, place fs path = Some p ∧ fs !! p = Some f
    | Err _ => ∀ p, place fs path = Some p → fs !! p = None
    | _ => False
    end) s.
Proof using Hhost.
  cbn zeta. unfold os_ReadFile, os_Open. wp_step. apply wp_reliable_query.
  destruct (place _ path) as [p|] eqn:Hp; [|by split].
  destruct (d_files (store s) !! p) as [f|] eqn:Hf; [|destruct (is_dir _ p)]; cbn [then_];
    rewrite ?Hf; try apply wp_reliable_query; cbn [store tock]; rewrite ?Hf; split; try done.
  - by exists p.
  - intros q [= <-]. done.
  - intros q [= <-]. done.
Qed.

(** The places the artifact root and the stored path of an artifact lead to. *)
Definition leads_to (cfg : Config) (fs : Files) (art : Artifact) (root p : string) : Prop :=
  place fs (Abs (cfg_artifactRoot cfg)) = Some root ∧
  place fs (Abs (candidate root (art_Path art))) = Some p.

(** What is answered for an artifact of the database. *)
Definition contained_answer (cfg : Config) (fs : Files) (stored : option Artifact)
    (o : outcome (Artifact * file)) : Prop :=
  match o with
  | Ok (art, f) => stored = Some art ∧
      ∃ root p, leads_to cfg fs art root p ∧ path_within root p ∧ fs !! p = Some f
  | Err e => ∀ art root p, stored = Some art → leads_to cfg fs art root p →
      (path_within root p → fs !! p = None) ∧
      (¬ path_within root p → present fs root → present fs p →
         errors_Is e ErrArtifactAccessDenied = true)
  | _ => False
  end.

Lemma resolved_place fs path r q : resolved fs path r → place fs path = Some q → present fs q → r = q.
Proof using Type. intros [[Hr _]|[_ Hno]] Hq Hpq; [congruence|]. by destruct (Hno q Hq). Qed.

(** A root some file is below is there. *)
Lemma root_present cfg fs art root p :
  leads_to cfg fs art root p → path_within root p → is_Some (fs !! p) → present fs root.
Proof using Hwd.
  intros [Hr Hp] Hin Hf. pose proof (place_IsAbs _ _ _ Hr (IsAbs_Abs _ Hwd)) as Habs.
  pose proof (place_IsAbs _ _ _ Hp (IsAbs_Abs _ Hwd)) as Habs'.
  destruct (place_above _ _ _ root Hp Habs' Habs Hf Hin) as [_ Hpr].
  by rewrite (place_clean _ _ _ Hr) in Hpr.
Qed.

Lemma denied_answer cfg fs art root target e :
  resolved fs (Abs (cfg_artifactRoot cfg)) root →
  resolved fs (Abs (candidate root (art_Path art))) target →
  errors_Is e ErrArtifactAccessDenied = true → ¬ path_within root target →
  contained_answer cfg fs (Some art) (Err e).
Proof using Hwd.
  intros Hroot Htarget He Hout art' root' p [= <-] Hl. split; [|done]. intros Hin.
  destruct (fs !! p) as [f|] eqn:Hf; [|done]. destruct Hout. pose proof Hl as [Hr Hp].
  assert (present fs root') as Hpr by (eapply root_present; [done..|by eexists]).
  assert (root = root') as <- by by eapply resolved_place.
  assert (target = p) as -> by (eapply resolved_place; [done..|left; by eexists]). done.
Qed.

Lemma unread_answer cfg fs art root target e :
  resolved fs (Abs (cfg_artifactRoot cfg)) root →
  resolved fs (Abs (candidate root (art_Path art))) target →
  (∀ p, place fs target = Some p → fs !! p = None) → path_within root target →
  contained_answer cfg fs (Some art) (Err e).
Proof using Hwd.
  intros Hroot Htarget He Hin art' root' p [= <-] Hl. pose proof Hl as [Hr Hp]. split.
  - intros Hin'. destruct (fs !! p) as [f|] eqn:Hf; [|done].
    assert (present fs root') as Hpr by (eapply root_present; [done..|by eexists]).
    assert (root = root') as <- by by eapply resolved_place.
    assert (target = p) as -> by (eapply resolved_place; [done..|left; by eexists]).
    rewrite <- Hf. apply He. eapply place_idemp; [exact Hp|].
    eapply place_IsAbs; [exact Hp|by apply IsAbs_Abs].
  - intros Hout Hpr Hpp. destruct Hout. assert (root = root') as <- by by eapply resolved_place.
    by assert (target = p) as -> by by eapply resolved_place.
Qed.

Lemma read_answer cfg fs art root target p f :
  resolved fs (Abs (cfg_artifactRoot cfg)) root →
  resolved fs (Abs (candidate root (art_Path art))) target →
  place fs target = Some p → fs !! p = Some f → path_within root target →
  contained_answer cfg fs (Some art) (Ok (art, f)).
Proof using Hwd.
  intros Hroot Htarget Hp Hf Hin. split; [done|]. exists root, p.
  assert (place fs (Abs (candidate root (art_Path art))) = Some p ∧ target = p) as [Hplace ->].
  { destruct Htarget as [[Ht _]|[-> Hno]].
    - rewrite (place_idemp _ _ _ Ht) in Hp; [|by eapply place_IsAbs; [|apply IsAbs_Abs]].
      by injection Hp as <-.
    - rewrite place_Clean in Hp. destruct (Hno p Hp). left. by eexists. }
  split; [|done]. split; [|done]. eapply resolved_above; [done|by apply IsAbs_Abs|done| |by eexists|done].
  eapply place_IsAbs; [done|by apply IsAbs_Abs].
Qed.

(** C13: the content of an artifact is read only from below the artifact root: when the calls to
    the host and to the database succeed, the working directory has an absolute path and nobody
    changes the files meanwhile, the content of an artifact of the database is served exactly
    when its stored path leads, after every symbolic link on its way is followed, to a file below
    the place the artifact root itself leads to, and it is the content of that file. When the root is there and the path
    leads to anything that is outside of it, the answer is an access error. Nothing is changed. *)
Theorem GetArtifactContent_contained cfg c artifactID s :
  reliable c →
  let '(o, s') := GetArtifactContent cfg c artifactID s in
  store s' = store s ∧
  contained_answer cfg (d_files (store s)) (tget artifactID (db_artifacts (db_of s))) o.
Proof using Hwd Hhost.
  intros Hc.
  enough (wp (GetArtifactContent cfg c artifactID) (λ o s', store s' = store s ∧
    contained_answer cfg (d_files (store s)) (tget artifactID (db_artifacts (db_of s))) o) s) as Hwp
    by (unfold wp in Hwp; by destruct (GetArtifactContent cfg c artifactID s)).
  unfold GetArtifactContent, ArtifactsRepo.Get. repeat wp_step; [by rewrite Hc in H1|].
  change (view (store s)) with (db_of s).
  destruct (tget artifactID _) as [art|]; [|by wp_step]. wp_step.
  eapply wp_mono; [apply wp_resolveArtifactPath|]. cbn [store].
  intros o s1 (Hs1 & root & target & Hroot & Htarget & Ho).
  destruct o as [path|e|p|]; cbn [then_]; [|split; [done|]|done..].
  - destruct Ho as [-> Hin]. do 2 wp_step. eapply wp_mono; [apply wp_os_ReadFile|].
    intros o s2 [Hs2 Ho]. rewrite Hs1 in Hs2, Ho.
    destruct o as [f|e|p|]; cbn [then_]; [wp_step|..]; split; try done.
    + destruct Ho as (p & Hp & Hf). by eapply read_answer.
    + by eapply unread_answer.
  - destruct Ho as [He Hout]. by eapply denied_answer.
Qed.
End Artifacts.

(** ** Examples *)

#[local] Existing Instances quiet_env demo_host.

(** An artifact root that is a link, an artifact below it, and one whose path is a link that
    leads out of it. *)
Definition stored_artifact (id path : string) : Artifact :=
  MkArtifact id "s1-a1" ArtifactTypeStdout "out" path 2 "" "" 1 1.
Definition linked_daemon : Daemon :=
  MkDaemon (store_artifacts
      [stored_artifact "a1" "s1/out.txt"; stored_artifact "a2" "s1/secret"] fresh_db)
    (list_to_map [("/var/artifacts", SymLink "/data"); ("/data/s1/out.txt", RawBytes "ok");
                  ("/data/s1/secret", SymLink "/etc/passwd"); ("/etc/passwd", RawBytes "root")])
    ∅ [].

Example GetArtifactContent_contained_witness :
  ∃ root p, leads_to demo_cfg (d_files linked_daemon) (stored_artifact "a1" "s1/out.txt") root p ∧
    path_within root p ∧ d_files linked_daemon !! p = Some (RawBytes "ok").
Proof.
  pose proof (GetArtifactContent_contained (H:=quiet_env) (H0:=demo_host) eq_refl
    (quiet_reliable Host) demo_cfg Request "a1" (St linked_daemon 0) (quiet_reliable Request)) as Hr.
  destruct (GetArtifactContent demo_cfg Request "a1" (St linked_daemon 0)) as [o s'] eqn:Ho.
  apply (f_equal fst) in Ho. vm_compute in Ho. subst o. destruct Hr as [_ [_ Hr]]. exact Hr.
Defined.

Example linked_out_denied :
  match (GetArtifactContent demo_cfg Request "a2" (St linked_daemon 0)).1 with
  | Err e => errors_Is e ErrArtifactAccessDenied
  | _ => false
  end = true.
Proof. vm_compute. reflexivity. Qed.

Example Provision_confined_witness :
  below "/ws" (store (St fresh_daemon 0)) (store (LocalProvisioner.Provision
    (Some (MkProvisioningSpec ["../secret"; "a/b"] ["node_modules"] "")) "/repo" "/ws"
    (St fresh_daemon 0)).2).
Proof.
  apply Provision_confined; [reflexivity..| |].
  - intros p t. vm_compute. discriminate.
  - intros sp [= <-]. split; [|reflexivity]. repeat constructor.
Defined.

(** A link below an earlier one is made in the repository: the file of the repository it names is
    removed, and a link to itself takes its place. *)
Example nested_link_replaces_file :
  let s := (LocalProvisioner.Provision (Some (MkProvisioningSpec [] ["env"; "env/local"] ""))
    "/repo" "/ws" (St (fresh_daemon <| d_files := {["/repo/env/local" := RawBytes "KEY=1"]} |>) 0)).2 in
  d_files (store s) !! "/ws/env" = Some (SymLink "/repo/env") ∧
  d_files (store s) !! "/repo/env/local" = Some (SymLink "/repo/env/local").
Proof. vm_compute. by split. Qed.
