(* ===== verification/Integrity.v ===== *)
(** * Referential integrity

    The daemon opens its database without enforcing foreign keys, so that every phase is in a
    run, every step in a phase, every attempt, gate and validation of something that exists, is
    a property of the services. It is kept by every operation, whatever the environment does;
    [intact] is the invariant, with the identifiers an operation knows to exist. *)
From stdpp Require Import relations.
From S2P Require Export Effects Lifecycle.
Open Scope go_scope.
Import RunService.

(** ** References between tables *)

Section Refers.
Context {R R' K : Type} `{EqDecision K} `{Keyed R' K}.

(** Every row of [t] names, in the column [col], a row of [t']. *)
Definition refers (col : R → K) (t : list R) (t' : list R') : Prop := ∀ r, r ∈ t → is_Some (tget (col r) t').

(** The keys of one table are keys of the other. *)
Definition kept (t1 t2 : list R') : Prop := ∀ k, is_Some (tget k t1) → is_Some (tget k t2).

Lemma refers_nil col (t' : list R') : refers col [] t'.
Proof. by intros r Hr%elem_of_nil. Qed.
Lemma refers_kept col (t : list R) t1 t2 : refers col t t1 → kept t1 t2 → refers col t t2.
Proof. intros Hr Hk r Hin. by apply Hk, Hr. Qed.
Lemma refers_app col (t : list R) r (t' : list R') :
  refers col t t' → is_Some (tget (col r) t') → refers col (t ++ [r]) t'.
Proof. intros Ht Hr x [Hx|Hx]%elem_of_app; [auto|]. by apply list_elem_of_singleton in Hx as ->. Qed.
Lemma refers_cons col (t : list R) r (t' : list R') : is_Some (tget (col r) t') → refers col t t' → refers col (r :: t) t'.
Proof. intros Hr Ht x [->|Hx]%elem_of_cons; auto. Qed.
Lemma refers_incl col (t1 t2 : list R) (t' : list R') : t1 ⊆ t2 → refers col t2 t' → refers col t1 t'.
Proof. intros Hsub Hr x Hx. apply Hr. by apply Hsub. Qed.
Lemma kept_app (t1 t2 : list R') : kept t1 (t1 ++ t2).
Proof. intros k [r Hr]. exists r. by rewrite tget_app, Hr. Qed.
Lemma kept_update k f (t' : list R') : (∀ r, row_key (f r) = row_key r) → kept t' (tupdate k f t').
Proof. intros Hf k' [r Hr]. rewrite tget_update by done. case_decide; rewrite Hr; by eexists. Qed.
End Refers.

Lemma refers_update {R K R' K'} `{EqDecision K} `{Keyed R K} `{EqDecision K'} `{Keyed R' K'}
    (col : R → K') k f (t : list R) (t' : list R') :
  (∀ r, col (f r) = col r) → refers col t t' → refers col (tupdate k f t) t'.
Proof.
  intros Hf Ht r (r0 & Hr0 & ->)%elem_of_update. case_decide; [rewrite Hf|]; by apply Ht.
Qed.

(** The references of a database. *)
Record references (d : DB) : Prop := {
  ref_phase_run : refers phase_RunID (db_phases d) (db_runs d);
  ref_step_phase : refers srow_phase_id (db_steps d) (db_phases d);
  ref_attempt_step : refers arow_step_id (db_attempts d) (db_steps d);
  ref_gate_run : refers gate_RunID (db_gates d) (db_runs d);
  ref_gate_step : refers gate_StepID (db_gates d) (db_steps d);
  ref_validation_attempt : refers vrow_attempt_id (db_validations d) (db_attempts d);
}.

(** The invariant: the references hold, the goroutines that have not begun were given a run and
    a step that exist, and so do the runs [rs], the phases [ps] and the steps [ss]. *)
Record intact (rs ps ss : list string) (w : Daemon) : Prop := {
  int_refs : references (d_db w);
  int_go_runs : refers fst (d_goroutines w) (db_runs (d_db w));
  int_go_steps : refers (step_ID ∘ snd) (d_goroutines w) (db_steps (d_db w));
  int_runs : refers id rs (db_runs (d_db w));
  int_phases : refers id ps (db_phases (d_db w));
  int_steps : refers id ss (db_steps (d_db w));
}.

(** Each table a write replaces has kept its keys and its references. *)
Ltac refers_solve :=
  match goal with
  | H : refers ?col ?t _ |- refers ?col ?t _ => apply (refers_kept _ _ _ _ H)
  | |- refers _ (tupdate _ _ _) _ => apply refers_update; [done|]
  | |- refers _ (_ ++ [_]) _ => apply refers_app
  | |- kept ?t ?t => by intros ? ?
  | |- kept _ (tupdate _ _ _) => by apply kept_update
  | |- kept _ (_ ++ _) => apply kept_app
  end.
Ltac intact_open :=
  match goal with H : intact _ _ _ _ |- _ => destruct H as [[] ? ? ? ? ?] end.
Ltac intact_solve := intact_open; split; [split|..]; cbn in *; repeat refers_solve; try done; auto.

Section Invariant.
Context (rs ps ss : list string).

Abbreviation K := (keeps (intact rs ps ss)).

(** What is neither in the database nor a goroutine does not matter. *)
Lemma intact_same w w' : d_db w' = d_db w → d_goroutines w' = d_goroutines w → K w w'.
Proof using Type. intros Hd Hg []. by split; rewrite ?Hd, ?Hg. Qed.

Lemma only_files_intact {A} (m : M Daemon A) : respects only_files m → respects K m.
Proof using Type. apply respects_mono. intros w w' (Hd & _ & Hg). by apply intact_same. Qed.

Lemma known_run w i : intact rs ps ss w → i ∈ rs → is_Some (tget i (db_runs (d_db w))).
Proof using Type. intros [] Hi. by apply int_runs0. Qed.
Lemma known_phase w i : intact rs ps ss w → i ∈ ps → is_Some (tget i (db_phases (d_db w))).
Proof using Type. intros [] Hi. by apply int_phases0. Qed.
Lemma known_step w i : intact rs ps ss w → i ∈ ss → is_Some (tget i (db_steps (d_db w))).
Proof using Type. intros [] Hi. by apply int_steps0. Qed.

Context `{Env}.

(** Updates change neither the keys nor the references. *)
Lemma RunsRepo_UpdateState_intact c x : respects K (RunsRepo.UpdateState c x).
Proof using Type.
  unfold RunsRepo.UpdateState. respects_solve. apply respects_exec_in; [apply _|].
  intros w Hw. intact_solve.
Qed.
Lemma StepsRepo_UpdateState_intact c x : respects K (StepsRepo.UpdateState c x).
Proof using Type.
  unfold StepsRepo.UpdateState. respects_solve. apply respects_exec_in; [apply _|].
  intros w Hw. intact_solve.
Qed.
Lemma GatesRepo_Resolve_intact c x g : respects K (GatesRepo.Resolve c x g).
Proof using Type.
  unfold GatesRepo.Resolve. respects_solve. apply respects_exec_in; [apply _|].
  intros w Hw. intact_solve.
Qed.
Lemma SettingsRepo_Set_intact c k v : respects K (SettingsRepo.Set_ c k v).
Proof using Type.
  unfold SettingsRepo.Set_. respects_solve. apply respects_exec_in; [apply _|].
  intros w Hw. intact_solve.
Qed.
Lemma SettingsRepo_Delete_intact c k : respects K (SettingsRepo.Delete c k).
Proof using Type.
  unfold SettingsRepo.Delete. respects_solve. apply respects_exec_in; [apply _|].
  intros w Hw. intact_solve.
Qed.

(** An insertion keeps the invariant when the rows it refers to are known. *)
Lemma respects_insert_intact {R X} `{EqDecision X} `{Keyed R X} c p name table store_table (row : R) :
  (∀ w, intact rs ps ss w → tget (row_key row) (table (d_db w)) = None →
    intact rs ps ss (w <| d_db := store_table (table (d_db w) ++ [row]) (d_db w) |>)) →
  respects K (wrapping p (exec_in c (sql_insert name table store_table row))).
Proof using Type.
  intros Hins. respects_solve. apply respects_exec_in; [apply _|]. intros w Hw.
  unfold sql_insert. destruct (tinsert _ _) as [t|] eqn:Ht; [|by destruct w].
  apply tinsert_spec in Ht as [Hn ->]. by apply Hins.
Qed.

Lemma RunsRepo_Create_intact c x : respects K (RunsRepo.Create c x).
Proof using Type. apply respects_insert_intact. intros w Hw _. intact_solve. Qed.
Lemma PhasesRepo_Create_intact c x : phase_RunID x ∈ rs → respects K (PhasesRepo.Create c x).
Proof using Type.
  intros Hin. apply respects_insert_intact. intros w Hw _. pose proof (known_run _ _ Hw Hin).
  intact_solve.
Qed.
Lemma StepsRepo_Create_intact c x : step_PhaseID x ∈ ps → respects K (StepsRepo.Create c x).
Proof using Type.
  intros Hin. apply respects_insert_intact. intros w Hw _. pose proof (known_phase _ _ Hw Hin).
  intact_solve.
Qed.
Lemma GatesRepo_Create_intact c x :
  gate_RunID x ∈ rs → gate_StepID x ∈ ss → respects K (GatesRepo.Create c x).
Proof using Type.
  intros Hr Hs. apply respects_insert_intact. intros w Hw _.
  pose proof (known_run _ _ Hw Hr). pose proof (known_step _ _ Hw Hs). intact_solve.
Qed.

(** The writes of a dispatch of a known step in a known run. *)
Lemma attempt_write_intact `{Abort} adapters runID stepID a w w' :
  owned stepID a w → attempt_write adapters runID stepID a w w' → K w w'.
Proof using Type.
  intros (row & Hrow & _) Hw. destruct Hw as [w w' (Hd & _ & Hg)|w ad|w n _|w x _|w r t _|w x _ _|w v _ Hv];
    [by apply intact_same| by apply intact_same | by apply intact_same|intros Hi..].
  - intact_solve.
  - intact_solve.
  - intact_solve.
  - intact_solve. rewrite Hv, Hrow. by eexists.
Qed.

Lemma dispatch_write_intact `{Abort} adapters runID stepID w w' :
  runID ∈ rs → stepID ∈ ss → dispatch_write adapters runID stepID w w' → K w w'.
Proof using Type.
  intros Hr Hs Hw.
  destruct Hw as [w w' a Hown Hw|w x _|w n _|w x Hx _ _|w g Hg Hg' _ _|w b _ _|w x _ _|w];
    [by eapply attempt_write_intact| intros Hi | by apply intact_same |intros Hi..|by apply intact_same].
  - intact_solve.
  - pose proof (known_step _ _ Hi Hs). rewrite <- Hx in *. intact_solve.
  - pose proof (known_run _ _ Hi Hr). pose proof (known_step _ _ Hi Hs).
    rewrite <- Hg, <- Hg' in *. intact_solve.
  - intact_solve.
  - intact_solve.
Qed.

Lemma dispatchPreparedStep_intact `{Host_} `{Abort} `{Schedule} cfg adapters policies c dc runID step :
  runID ∈ rs → step_ID step ∈ ss →
  respects K (dispatchPreparedStep cfg adapters policies c dc runID step).
Proof using Type.
  intros Hr Hs s. pose proof (dispatch_writes cfg adapters policies runID (step_ID step) c dc step
    eq_refl s) as Hw. revert Hw. generalize (store (dispatchPreparedStep cfg adapters policies c dc runID step s).2).
  generalize (store s). induction 1 as [|w1 w2 w3 Hw _ IH]; [by intros ?|].
  intros Hi. apply IH. by eapply dispatch_write_intact.
Qed.
End Invariant.

#[export] Hint Resolve only_files_intact RunsRepo_UpdateState_intact StepsRepo_UpdateState_intact
  GatesRepo_Resolve_intact SettingsRepo_Set_intact SettingsRepo_Delete_intact
  RunsRepo_Create_intact : go.

(** ** What an operation learns

    A row that was read exists from then on: the rest of the operation may count on it. *)

Section Learning.
Context (rs ps ss : list string).
Context `{Env}.

Lemma intact_more rs' ps' ss' w w' :
  refers id rs' (db_runs (d_db w)) → refers id ps' (db_phases (d_db w)) →
  refers id ss' (db_steps (d_db w)) →
  keeps (intact (rs' ++ rs) (ps' ++ ps) (ss' ++ ss)) w w' → keeps (intact rs ps ss) w w'.
Proof using Type.
  intros Hr Hp Hs Hk [Hrefs Hgr Hgs Hrs Hps Hss]. destruct Hk as [? ? ? Hr' Hp' Hs'].
  - split; try done; intros x [Hx|Hx]%elem_of_app; auto.
  - split; try done; (eapply refers_incl; [|eassumption]); intros x Hx; apply elem_of_app; auto.
Qed.

Lemma learn_run i w w' :
  is_Some (tget i (db_runs (d_db w))) →
  keeps (intact (i :: rs) ps ss) w w' → keeps (intact rs ps ss) w w'.
Proof using Type.
  intros Hi. apply (intact_more [i] [] []); try apply refers_nil.
  by apply refers_cons, refers_nil.
Qed.
Lemma learn_phase i w w' :
  is_Some (tget i (db_phases (d_db w))) →
  keeps (intact rs (i :: ps) ss) w w' → keeps (intact rs ps ss) w w'.
Proof using Type.
  intros Hi. apply (intact_more [] [i] []); try apply refers_nil.
  by apply refers_cons, refers_nil.
Qed.
Lemma learn_step i w w' :
  is_Some (tget i (db_steps (d_db w))) →
  keeps (intact rs ps (i :: ss)) w w' → keeps (intact rs ps ss) w w'.
Proof using Type.
  intros Hi. apply (intact_more [] [] [i]); try apply refers_nil.
  by apply refers_cons, refers_nil.
Qed.

(** A query, and what follows from its answer. *)
Lemma respects_query_then {A B} (I : Daemon → Prop) p c (q : DB → outcome A) (f : A → M Daemon B) :
  (∀ s a, q (d_db (store s)) = Ok a → keeps I (store s) (store (f a s).2)) →
  respects (keeps I) (a <- wrapping p (query_in c q) ;; f a).
Proof using Type.
  intros Hf s. unfold bind, wrapping, query_in, query, exec. destruct (fault c (tick s)); [done|].
  cbn. destruct (q (d_db (store s))) as [a|e|why|] eqn:Hq; try done.
  apply (Hf (St (store s) (S (tick s))) a Hq).
Qed.
Lemma respects_try_query_then {A B} (I : Daemon → Prop) p c (q : DB → outcome A)
    (f : A + error → M Daemon B) :
  (∀ s a, q (d_db (store s)) = Ok a → keeps I (store s) (store (f (inl a) s).2)) →
  (∀ e, respects (keeps I) (f (inr e))) →
  respects (keeps I) (o <- try (wrapping p (query_in c q)) ;; f o).
Proof using Type.
  intros Hf He s. unfold bind, try, wrapping, query_in, query, exec.
  destruct (fault c (tick s)); [apply (He _ (St (store s) (S (tick s))))|].
  cbn. destruct (q (d_db (store s))) as [a|e|why|] eqn:Hq; try done.
  - apply (Hf (St (store s) (S (tick s))) a Hq).
  - apply (He _ (St (store s) (S (tick s)))).
Qed.

Abbreviation K := (keeps (intact rs ps ss)).

Lemma get_run_then {B} c i (f : option Run → M Daemon B) :
  respects K (f None) →
  (∀ run, run_ID run = i → respects (keeps (intact (i :: rs) ps ss)) (f (Some run))) →
  respects K (run <- RunsRepo.Get c i ;; f run).
Proof using Type.
  intros Hn Hs. apply respects_query_then. intros s o [= <-].
  destruct (tget i (db_runs (d_db (store s)))) as [run|] eqn:Hrun; [|apply Hn].
  apply (learn_run i); [by rewrite Hrun|]. apply Hs. by apply (tget_key _ _ _ Hrun).
Qed.
Lemma get_step_then {B} c i (f : option Step → M Daemon B) :
  respects K (f None) →
  (∀ step, step_ID step = i → respects (keeps (intact rs ps (i :: ss))) (f (Some step))) →
  respects K (step <- StepsRepo.Get c i ;; f step).
Proof using Type.
  intros Hn Hs. apply respects_query_then. intros s o [= <-].
  destruct (tget i (db_steps (d_db (store s)))) as [row|] eqn:Hrow; [|apply Hn].
  apply (learn_step i); [by rewrite Hrow|]. apply Hs. by apply (tget_key _ _ _ Hrow).
Qed.

(** A call that guarantees a phase, and what may then count on it. *)
Lemma then_phase {A B} i (m : M Daemon A) (f : A → M Daemon B) :
  respects K m → ensures (λ _ w, is_Some (tget i (db_phases (d_db w)))) m →
  (∀ a, respects (keeps (intact rs (i :: ps) ss)) (f a)) → respects K (bind m f).
Proof using Type.
  intros Hm Hi Hf. eapply respects_after; [apply _|exact Hm|exact Hi|].
  intros a s Hp. apply (learn_phase i); [exact Hp|apply Hf].
Qed.

Lemma steps_of_known d runID :
  references d → refers id (map step_ID (steps_of d runID)) (db_steps d).
Proof using Type.
  intros _ i (step & -> & (row & Hrow & _ & ->)%steps_of_elem)%list_elem_of_fmap.
  induction (db_steps d) as [|r t IH]; [by apply elem_of_nil in Hrow|].
  cbn. case_decide; [by eexists|]. apply elem_of_cons in Hrow as [->|Hrow]; [done|auto].
Qed.
End Learning.

(** ** The operations *)

Section Operations.
Context `{Env} `{Host_} `{Abort} `{Schedule}.
Context (cfg : Config) (adapters : gmap string Adapter) (policies : PolicyRegistry.t).
Implicit Types rs ps ss : list string.

(** *** Starting a run *)

Lemma RunsRepo_Create_has c run :
  ensures (λ o w, match o with inl _ => is_Some (tget (run_ID run) (db_runs (d_db w)))
                             | inr _ => True end) (try (RunsRepo.Create (W:=Daemon) c run)).
Proof using Type.
  apply ensures_wp. intros s. wp_step. apply wp_insert; [by right; intros ? ? [= <-]|].
  rewrite key_run. cbn [run_ID update_field].
  destruct (tget (run_ID run) (db_runs (db_of s))) eqn:Hrun; intros a [= <-]; [done|].
  cbn. rewrite tget_app. unfold db_of in Hrun. cbn in Hrun. rewrite Hrun. cbn.
  rewrite decide_True by done. by eexists.
Qed.

Lemma StartRun_intact rs ps ss c i p v l e :
  respects (keeps (intact rs ps ss)) (StartRun c i p v l e).
Proof using Type.
  unfold StartRun. respects_step; [respects_solve|].
  eapply respects_after; [apply _|respects_solve|apply RunsRepo_Create_has|].
  intros [[]|err] s Hs; [|by case_match].
  apply (learn_run _ _ _ i); [exact Hs|].
  refine (respects_bind _ _ _ _ _ s); [|respects_solve].
  respects_step. apply PhasesRepo_Create_intact. by left.
Qed.

(** *** Submitting a step *)

Lemma ensurePhaseExists_intact rs ps ss c runID phaseID :
  runID ∈ rs → respects (keeps (intact rs ps ss)) (ensurePhaseExists c runID phaseID).
Proof using Type.
  intros Hr. unfold ensurePhaseExists. respects_solve. by apply PhasesRepo_Create_intact.
Qed.

Lemma ensurePhaseExists_has c runID phaseID p :
  ensures (λ _ w, is_Some (tget phaseID (db_phases (d_db w))))
    (wrapping p (ensurePhaseExists c runID phaseID)).
Proof using Type.
  apply ensures_wp. intros s. wp_step. eapply wp_mono; [apply wp_ensurePhaseExists|].
  intros [[]|e|w|] s' Ho; try done. intros [] _.
  destruct (Ho eq_refl) as [(phase & Hphase & _) _]. by eexists.
Qed.

Lemma initializeStep_intact rs ps ss c runID step b :
  respects (keeps (intact rs ps ss)) (initializeStep c runID step b).
Proof using Type.
  unfold initializeStep. set (st := if decide (step_PhaseID step = "") then _ else step).
  clearbody st. destruct (validateTaskSpecSnapshot runID st); [respects_solve|].
  apply get_run_then; [respects_solve|]. intros _ _.
  eapply (then_phase _ _ _ (step_PhaseID st)); [|apply ensurePhaseExists_has|].
  { respects_step. apply ensurePhaseExists_intact. by left. }
  intros _. unfold ensureExistingStepBelongsToRun. respects_solve.
  apply StepsRepo_Create_intact. by left.
Qed.

Lemma submitted_known runID stepID d :
  references d → submitted runID stepID d →
  is_Some (tget runID (db_runs d)) ∧ is_Some (tget stepID (db_steps d)).
Proof using Type.
  intros Hrefs (row & Hrow & _ & Hof). split; [|by rewrite Hrow].
  unfold StepsRepo.of_run in Hof. destruct (tget (srow_phase_id row) (db_phases d)) eqn:Hp; [|done].
  apply bool_decide_eq_true in Hof. rewrite <- Hof. eapply ref_phase_run; [done|].
  by eapply tget_In.
Qed.

(** What follows a submission may count on its run and its step. *)
Lemma then_submitted {B} rs ps ss c runID step b (f : Step → M Daemon B) :
  (∀ st, respects (keeps (intact (runID :: rs) ps (step_ID st :: ss))) (f st)) →
  respects (keeps (intact rs ps ss)) (st <- initializeStep c runID step b ;; f st).
Proof using Type.
  intros Hf. eapply (respects_after _ (λ st w, submitted runID (step_ID st) (d_db w)));
    [apply initializeStep_intact| |].
  - apply ensures_wp. intros s. eapply wp_mono; [apply wp_initializeStep|].
    intros o s' Ho st ->. destruct (Ho st eq_refl) as (-> & _ & Hsub). exact Hsub.
  - intros st s Hsub Hi. destruct (submitted_known _ _ _ (int_refs _ _ _ _ Hi) Hsub) as [Hr Hs].
    revert Hi. apply (learn_run _ _ _ runID); [done|]. apply (learn_step _ _ _ (step_ID st)); [done|].
    apply Hf.
Qed.

Lemma registerExecution_intact rs ps ss i st :
  respects (keeps (intact rs ps ss)) (registerExecution i st).
Proof using Type. apply respects_modify. intros w. by apply intact_same. Qed.
Lemma spawn_intact rs ps ss i st :
  i ∈ rs → step_ID st ∈ ss → respects (keeps (intact rs ps ss)) (spawn i st).
Proof using Type.
  intros Hr Hs. apply respects_modify. intros w Hw.
  pose proof (known_run _ _ _ _ _ Hw Hr). pose proof (known_step _ _ _ _ _ Hw Hs). intact_solve.
Qed.
#[local] Hint Resolve registerExecution_intact : go.

Lemma dispatchStepAsync_intact rs ps ss c i st b :
  respects (keeps (intact rs ps ss)) (dispatchStepAsync c i st b).
Proof using Type.
  unfold dispatchStepAsync. respects_step; [respects_solve|]. case_match; [respects_solve|].
  apply then_submitted. intros st'. respects_step; [respects_solve|].
  respects_step; [|respects_solve]. by apply spawn_intact; left.
Qed.
#[local] Hint Resolve dispatchStepAsync_intact : go.

Lemma DispatchStep_intact rs ps ss c i st :
  respects (keeps (intact rs ps ss)) (DispatchStep cfg adapters policies c i st).
Proof using Type.
  unfold DispatchStep. apply then_submitted. intros st'. respects_step; [respects_solve|].
  by apply dispatchPreparedStep_intact; left.
Qed.

Lemma reconcileRunState_intact rs ps ss c i :
  respects (keeps (intact rs ps ss)) (reconcileRunState c i).
Proof using Type. unfold reconcileRunState. respects_solve. Qed.
#[local] Hint Resolve reconcileRunState_intact : go.

Lemma RetryStep_intact rs ps ss c i : respects (keeps (intact rs ps ss)) (RetryStep c i).
Proof using Type. unfold RetryStep, live_ctx. respects_solve. Qed.

(** The goroutine that begins was given a run and a step that exist. *)
Lemma run_goroutine_intact rs ps ss k :
  respects (keeps (intact rs ps ss)) (run_goroutine cfg adapters policies k).
Proof using Type.
  intros s Hi. unfold run_goroutine, bind, gets. cbn.
  destruct (d_goroutines (store s) !! k) as [[i st]|] eqn:Hk; [|exact Hi].
  pose proof (list_elem_of_lookup_2 _ _ _ Hk) as Hin.
  set (w := (store s) <| d_goroutines := delete k (d_goroutines (store s)) |>).
  assert (intact rs ps ss w) as Hw.
  { destruct Hi as [? Hgr Hgs ? ? ?]. split; try done; cbn;
      (eapply refers_incl; [|eassumption]); intros x Hx.
    all: by eapply list_elem_of_delete_inv. }
  revert Hw. destruct Hi as [_ Hgr Hgs _ _ _].
  apply (learn_run _ _ _ i); [by apply (Hgr _ Hin)|].
  apply (learn_step _ _ _ (step_ID st)); [by apply (Hgs _ Hin)|].
  unfold dispatch_goroutine. refine (respects_ignore _ _ _ (St w (tick s))).
  by apply dispatchPreparedStep_intact; left.
Qed.

(** *** Aborts, gates and reads *)

Lemma AbortRun_intact c i stopped :
  (∀ g, stopped = Some g → ∀ w, keeps (intact [] [] []) w (g w)) →
  respects (keeps (intact [] [] [])) (AbortRun c i stopped).
Proof using Type.
  intros Hg. unfold AbortRun, abort_step, abortOutcome, live_ctx, getExecution, requestAbort.
  respects_solve.
  - apply respects_modify. intros w. by apply intact_same.
  - apply respects_modify. by apply Hg.
Qed.

Lemma resolve_intact rs ps ss c g x :
  respects (keeps (intact rs ps ss)) (GateService.resolve (W:=Daemon) c g x).
Proof using Type. unfold GateService.resolve. respects_solve. Qed.

Lemma GetResultByStep_intact rs ps ss c i :
  respects (keeps (intact rs ps ss)) (GetResultByStep c i).
Proof using Type. unfold GetResultByStep, newResultSpec, ensureResultEnvelope. respects_solve. Qed.
Lemma GetArtifactContent_intact rs ps ss c i :
  respects (keeps (intact rs ps ss)) (GetArtifactContent cfg c i).
Proof using Type. unfold GetArtifactContent, resolveArtifactPath, resolve_links. respects_solve. Qed.
#[local] Hint Resolve GetArtifactContent_intact : go.
Lemma GetLogsByStep_intact rs ps ss c i :
  respects (keeps (intact rs ps ss)) (GetLogsByStep cfg c i).
Proof using Type. unfold GetLogsByStep. respects_solve. Qed.

(** *** Recovery *)

Lemma ensureRecoveryGate_intact rs ps ss c i st :
  i ∈ rs → st ∈ ss → respects (keeps (intact rs ps ss)) (RecoveryService.ensureRecoveryGate c i st).
Proof using Type.
  intros Hr Hs. unfold RecoveryService.ensureRecoveryGate, RecoveryService.findPendingGate.
  respects_solve. by apply GatesRepo_Create_intact.
Qed.

Lemma salvage_intact rs ps ss c i n st r k :
  i ∈ rs → step_ID st ∈ ss → respects (keeps (intact rs ps ss)) k →
  respects (keeps (intact rs ps ss)) (RecoveryService.salvage c i n st r k).
Proof using Type.
  intros Hr Hs Hk. unfold RecoveryService.salvage, RecoveryService.settle. destruct n as [[a b] d].
  destruct r as [r|]; [|done]. case_match; [respects_solve|]. case_match; [|done].
  respects_solve. by apply ensureRecoveryGate_intact.
Qed.

Lemma reconcile_step_intact rs ps ss c i n st :
  i ∈ rs → step_ID st ∈ ss →
  respects (keeps (intact rs ps ss)) (RecoveryService.reconcile_step cfg c i n st).
Proof using Type.
  intros Hr Hs. unfold RecoveryService.reconcile_step, RecoveryService.findPendingGate,
    RecoveryService.readResultEvidence, RecoveryService.settle. destruct n as [[a b] d].
  respects_solve; repeat (apply salvage_intact; [done..|]; respects_solve).
Qed.

(** The steps a run is listed with exist, so that gates may be created for them. *)
Lemma reconcileRunSteps_intact rs ps ss c run :
  run_ID run ∈ rs → respects (keeps (intact rs ps ss)) (RecoveryService.reconcileRunSteps cfg c run).
Proof using Type.
  intros Hr. unfold RecoveryService.reconcileRunSteps.
  assert (∀ l, respects (keeps (intact rs ps (map step_ID l ++ ss)))
    (loop (RecoveryService.reconcile_step cfg c (run_ID run)) (0, 0, 0)%Z l)) as Hloop.
  { intros l. apply respects_loop_in; [apply _|]. intros b x Hx.
    apply reconcile_step_intact; [done|]. apply elem_of_app. left. by apply list_elem_of_fmap_2. }
  apply respects_try_query_then;
    [|intros e; refine (respects_bind _ _ _ (Hloop []) _); intros [[a b] d]; respects_solve].
  intros s steps [= <-] Hi. pose proof (steps_of_known _ (run_ID run) (int_refs _ _ _ _ Hi)) as Hsteps.
  revert Hi. apply (intact_more _ _ _ [] [] (map step_ID (steps_of (d_db (store s)) (run_ID run))));
    [apply refers_nil..|exact Hsteps|].
  refine (respects_bind _ _ _ (Hloop _) _ s). intros [[a b] d]. respects_solve.
Qed.
#[local] Hint Resolve reconcileRunSteps_intact : go.

Lemma sweep_run_intact rs ps ss c run :
  run_ID run ∈ rs → respects (keeps (intact rs ps ss)) (RecoveryService.sweep_run cfg c run).
Proof using Type. intros Hr. unfold RecoveryService.sweep_run. respects_solve. Qed.

Lemma cleanupOrphans_intact rs ps ss c :
  respects (keeps (intact rs ps ss)) (RecoveryService.cleanupOrphans cfg c).
Proof using Type. unfold RecoveryService.cleanupOrphans. respects_solve. Qed.

Lemma runs_known p (t : list Run) : refers run_ID (twhere p t) t.
Proof using Type.
  intros run [_ Hrun]%elem_of_twhere. induction t as [|r t IH]; [by apply elem_of_nil in Hrun|].
  cbn. case_decide; [by eexists|]. apply elem_of_cons in Hrun as [->|Hrun]; [done|auto].
Qed.

Lemma SweepStaleRuns_intact rs ps ss c :
  respects (keeps (intact rs ps ss)) (RecoveryService.SweepStaleRuns cfg c).
Proof using Type.
  unfold RecoveryService.SweepStaleRuns.
  assert (∀ l, respects (keeps (intact (map run_ID l ++ rs) ps ss))
    (loop (λ _ r, RecoveryService.sweep_run cfg c r) tt l ;; RecoveryService.cleanupOrphans cfg c)) as Hloop.
  { intros l. respects_step; [|apply cleanupOrphans_intact].
    apply respects_loop_in; [apply _|]. intros b x Hx. apply sweep_run_intact.
    apply elem_of_app. left. by apply list_elem_of_fmap_2. }
  eapply (respects_after _ (λ runs w, refers run_ID runs (db_runs (d_db w))));
    [respects_solve| |].
  - apply ensures_wp. intros s. unfold RunsRepo.ListByState. wp_ok; [done|]. intros l [= <-].
    intros r Hr%elem_of_sort_by. by apply (runs_known _ _ _ Hr).
  - intros l s Hl. apply (intact_more _ _ _ (map run_ID l) [] []); [|apply refers_nil..|apply Hloop].
    intros i (run & -> & Hrun)%list_elem_of_fmap. by apply Hl.
Qed.

Lemma RecoverRun_intact rs ps ss c i b :
  respects (keeps (intact rs ps ss)) (RecoveryService.RecoverRun cfg c i b).
Proof using Type.
  unfold RecoveryService.RecoverRun. case_decide; [respects_solve|].
  apply get_run_then; [respects_solve|]. intros run Hrun. respects_solve.
  apply reconcileRunSteps_intact. rewrite Hrun. by left.
Qed.

Lemma ResumeRun_intact rs ps ss c i :
  respects (keeps (intact rs ps ss)) (RecoveryService.ResumeRun cfg c i).
Proof using Type. unfold RecoveryService.ResumeRun. respects_solve. Qed.
End Operations.

#[export] Hint Resolve StartRun_intact dispatchStepAsync_intact DispatchStep_intact
  RetryStep_intact GetResultByStep_intact GetArtifactContent_intact GetLogsByStep_intact
  SweepStaleRuns_intact RecoverRun_intact ResumeRun_intact : go.
