(* ===== verification/System.v ===== *)
(** * The daemon as a transition system

    A step of the daemon is one operation of its services, in an arbitrary environment and
    host, with arbitrary other goroutines, or the beginning of a goroutine an earlier operation
    has started, or a restart, which loses what is not in the database or in files. Its
    executions are the sequences of such steps from the empty database. *)
From stdpp Require Import relations.
From S2P Require Export Integrity.
Open Scope go_scope.
Import RunService.

Section System.
Context (cfg : Config) (adapters : gmap string Adapter) (policies : PolicyRegistry.t).

(** The operations the HTTP handlers, the MCP tools and the start of the daemon call, and the
    goroutines; the effect of an execution inside an abort is that of its goroutine. *)
Inductive operation `{Env} `{Host_} `{Abort} `{Schedule} : ∀ {A}, M Daemon A → Prop :=
  | op_StartRun c id p v l e : operation (StartRun c id p v l e)
  | op_DispatchStepAsync c i step : operation (DispatchStepAsync c i step)
  | op_DispatchStep c i step : operation (DispatchStep cfg adapters policies c i step)
  | op_goroutine k : operation (run_goroutine cfg adapters policies k)
  | op_RetryStep c id : operation (RetryStep c id)
  | op_AbortRun_waits c id : operation (AbortRun c id None)
  | op_AbortRun_stops c id k n :
      operation (AbortRun c id (Some (λ w,
        store (run_goroutine cfg adapters policies k (St w n)).2)))
  | op_GetResultByStep c id : operation (GetResultByStep c id)
  | op_GetArtifactContent c id : operation (GetArtifactContent cfg c id)
  | op_GetLogsByStep c id : operation (GetLogsByStep cfg c id)
  | op_Approve c id : operation (GateService.Approve (W:=Daemon) c id)
  | op_Reject c id : operation (GateService.Reject (W:=Daemon) c id)
  | op_SweepStaleRuns c : operation (RecoveryService.SweepStaleRuns cfg c)
  | op_RecoverRun c id dry : operation (RecoveryService.RecoverRun cfg c id dry)
  | op_ResumeRun c id : operation (RecoveryService.ResumeRun cfg c id)
  | op_SetSetting c k v : operation (SettingsRepo.Set_ (W:=Daemon) c k v)
  | op_DeleteSetting c k : operation (SettingsRepo.Delete (W:=Daemon) c k).

Inductive daemon_step : relation Daemon :=
  | daemon_call (E : Env) (HO : Host_) (AB : Abort) (SC : Schedule) A (op : M Daemon A) w n :
      operation op → daemon_step w (store (op (St w n)).2)
  | daemon_restart w : daemon_step w (MkDaemon (d_db w) (d_files w) ∅ []).

Definition initial : Daemon := MkDaemon empty_DB ∅ ∅ [].

Lemma initial_intact : intact [] [] [] initial.
Proof. split; [split|..]; apply refers_nil. Qed.

Lemma run_goroutine_wf `{Env} `{Host_} `{Abort} `{Schedule} k :
  respects keeps_wf (run_goroutine cfg adapters policies k).
Proof.
  unfold run_goroutine. respects_solve. apply respects_modify. by intros w Hw.
Qed.

Lemma operation_wf `{Env} `{Host_} `{Abort} `{Schedule} A (op : M Daemon A) :
  operation op → respects keeps_wf op.
Proof.
  destruct 1; try solve [auto with go | apply resolve_wf | apply run_goroutine_wf
    | by apply AbortRun_wf].
  apply AbortRun_wf. intros g [= <-] d. apply (run_goroutine_wf k (St d n)).
Qed.

Lemma operation_intact `{Env} `{Host_} `{Abort} `{Schedule} A (op : M Daemon A) :
  operation op → respects (keeps (intact [] [] [])) op.
Proof.
  destruct 1; try solve [auto with go | apply resolve_intact | apply run_goroutine_intact
    | apply dispatchStepAsync_intact | by apply AbortRun_intact].
  apply AbortRun_intact. intros g [= <-] d. apply (run_goroutine_intact _ _ _ _ _ _ k (St d n)).
Qed.

Lemma daemon_step_keeps w w' :
  daemon_step w w' → keeps_wf w w' ∧ keeps (intact [] [] []) w w'.
Proof.
  destruct 1 as [E HO AB SC A op w n Hop|w].
  - split; [by apply (operation_wf _ _ Hop (St w n))|by apply (operation_intact _ _ Hop (St w n))].
  - split; [by intros Hw|]. intros []. split; try done; apply refers_nil.
Qed.
End System.

(** C10: whatever operations the daemon has executed, in whatever environment, however they ended
    and however often the daemon was restarted, its database is sound: the primary keys of
    every table are unique, and, although the database does not enforce it, every phase is in a
    run, every step in a phase, every attempt and gate of a step, and every validation of an
    attempt, that exist. *)
Theorem reachable_sound cfg adapters policies w :
  rtc (daemon_step cfg adapters policies) initial w → DB_wf (d_db w) ∧ references (d_db w).
Proof.
  intros Hw.
  enough (DB_wf (d_db w) ∧ intact [] [] [] w) as [? []] by done.
  remember initial as w0 eqn:Hw0.
  assert (DB_wf (d_db w0) ∧ intact [] [] [] w0) as Hi.
  { subst. split; [apply empty_DB_wf|apply initial_intact]. }
  clear Hw0. induction Hw as [w|w1 w2 w3 Hstep _ IH]; [done|]. apply IH.
  destruct (daemon_step_keeps _ _ _ _ _ Hstep) as [Hwf Hint]. destruct Hi. split; auto.
Qed.

Example reachable_sound_witness :
  let w := store (DispatchStepAsync (H:=quiet_env) Request "r1" fresh_step
    (St (store (StartRun (H:=quiet_env) Request "r1" "p" "" "" "" (St initial 0)).2) 5)).2 in
  length (db_steps (d_db w)) = 1 ∧ DB_wf (d_db w) ∧ references (d_db w).
Proof.
  split; [reflexivity|]. apply (reachable_sound demo_cfg ∅ ∅).
  eapply rtc_l.
  { apply (daemon_call demo_cfg ∅ ∅ quiet_env demo_host no_aborts demo_schedule). constructor. }
  apply rtc_once.
  apply (daemon_call demo_cfg ∅ ∅ quiet_env demo_host no_aborts demo_schedule). constructor.
Defined.
